(** * VectorDB: indexes, repositories, services and the reader-writer lock

    A shallow embedding of the Python sources under [app/domain] and the
    properties of the specification proved (or refuted) about them.

    Conventions of the embedding.
    - Python floats are idealised as real numbers ([R]); [math.sqrt] is [sqrt].
    - A method that mutates [self] and may raise is a computation in the
      state-and-exception monad [M S A := S -> result A * S]: the state that
      comes back with [Raise e] is the object as the exception left it.
    - [Dict] used only through lookups is a [gmap]; a [Dict] whose iteration
      order is observable is a [pydict] (insertion-ordered association list);
      [Set] is a [gset].
    - Clock readings ([datetime.utcnow()]), fresh identifiers ([uuid4()]) and the
      pseudo-random stream of [random.Random(seed)] are inputs of the model. *)

From Stdlib Require Import Reals Lra Lia ZArith List Permutation Sorted Ascii String.
From stdpp Require Import gmap strings list fin_maps.

(* ===================================================================== *)
(** * Part I: the embedding                                               *)
(* ===================================================================== *)

(** ** Exceptions and the state-and-exception monad *)

(** The exception classes the modelled code raises.  The specification's
    error kinds map onto them: Duplicate is [ValueError] (raised by [add]),
    NotFound is [KeyError] at the index layer and [NotFoundError] at the
    repository layer, Conflict is [ConflictError], Validation is
    [ValidationError]. *)
Inductive exn : Type :=
| ValueError
| KeyError
| IndexError
| ZeroDivisionError
| TypeError
| RecursionError
| NotImplementedError
| NotFoundError
| ConflictError
| ValidationError
| PydanticValidationError.

Inductive result (A : Type) : Type :=
| Ok (a : A)
| Raise (e : exn).
Arguments Ok {A} a.
Arguments Raise {A} e.

Definition is_ok {A} (r : result A) : bool :=
  match r with Ok _ => true | Raise _ => false end.

Definition rbind {A B} (r : result A) (k : A -> result B) : result B :=
  match r with Ok a => k a | Raise e => Raise e end.

Definition M (S A : Type) : Type := S -> result A * S.

Definition ret {S A} (a : A) : M S A := fun s => (Ok a, s).
Definition raise {S A} (e : exn) : M S A := fun s => (Raise e, s).
Definition bind {S A B} (m : M S A) (k : A -> M S B) : M S B :=
  fun s => match m s with
           | (Ok a, s') => k a s'
           | (Raise e, s') => (Raise e, s')
           end.
Definition get_state {S} : M S S := fun s => (Ok s, s).
Definition gets {S A} (f : S -> A) : M S A := fun s => (Ok (f s), s).
Definition modify {S} (f : S -> S) : M S unit := fun s => (Ok tt, f s).
Definition lift {S A} (r : result A) : M S A := fun s => (r, s).

Notation "'do' x <- m ; k" := (bind m (fun x => k))
  (at level 10, x name, m at level 100, k at level 200).
Notation "'do_' m ; k" := (bind m (fun _ => k))
  (at level 10, m at level 100, k at level 200).

(** Run a computation on a component of a larger state. *)
Definition zoom {S T A} (proj : S -> T) (inj : T -> S -> S) (m : M T A) : M S A :=
  fun s => let '(r, t') := m (proj s) in (r, inj t' s).

(** ** Python lists, sorting and insertion-ordered dictionaries *)

Definition Rltb (x y : R) : bool := if Rlt_dec x y then true else false.
Definition Rleb (x y : R) : bool := if Rle_dec x y then true else false.
Definition Reqb (x y : R) : bool := if Req_dec_T x y then true else false.

(** [l[i]] with Python's negative indices. *)
Definition py_index {A} (l : list A) (i : Z) : option nat :=
  let n := Z.of_nat (length l) in
  if (0 <=? i)%Z && (i <? n)%Z then Some (Z.to_nat i)
  else if (i <? 0)%Z && (0 <=? i + n)%Z then Some (Z.to_nat (i + n))
  else None.

Definition py_getitem {A} (l : list A) (i : Z) : result A :=
  match py_index l i with
  | Some j => match l !! j with Some x => Ok x | None => Raise IndexError end
  | None => Raise IndexError
  end.

Definition py_setitem {A} (l : list A) (i : Z) (x : A) : result (list A) :=
  match py_index l i with
  | Some j => Ok (<[j := x]> l)
  | None => Raise IndexError
  end.

(** [l.pop()]: the list without its last element. *)
Definition py_pop {A} (l : list A) : result (list A) :=
  match l with
  | [] => Raise IndexError
  | _ => Ok (removelast l)
  end.

(** [l[:k]] for a Python integer [k >= 0] or after [max(0, k)]. *)
Definition py_take {A} (k : Z) (l : list A) : list A := take (Z.to_nat (Z.max 0 k)) l.

(** [list.sort(key=..., reverse=...)] is stable; it is modelled by insertion
    sort.  The head of the input is inserted last and passes only over the
    elements that come strictly before it, so equal keys keep their order. *)
Fixpoint insert_by {A} (key : A -> R) (reverse : bool) (x : A) (l : list A) : list A :=
  match l with
  | [] => [x]
  | y :: l' =>
      if (if reverse then Rltb (key x) (key y) else Rltb (key y) (key x))
      then y :: insert_by key reverse x l'
      else x :: y :: l'
  end.

Fixpoint sort_by_key {A} (key : A -> R) (reverse : bool) (l : list A) : list A :=
  match l with
  | [] => []
  | x :: l' => insert_by key reverse x (sort_by_key key reverse l')
  end.

(** [key_le key reverse x y]: [x] may stand before [y] in the sorted list. *)
Definition key_le {A} (key : A -> R) (reverse : bool) (x y : A) : Prop :=
  if reverse then (key y <= key x)%R else (key x <= key y)%R.

(** A sort whose key function may raise: Python computes every key before it
    compares any, so the first failing key aborts the sort. *)
Fixpoint keys_of {A} (key : A -> result R) (l : list A) : result (list (R * A)) :=
  match l with
  | [] => Ok []
  | x :: l' =>
      rbind (key x) (fun k => rbind (keys_of key l') (fun kl => Ok ((k, x) :: kl)))
  end.

Definition sort_by_partial_key {A} (key : A -> result R) (l : list A) : result (list A) :=
  rbind (keys_of key l) (fun kl => Ok (map snd (sort_by_key fst false kl))).

(** Insertion-ordered dictionary ([dict], Python 3.7 and later). *)
Abbreviation pydict V := (list (string * V)) (only parsing).

Definition dict_get {V} (k : string) (d : pydict V) : option V :=
  snd <$> List.find (fun p => bool_decide (p.1 = k)) d.

Fixpoint dict_set {V} (k : string) (v : V) (d : pydict V) : pydict V :=
  match d with
  | [] => [(k, v)]
  | (k', v') :: d' =>
      if bool_decide (k' = k) then (k', v) :: d' else (k', v') :: dict_set k v d'
  end.

Definition dict_del {V} (k : string) (d : pydict V) : pydict V :=
  List.filter (fun p => negb (bool_decide (p.1 = k))) d.

Definition dict_keys {V} (d : pydict V) : list string := map fst d.
Definition dict_values {V} (d : pydict V) : list V := map snd d.

(** [{k: v for (k, v) in l}]: later pairs overwrite earlier ones in place. *)
Definition dict_of_list {V} (l : list (string * V)) : pydict V :=
  fold_left (fun d p => dict_set p.1 p.2 d) l [].

(** ** app/domain/indexes/base.py *)

Abbreviation Vector := (list R) (only parsing).

(** Python's [sum]: a left fold from [0]. *)
Definition sum (l : list R) : R := fold_left Rplus l 0%R.

Definition dot (a b : Vector) : R := sum (zip_with Rmult a b).

Definition l2_norm (a : Vector) : R := sqrt (sum (map (fun x => x * x)%R a)).

Definition normalize (a : Vector) : Vector :=
  let n := l2_norm a in
  if Reqb n 0 then map (fun _ => 0%R) a else map (fun x => x / n)%R a.

Definition cosine_similarity (a b : Vector) : R :=
  let na := l2_norm a in
  let nb := l2_norm b in
  if Reqb na 0 || Reqb nb 0 then 0%R else (dot a b / (na * nb))%R.

(** ** app/domain/indexes/brute_force.py *)

Module BruteForceIndex.

Record t : Type := mk {
  _vectors : list Vector;
  _ids : list string;
  _pos : gmap string nat;
  _pre_normalize : bool
}.

Definition set_vectors (v : list Vector) (self : t) : t :=
  mk v (_ids self) (_pos self) (_pre_normalize self).
Definition set_ids (i : list string) (self : t) : t :=
  mk (_vectors self) i (_pos self) (_pre_normalize self).
Definition set_pos (p : gmap string nat) (self : t) : t :=
  mk (_vectors self) (_ids self) p (_pre_normalize self).

(** [__init__] *)
Definition init (pre_normalize : bool) : t := mk [] [] ∅ pre_normalize.

(** [{id: i for i, id in enumerate(ids)}] *)
Definition enumerate_pos (ids : list string) : gmap string nat :=
  fold_left (fun m p => <[p.2 := p.1]> m) (imap (fun i id => (i, id)) ids) ∅.

Definition build (vectors : list Vector) (ids : list string) : M t unit :=
  do pre <- gets _pre_normalize;
  do_ modify (set_vectors (if pre then map normalize vectors else vectors));
  do_ modify (set_ids ids);
  modify (set_pos (enumerate_pos ids)).

Definition add (vector : Vector) (id : string) : M t unit :=
  do self <- get_state;
  match _pos self !! id with
  | Some _ => raise ValueError
  | None =>
      let v := if _pre_normalize self then normalize vector else vector in
      do_ modify (set_pos (<[id := length (_ids self)]> (_pos self)));
      do_ modify (set_ids (_ids self ++ [id]));
      modify (set_vectors (_vectors self ++ [v]))
  end.

(** [a[i], a[j] = a[j], a[i]] on the list held in a field. *)
Definition swap_items {A} (field : t -> list A) (set : list A -> t -> t) (i j : Z) : M t unit :=
  do l <- gets field;
  do x <- lift (py_getitem l j);
  do y <- lift (py_getitem l i);
  do l1 <- lift (py_setitem l i x);
  do_ modify (set l1);
  do l2 <- lift (py_setitem l1 j y);
  modify (set l2).

Definition pop_item {A} (field : t -> list A) (set : list A -> t -> t) : M t unit :=
  do l <- gets field;
  do l' <- lift (py_pop l);
  modify (set l').

Definition remove (id : string) : M t unit :=
  do self <- get_state;
  match _pos self !! id with
  | None => raise KeyError
  | Some idx =>
      let idx := Z.of_nat idx in
      let last_idx := (Z.of_nat (length (_ids self)) - 1)%Z in
      do_ (if bool_decide (idx ≠ last_idx) then
             do_ swap_items _ids set_ids idx last_idx;
             do_ swap_items _vectors set_vectors idx last_idx;
             do ids <- gets _ids;
             do moved <- lift (py_getitem ids idx);
             do pos <- gets _pos;
             modify (set_pos (<[moved := Z.to_nat idx]> pos))
           else ret tt);
      do_ pop_item _ids set_ids;
      do_ pop_item _vectors set_vectors;
      do pos <- gets _pos;
      modify (set_pos (delete id pos))
  end.

Definition update (id : string) (new_vector : Vector) : M t unit :=
  do self <- get_state;
  match _pos self !! id with
  | None => raise KeyError
  | Some idx =>
      let v := if _pre_normalize self then normalize new_vector else new_vector in
      do vs <- lift (py_setitem (_vectors self) (Z.of_nat idx) v);
      modify (set_vectors vs)
  end.

Definition search (self : t) (query : Vector) (k : Z) : list (string * R) :=
  let q := if _pre_normalize self then normalize query else query in
  let pairs := map (fun p => (p.1, cosine_similarity q p.2)) (zip (_ids self) (_vectors self)) in
  py_take k (sort_by_key snd true pairs).

Definition size (self : t) : nat := length (_ids self).

End BruteForceIndex.

(** ** app/domain/indexes/kd_tree.py *)

Module KDTreeIndex.

(** [Optional[_Node]]: [Null] is Python's [None]. *)
Inductive node : Type :=
| Null
| Node (point : Vector) (id : string) (axis : nat) (left_ right_ : node).

Definition _distance_sq (a b : Vector) : R :=
  sum (zip_with (fun x y => (x - y) * (x - y))%R a b).

Record t : Type := mk {
  _root : node;
  _size : nat;
  _dim : nat;
  _id_to_point : pydict Vector
}.

Definition set_root (r : node) (self : t) : t :=
  mk r (_size self) (_dim self) (_id_to_point self).
Definition set_size (n : nat) (self : t) : t :=
  mk (_root self) n (_dim self) (_id_to_point self).
Definition set_dim (d : nat) (self : t) : t :=
  mk (_root self) (_size self) d (_id_to_point self).
Definition set_id_to_point (m : pydict Vector) (self : t) : t :=
  mk (_root self) (_size self) (_dim self) m.

(** [__init__] *)
Definition init : t := mk Null 0 0 [].

Abbreviation item := (list R * string)%type (only parsing).

(** [x[0][axis]], the sort key of [_build_recursive]. *)
Definition axis_key (axis : nat) (x : item) : result R :=
  match x.1 !! axis with Some c => Ok c | None => Raise IndexError end.

(** [_build_recursive].  The recursion is on slices of the sorted list, so
    the model takes fuel; [RecursionError] stands for running out of it.  The
    function also returns [items] as the in-place [items.sort] leaves it,
    because the caller reads the list again. *)
Fixpoint build_rec (fuel : nat) (items : list item) (depth : nat) : result (node * list item) :=
  match items with
  | [] => Ok (Null, items)
  | first :: _ =>
      match fuel with
      | 0 => Raise RecursionError
      | S fuel' =>
          let d := length first.1 in
          if (d =? 0)%nat then Raise ZeroDivisionError else
          let axis := (depth mod d)%nat in
          rbind (sort_by_partial_key (axis_key axis) items) (fun sorted =>
          let mid := (length sorted / 2)%nat in
          match sorted !! mid with
          | None => Raise IndexError
          | Some (point, pid) =>
              rbind (build_rec fuel' (take mid sorted) (depth + 1)) (fun l =>
              rbind (build_rec fuel' (drop (mid + 1) sorted) (depth + 1)) (fun r =>
              Ok (Node point pid axis l.1 r.1, sorted)))
          end)
      end
  end.

Definition _build_recursive (items : list item) (depth : nat) : result (node * list item) :=
  build_rec (length items) items depth.

Definition build (vectors : list Vector) (ids : list string) : M t unit :=
  match vectors with
  | [] =>
      do_ modify (set_root Null);
      do_ modify (set_size 0);
      do_ modify (set_dim 0);
      modify (set_id_to_point [])
  | _ =>
      let points := map normalize vectors in
      do_ modify (set_dim (length (hd [] points)));
      let items := zip points ids in
      do built <- lift (_build_recursive items 0);
      let items := built.2 in
      do_ modify (set_root built.1);
      do_ modify (set_size (length items));
      modify (set_id_to_point (dict_of_list (map (fun x : item => (x.2, x.1)) items)))
  end.

Definition add (vector : Vector) (id : string) : M t unit :=
  do self <- get_state;
  let all_ids := dict_keys (_id_to_point self) ++ [id] in
  let all_points := dict_values (_id_to_point self) ++ [normalize vector] in
  build all_points all_ids.

(** [[d[i] for i in ids]] *)
Fixpoint lookup_all {V} (d : pydict V) (ids : list string) : result (list V) :=
  match ids with
  | [] => Ok []
  | i :: ids' =>
      match dict_get i d with
      | None => Raise KeyError
      | Some v => rbind (lookup_all d ids') (fun vs => Ok (v :: vs))
      end
  end.

Definition remove (id : string) : M t unit :=
  do self <- get_state;
  match dict_get id (_id_to_point self) with
  | None => raise KeyError
  | Some _ =>
      let all_ids := List.filter (fun i => negb (bool_decide (i = id))) (dict_keys (_id_to_point self)) in
      do all_points <- lift (lookup_all (_id_to_point self) all_ids);
      build all_points all_ids
  end.

Definition update (id : string) (new_vector : Vector) : M t unit :=
  do self <- get_state;
  match dict_get id (_id_to_point self) with
  | None => raise KeyError
  | Some _ =>
      do_ modify (set_id_to_point (dict_set id (normalize new_vector) (_id_to_point self)));
      do self <- get_state;
      let all_ids := dict_keys (_id_to_point self) in
      do all_points <- lift (lookup_all (_id_to_point self) all_ids);
      build all_points all_ids
  end.

Abbreviation candidate := (R * string)%type (only parsing).

(** [_search_node]; [best] is the list the Python code mutates in place. *)
Fixpoint _search_node (nd : node) (q : Vector) (k : Z) (best : list candidate)
  : result (list candidate) :=
  match nd with
  | Null => Ok best
  | Node point id axis left_ right_ =>
      let dist_sq := _distance_sq q point in
      let best := sort_by_key fst false (best ++ [(dist_sq, id)]) in
      let best := if (k <? Z.of_nat (length best))%Z then removelast best else best in
      match q !! axis, point !! axis with
      | Some qa, Some pa =>
          let delta := (qa - pa)%R in
          let go_left := Rltb delta 0 in
          rbind (_search_node (if go_left then left_ else right_) q k best) (fun best =>
          rbind (if (Z.of_nat (length best) <? k)%Z then Ok true
                 else rbind (py_getitem best (-1)) (fun worst =>
                      Ok (Rltb (delta * delta) worst.1))) (fun explore =>
          if explore : bool
          then _search_node (if go_left then right_ else left_) q k best
          else Ok best))
      | _, _ => Raise IndexError
      end
  end.

Definition search (self : t) (query : Vector) (k : Z) : result (list (string * R)) :=
  match _root self with
  | Null => Ok []
  | root =>
      if (k <=? 0)%Z then Ok [] else
      let q := normalize query in
      rbind (_search_node root q k []) (fun best =>
      let best := sort_by_key fst false best in
      Ok (map (fun c : candidate => (c.2, 1 - c.1 / 2)%R) (py_take k best)))
  end.

Definition size (self : t) : nat := _size self.

End KDTreeIndex.

(** ** app/domain/indexes/lsh.py *)

Module RandomHyperplaneLSHIndex.

Section WithRandom.
(** [gauss seed n] is the [n]-th value that [random.Random(seed)] returns
    from [gauss(0.0, 1.0)]. *)
Context (gauss : Z -> nat -> R).

Record t : Type := mk {
  _num_planes : nat;
  _seed : Z;
  _planes : list Vector;
  _buckets : gmap string (list string);
  _id_to_vec : pydict Vector
}.

Definition set_planes (p : list Vector) (self : t) : t :=
  mk (_num_planes self) (_seed self) p (_buckets self) (_id_to_vec self).
Definition set_buckets (b : gmap string (list string)) (self : t) : t :=
  mk (_num_planes self) (_seed self) (_planes self) b (_id_to_vec self).
Definition set_id_to_vec (m : pydict Vector) (self : t) : t :=
  mk (_num_planes self) (_seed self) (_planes self) (_buckets self) m.

(** [__init__] *)
Definition init (num_planes : nat) (seed : Z) : t := mk num_planes seed [] ∅ [].

Definition _init_planes (dim : nat) : M t unit :=
  do self <- get_state;
  modify (set_planes
    (map (fun i => normalize (map (fun j => gauss (_seed self) (i * dim + j)) (seq 0 dim)))
         (seq 0 (_num_planes self)))).

Definition _hash (self : t) (v : Vector) : string :=
  fold_right (fun p bits => String (if Rleb 0 (dot v p) then "1"%char else "0"%char) bits)
             EmptyString (_planes self).

(** [self._buckets.setdefault(key, []).append(id)] *)
Definition bucket_append (key id : string) (b : gmap string (list string)) : gmap string (list string) :=
  <[key := default [] (b !! key) ++ [id]]> b.

Definition store (v : Vector) (id : string) : M t unit :=
  let vn := normalize v in
  do idv <- gets _id_to_vec;
  do_ modify (set_id_to_vec (dict_set id vn idv));
  do self <- get_state;
  let key := _hash self vn in
  modify (set_buckets (bucket_append key id (_buckets self))).

Fixpoint store_all (items : list (Vector * string)) : M t unit :=
  match items with
  | [] => ret tt
  | (v, id) :: items' => do_ store v id; store_all items'
  end.

Definition build (vectors : list Vector) (ids : list string) : M t unit :=
  do_ modify (set_buckets ∅);
  do_ modify (set_id_to_vec []);
  match vectors with
  | [] => modify (set_planes [])
  | v0 :: _ =>
      do_ _init_planes (length v0);
      store_all (zip vectors ids)
  end.

Definition add (vector : Vector) (id : string) : M t unit :=
  do self <- get_state;
  match dict_get id (_id_to_vec self) with
  | Some _ => raise ValueError
  | None =>
      let vn := normalize vector in
      do_ modify (set_id_to_vec (dict_set id vn (_id_to_vec self)));
      do self <- get_state;
      do_ (match _planes self with
           | [] => _init_planes (length vn)
           | _ => ret tt
           end);
      do self <- get_state;
      let key := _hash self vn in
      modify (set_buckets (bucket_append key id (_buckets self)))
  end.

(** [bucket.remove(id)]: drops the first occurrence. *)
Fixpoint list_remove_first (id : string) (l : list string) : list string :=
  match l with
  | [] => []
  | x :: l' => if bool_decide (x = id) then l' else x :: list_remove_first id l'
  end.

Definition remove (id : string) : M t unit :=
  do self <- get_state;
  match dict_get id (_id_to_vec self) with
  | None => raise KeyError
  | Some vn =>
      do_ modify (set_id_to_vec (dict_del id (_id_to_vec self)));
      let key := _hash self vn in
      match _buckets self !! key with
      | None => ret tt
      | Some bucket =>
          if bool_decide (id ∈ bucket) then
            let bucket' := list_remove_first id bucket in
            match bucket' with
            | [] => modify (set_buckets (delete key (_buckets self)))
            | _ => modify (set_buckets (<[key := bucket']> (_buckets self)))
            end
          else ret tt
      end
  end.

Definition update (id : string) (new_vector : Vector) : M t unit :=
  do_ remove id;
  add new_vector id.

(** [[(cid, cosine_similarity(q, self._id_to_vec[cid])) for cid in candidates]] *)
Fixpoint score_all (self : t) (q : Vector) (candidates : list string) : result (list (string * R)) :=
  match candidates with
  | [] => Ok []
  | cid :: cs =>
      match dict_get cid (_id_to_vec self) with
      | None => Raise KeyError
      | Some v => rbind (score_all self q cs) (fun ps => Ok ((cid, cosine_similarity q v) :: ps))
      end
  end.

Definition search (self : t) (query : Vector) (k : Z) : result (list (string * R)) :=
  if (k <=? 0)%Z then Ok [] else
  match _id_to_vec self with
  | [] => Ok []
  | _ =>
      let q := normalize query in
      let candidates :=
        match _planes self with
        | [] => []
        | _ => default [] (_buckets self !! _hash self q)
        end in
      let candidates :=
        match candidates with
        | [] => dict_keys (_id_to_vec self)
        | _ => candidates
        end in
      rbind (score_all self q candidates) (fun pairs =>
      Ok (py_take k (sort_by_key snd true pairs)))
  end.

Definition size (self : t) : nat := length (_id_to_vec self).

End WithRandom.

End RandomHyperplaneLSHIndex.

(** ** Python strings

    A character is a code point below 256, so a string is a [str] over
    Latin-1. *)

(** [str.isspace] there: tab, line feed, vertical tab, form feed, carriage
    return, the four separators 28-31, space, next line (133) and the
    no-break space (160). *)
Definition is_space (c : ascii) : bool :=
  let n := nat_of_ascii c in
  ((9 <=? n)%nat && (n <=? 13)%nat) || ((28 <=? n)%nat && (n <=? 32)%nat)
  || (n =? 133)%nat || (n =? 160)%nat.

Fixpoint lstrip (s : string) : string :=
  match s with
  | String c s' => if is_space c then lstrip s' else s
  | EmptyString => EmptyString
  end.

(** [rstrip], written as a right fold: a space is dropped when everything
    after it has been dropped. *)
Fixpoint rstrip (s : string) : string :=
  match s with
  | String c s' =>
      match rstrip s' with
      | EmptyString => if is_space c then EmptyString else String c EmptyString
      | r => String c r
      end
  | EmptyString => EmptyString
  end.

Definition strip (s : string) : string := rstrip (lstrip s).

(** [str.lower] on one character: the capitals A-Z and the accented
    capitals 192-222 (the multiplication sign 215 apart) move up by 32. *)
Definition lower_char (c : ascii) : ascii :=
  let n := nat_of_ascii c in
  if ((65 <=? n)%nat && (n <=? 90)%nat)
     || ((192 <=? n)%nat && (n <=? 222)%nat && negb (n =? 215)%nat)
  then ascii_of_nat (n + 32) else c.

Fixpoint lower (s : string) : string :=
  match s with
  | String c s' => String (lower_char c) (lower s')
  | EmptyString => EmptyString
  end.

(** [a in b] on strings. *)
Fixpoint is_substring (a b : string) : bool :=
  String.prefix a b ||
  match b with
  | String _ b' => is_substring a b'
  | EmptyString => false
  end.

(** ** app/core/settings.py and app/domain/models *)

Inductive IndexType : Type := BRUTE_FORCE | KD_TREE | LSH.

(** [datetime]: the wall-clock reading in microseconds and, for an aware
    value, its offset from UTC.  Python refuses to order a naive value against
    an aware one. *)
Record datetime : Type := mk_datetime {
  wall : Z;
  utcoffset : option Z
}.

Definition datetime_lt (a b : datetime) : result bool :=
  match utcoffset a, utcoffset b with
  | None, None => Ok (wall a <? wall b)%Z
  | Some oa, Some ob => Ok (wall a - oa <? wall b - ob)%Z
  | _, _ => Raise TypeError
  end.

(** [MetadataBase] *)
Record Metadata : Type := mk_metadata {
  source : option string;
  tags : list string;
  author : option string;
  created_by : option string
}.

Definition default_metadata : Metadata := mk_metadata None [] None None.

Module Library.
Record t : Type := mk {
  id : string;
  created_at : datetime;
  updated_at : datetime;
  name : string;
  description : option string;
  embedding_dimension : Z;
  default_index_type : IndexType;
  metadata : Metadata;
  data_version : Z
}.
End Library.

Module Document.
Record t : Type := mk {
  id : string;
  created_at : datetime;
  updated_at : datetime;
  library_id : string;
  title : string;
  description : option string;
  metadata : Metadata
}.
End Document.

Module Chunk.
Record t : Type := mk {
  id : string;
  created_at : datetime;
  updated_at : datetime;
  library_id : string;
  document_id : string;
  text : string;
  embedding : list R;
  metadata : Metadata;
  is_normalized : bool
}.

(** The constructor call [Chunk(library_id=..., document_id=..., text=...,
    embedding=...)] with pydantic's field checks and validators; [new_id] is
    the value of [uuid4()] and [now] the reading of [datetime.utcnow()]. *)
Definition create (new_id : string) (now : datetime)
    (library_id document_id text : string) (embedding : list R) : result t :=
  if bool_decide (library_id = EmptyString) then Raise PydanticValidationError
  else if bool_decide (document_id = EmptyString) then Raise PydanticValidationError
  else if bool_decide (text = EmptyString) then Raise PydanticValidationError
  else if bool_decide (strip text = EmptyString) then Raise PydanticValidationError
  else match embedding with
       | [] => Raise PydanticValidationError
       | _ => Ok (mk new_id now now library_id document_id (strip text) embedding
                     default_metadata false)
       end.

(** [setattr] for the two fields the services pass to [update], then [touch()]. *)
Definition set_fields (text : option string) (embedding : option (list R)) (now : datetime)
    (c : t) : t :=
  mk (id c) (created_at c) now (library_id c) (document_id c)
     (default (Chunk.text c) text) (default (Chunk.embedding c) embedding)
     (metadata c) (is_normalized c).
End Chunk.

(** ** app/domain/concurrency/rwlock.py *)

Module RWLock.
Record t : Type := mk {
  _readers : Z;
  _writers_waiting : Z;
  _writer_active : bool
}.

(** [__init__] *)
Definition init : t := mk 0 0 false.

(** Each method body runs under the condition's mutex; a method that has to
    wait gives the mutex up and starts over when woken.  So a method is one
    atomic transition that is enabled when its loop condition is false;
    [None] means the caller waits.  [acquire_write] announces itself
    ([_writers_waiting += 1]) before it may have to wait, hence two
    transitions. *)
Definition acquire_read (self : t) : option t :=
  if _writer_active self || (0 <? _writers_waiting self)%Z then None
  else Some (mk (_readers self + 1) (_writers_waiting self) (_writer_active self)).

Definition release_read (self : t) : t :=
  mk (_readers self - 1) (_writers_waiting self) (_writer_active self).

Definition acquire_write_enter (self : t) : t :=
  mk (_readers self) (_writers_waiting self + 1) (_writer_active self).

Definition acquire_write_proceed (self : t) : option t :=
  if _writer_active self || (0 <? _readers self)%Z then None
  else Some (mk (_readers self) (_writers_waiting self - 1) true).

Definition release_write (self : t) : t :=
  mk (_readers self) (_writers_waiting self) false.
End RWLock.

(** ** app/domain/concurrency/versioning.py *)

Module VersionManager.
Record VersionInfo : Type := mk_info {
  data_version : Z;
  index_version : Z
}.

Definition default_info : VersionInfo := mk_info 0 (-1).

Abbreviation t := (gmap string VersionInfo) (only parsing).

(** [self._versions.setdefault(library_id, VersionInfo())] *)
Definition setdefault (library_id : string) : M t VersionInfo :=
  do vs <- get_state;
  match vs !! library_id with
  | Some vi => ret vi
  | None => do_ modify (insert library_id default_info); ret default_info
  end.

Definition get (library_id : string) : M t VersionInfo := setdefault library_id.

Definition bump_data (library_id : string) : M t VersionInfo :=
  do vi <- setdefault library_id;
  let vi := mk_info (data_version vi + 1) (index_version vi) in
  do_ modify (insert library_id vi);
  ret vi.

Definition set_index_version (library_id : string) (version : Z) : M t VersionInfo :=
  do vi <- setdefault library_id;
  let vi := mk_info (data_version vi) version in
  do_ modify (insert library_id vi);
  ret vi.

Definition is_index_stale (library_id : string) : M t bool :=
  do vi <- setdefault library_id;
  ret (negb (index_version vi =? data_version vi)%Z).
End VersionManager.

(** ** app/domain/repositories *)

Module LibraryRepository.
Abbreviation t := (gmap string Library.t) (only parsing).

Definition create (library : Library.t) : M t Library.t :=
  do items <- get_state;
  match items !! Library.id library with
  | Some _ => raise ConflictError
  | None => do_ modify (insert (Library.id library) library); ret library
  end.

Definition get (library_id : string) : M t Library.t :=
  do items <- get_state;
  match items !! library_id with
  | Some lib => ret lib
  | None => raise NotFoundError
  end.

Definition delete (library_id : string) : M t unit :=
  do items <- get_state;
  match items !! library_id with
  | Some _ => modify (base.delete library_id)
  | None => raise NotFoundError
  end.
End LibraryRepository.

(** [[items[i] for i in ids]] for a set of ids. *)
Fixpoint lookup_each {V} (items : gmap string V) (ids : list string) : result (list V) :=
  match ids with
  | [] => Ok []
  | i :: ids' =>
      match items !! i with
      | None => Raise KeyError
      | Some v => rbind (lookup_each items ids') (fun vs => Ok (v :: vs))
      end
  end.

(** [index[key].add(x)] and [index[key].discard(x)] on a
    [defaultdict(set)]: both create the entry when it is missing. *)
Definition index_add (key x : string) (index : gmap string (gset string)) : gmap string (gset string) :=
  <[key := index !!! key ∪ {[x]}]> index.
Definition index_discard (key x : string) (index : gmap string (gset string)) : gmap string (gset string) :=
  <[key := index !!! key ∖ {[x]}]> index.

Module DocumentRepository.
Record t : Type := mk {
  _items : gmap string Document.t;
  _by_library : gmap string (gset string)
}.

Definition init : t := mk ∅ ∅.

Definition create (document : Document.t) : M t Document.t :=
  do self <- get_state;
  match _items self !! Document.id document with
  | Some _ => raise ConflictError
  | None =>
      do_ modify (fun s => mk (<[Document.id document := document]> (_items s)) (_by_library s));
      do_ modify (fun s => mk (_items s)
                     (index_add (Document.library_id document) (Document.id document) (_by_library s)));
      ret document
  end.

Definition get (document_id : string) : M t Document.t :=
  do self <- get_state;
  match _items self !! document_id with
  | Some doc => ret doc
  | None => raise NotFoundError
  end.

(** The order in which a Python set is iterated is not specified; the
    model takes the order of [elements]. *)
Definition list_by_library (library_id : string) : M t (list Document.t) :=
  do self <- get_state;
  lift (lookup_each (_items self) (elements (_by_library self !!! library_id))).

Definition delete (document_id : string) : M t unit :=
  do self <- get_state;
  match _items self !! document_id with
  | None => raise NotFoundError
  | Some doc =>
      do_ modify (fun s => mk (base.delete document_id (_items s)) (_by_library s));
      modify (fun s => mk (_items s)
                 (index_discard (Document.library_id doc) document_id (_by_library s)))
  end.
End DocumentRepository.

Module ChunkRepository.
Record t : Type := mk {
  _items : gmap string Chunk.t;
  _by_library : gmap string (gset string);
  _by_document : gmap string (gset string)
}.

Definition init : t := mk ∅ ∅ ∅.

Definition create (chunk : Chunk.t) : M t Chunk.t :=
  do self <- get_state;
  match _items self !! Chunk.id chunk with
  | Some _ => raise ConflictError
  | None =>
      do_ modify (fun s => mk (<[Chunk.id chunk := chunk]> (_items s)) (_by_library s) (_by_document s));
      do_ modify (fun s => mk (_items s)
                     (index_add (Chunk.library_id chunk) (Chunk.id chunk) (_by_library s))
                     (_by_document s));
      do_ modify (fun s => mk (_items s) (_by_library s)
                     (index_add (Chunk.document_id chunk) (Chunk.id chunk) (_by_document s)));
      ret chunk
  end.

Definition get (chunk_id : string) : M t Chunk.t :=
  do self <- get_state;
  match _items self !! chunk_id with
  | Some c => ret c
  | None => raise NotFoundError
  end.

Definition list_by_library (library_id : string) : M t (list Chunk.t) :=
  do self <- get_state;
  lift (lookup_each (_items self) (elements (_by_library self !!! library_id))).

Definition list_by_document (document_id : string) : M t (list Chunk.t) :=
  do self <- get_state;
  lift (lookup_each (_items self) (elements (_by_document self !!! document_id))).

(** [update(chunk_id, **fields)] for the fields the chunk service passes;
    the stored object itself is changed and returned. *)
Definition update (chunk_id : string) (text : option string) (embedding : option (list R))
    (now : datetime) : M t Chunk.t :=
  do self <- get_state;
  match _items self !! chunk_id with
  | None => raise NotFoundError
  | Some c =>
      let c := Chunk.set_fields text embedding now c in
      do_ modify (fun s => mk (<[chunk_id := c]> (_items s)) (_by_library s) (_by_document s));
      ret c
  end.

Definition delete (chunk_id : string) : M t unit :=
  do self <- get_state;
  match _items self !! chunk_id with
  | None => raise NotFoundError
  | Some c =>
      do_ modify (fun s => mk (base.delete chunk_id (_items s)) (_by_library s) (_by_document s));
      do_ modify (fun s => mk (_items s)
                     (index_discard (Chunk.library_id c) chunk_id (_by_library s))
                     (_by_document s));
      modify (fun s => mk (_items s) (_by_library s)
                 (index_discard (Chunk.document_id c) chunk_id (_by_document s)))
  end.
End ChunkRepository.

(** ** The index variants behind one interface ([VectorIndex]) *)

Inductive VectorIndex : Type :=
| BruteForce (index : BruteForceIndex.t)
| KDTree (index : KDTreeIndex.t)
| LSHIndex (index : RandomHyperplaneLSHIndex.t).

Module VectorIndexOps.
Section WithRandom.
Context (gauss : Z -> nat -> R).

(** Dynamic dispatch of a mutating method. *)
Definition dispatch {A}
    (bf : M BruteForceIndex.t A) (kd : M KDTreeIndex.t A) (lsh : M RandomHyperplaneLSHIndex.t A)
  : M VectorIndex A :=
  fun index =>
    match index with
    | BruteForce i => let '(r, i') := bf i in (r, BruteForce i')
    | KDTree i => let '(r, i') := kd i in (r, KDTree i')
    | LSHIndex i => let '(r, i') := lsh i in (r, LSHIndex i')
    end.

Definition build (vectors : list (list R)) (ids : list string) : M VectorIndex unit :=
  dispatch (BruteForceIndex.build vectors ids) (KDTreeIndex.build vectors ids)
           (RandomHyperplaneLSHIndex.build gauss vectors ids).

Definition add (vector : list R) (id : string) : M VectorIndex unit :=
  dispatch (BruteForceIndex.add vector id) (KDTreeIndex.add vector id)
           (RandomHyperplaneLSHIndex.add gauss vector id).

Definition remove (id : string) : M VectorIndex unit :=
  dispatch (BruteForceIndex.remove id) (KDTreeIndex.remove id)
           (RandomHyperplaneLSHIndex.remove id).

Definition update (id : string) (new_vector : list R) : M VectorIndex unit :=
  dispatch (BruteForceIndex.update id new_vector) (KDTreeIndex.update id new_vector)
           (RandomHyperplaneLSHIndex.update gauss id new_vector).

Definition search (index : VectorIndex) (query : list R) (k : Z) : result (list (string * R)) :=
  match index with
  | BruteForce i => Ok (BruteForceIndex.search i query k)
  | KDTree i => KDTreeIndex.search i query k
  | LSHIndex i => RandomHyperplaneLSHIndex.search i query k
  end.

Definition size (index : VectorIndex) : nat :=
  match index with
  | BruteForce i => BruteForceIndex.size i
  | KDTree i => KDTreeIndex.size i
  | LSHIndex i => RandomHyperplaneLSHIndex.size i
  end.

End WithRandom.
End VectorIndexOps.

(** ** The process state

    The services are singletons that share the repositories, the version
    manager, the lock registry and the settings; one record holds them all.
    The service methods are modelled one call at a time: every lock is free
    when a call starts, so a [with lock.read_lock()] or [with
    lock.write_lock()] block acquires at once, and leaves the lock as it found
    it on every exit path.  What remains of it in this model is the lazy
    allocation of the lock in the registry.  A thread started by
    [build_index_async] is kept in [threads] until [run_thread] runs it. *)

Record World : Type := mk_world {
  libraries : gmap string Library.t;
  documents : DocumentRepository.t;
  chunks : ChunkRepository.t;
  versions : gmap string VersionManager.VersionInfo;
  locks : gmap string RWLock.t;
  indexes : gmap string VectorIndex;
  index_types : gmap string IndexType;
  building : gmap string bool;
  threads : list (string * IndexType * list Chunk.t);
  allow_stale_index : bool
}.

Definition set_libraries (x : gmap string Library.t) (w : World) : World :=
  mk_world x (documents w) (chunks w) (versions w) (locks w) (indexes w) (index_types w)
           (building w) (threads w) (allow_stale_index w).
Definition set_documents (x : DocumentRepository.t) (w : World) : World :=
  mk_world (libraries w) x (chunks w) (versions w) (locks w) (indexes w) (index_types w)
           (building w) (threads w) (allow_stale_index w).
Definition set_chunks (x : ChunkRepository.t) (w : World) : World :=
  mk_world (libraries w) (documents w) x (versions w) (locks w) (indexes w) (index_types w)
           (building w) (threads w) (allow_stale_index w).
Definition set_versions (x : gmap string VersionManager.VersionInfo) (w : World) : World :=
  mk_world (libraries w) (documents w) (chunks w) x (locks w) (indexes w) (index_types w)
           (building w) (threads w) (allow_stale_index w).
Definition set_locks (x : gmap string RWLock.t) (w : World) : World :=
  mk_world (libraries w) (documents w) (chunks w) (versions w) x (indexes w) (index_types w)
           (building w) (threads w) (allow_stale_index w).
Definition set_indexes (x : gmap string VectorIndex) (w : World) : World :=
  mk_world (libraries w) (documents w) (chunks w) (versions w) (locks w) x (index_types w)
           (building w) (threads w) (allow_stale_index w).
Definition set_index_types (x : gmap string IndexType) (w : World) : World :=
  mk_world (libraries w) (documents w) (chunks w) (versions w) (locks w) (indexes w) x
           (building w) (threads w) (allow_stale_index w).
Definition set_building (x : gmap string bool) (w : World) : World :=
  mk_world (libraries w) (documents w) (chunks w) (versions w) (locks w) (indexes w)
           (index_types w) x (threads w) (allow_stale_index w).
Definition set_threads (x : list (string * IndexType * list Chunk.t)) (w : World) : World :=
  mk_world (libraries w) (documents w) (chunks w) (versions w) (locks w) (indexes w)
           (index_types w) (building w) x (allow_stale_index w).

Definition on_libraries {A} (m : M (gmap string Library.t) A) : M World A :=
  zoom libraries set_libraries m.
Definition on_documents {A} (m : M DocumentRepository.t A) : M World A :=
  zoom documents set_documents m.
Definition on_chunks {A} (m : M ChunkRepository.t A) : M World A :=
  zoom chunks set_chunks m.
Definition on_versions {A} (m : M (gmap string VersionManager.VersionInfo) A) : M World A :=
  zoom versions set_versions m.

(** [for x in l: body(x)] *)
Fixpoint for_each {S A} (l : list A) (body : A -> M S unit) : M S unit :=
  match l with
  | [] => ret tt
  | x :: l' => do_ body x; for_each l' body
  end.

(** ** app/domain/concurrency/registry.py *)

Module LockRegistry.
Definition get_lock (library_id : string) : M World RWLock.t :=
  do w <- get_state;
  match locks w !! library_id with
  | Some lock => ret lock
  | None =>
      do_ modify (set_locks (<[library_id := RWLock.init]> (locks w)));
      ret RWLock.init
  end.
End LockRegistry.

(** ** app/domain/services/index_service.py *)

Module IndexService.
Section WithRandom.
Context (gauss : Z -> nat -> R).

Definition _create_index (index_type : IndexType) : VectorIndex :=
  match index_type with
  | BRUTE_FORCE => BruteForce (BruteForceIndex.init true)
  | KD_TREE => KDTree KDTreeIndex.init
  | LSH => LSHIndex (RandomHyperplaneLSHIndex.init 24 42)
  end.

(** [vi = self._version_manager.get(library_id);
     self._version_manager.set_index_version(library_id, vi.data_version)] *)
Definition sync_version (library_id : string) : M World unit :=
  do vi <- on_versions (VersionManager.get library_id);
  do_ on_versions (VersionManager.set_index_version library_id (VersionManager.data_version vi));
  ret tt.

Definition build_index (library_id : string) (index_type : IndexType) (chunks : list Chunk.t)
  : M World unit :=
  do_ LockRegistry.get_lock library_id;
  let vectors := map Chunk.embedding chunks in
  let ids := map Chunk.id chunks in
  let '(built, index) := VectorIndexOps.build gauss vectors ids (_create_index index_type) in
  do_ lift built;
  do w <- get_state;
  do_ modify (set_indexes (<[library_id := index]> (indexes w)));
  do w <- get_state;
  do_ modify (set_index_types (<[library_id := index_type]> (index_types w)));
  do_ sync_version library_id;
  do w <- get_state;
  modify (set_building (<[library_id := false]> (building w))).

Definition build_index_async (library_id : string) (index_type : IndexType)
    (chunks : list Chunk.t) : M World unit :=
  do w <- get_state;
  if default false (building w !! library_id) then ret tt
  else
    do_ modify (set_building (<[library_id := true]> (building w)));
    do w <- get_state;
    modify (set_threads (threads w ++ [(library_id, index_type, chunks)])).

(** The oldest started thread runs [build_index] to its end; an exception
    ends the thread and reaches nobody. *)
Definition run_thread : M World unit :=
  do w <- get_state;
  match threads w with
  | [] => ret tt
  | (library_id, index_type, chunks) :: rest =>
      do_ modify (set_threads rest);
      fun w => (Ok tt, (build_index library_id index_type chunks w).2)
  end.

Definition rebuild_async_using_existing_type (library_id : string) (chunks : list Chunk.t)
  : M World unit :=
  do w <- get_state;
  let itype := default BRUTE_FORCE (index_types w !! library_id) in
  build_index_async library_id itype chunks.

Definition is_building (library_id : string) : M World bool :=
  do w <- get_state; ret (default false (building w !! library_id)).

Definition get_index (library_id : string) : M World (option VectorIndex) :=
  do w <- get_state; ret (indexes w !! library_id).

Definition get_index_type (library_id : string) : M World (option IndexType) :=
  do w <- get_state; ret (index_types w !! library_id).

(** A method call on the index object of a library; the object is changed
    in place, also when the call raises. *)
Definition on_index (library_id : string) (index : VectorIndex) (m : M VectorIndex unit)
  : M World unit :=
  let '(r, index') := m index in
  do w <- get_state;
  do_ modify (set_indexes (<[library_id := index']> (indexes w)));
  lift r.

Definition add_chunk (library_id : string) (chunk : Chunk.t) : M World unit :=
  do w <- get_state;
  match indexes w !! library_id with
  | Some idx =>
      do_ on_index library_id idx (VectorIndexOps.add gauss (Chunk.embedding chunk) (Chunk.id chunk));
      sync_version library_id
  | None => ret tt
  end.

Definition remove_chunk (library_id : string) (chunk_id : string) : M World unit :=
  do w <- get_state;
  match indexes w !! library_id with
  | Some idx =>
      do_ on_index library_id idx (VectorIndexOps.remove chunk_id);
      sync_version library_id
  | None => ret tt
  end.

Definition update_chunk (library_id : string) (chunk : Chunk.t) : M World unit :=
  do w <- get_state;
  match indexes w !! library_id with
  | Some idx =>
      do_ on_index library_id idx
            (VectorIndexOps.update gauss (Chunk.id chunk) (Chunk.embedding chunk));
      sync_version library_id
  | None => ret tt
  end.

Definition search (library_id : string) (query : list R) (k : Z)
  : M World (list (string * R)) :=
  do w <- get_state;
  match indexes w !! library_id with
  | None => ret []
  | Some idx => lift (VectorIndexOps.search idx query k)
  end.

End WithRandom.
End IndexService.

(** ** app/domain/services/chunk_service.py *)

Module ChunkService.
Section WithRandom.
Context (gauss : Z -> nat -> R).

Definition _validate_embedding (library_id : string) (embedding : list R) : M World unit :=
  do lib <- on_libraries (LibraryRepository.get library_id);
  if bool_decide (Z.of_nat (length embedding) ≠ Library.embedding_dimension lib)
  then raise ValidationError
  else ret tt.

(** [new_id] and [now] are what [uuid4()] and [datetime.utcnow()] return
    inside the [Chunk] constructor. *)
Definition create (new_id : string) (now : datetime)
    (library_id document_id text : string) (embedding : list R) : M World Chunk.t :=
  do_ on_libraries (LibraryRepository.get library_id);
  do_ on_documents (DocumentRepository.get document_id);
  do_ _validate_embedding library_id embedding;
  do_ LockRegistry.get_lock library_id;
  do chunk <- lift (Chunk.create new_id now library_id document_id text embedding);
  do_ on_chunks (ChunkRepository.create chunk);
  do_ on_versions (VersionManager.bump_data library_id);
  do_ IndexService.add_chunk gauss library_id chunk;
  ret chunk.

Definition get (chunk_id : string) : M World Chunk.t :=
  on_chunks (ChunkRepository.get chunk_id).

Definition update (now : datetime) (chunk_id : string) (text : option string)
    (embedding : option (list R)) : M World Chunk.t :=
  do ch <- on_chunks (ChunkRepository.get chunk_id);
  do_ LockRegistry.get_lock (Chunk.library_id ch);
  do_ match embedding with
      | Some e => _validate_embedding (Chunk.library_id ch) e
      | None => ret tt
      end;
  do res <- on_chunks (ChunkRepository.update chunk_id text embedding now);
  do_ on_versions (VersionManager.bump_data (Chunk.library_id ch));
  do_ match embedding with
      | Some e => IndexService.update_chunk gauss (Chunk.library_id ch) res
      | None => ret tt
      end;
  ret res.

Definition delete (chunk_id : string) : M World unit :=
  do ch <- on_chunks (ChunkRepository.get chunk_id);
  do_ LockRegistry.get_lock (Chunk.library_id ch);
  do_ on_chunks (ChunkRepository.delete chunk_id);
  do_ on_versions (VersionManager.bump_data (Chunk.library_id ch));
  IndexService.remove_chunk (Chunk.library_id ch) chunk_id.

End WithRandom.
End ChunkService.

(** ** app/domain/services/document_service.py *)

Module DocumentService.
Definition get (document_id : string) : M World Document.t :=
  on_documents (DocumentRepository.get document_id).

Definition delete (document_id : string) : M World unit :=
  on_documents (DocumentRepository.delete document_id).
End DocumentService.

(** ** app/domain/services/library_service.py *)

Module LibraryService.
Definition get (library_id : string) : M World Library.t :=
  on_libraries (LibraryRepository.get library_id).

(** The loop of [delete]: the chunks under each document of the library,
    then the document. *)
Definition delete_documents (library_id : string) : M World unit :=
  do docs <- on_documents (DocumentRepository.list_by_library library_id);
  for_each docs (fun d =>
    do cs <- on_chunks (ChunkRepository.list_by_document (Document.id d));
    do_ for_each cs (fun ch => on_chunks (ChunkRepository.delete (Chunk.id ch)));
    on_documents (DocumentRepository.delete (Document.id d))).

Definition delete (library_id : string) (cascade : bool) : M World unit :=
  do_ on_libraries (LibraryRepository.get library_id);
  do_ (if cascade then delete_documents library_id else ret tt);
  on_libraries (LibraryRepository.delete library_id).
End LibraryService.

(** ** app/domain/services/query_service.py *)

(** What [.get] reads from the dictionary [knn] receives, for the six
    keys the code asks for: [None] for a key that is absent or whose value
    is [None]. *)
Record FilterDto : Type := mk_filter {
  tags_any : option (list string);
  tags_all : option (list string);
  author_in : option (list string);
  created_at_from : option string;
  created_at_to : option string;
  text_contains : option string
}.

(** The dictionary itself.  The code tests it for truth ([if filter_dto:],
    false for a dictionary without keys) and reads it through [.get] only:
    [EmptyDict] is [{}], and [Keys f] a dictionary with at least one key and
    the readings [f].  [QueryFilter.model_dump()], which the router passes,
    always carries the six keys. *)
Inductive FilterDict : Type :=
| EmptyDict
| Keys (f : FilterDto).

Module QueryService.
Section WithEnvironment.
Context (gauss : Z -> nat -> R).
(** [datetime.fromisoformat]; [None] when it raises [ValueError]. *)
Context (fromisoformat : string -> option datetime).

(** A [created_at] bound: [breaks created_at bound] is true when the
    comparison inside the [try] returns and says the chunk is out of range;
    a bound that is empty, does not parse, or cannot be compared is passed
    over. *)
Definition before_from (created_at : datetime) (fmt_from : option string) : bool :=
  match fmt_from with
  | None => false
  | Some EmptyString => false
  | Some fmt =>
      match fromisoformat fmt with
      | None => false
      | Some dfrom =>
          match datetime_lt created_at dfrom with
          | Ok b => b
          | Raise _ => false
          end
      end
  end.

Definition after_to (created_at : datetime) (fmt_to : option string) : bool :=
  match fmt_to with
  | None => false
  | Some EmptyString => false
  | Some fmt =>
      match fromisoformat fmt with
      | None => false
      | Some dto =>
          match datetime_lt dto created_at with
          | Ok b => b
          | Raise _ => false
          end
      end
  end.

Definition _matches_filter (c : Chunk.t) (f : FilterDto) : bool :=
  let text_contains := lower (strip (default EmptyString (text_contains f))) in
  if negb (bool_decide (text_contains = EmptyString))
     && negb (is_substring text_contains (lower (Chunk.text c))) then false
  else if before_from (Chunk.created_at c) (created_at_from f) then false
  else if after_to (Chunk.created_at c) (created_at_to f) then false
  else
    let meta := Chunk.metadata c in
    let tags_any := default [] (tags_any f) in
    let tags_all := default [] (tags_all f) in
    let author_in := default [] (author_in f) in
    if negb (bool_decide (tags_any = []))
       && negb (existsb (fun t => bool_decide (t ∈ tags meta)) tags_any) then false
    else if negb (bool_decide (tags_all = []))
       && negb (forallb (fun t => bool_decide (t ∈ tags meta)) tags_all) then false
    else if negb (bool_decide (author_in = []))
       && negb (bool_decide (author meta ∈ map Some author_in)) then false
    else true.

(** [bf = BruteForceIndex(pre_normalize=True); bf.build(...); bf.search(...)] *)
Definition transient_search (cs : list Chunk.t) (query : list R) (k : Z) : list (string * R) :=
  let bf := (BruteForceIndex.build (map Chunk.embedding cs) (map Chunk.id cs)
               (BruteForceIndex.init true)).2 in
  BruteForceIndex.search bf query k.

(** [if filter_dto:] with what the branch then reads: a dictionary that
    is given and has a key. *)
Definition truthy (filter_dto : option FilterDict) : option FilterDto :=
  match filter_dto with
  | Some (Keys f) => Some f
  | Some EmptyDict | None => None
  end.

Definition knn (library_id : string) (query_embedding : list R) (k : Z)
    (filter_dto : option FilterDict) : M World (list (string * R)) :=
  do_ LockRegistry.get_lock library_id;
  match truthy filter_dto with
  | Some f =>
      do chunks <- on_chunks (ChunkRepository.list_by_library library_id);
      let filtered := List.filter (fun c => _matches_filter c f) chunks in
      ret (transient_search filtered query_embedding k)
  | None =>
      do stale <- on_versions (VersionManager.is_index_stale library_id);
      if stale : bool then
        do cs <- on_chunks (ChunkRepository.list_by_library library_id);
        do_ IndexService.rebuild_async_using_existing_type library_id cs;
        do w <- get_state;
        if negb (allow_stale_index w) then ret (transient_search cs query_embedding k)
        else IndexService.search library_id query_embedding k
      else IndexService.search library_id query_embedding k
  end.

End WithEnvironment.
End QueryService.

(** ** Brute-force index: operation sequences and representation invariant *)

Module BruteForceSpec.
Import BruteForceIndex.

Inductive op : Type :=
| Build (vectors : list Vector) (ids : list string)
| Add (vector : Vector) (id : string)
| Remove (id : string)
| Update (id : string) (new_vector : Vector).

Definition run_op (o : op) : M t unit :=
  match o with
  | Build vectors ids => build vectors ids
  | Add vector id => add vector id
  | Remove id => remove id
  | Update id new_vector => update id new_vector
  end.

(** The index after a sequence of calls; a call that raises leaves the
    object as the exception left it and the sequence goes on. *)
Definition run (ops : list op) (self : t) : t :=
  fold_left (fun s o => (run_op o s).2) ops self.

(** The vector stored under an id, found through the position map. *)
Definition vector_of (self : t) (id : string) : option Vector :=
  match _pos self !! id with
  | Some i => _vectors self !! i
  | None => None
  end.

Record consistent (self : t) : Prop := {
  same_length : length (_ids self) = length (_vectors self);
  pos_exact : forall id i, _pos self !! id = Some i <-> _ids self !! i = Some id
}.

(** What [build] expects of its arguments: one id per vector, no id twice. *)
Definition build_args_ok (o : op) : Prop :=
  match o with
  | Build vectors ids => length vectors = length ids /\ NoDup ids
  | _ => True
  end.

End BruteForceSpec.

(** ** LSH index: operation sequences and representation invariant *)

Module LSHSpec.
Import RandomHyperplaneLSHIndex.

Section WithRandom.
Context (gauss : Z -> nat -> R).

Inductive op : Type :=
| Build (vectors : list (list R)) (ids : list string)
| Add (vector : list R) (id : string)
| Remove (id : string)
| Update (id : string) (new_vector : list R).

Definition run_op (o : op) : M t unit :=
  match o with
  | Build vectors ids => build gauss vectors ids
  | Add vector id => add gauss vector id
  | Remove id => remove id
  | Update id new_vector => update gauss id new_vector
  end.

Definition run (ops : list op) (self : t) : t :=
  fold_left (fun s o => (run_op o s).2) ops self.

Definition build_args_ok (o : op) : Prop :=
  match o with
  | Build vectors ids => NoDup ids
  | _ => True
  end.

(** Every id listed in a bucket is stored, under the bucket of its own
    vector, and once; the planes are only missing while nothing is stored or
    when the index is configured with no planes at all. *)
Record wf (self : t) : Prop := {
  buckets_stored : forall key b id, _buckets self !! key = Some b -> id ∈ b ->
    exists v, dict_get id (_id_to_vec self) = Some v /\ _hash self v = key;
  buckets_nodup : forall key b, _buckets self !! key = Some b -> NoDup b;
  keys_nodup : NoDup (dict_keys (_id_to_vec self));
  planes_ready : _planes self = [] -> _num_planes self = 0 \/ _id_to_vec self = []
}.

(** The candidates [search] reads from the query's bucket, before the fallback. *)
Definition bucket_candidates (self : t) (query : list R) : list string :=
  match _planes self with
  | [] => []
  | _ => default [] (_buckets self !! _hash self (normalize query))
  end.

(** The exhaustive ranking: every stored id with its cosine similarity to the
    normalised query, sorted by descending score, cut at [k]. *)
Definition rank_all (self : t) (query : list R) (k : Z) : list (string * R) :=
  py_take k (sort_by_key snd true
    (map (fun p : string * list R => (p.1, cosine_similarity (normalize query) p.2))
         (_id_to_vec self))).

End WithRandom.
End LSHSpec.

(** ** KD-tree: tree invariant and the candidate list of [search] *)

Module KDTreeSpec.
Import KDTreeIndex.

(** The (point, id) pairs a tree stores. *)
Fixpoint tree_items (nd : node) : list item :=
  match nd with
  | Null => []
  | Node point id axis left_ right_ => (point, id) :: tree_items left_ ++ tree_items right_
  end.

Definition coord (axis : nat) (v : list R) : R := default 0%R (v !! axis).

(** What [_build_recursive] establishes: every node splits on an axis below
    the dimension, no point of its left subtree lies beyond it on that axis
    and no point of its right subtree lies before it. *)
Fixpoint kd_inv (d : nat) (nd : node) : Prop :=
  match nd with
  | Null => True
  | Node point id axis left_ right_ =>
      axis < d /\ length point = d /\
      Forall (fun x : item => (coord axis x.1 <= coord axis point)%R) (tree_items left_) /\
      Forall (fun x : item => (coord axis point <= coord axis x.1)%R) (tree_items right_) /\
      kd_inv d left_ /\ kd_inv d right_
  end.

(** The candidate a stored item yields for the query [q]. *)
Definition scored (q : list R) (x : item) : candidate := (_distance_sq q x.1, x.2).

(** [best_of k best seen]: [best] holds the [k] nearest of the candidates
    [seen] so far: it is sorted by distance, has at most [k] entries, all taken
    from [seen], and a candidate that was left out is no nearer than any
    entry kept while [best] is full. *)
Record best_of (k : Z) (best seen : list candidate) : Prop := {
  best_sorted : StronglySorted (key_le fst false) best;
  best_length : (Z.of_nat (length best) <= k)%Z;
  best_seen : forall c, c ∈ best -> c ∈ seen;
  best_nearest : forall c, c ∈ seen ->
    c ∈ best \/ (Z.of_nat (length best) = k /\ forall b, b ∈ best -> (b.1 <= c.1)%R)
}.

(** The list after [_search_node] has appended a candidate, sorted, and
    dropped the worst entry when there are more than [k]. *)
Definition push (k : Z) (best : list candidate) (c : candidate) : list candidate :=
  let best := sort_by_key fst false (best ++ [c]) in
  if (k <? Z.of_nat (length best))%Z then removelast best else best.

(** The test that decides whether [_search_node] also visits the far side. *)
Definition explore_far (k : Z) (delta : R) (best : list candidate) : result bool :=
  if (Z.of_nat (length best) <? k)%Z then Ok true
  else rbind (py_getitem best (-1)) (fun worst => Ok (Rltb (delta * delta) worst.1)).

End KDTreeSpec.

(** ** Service layer: operation sequences, versions, repository invariants *)

Module ServiceSpec.

(** [steps R m]: whatever [m] does, and however it ends, the state it
    leaves is [R]-related to the one it started from. *)
Definition steps {S A} (R : S -> S -> Prop) (m : M S A) : Prop :=
  forall s, R s (m s).2.

Definition index_version_of (w : World) (library_id : string) : Z :=
  VersionManager.index_version (default VersionManager.default_info (versions w !! library_id)).

Definition data_version_of (w : World) (library_id : string) : Z :=
  VersionManager.data_version (default VersionManager.default_info (versions w !! library_id)).

(** No index version runs ahead of its data version. *)
Definition versions_ok (w : World) : Prop :=
  forall library_id, (index_version_of w library_id <= data_version_of w library_id)%Z.

(** The chunk operations of the service layer. *)
Inductive chunk_op : Type :=
| Create (new_id : string) (now : datetime) (library_id document_id text : string)
         (embedding : list R)
| Update (now : datetime) (chunk_id : string) (text : option string)
         (embedding : option (list R))
| Delete (chunk_id : string).

Section WithRandom.
Context (gauss : Z -> nat -> R).

Definition run_op (o : chunk_op) : M World unit :=
  match o with
  | Create new_id now library_id document_id text embedding =>
      do_ ChunkService.create gauss new_id now library_id document_id text embedding; ret tt
  | Update now chunk_id text embedding =>
      do_ ChunkService.update gauss now chunk_id text embedding; ret tt
  | Delete chunk_id => ChunkService.delete chunk_id
  end.

(** The world after a sequence of calls; a call that raises leaves the
    world as the exception left it. *)
Definition run_ops (ops : list chunk_op) (w : World) : World :=
  fold_left (fun w o => (run_op o w).2) ops w.

End WithRandom.

(** The library an operation works on. *)
Definition target (w : World) (o : chunk_op) : option string :=
  match o with
  | Create _ _ library_id _ _ _ => Some library_id
  | Update _ chunk_id _ _ | Delete chunk_id =>
      Chunk.library_id <$> ChunkRepository._items (chunks w) !! chunk_id
  end.

(** Whether the operation calls the incremental index maintenance
    ([add_chunk], [update_chunk], [remove_chunk]): an update does so only
    when it carries a new embedding. *)
Definition maintains (o : chunk_op) : bool :=
  match o with
  | Create _ _ _ _ _ _ => true
  | Update _ _ _ embedding => bool_decide (is_Some embedding)
  | Delete _ => true
  end.

(** A world with one library of dimension 4 and one document in it. *)
Definition sample_datetime : datetime := mk_datetime 0 None.

Definition sample_library : Library.t :=
  Library.mk "L" sample_datetime sample_datetime "lib" None 4 BRUTE_FORCE default_metadata 0.

Definition sample_document : Document.t :=
  Document.mk "D" sample_datetime sample_datetime "L" "doc" None default_metadata.

Definition sample_world : World :=
  mk_world {["L"%string := sample_library]}
           (DocumentRepository.mk {["D"%string := sample_document]} {["L"%string := {["D"%string]}]})
           ChunkRepository.init ∅ ∅ ∅ ∅ ∅ [] true.


(** The same world once an (empty) brute-force index has been built for the
    library. *)
Definition sample_world_indexed : World :=
  mk_world {["L"%string := sample_library]}
           (DocumentRepository.mk {["D"%string := sample_document]} {["L"%string := {["D"%string]}]})
           ChunkRepository.init {["L"%string := VersionManager.mk_info 0 0]} ∅
           {["L"%string := BruteForce (BruteForceIndex.init true)]}
           {["L"%string := BRUTE_FORCE]} {["L"%string := false]} [] true.

(** A library whose index misses a chunk.  The build was requested while
    the library was empty, the chunk was created before the build thread
    ran, and the thread then published the index over its empty snapshot. *)
Definition racing_world : World :=
  let gauss := fun (_ : Z) (_ : nat) => 0%R in
  let w1 := (IndexService.build_index_async "L" BRUTE_FORCE [] sample_world).2 in
  let w2 := (ChunkService.create gauss "c1" sample_datetime "L" "D" "hello" [1; 2; 3; 4]%R
               w1).2 in
  (IndexService.run_thread gauss w2).2.

(** Four chunks whose embeddings do not all have one length. *)
Definition sample_chunk (id : string) (embedding : list R) : Chunk.t :=
  Chunk.mk id sample_datetime sample_datetime "L" "D" "text" embedding default_metadata false.

Definition ragged_chunks : list Chunk.t :=
  [sample_chunk "a" [-1; 0]%R; sample_chunk "b" [1]%R;
   sample_chunk "c" [1]%R; sample_chunk "d" [1]%R].

(** [version_step w w']: going from [w] to [w'] keeps [versions_ok] and
    lowers no index version. *)
Definition version_step (w w' : World) : Prop :=
  versions_ok w ->
  versions_ok w' /\
  forall library_id, (index_version_of w library_id <= index_version_of w' library_id)%Z.

(** [same_indexes w w']: the step did not touch the index objects. *)
Definition same_indexes (w w' : World) : Prop := indexes w' = indexes w.

(** The library's index is fresh: both counters agree and [is_index_stale]
    answers [False]. *)
Definition fresh (w : World) (library_id : string) : Prop :=
  index_version_of w library_id = data_version_of w library_id /\
  (VersionManager.is_index_stale library_id (versions w)).1 = Ok false.

End ServiceSpec.

(** ** The reader-writer lock as a transition system *)

Module RWLockSpec.

(** Threads are numbered.  Next to the lock object a configuration records
    which threads are inside a read section, which have announced a write and
    wait, and which are inside a write section; a thread that re-enters is
    listed once per entry. *)
Record config : Type := mk_config {
  lock : RWLock.t;
  reading : list nat;
  waiting : list nat;
  writing : list nat
}.

Definition initial : config := mk_config RWLock.init [] [] [].

Fixpoint remove_one (t : nat) (l : list nat) : list nat :=
  match l with
  | [] => []
  | x :: l' => if bool_decide (x = t) then l' else x :: remove_one t l'
  end.

(** One method call, or one half of [acquire_write], by thread [t].  The
    context managers [read_lock] and [write_lock] pair every acquire with its
    release, so a release is taken only by a thread that holds the side it
    releases. *)
Inductive step : config -> config -> Prop :=
| step_acquire_read t c l' :
    RWLock.acquire_read (lock c) = Some l' ->
    step c (mk_config l' (t :: reading c) (waiting c) (writing c))
| step_release_read t c :
    t ∈ reading c ->
    step c (mk_config (RWLock.release_read (lock c)) (remove_one t (reading c))
                      (waiting c) (writing c))
| step_acquire_write_enter t c :
    step c (mk_config (RWLock.acquire_write_enter (lock c)) (reading c)
                      (t :: waiting c) (writing c))
| step_acquire_write_proceed t c l' :
    t ∈ waiting c ->
    RWLock.acquire_write_proceed (lock c) = Some l' ->
    step c (mk_config l' (reading c) (remove_one t (waiting c)) (t :: writing c))
| step_release_write t c :
    t ∈ writing c ->
    step c (mk_config (RWLock.release_write (lock c)) (reading c) (waiting c)
                      (remove_one t (writing c))).

Inductive reachable : config -> Prop :=
| reachable_initial : reachable initial
| reachable_step c c' : reachable c -> step c c' -> reachable c'.

(** The lock's fields count what the configuration lists. *)
Record counts_agree (c : config) : Prop := {
  readers_counted : RWLock._readers (lock c) = Z.of_nat (length (reading c));
  waiting_counted : RWLock._writers_waiting (lock c) = Z.of_nat (length (waiting c));
  writer_flagged : RWLock._writer_active (lock c) = bool_decide (writing c <> []);
  one_writer : length (writing c) <= 1;
  writer_alone : writing c <> [] -> reading c = []
}.

End RWLockSpec.

(** ** Repositories: representation invariants and cascade delete *)

Module CascadeSpec.
Import ServiceSpec.

(** Every document is stored under its own id and the secondary index
    lists, per library, exactly the documents of that library. *)
Record documents_wf (r : DocumentRepository.t) : Prop := {
  document_ids : forall id d, DocumentRepository._items r !! id = Some d -> Document.id d = id;
  documents_by_library : forall library_id id,
    id ∈ DocumentRepository._by_library r !!! library_id <->
    exists d, DocumentRepository._items r !! id = Some d /\ Document.library_id d = library_id
}.

Record chunks_wf (r : ChunkRepository.t) : Prop := {
  chunk_ids : forall id c, ChunkRepository._items r !! id = Some c -> Chunk.id c = id;
  chunks_by_library : forall library_id id,
    id ∈ ChunkRepository._by_library r !!! library_id <->
    exists c, ChunkRepository._items r !! id = Some c /\ Chunk.library_id c = library_id;
  chunks_by_document : forall document_id id,
    id ∈ ChunkRepository._by_document r !!! document_id <->
    exists c, ChunkRepository._items r !! id = Some c /\ Chunk.document_id c = document_id
}.

(** Every chunk of the library hangs under a document of the library. *)
Definition attached (w : World) (library_id : string) : Prop :=
  forall id c, ChunkRepository._items (chunks w) !! id = Some c ->
    Chunk.library_id c = library_id ->
    exists d, DocumentRepository._items (documents w) !! Chunk.document_id c = Some d /\
      Document.library_id d = library_id.

(** No document and no chunk of the library is left. *)
Definition no_descendants (w : World) (library_id : string) : Prop :=
  (forall id d, DocumentRepository._items (documents w) !! id = Some d ->
     Document.library_id d <> library_id) /\
  (forall id c, ChunkRepository._items (chunks w) !! id = Some c ->
     Chunk.library_id c <> library_id).

(** The world after a chunk has been created under the sample document,
    and the world after that document alone has then been deleted through the
    document service: the chunk of the library now hangs under no document. *)
Definition cascade_world : World :=
  (ChunkService.create (fun _ _ => 0%R) "c" sample_datetime "L" "D" "text" [1; 0; 0; 0]%R
     sample_world).2.

Definition orphan_world : World := (DocumentService.delete "D" cascade_world).2.

End CascadeSpec.

(** ** Filtered queries: what a filter asks of a chunk *)

Module FilterSpec.
Import ServiceSpec CascadeSpec.

(** [a] occurs in [b]. *)
Definition substring (a b : string) : Prop :=
  exists pre post : string, b = (pre ++ a ++ post)%string.

(** The chunk is stored in the repository and belongs to the library. *)
Definition belongs (w : World) (library_id : string) (c : Chunk.t) : Prop :=
  ChunkRepository._items (chunks w) !! Chunk.id c = Some c /\
  Chunk.library_id c = library_id.

(** The pair a query reports for a chunk: its id and the cosine
    similarity the brute-force index computes, between the normalised query
    and the normalised embedding. *)
Definition scored (q : list R) (c : Chunk.t) : string * R :=
  (Chunk.id c, cosine_similarity (normalize q) (normalize (Chunk.embedding c))).

(** Two readings Python can order: both naive or both aware. *)
Definition same_kind (a b : datetime) : Prop :=
  utcoffset a = None <-> utcoffset b = None.

Section WithParser.
Context (fromisoformat : string -> option datetime).

(** The predicate read off the specification: every field that is given
    has to hold, the text as it is given, and a bound is dropped only when
    it does not parse. *)
Record matches_as_stated (c : Chunk.t) (f : FilterDto) : Prop := {
  stated_text : forall s, text_contains f = Some s ->
    substring (lower s) (lower (Chunk.text c));
  stated_from : forall s d, created_at_from f = Some s -> fromisoformat s = Some d ->
    datetime_lt (Chunk.created_at c) d = Ok false;
  stated_to : forall s d, created_at_to f = Some s -> fromisoformat s = Some d ->
    datetime_lt d (Chunk.created_at c) = Ok false;
  stated_tags_any : forall ts, tags_any f = Some ts ->
    exists t, t ∈ ts /\ t ∈ tags (Chunk.metadata c);
  stated_tags_all : forall ts, tags_all f = Some ts ->
    forall t, t ∈ ts -> t ∈ tags (Chunk.metadata c);
  stated_author_in : forall authors, author_in f = Some authors ->
    exists a, a ∈ authors /\ author (Chunk.metadata c) = Some a
}.

(** The same predicate with the two allowances [_matches_filter] makes:
    the text is trimmed first and passed over when nothing is left, and an
    empty list of tags or authors asks nothing.  A bound that is the empty
    string does not parse and is passed over like any other that does not. *)
Record matches (c : Chunk.t) (f : FilterDto) : Prop := {
  matches_text : forall s, text_contains f = Some s -> strip s <> EmptyString ->
    substring (lower (strip s)) (lower (Chunk.text c));
  matches_from : forall s d, created_at_from f = Some s -> s <> EmptyString ->
    fromisoformat s = Some d ->
    datetime_lt (Chunk.created_at c) d = Ok false;
  matches_to : forall s d, created_at_to f = Some s -> s <> EmptyString ->
    fromisoformat s = Some d ->
    datetime_lt d (Chunk.created_at c) = Ok false;
  matches_tags_any : forall ts, tags_any f = Some ts -> ts <> [] ->
    exists t, t ∈ ts /\ t ∈ tags (Chunk.metadata c);
  matches_tags_all : forall ts, tags_all f = Some ts ->
    forall t, t ∈ ts -> t ∈ tags (Chunk.metadata c);
  matches_author_in : forall authors, author_in f = Some authors -> authors <> [] ->
    exists a, a ∈ authors /\ author (Chunk.metadata c) = Some a
}.

(** The bounds the filter gives can be ordered against the chunk's
    [created_at]: none is aware where [created_at] is naive, or naive where it
    is aware. *)
Definition comparable (c : Chunk.t) (f : FilterDto) : Prop :=
  forall s d, created_at_from f = Some s \/ created_at_to f = Some s ->
    fromisoformat s = Some d -> same_kind (Chunk.created_at c) d.

End WithParser.

(** [res] is the top [k] of the chunks [cs] for the query [q]: the [k]
    best pairs in descending order of score (all of them when there are
    fewer than [k]), chunks of equal score in the order of [cs]. *)
Record top_k (q : list R) (k : Z) (cs : list Chunk.t) (res : list (string * R)) : Prop := {
  top_k_exact : res = py_take k (sort_by_key snd true (map (scored q) cs));
  top_k_from : forall p, p ∈ res -> exists c, c ∈ cs /\ p = scored q c;
  top_k_nodup : NoDup (map fst res);
  top_k_sorted : StronglySorted (fun a b : string * R => (b.2 <= a.2)%R) res;
  top_k_length : length res = Nat.min (Z.to_nat (Z.max 0 k)) (length cs);
  top_k_best : forall c p, c ∈ cs -> Chunk.id c ∉ map fst res -> p ∈ res ->
    ((scored q c).2 <= p.2)%R
}.

(** [fromisoformat] at the one timestamp the examples use, an aware one;
    every other string is taken as not parsing. *)
Definition sample_fromisoformat (s : string) : option datetime :=
  if bool_decide (s = "2030-01-01T00:00:00+00:00"%string)
  then Some (mk_datetime 1893456000000000 (Some 0%Z))
  else None.

(** A library of three chunks, created through the chunk service: two of
    them carry the word text, in different case. *)
Definition filter_world : World :=
  let gauss := fun (_ : Z) (_ : nat) => 0%R in
  let w1 := (ChunkService.create gauss "a" sample_datetime "L" "D" "Alpha TEXT" [0; 1; 0; 0]%R
               sample_world).2 in
  let w2 := (ChunkService.create gauss "b" sample_datetime "L" "D" "beta" [1; 0; 0; 0]%R w1).2 in
  (ChunkService.create gauss "c" sample_datetime "L" "D" "gamma text" [1; 1; 0; 0]%R w2).2.

(** A filter that gives one field. *)
Definition text_filter (s : string) : FilterDto :=
  mk_filter None None None None None (Some s).
Definition tags_any_filter (ts : list string) : FilterDto :=
  mk_filter (Some ts) None None None None None.
Definition from_filter (s : string) : FilterDto :=
  mk_filter None None None (Some s) None None.

End FilterSpec.

(** ** app/domain/models/common.py: [MetadataBase.validate_tags] *)

Module MetadataBase.

(** The loop of [validate_tags]: [unique] is the list built so far, [seen]
    the set kept next to it. *)
Fixpoint validate_tags_loop (v : list string) (unique : list string) (seen : gset string)
  : result (list string) :=
  match v with
  | [] => Ok unique
  | tag :: v' =>
      let clean := strip tag in
      if bool_decide (clean = EmptyString) then validate_tags_loop v' unique seen
      else if (64 <? String.length clean)%nat then Raise ValueError
      else if bool_decide (clean ∈ seen) then validate_tags_loop v' unique seen
      else validate_tags_loop v' (unique ++ [clean]) (seen ∪ {[clean]})
  end.

Definition validate_tags (v : list string) : result (list string) :=
  validate_tags_loop v [] ∅.

End MetadataBase.

(** ** app/domain/repositories/chunks.py: [bulk_get] and [replace_all] *)

Module ChunkRepositoryBulk.
Import ChunkRepository.

(** [bulk_get]: the stored chunks of the given ids, in the order given;
    an id that is not stored is passed over. *)
Definition bulk_get (ids : list string) : M t (list Chunk.t) :=
  do self <- get_state;
  ret (omap (fun cid => _items self !! cid) ids).

(** [{c.id: c for c in chunks}]: a later chunk overwrites an earlier one
    of the same id. *)
Definition items_of (chunks : list Chunk.t) : gmap string Chunk.t :=
  fold_left (fun m c => <[Chunk.id c := c]> m) chunks ∅.

Definition replace_all (chunks : list Chunk.t) : M t unit :=
  do_ modify (fun s => mk (items_of chunks) (_by_library s) (_by_document s));
  do_ modify (fun s => mk (_items s) ∅ (_by_document s));
  do_ modify (fun s => mk (_items s) (_by_library s) ∅);
  for_each chunks (fun c =>
    do_ modify (fun s => mk (_items s)
                   (index_add (Chunk.library_id c) (Chunk.id c) (_by_library s))
                   (_by_document s));
    modify (fun s => mk (_items s) (_by_library s)
               (index_add (Chunk.document_id c) (Chunk.id c) (_by_document s)))).

End ChunkRepositoryBulk.

(** ** app/domain/services/embedding_service.py: [_fit_dimension] *)

Module EmbeddingService.

(** [l[:stop]] for any Python integer [stop]: a negative [stop] counts
    from the end. *)
Definition py_slice_to {A} (l : list A) (stop : Z) : list A :=
  if (0 <=? stop)%Z then take (Z.to_nat stop) l
  else take (Z.to_nat (Z.of_nat (length l) + stop)) l.

(** [[0.0] * n]: empty for [n <= 0]. *)
Definition zeros (n : Z) : list R := replicate (Z.to_nat n) 0%R.

Definition _fit_dimension (vec : list R) (target_dimension : Z) : list R :=
  let n := Z.of_nat (length vec) in
  if (n =? target_dimension)%Z then vec
  else if (target_dimension <? n)%Z then py_slice_to vec target_dimension
  else vec ++ zeros (target_dimension - n).

End EmbeddingService.

(** ** KD-tree: the state between calls *)

Module KDTreeState.
Import KDTreeIndex KDTreeSpec.

(** The (point, id) pairs of the id-to-point map. *)
Definition entries (s : t) : list item :=
  map (fun e : string * list R => (e.2, e.1)) (_id_to_point s).

(** What [build] leaves behind and [add], [remove] and [update] keep: the
    map holds every id once, with a point of dimension [d]; the tree holds
    exactly the entries of the map and splits them as [_build_recursive]
    does; [_size] counts them. *)
Record kd_wf (d : nat) (s : t) : Prop := {
  kd_keys : NoDup (dict_keys (_id_to_point s));
  kd_points : Forall (fun p : list R => length p = d) (dict_values (_id_to_point s));
  kd_tree : tree_items (_root s) ≡ₚ entries s;
  kd_tree_inv : kd_inv d (_root s);
  kd_size : _size s = length (_id_to_point s)
}.

(** A map with each point normalised once more, as a rebuild leaves it. *)
Definition renormalized (m : pydict (list R)) : pydict (list R) :=
  map (fun e : string * list R => (e.1, normalize e.2)) m.

(** The score [search] reports for a stored point. *)
Definition score (q p : list R) : R := (1 - _distance_sq (normalize q) p / 2)%R.

End KDTreeState.

(** ** LSH index: every stored id is filed *)

Module LSHState.
Import RandomHyperplaneLSHIndex.

(** Every stored id is listed in the bucket of its vector's hash. *)
Definition indexed (s : t) : Prop :=
  forall id v, dict_get id (_id_to_vec s) = Some v ->
    exists b, _buckets s !! _hash s v = Some b /\ id ∈ b.

(** [id] is stored under a vector whose sign pattern is that of the
    normalised query (there being planes to hash with). *)
Definition hit (s : t) (query : list R) (id : string) : Prop :=
  _planes s <> [] /\
  exists v, dict_get id (_id_to_vec s) = Some v /\ _hash s v = _hash s (normalize query).

(** The ids [search] scores: the hits, or every stored id when there is
    no hit. *)
Definition candidate_of (s : t) (query : list R) (id : string) : Prop :=
  hit s query id \/
  ((forall id', ~ hit s query id') /\ is_Some (dict_get id (_id_to_vec s))).

End LSHState.

(** ** Chunk repository: operation sequences *)

Module ChunkRepositorySpec.
Import ChunkRepository ChunkRepositoryBulk.

Inductive op : Type :=
| Create (chunk : Chunk.t)
| Update (chunk_id : string) (text : option string) (embedding : option (list R))
         (now : datetime)
| Delete (chunk_id : string)
| ReplaceAll (chunks : list Chunk.t).

Definition run_op (o : op) : M t unit :=
  match o with
  | Create chunk => do_ create chunk; ret tt
  | Update chunk_id text embedding now => do_ update chunk_id text embedding now; ret tt
  | Delete chunk_id => delete chunk_id
  | ReplaceAll chunks => replace_all chunks
  end.

(** The repository after a sequence of calls; a call that raises leaves
    it as the exception left it. *)
Definition run (ops : list op) (r : t) : t :=
  fold_left (fun r o => (run_op o r).2) ops r.

(** What [replace_all] expects: no id twice in the snapshot. *)
Definition replace_args_ok (o : op) : Prop :=
  match o with
  | ReplaceAll chunks => NoDup (map Chunk.id chunks)
  | _ => True
  end.

End ChunkRepositorySpec.

(** ** Tags as [validate_tags] returns them *)

Module TagSpec.

(** A tag that is trimmed, not empty and at most 64 characters long. *)
Definition clean (t : string) : Prop :=
  t <> EmptyString /\ strip t = t /\ String.length t <= 64.

End TagSpec.

(** ** Sample worlds for queries *)

Module QuerySamples.
Import ServiceSpec CascadeSpec.

(** [cascade_world] with the setting [allow_stale_index] switched off. *)
Definition strict_world : World :=
  mk_world (libraries cascade_world) (documents cascade_world) (chunks cascade_world)
           (versions cascade_world) (locks cascade_world) (indexes cascade_world)
           (index_types cascade_world) (building cascade_world) (threads cascade_world)
           false.

End QuerySamples.

(* ===================================================================== *)
(** * Part II: facts about the embedding                                  *)
(* ===================================================================== *)

(** ** Facts about the Python runtime model *)

Lemma Rltb_true x y : Rltb x y = true <-> (x < y)%R.
Proof. unfold Rltb. destruct (Rlt_dec x y); split; intros; try done; lra. Qed.

Lemma Rltb_false x y : Rltb x y = false <-> (y <= x)%R.
Proof. unfold Rltb. destruct (Rlt_dec x y); split; intros; try done; lra. Qed.

Lemma Rleb_true x y : Rleb x y = true <-> (x <= y)%R.
Proof. unfold Rleb. destruct (Rle_dec x y); split; intros; try done; lra. Qed.

Lemma Reqb_true x y : Reqb x y = true <-> x = y.
Proof. unfold Reqb. destruct (Req_dec_T x y); split; intros; done. Qed.

Lemma Reqb_false x y : Reqb x y = false <-> x <> y.
Proof. unfold Reqb. destruct (Req_dec_T x y); split; intros; done. Qed.

(** Decide the real comparisons of a goal whose operands are numerals. *)
Ltac rltb :=
  repeat match goal with
  | |- context [Rltb ?a ?b] =>
      first [rewrite (proj2 (Rltb_true a b)) by lra | rewrite (proj2 (Rltb_false a b)) by lra]
  end.

Section Sorting.
Context {A : Type} (key : A -> R).

Lemma insert_by_perm reverse x l : Permutation (insert_by key reverse x l) (x :: l).
Proof.
  induction l as [|y l IH]; simpl; [done|].
  destruct (if reverse then _ else _); [|done].
  rewrite IH. apply perm_swap.
Qed.

Lemma sort_by_key_perm reverse l : Permutation (sort_by_key key reverse l) l.
Proof.
  induction l as [|x l IH]; simpl; [done|].
  rewrite insert_by_perm. by constructor.
Qed.

Lemma sort_by_key_length reverse l : length (sort_by_key key reverse l) = length l.
Proof. apply Permutation_length, sort_by_key_perm. Qed.

Lemma sort_by_key_elem reverse l x : x ∈ sort_by_key key reverse l <-> x ∈ l.
Proof. by rewrite (sort_by_key_perm reverse l). Qed.

Lemma insert_by_sorted reverse x l :
  StronglySorted (key_le key reverse) l -> StronglySorted (key_le key reverse) (insert_by key reverse x l).
Proof.
  induction 1 as [|y l Hs IH Hy]; simpl.
  - repeat constructor.
  - destruct (if reverse then _ else _) eqn:Hc.
    + constructor; [done|].
      rewrite Forall_forall. intros z Hz.
      rewrite insert_by_perm in Hz.
      apply elem_of_cons in Hz as [->|Hz].
      * unfold key_le. destruct reverse; apply Rltb_true in Hc; lra.
      * rewrite Forall_forall in Hy. by apply Hy.
    + assert (Hxy : key_le key reverse x y).
      { unfold key_le. destruct reverse; apply Rltb_false in Hc; lra. }
      constructor; [by constructor|].
      constructor; [done|].
      eapply Forall_impl; [exact Hy|]. intros z Hz. simpl in Hz.
      unfold key_le in *. destruct reverse; lra.
Qed.

Lemma sort_by_key_sorted reverse l : StronglySorted (key_le key reverse) (sort_by_key key reverse l).
Proof.
  induction l as [|x l IH]; simpl; [constructor|]. by apply insert_by_sorted.
Qed.

(** Sorting an already sorted list changes nothing. *)
Lemma insert_by_id reverse x l :
  Forall (key_le key reverse x) l -> insert_by key reverse x l = x :: l.
Proof.
  destruct l as [|y l]; simpl; [done|]. intros Hx. apply Forall_cons in Hx as [Hx _].
  unfold key_le in Hx.
  destruct reverse.
  - destruct (Rltb (key x) (key y)) eqn:Hc; [apply Rltb_true in Hc; lra|done].
  - destruct (Rltb (key y) (key x)) eqn:Hc; [apply Rltb_true in Hc; lra|done].
Qed.

Lemma sort_by_key_id reverse l :
  StronglySorted (key_le key reverse) l -> sort_by_key key reverse l = l.
Proof.
  induction 1 as [|x l Hs IH Hx]; simpl; [done|]. rewrite IH. by apply insert_by_id.
Qed.

End Sorting.

Lemma py_take_length {A} (k : Z) (l : list A) :
  length (py_take k l) = Nat.min (Z.to_nat (Z.max 0 k)) (length l).
Proof. unfold py_take. apply length_take. Qed.

Lemma py_take_elem {A} (k : Z) (l : list A) x : x ∈ py_take k l -> x ∈ l.
Proof. unfold py_take. apply subseteq_take. Qed.

(** *** Dictionaries *)

Section Dict.
Context {V : Type}.
Implicit Types (d : pydict V) (k : string) (v : V).

Lemma dict_get_nil k : dict_get k ([] : pydict V) = None.
Proof. done. Qed.

Lemma dict_get_cons k k' v d :
  dict_get k ((k', v) :: d) = if bool_decide (k' = k) then Some v else dict_get k d.
Proof. unfold dict_get. simpl. by destruct (bool_decide (k' = k)). Qed.

Lemma dict_get_None k d : dict_get k d = None <-> k ∉ dict_keys d.
Proof.
  induction d as [|[k' v'] d IH].
  - split; [intros _; apply not_elem_of_nil|done].
  - rewrite dict_get_cons. unfold dict_keys in *. simpl. rewrite not_elem_of_cons.
    case_bool_decide as Hk.
    + split; [done|]. intros [Hne _]. congruence.
    + rewrite IH. split; [intros H; split; [congruence|done] | tauto].
Qed.

Lemma dict_get_Some_elem k v d : dict_get k d = Some v -> (k, v) ∈ d.
Proof.
  induction d as [|[k' v'] d IH]; [done|].
  rewrite dict_get_cons. case_bool_decide as Hk.
  - intros [= ->]. subst. left.
  - intros H. right. by apply IH.
Qed.

Lemma dict_get_elem k v d : NoDup (dict_keys d) -> (k, v) ∈ d -> dict_get k d = Some v.
Proof.
  induction d as [|[k' v'] d IH]; [intros _ H; by apply elem_of_nil in H|].
  unfold dict_keys. simpl. intros [Hk Hnd]%NoDup_cons Hin.
  rewrite dict_get_cons. apply elem_of_cons in Hin as [[= -> ->]|Hin].
  - by rewrite bool_decide_eq_true_2.
  - case_bool_decide as Hkk; [|by apply IH].
    subst. exfalso. apply Hk. apply list_elem_of_fmap. by exists (k, v).
Qed.

Lemma dict_set_absent k v d : dict_get k d = None -> dict_set k v d = d ++ [(k, v)].
Proof.
  induction d as [|[k' v'] d IH]; [done|].
  rewrite dict_get_cons. simpl. case_bool_decide; [done|]. intros Hg. by rewrite IH.
Qed.

Lemma dict_get_set_eq k v d : dict_get k (dict_set k v d) = Some v.
Proof.
  induction d as [|[k' v'] d IH]; simpl.
  - rewrite dict_get_cons. by rewrite bool_decide_eq_true_2.
  - case_bool_decide as Hk; rewrite dict_get_cons; rewrite ?Hk.
    + by rewrite bool_decide_eq_true_2.
    + by rewrite bool_decide_eq_false_2.
Qed.

Lemma dict_get_set_ne k k' v d : k <> k' -> dict_get k' (dict_set k v d) = dict_get k' d.
Proof.
  intros Hne. induction d as [|[k0 v0] d IH]; simpl.
  - rewrite dict_get_cons. by rewrite bool_decide_eq_false_2.
  - case_bool_decide as Hk; rewrite !dict_get_cons.
    + subst. by rewrite bool_decide_eq_false_2.
    + by rewrite IH.
Qed.

Lemma dict_keys_set k v d :
  dict_keys (dict_set k v d) = match dict_get k d with Some _ => dict_keys d | None => dict_keys d ++ [k] end.
Proof.
  induction d as [|[k0 v0] d IH]; simpl; [done|].
  rewrite dict_get_cons. case_bool_decide as Hk; simpl; [done|].
  unfold dict_keys in *. simpl. rewrite IH. by destruct (dict_get k d).
Qed.

Lemma dict_set_keys_nodup k v d : NoDup (dict_keys d) -> NoDup (dict_keys (dict_set k v d)).
Proof.
  intros Hnd. rewrite dict_keys_set. destruct (dict_get k d) eqn:Hk; [done|].
  apply NoDup_app. split; [done|]. split; [|apply NoDup_singleton].
  intros x Hx Hx'. apply list_elem_of_singleton in Hx' as ->. by apply dict_get_None in Hk.
Qed.

Lemma dict_get_del_eq k d : dict_get k (dict_del k d) = None.
Proof.
  induction d as [|[k0 v0] d IH]; [done|]. unfold dict_del in *. simpl.
  case_bool_decide as Hk; simpl; [done|]. rewrite dict_get_cons. by rewrite bool_decide_eq_false_2.
Qed.

Lemma dict_get_del_ne k k' d : k <> k' -> dict_get k' (dict_del k d) = dict_get k' d.
Proof.
  intros Hne. induction d as [|[k0 v0] d IH]; [done|]. unfold dict_del in *. simpl.
  case_bool_decide as Hk; simpl; rewrite !dict_get_cons.
  - subst. by rewrite bool_decide_eq_false_2.
  - by rewrite IH.
Qed.

Lemma dict_del_keys_nodup k d : NoDup (dict_keys d) -> NoDup (dict_keys (dict_del k d)).
Proof.
  unfold dict_keys, dict_del. intros Hnd.
  induction d as [|[k0 v0] d IH]; [done|]. simpl in *.
  apply NoDup_cons in Hnd as [Hk0 Hnd].
  case_bool_decide; simpl; [by apply IH|].
  apply NoDup_cons. split; [|by apply IH].
  intros Hin. apply Hk0. apply list_elem_of_fmap in Hin as ([k1 v1] & -> & Hin).
  apply list_elem_of_In, filter_In in Hin as [Hin _]. apply list_elem_of_fmap.
  exists (k1, v1). split; [done|]. by apply list_elem_of_In.
Qed.

Lemma dict_del_length k v d :
  NoDup (dict_keys d) -> dict_get k d = Some v -> S (length (dict_del k d)) = length d.
Proof.
  unfold dict_keys, dict_del.
  induction d as [|[k0 v0] d IH]; [done|]. simpl. intros [Hk0 Hnd]%NoDup_cons.
  rewrite dict_get_cons. case_bool_decide as Hk; simpl.
  - intros _. subst. f_equal.
    clear IH Hnd. induction d as [|[k1 v1] d IH]; [done|]. simpl in *.
    rewrite not_elem_of_cons in Hk0. destruct Hk0 as [Hne Hk0].
    rewrite bool_decide_eq_false_2 by done. simpl. f_equal. by apply IH.
  - intros Hg. f_equal. by apply IH.
Qed.

End Dict.

(** ** Vector arithmetic of base.py over the reals *)

Module VectorFacts.
Local Open Scope R_scope.
Implicit Types (a b q v : list R) (x y c : R).

Lemma sum_from (l : list R) (a : R) : fold_left Rplus l a = a + sum l.
Proof.
  unfold sum. revert a. induction l as [|x l IH]; intros a; simpl.
  - lra.
  - rewrite IH, (IH (0 + x)). lra.
Qed.

Lemma sum_nil : sum [] = 0.
Proof. done. Qed.

Lemma sum_cons x l : sum (x :: l) = x + sum l.
Proof. unfold sum at 1. simpl. rewrite sum_from. lra. Qed.

Lemma sum_nonneg l : Forall (fun x => 0 <= x) l -> 0 <= sum l.
Proof.
  induction 1 as [|x l Hx _ IH]; [rewrite sum_nil; lra|]. rewrite sum_cons. lra.
Qed.

Lemma dot_nil_l b : dot [] b = 0.
Proof. done. Qed.

Lemma dot_nil_r a : dot a [] = 0.
Proof. by destruct a. Qed.

Lemma dot_cons x a y b : dot (x :: a) (y :: b) = x * y + dot a b.
Proof. unfold dot. simpl. by rewrite sum_cons. Qed.

Lemma dot_comm a b : dot a b = dot b a.
Proof.
  revert b. induction a as [|x a IH]; intros [|y b]; try done.
  rewrite !dot_cons, IH. lra.
Qed.

Lemma dot_scale_l c a b : dot (map (fun x => x / c) a) b = dot a b / c.
Proof.
  revert b. induction a as [|x a IH]; intros [|y b]; simpl;
    rewrite ?dot_nil_l, ?dot_nil_r; try (unfold Rdiv; lra).
  rewrite !dot_cons, IH. unfold Rdiv. lra.
Qed.

Lemma dot_scale_r c a b : dot a (map (fun x => x / c) b) = dot a b / c.
Proof. by rewrite dot_comm, dot_scale_l, dot_comm. Qed.

Lemma dot_zeros_l a b : dot (map (fun _ => 0) a) b = 0.
Proof.
  revert b. induction a as [|x a IH]; intros [|y b]; simpl; try done.
  rewrite dot_cons, IH. lra.
Qed.

Lemma dot_self_sum a : dot a a = sum (map (fun x => x * x) a).
Proof. induction a as [|x a IH]; simpl; [done|]. by rewrite dot_cons, sum_cons, IH. Qed.

Lemma dot_self_nonneg a : 0 <= dot a a.
Proof. induction a as [|x a IH]; [rewrite dot_nil_l; lra|]. rewrite dot_cons. nra. Qed.

Lemma l2_norm_dot a : l2_norm a = sqrt (dot a a).
Proof. unfold l2_norm. by rewrite dot_self_sum. Qed.

Lemma l2_norm_nonneg a : 0 <= l2_norm a.
Proof. unfold l2_norm. apply sqrt_pos. Qed.

Lemma l2_norm_sq a : l2_norm a * l2_norm a = dot a a.
Proof. rewrite l2_norm_dot. apply sqrt_sqrt, dot_self_nonneg. Qed.

Lemma normalize_length a : length (normalize a) = length a.
Proof. unfold normalize. destruct (Reqb _ _); apply length_map. Qed.

Lemma normalize_nonzero a : l2_norm a <> 0 -> normalize a = map (fun x => x / l2_norm a) a.
Proof. intros H. unfold normalize. by rewrite (proj2 (Reqb_false _ _) H). Qed.

Lemma normalize_zero a : l2_norm a = 0 -> normalize a = map (fun _ => 0) a.
Proof. intros H. unfold normalize. by rewrite (proj2 (Reqb_true _ _) H). Qed.

(** A vector that is not all zeros is normalised to a unit vector. *)
Lemma normalize_unit a : l2_norm a <> 0 -> dot (normalize a) (normalize a) = 1.
Proof.
  intros H. rewrite normalize_nonzero by done.
  rewrite dot_scale_l, dot_scale_r, <- l2_norm_sq. by field.
Qed.

Lemma unit_norm a : dot a a = 1 -> l2_norm a = 1.
Proof. intros H. rewrite l2_norm_dot, H. apply sqrt_1. Qed.

Lemma zeros_norm a : l2_norm (map (fun _ => 0) a) = 0.
Proof. rewrite l2_norm_dot, dot_zeros_l. apply sqrt_0. Qed.

Lemma cosine_zero_r q v : l2_norm v = 0 -> cosine_similarity q v = 0.
Proof.
  intros Hv. unfold cosine_similarity.
  rewrite (proj2 (Reqb_true _ _) Hv). by rewrite orb_true_r.
Qed.

Lemma distance_sq_nil_l b : KDTreeIndex._distance_sq [] b = 0.
Proof. done. Qed.

Lemma distance_sq_cons x a y b :
  KDTreeIndex._distance_sq (x :: a) (y :: b) = (x - y) * (x - y) + KDTreeIndex._distance_sq a b.
Proof. unfold KDTreeIndex._distance_sq. simpl. by rewrite sum_cons. Qed.

Lemma distance_sq_nonneg a b : 0 <= KDTreeIndex._distance_sq a b.
Proof.
  revert b. induction a as [|x a IH]; intros [|y b]; try (by compute; lra).
  rewrite distance_sq_cons. specialize (IH b).
  pose proof (Rle_0_sqr (x - y)) as Hs. unfold Rsqr in Hs. lra.
Qed.

(** The squared distance dominates the squared difference of any one
    coordinate. *)
Lemma distance_sq_coord a b i x y :
  a !! i = Some x -> b !! i = Some y -> (x - y) * (x - y) <= KDTreeIndex._distance_sq a b.
Proof.
  revert b i x y. induction a as [|x0 a IH]; intros [|y0 b] [|i] x y; simpl; try done.
  - intros [= ->] [= ->]. rewrite distance_sq_cons. pose proof (distance_sq_nonneg a b). lra.
  - intros Ha Hb. rewrite distance_sq_cons. specialize (IH _ _ _ _ Ha Hb).
    pose proof (Rle_0_sqr (x0 - y0)) as Hs. unfold Rsqr in Hs. lra.
Qed.

Lemma distance_sq_dot a b :
  length a = length b ->
  KDTreeIndex._distance_sq a b = dot a a + dot b b - 2 * dot a b.
Proof.
  revert b. induction a as [|x a IH]; intros [|y b]; simpl; try done.
  - intros _. rewrite distance_sq_nil_l, !dot_nil_l. lra.
  - intros [= Hlen]. rewrite distance_sq_cons, !dot_cons, IH by done. lra.
Qed.

(** Norms of concrete vectors: [n] is the norm as soon as [n * n] is the
    sum of squares. *)
Lemma l2_norm_exact a n : 0 <= n -> dot a a = n * n -> l2_norm a = n.
Proof. intros Hn Hd. rewrite l2_norm_dot, Hd. by apply sqrt_square. Qed.

Lemma normalize_exact a n :
  0 < n -> dot a a = n * n -> normalize a = map (fun x => x / n) a.
Proof.
  intros Hn Hd. rewrite normalize_nonzero; rewrite (l2_norm_exact a n) by (lra || done); [done|lra].
Qed.

Ltac norm_exact n :=
  rewrite (normalize_exact _ n); [|lra|rewrite !dot_cons, dot_nil_l; lra].

End VectorFacts.

Module BruteForceFacts.
Import BruteForceIndex BruteForceSpec.

Lemma py_index_nat {A} (l : list A) (i : nat) :
  i < length l -> py_index l (Z.of_nat i) = Some i.
Proof.
  intros H. unfold py_index.
  destruct (Z.leb_spec 0 (Z.of_nat i)); [|lia].
  destruct (Z.ltb_spec (Z.of_nat i) (Z.of_nat (length l))); [|lia].
  simpl. by rewrite Nat2Z.id.
Qed.

Lemma py_getitem_nat {A} (l : list A) (i : nat) x :
  l !! i = Some x -> py_getitem l (Z.of_nat i) = Ok x.
Proof.
  intros H. unfold py_getitem.
  rewrite py_index_nat by (by eapply lookup_lt_Some). by rewrite H.
Qed.

Lemma py_setitem_nat {A} (l : list A) (i : nat) x :
  i < length l -> py_setitem l (Z.of_nat i) x = Ok (<[i := x]> l).
Proof. intros H. unfold py_setitem. by rewrite py_index_nat. Qed.

Lemma removelast_take {A} (l : list A) : removelast l = take (length l - 1) l.
Proof. rewrite removelast_firstn_len. f_equal. lia. Qed.

Lemma enumerate_pos_lookup_aux (ids : list string) (m : gmap string nat) k id i :
  NoDup ids ->
  (forall j, m !! id = Some j -> j < k) ->
  fold_left (fun m p => <[p.2 := p.1]> m) (imap (fun i id => (k + i, id)) ids) m !! id = Some i <->
  (m !! id = Some i /\ id ∉ ids) \/ (k <= i /\ ids !! (i - k) = Some id).
Proof.
  intros Hnd. revert m k. induction Hnd as [|x ids Hx Hnd IH]; intros m k Hm; simpl.
  - split; [intros H; left; split; [done|apply not_elem_of_nil] | intros [[H _]|[_ H]]; done].
  - rewrite (imap_ext _ (fun i id => (S k + i, id))) by (intros; unfold compose; f_equal; lia).
    rewrite IH.
    + rewrite Nat.add_0_r. destruct (decide (x = id)) as [->|Hne].
      * rewrite lookup_insert_eq. split.
        -- intros [[[= <-] Hn]|[Hk Hl]].
           ++ right. split; [lia|]. by rewrite Nat.sub_diag.
           ++ exfalso. apply Hx. eapply list_elem_of_lookup_2. exact Hl.
        -- intros [[_ Hn]|[Hk Hl]]; [exfalso; apply Hn; left|].
           destruct (decide (i = k)) as [->|Hik].
           ++ left. split; [done|]. done.
           ++ exfalso. replace (i - k) with (S (i - S k)) in Hl by lia. simpl in Hl.
              apply Hx. eapply list_elem_of_lookup_2. exact Hl.
      * rewrite lookup_insert_ne by done. split.
        -- intros [[H Hn]|[Hk Hl]].
           ++ left. split; [done|]. rewrite not_elem_of_cons. done.
           ++ right. split; [lia|]. replace (i - k) with (S (i - S k)) by lia. done.
        -- intros [[H Hn]|[Hk Hl]].
           ++ left. rewrite not_elem_of_cons in Hn. tauto.
           ++ destruct (decide (i = k)) as [->|Hik].
              { rewrite Nat.sub_diag in Hl. simpl in Hl. congruence. }
              right. split; [lia|]. replace (i - k) with (S (i - S k)) in Hl by lia. done.
    + intros j. destruct (decide (x = id)) as [->|Hne].
      * rewrite lookup_insert_eq. intros [= <-]. lia.
      * rewrite lookup_insert_ne by done. intros H%Hm. lia.
Qed.

Lemma enumerate_pos_lookup (ids : list string) id i :
  NoDup ids -> enumerate_pos ids !! id = Some i <-> ids !! i = Some id.
Proof.
  intros Hnd. unfold enumerate_pos.
  pose proof (enumerate_pos_lookup_aux ids ∅ 0 id i Hnd) as H.
  simpl in H. rewrite H.
  - rewrite lookup_empty, Nat.sub_0_r. split; [intros [[? _]|[_ ?]]; done | intros ?; right; split; [lia|done]].
  - intros j. by rewrite lookup_empty.
Qed.


Lemma py_pop_take {A} (l : list A) : l <> [] -> py_pop l = Ok (take (length l - 1) l).
Proof. intros H. destruct l; [done|]. unfold py_pop. by rewrite removelast_take. Qed.

Lemma remove_consistent s id idx :
  consistent s -> _pos s !! id = Some idx ->
  exists s', remove id s = (Ok tt, s') /\ consistent s' /\
    _pos s' !! id = None /\ length (_ids s') = length (_ids s) - 1 /\
    (forall id', id' <> id -> vector_of s' id' = vector_of s id').
Proof.
  destruct s as [vs ids pos pre]. intros [Hlen Hpos] Hid. simpl in *.
  assert (Hidx : ids !! idx = Some id) by (by apply Hpos).
  assert (Hlt : idx < length ids) by (by eapply lookup_lt_Some).
  set (n := length ids - 1).
  assert (Hn : length ids = S n) by lia.
  destruct (lookup_lt_is_Some_2 ids n) as [lastid Hlastid]; [lia|].
  destruct (lookup_lt_is_Some_2 vs n) as [lastv Hlastv]; [lia|].
  destruct (lookup_lt_is_Some_2 vs idx) as [v Hv]; [lia|].
  unfold remove, bind, get_state. simpl. rewrite Hid.
  replace (Z.of_nat (length ids) - 1)%Z with (Z.of_nat n) by lia.
  case_bool_decide as Hlast.
  - assert (Hne : idx <> n) by lia.
    unfold swap_items, pop_item, bind, gets, lift, modify. simpl.
    rewrite (py_getitem_nat _ _ _ Hlastid), (py_getitem_nat _ _ _ Hidx).
    rewrite py_setitem_nat by lia. simpl.
    rewrite py_setitem_nat by (rewrite length_insert; lia). simpl.
    rewrite (py_getitem_nat _ _ _ Hlastv), (py_getitem_nat _ _ _ Hv).
    rewrite py_setitem_nat by lia. simpl.
    rewrite py_setitem_nat by (rewrite length_insert; lia). simpl.
    rewrite (py_getitem_nat _ idx lastid).
    2:{ rewrite list_lookup_insert_ne by lia. apply list_lookup_insert_eq. lia. }
    rewrite !py_pop_take.
    2,3: (simpl; intros H; apply (f_equal length) in H; revert H; rewrite ?length_insert; simpl; lia).
    simpl. rewrite !length_insert, Nat2Z.id.
    replace (length ids - 1) with n by lia. replace (length vs - 1) with n by lia.
    rewrite !take_insert_ge by lia.
    rewrite !take_insert_lt by lia.
    eexists. split; [reflexivity|]. unfold vector_of. simpl.
    rewrite ?take_insert_ge by lia. rewrite ?take_insert_lt by lia.
    assert (Hlid : lastid <> id).
    { intros ->. apply Hpos in Hlastid. congruence. }
    assert (Hinj : forall a i j, ids !! i = Some a -> ids !! j = Some a -> i = j).
    { intros a i j Hi%Hpos Hj%Hpos. congruence. }
    split; [split; simpl|split; [|split]].
    + rewrite !length_insert, !length_take. lia.
    + intros id0 i. destruct (decide (id0 = id)) as [->|Hid0].
      * rewrite lookup_delete_eq. split; [done|]. intros Hi. exfalso.
        destruct (decide (i = idx)) as [->|Hi'].
        -- rewrite list_lookup_insert_eq in Hi by (rewrite length_take; lia). congruence.
        -- rewrite list_lookup_insert_ne in Hi by done.
           apply lookup_take_Some in Hi as [Hi _]. eauto.
      * rewrite lookup_delete_ne by done.
        destruct (decide (id0 = lastid)) as [->|Hid1].
        -- rewrite lookup_insert_eq. split.
           ++ intros [= <-]. apply list_lookup_insert_eq. rewrite length_take. lia.
           ++ intros Hi. destruct (decide (i = idx)) as [->|Hi']; [done|].
              rewrite list_lookup_insert_ne in Hi by done.
              apply lookup_take_Some in Hi as [Hi Hin]. specialize (Hinj _ _ _ Hi Hlastid). lia.
        -- rewrite lookup_insert_ne by done. rewrite Hpos.
           destruct (decide (i = idx)) as [->|Hi'].
           { rewrite list_lookup_insert_eq by (rewrite length_take; lia). split; congruence. }
           rewrite list_lookup_insert_ne by done.
           rewrite lookup_take_Some. split; [|tauto]. intros Hi. split; [done|].
           assert (i < length ids) by (by eapply lookup_lt_Some).
           destruct (decide (i = n)) as [->|]; [congruence|lia].
    + apply lookup_delete_eq.
    + rewrite ?length_insert, ?length_take. lia.
    + intros id' Hid'. rewrite lookup_delete_ne by done.
      destruct (decide (id' = lastid)) as [->|Hid1].
      * rewrite lookup_insert_eq. apply Hpos in Hlastid. rewrite Hlastid.
        rewrite list_lookup_insert_eq by (rewrite length_take; lia). done.
      * rewrite lookup_insert_ne by done. destruct (pos !! id') as [i|] eqn:Hi; [|done].
        apply Hpos in Hi.
        assert (i <> idx) by (intros ->; congruence).
        assert (i <> n) by (intros ->; congruence).
        assert (i < length ids) by (by eapply lookup_lt_Some).
        rewrite list_lookup_insert_ne by done. apply lookup_take_lt. lia.
  - assert (idx = n) as -> by lia.
    unfold pop_item, bind, gets, lift, modify, ret. simpl.
    rewrite !py_pop_take.
    2,3: (simpl; intros H; apply (f_equal length) in H; revert H; simpl; lia).
    simpl. replace (length ids - 1) with n by lia. replace (length vs - 1) with n by lia.
    eexists. split; [reflexivity|]. unfold vector_of. simpl.
    split; [split; simpl|split; [|split]].
    + rewrite !length_take. lia.
    + intros id0 i. destruct (decide (id0 = id)) as [->|Hid0].
      * rewrite lookup_delete_eq. split; [done|]. intros Hi. exfalso.
        apply lookup_take_Some in Hi as [Hi Hin]. apply Hpos in Hi. assert (i = n) by congruence. lia.
      * rewrite lookup_delete_ne by done. rewrite Hpos, lookup_take_Some.
        split; [|tauto]. intros Hi. split; [done|].
        assert (i < length ids) by (by eapply lookup_lt_Some).
        destruct (decide (i = n)) as [->|]; [congruence|lia].
    + apply lookup_delete_eq.
    + rewrite length_take. lia.
    + intros id' Hid'. rewrite lookup_delete_ne by done.
      destruct (pos !! id') as [i|] eqn:Hi; [|done].
      apply Hpos in Hi.
      assert (i <> n) by (intros ->; congruence).
      assert (i < length ids) by (by eapply lookup_lt_Some).
      apply lookup_take_lt. lia.
Qed.

Lemma consistent_NoDup s : consistent s -> NoDup (_ids s).
Proof.
  intros [_ Hpos]. apply NoDup_alt. intros i j x Hi%Hpos Hj%Hpos. congruence.
Qed.

Lemma consistent_size s : consistent s -> BruteForceIndex.size s = base.size (_pos s).
Proof.
  intros Hc. unfold BruteForceIndex.size.
  rewrite <- size_dom.
  assert (dom (_pos s) = list_to_set (_ids s)) as ->.
  { apply set_eq. intros id. rewrite elem_of_dom, elem_of_list_to_set, list_elem_of_lookup.
    unfold is_Some. by setoid_rewrite (pos_exact _ Hc). }
  symmetry. apply size_list_to_set. by apply consistent_NoDup.
Qed.

Lemma init_consistent pre : consistent (init pre).
Proof. split; [done|]. intros id i. simpl. by rewrite lookup_empty, lookup_nil. Qed.

Lemma build_consistent vectors ids s :
  length vectors = length ids -> NoDup ids -> consistent (build vectors ids s).2.
Proof.
  intros Hlen Hnd. unfold build, bind, gets, modify. simpl. split; simpl.
  - destruct (_pre_normalize s); rewrite ?length_map; done.
  - intros id i. by apply enumerate_pos_lookup.
Qed.

Lemma add_consistent vector id s : consistent s -> consistent (add vector id s).2.
Proof.
  intros Hc. unfold add, bind, get_state. simpl.
  destruct (_pos s !! id) as [i|] eqn:Hid; [done|].
  destruct Hc as [Hlen Hpos]. unfold modify. simpl. split; simpl.
  - rewrite !length_app. simpl. lia.
  - intros id0 i. destruct (decide (id0 = id)) as [->|Hne].
    + rewrite lookup_insert_eq. split.
      * intros [= <-]. rewrite lookup_app_r by lia. by rewrite Nat.sub_diag.
      * intros Hi. destruct (decide (i < length (_ids s))) as [Hlt|Hge].
        -- rewrite lookup_app_l in Hi by done. apply Hpos in Hi. congruence.
        -- rewrite lookup_app_r in Hi by lia.
           destruct (i - length (_ids s)) as [|k] eqn:Hk; simpl in Hi; [|done].
           f_equal. lia.
    + rewrite lookup_insert_ne by done. rewrite Hpos. split.
      * intros Hi. rewrite lookup_app_l; [done|]. by eapply lookup_lt_Some.
      * intros Hi. destruct (decide (i < length (_ids s))) as [Hlt|Hge].
        -- by rewrite lookup_app_l in Hi.
        -- rewrite lookup_app_r in Hi by lia.
           destruct (i - length (_ids s)) as [|k]; simpl in Hi; [congruence|done].
Qed.

Lemma update_consistent id v s : consistent s -> consistent (update id v s).2.
Proof.
  intros Hc. unfold update, bind, get_state. simpl.
  destruct (_pos s !! id) as [i|] eqn:Hid; [|done].
  destruct Hc as [Hlen Hpos].
  assert (i < length (_vectors s)).
  { rewrite <- Hlen. eapply lookup_lt_Some. by apply Hpos. }
  unfold lift, modify. rewrite py_setitem_nat by done. simpl. split; simpl.
  - by rewrite length_insert.
  - done.
Qed.

Lemma remove_absent id s : _pos s !! id = None -> remove id s = (Raise KeyError, s).
Proof. intros H. unfold remove, bind, get_state. simpl. by rewrite H. Qed.

Lemma remove_keeps_consistent id s : consistent s -> consistent (remove id s).2.
Proof.
  intros Hc. destruct (_pos s !! id) as [i|] eqn:Hid.
  - destruct (remove_consistent s id i Hc Hid) as (s' & -> & Hc' & _). done.
  - by rewrite remove_absent.
Qed.

Lemma remove_keeps_vectors id s id' :
  consistent s -> id' <> id -> vector_of (remove id s).2 id' = vector_of s id'.
Proof.
  intros Hc Hne. destruct (_pos s !! id) as [i|] eqn:Hid.
  - destruct (remove_consistent s id i Hc Hid) as (s' & -> & _ & _ & _ & Hv). by apply Hv.
  - by rewrite remove_absent.
Qed.

Lemma run_op_consistent o s : build_args_ok o -> consistent s -> consistent (run_op o s).2.
Proof.
  destruct o; simpl.
  - intros [? ?] _. by apply build_consistent.
  - intros _. apply add_consistent.
  - intros _. apply remove_keeps_consistent.
  - intros _. apply update_consistent.
Qed.

Lemma run_snoc ops o s : run (ops ++ [o]) s = (run_op o (run ops s)).2.
Proof. unfold run. by rewrite fold_left_app. Qed.

Lemma run_consistent ops s : Forall build_args_ok ops -> consistent s -> consistent (run ops s).
Proof.
  intros Hops. revert s. induction Hops as [|o ops Ho _ IH]; intros s Hc; [done|].
  simpl. apply IH. by apply run_op_consistent.
Qed.

(** C10 (as amended): after any sequence of [build], [add], [remove] and
    [update] calls whose [build] calls pass one id per vector and no id twice,
    the brute-force index is consistent: the id and vector arrays have the same
    length, the position map holds exactly the stored ids, each at its one
    position, [size()] is the number of stored ids, and a further [remove]
    leaves every other id with the vector it had. *)
Theorem bf_consistent_after_ops (ops : list op) (pre : bool) :
  Forall build_args_ok ops ->
  let s := run ops (init pre) in
  length (_ids s) = length (_vectors s) /\
  (forall id i, _pos s !! id = Some i <-> _ids s !! i = Some id) /\
  BruteForceIndex.size s = base.size (_pos s) /\
  (forall id id', id' <> id ->
     vector_of (run (ops ++ [Remove id]) (init pre)) id' = vector_of s id').
Proof.
  intros Hops s.
  assert (Hc : consistent s) by (apply run_consistent; [done|apply init_consistent]).
  split; [apply Hc|]. split; [apply Hc|]. split; [by apply consistent_size|].
  intros id id' Hne. rewrite run_snoc. simpl. by apply remove_keeps_vectors.
Qed.

Lemma bf_consistent_after_ops_witness :
  let ops := [Build [[1%R]; [2%R]] ["a"; "b"]; Add [3%R] "c"; Remove "a"] in
  let s := run ops (init true) in
  length (_ids s) = length (_vectors s) /\
  (forall id i, _pos s !! id = Some i <-> _ids s !! i = Some id) /\
  BruteForceIndex.size s = base.size (_pos s) /\
  (forall id id', id' <> id ->
     vector_of (run (ops ++ [Remove id]) (init true)) id' = vector_of s id').
Proof.
  apply bf_consistent_after_ops.
  repeat constructor; simpl; try done.
  - rewrite list_elem_of_singleton. done.
  - apply not_elem_of_nil.
Defined.

(** C10 as stated fails: [build] stores whatever it is given, so after
    [build([[1.0]], [])] the vector array has one entry and the id array none. *)
Lemma bf_build_length_mismatch :
  ~ consistent (run [Build [[1%R]] []] (init true)).
Proof. intros [Hlen _]. simpl in Hlen. lia. Qed.

End BruteForceFacts.

Module LSHFacts.
Import RandomHyperplaneLSHIndex LSHSpec VectorFacts.

Section WithRandom.
Context (gauss : Z -> nat -> R).

Lemma hash_planes s s' v : _planes s = _planes s' -> _hash s v = _hash s' v.
Proof. unfold _hash. by intros ->. Qed.

Lemma init_wf np seed : wf (init np seed).
Proof.
  split; simpl.
  - intros key b id. by rewrite lookup_empty.
  - intros key b. by rewrite lookup_empty.
  - constructor.
  - by right.
Qed.

Lemma init_planes_nil dim s :
  _num_planes s = 0 -> _planes (_init_planes gauss dim s).2 = [].
Proof. intros H. unfold _init_planes, bind, get_state, modify. simpl. by rewrite H. Qed.

Lemma init_planes_nonempty dim s :
  _num_planes s <> 0 -> _planes (_init_planes gauss dim s).2 <> [].
Proof.
  intros H. unfold _init_planes, bind, get_state, modify. simpl.
  destruct (_num_planes s); [done|]. done.
Qed.

Lemma lookup_bucket_append key id b key' :
  bucket_append key id b !! key' =
  if decide (key = key') then Some (default [] (b !! key) ++ [id]) else b !! key'.
Proof. unfold bucket_append. apply lookup_insert. Qed.

(** Filing a fresh id under its bucket keeps the invariant. *)
Lemma file_wf planes buckets idv np seed id vn :
  let s := mk np seed planes buckets idv in
  wf s -> (planes = [] -> np = 0) -> dict_get id idv = None ->
  wf (mk np seed planes (bucket_append (_hash s vn) id buckets) (dict_set id vn idv)).
Proof.
  intros s [Hst Hnd Hk Hp] Hpl Hid.
  assert (Hh : forall b' i' v, _hash (mk np seed planes b' i') v = _hash s v) by done.
  cbn [_buckets _id_to_vec _planes _num_planes s] in *.
  assert (Hfresh : forall key b, buckets !! key = Some b -> id ∉ b).
  { intros key b Hb Hin. destruct (Hst _ _ _ Hb Hin) as (v & Hv & _). congruence. }
  split; cbn [_buckets _id_to_vec _planes _num_planes].
  - intros key b id0. rewrite lookup_bucket_append. setoid_rewrite Hh. case_decide as Hkey.
    + intros [= <-] [Hin| ->%list_elem_of_singleton]%elem_of_app.
      * destruct (buckets !! _hash s vn) as [b0|] eqn:Hb0; [|by apply elem_of_nil in Hin].
        simpl in Hin. destruct (Hst _ _ _ Hb0 Hin) as (v & Hv & Hh').
        exists v. split; [|congruence]. rewrite dict_get_set_ne; [done|].
        intros ->. by apply (Hfresh _ _ Hb0).
      * exists vn. split; [apply dict_get_set_eq|done].
    + intros Hb Hin. destruct (Hst _ _ _ Hb Hin) as (v & Hv & Hh').
      exists v. split; [|exact Hh']. rewrite dict_get_set_ne; [done|].
      intros ->. by apply (Hfresh _ _ Hb).
  - intros key b. rewrite lookup_bucket_append. case_decide as Hkey.
    + intros [= <-]. destruct (buckets !! _hash s vn) as [b0|] eqn:Hb0; simpl.
      * apply NoDup_app. split; [by eapply Hnd|]. split; [|apply NoDup_singleton].
        intros x Hx ->%list_elem_of_singleton. by apply (Hfresh _ _ Hb0).
      * apply NoDup_singleton.
    + apply Hnd.
  - by apply dict_set_keys_nodup.
  - intros Hpn. left. auto.
Qed.

Lemma store_wf v id s :
  wf s -> (_planes s = [] -> _num_planes s = 0) -> dict_get id (_id_to_vec s) = None ->
  wf (store v id s).2 /\ _planes (store v id s).2 = _planes s /\
  _num_planes (store v id s).2 = _num_planes s /\
  dict_keys (_id_to_vec (store v id s).2) = dict_keys (_id_to_vec s) ++ [id].
Proof.
  destruct s as [np seed planes buckets idv]. simpl. intros Hwf Hp Hid.
  unfold store, bind, gets, get_state, modify. simpl. split; [|split; [done|split; [done|]]].
  - by apply (file_wf planes buckets idv np seed id (normalize v)).
  - rewrite dict_keys_set. by rewrite Hid.
Qed.

Lemma store_all_wf items s :
  wf s -> (_planes s = [] -> _num_planes s = 0) ->
  NoDup (items.*2) -> (forall id, id ∈ items.*2 -> id ∉ dict_keys (_id_to_vec s)) ->
  wf (store_all items s).2.
Proof.
  revert s. induction items as [|[v id] items IH]; intros s Hwf Hp Hnd Hfresh; [done|].
  simpl in *. apply NoDup_cons in Hnd as [Hid Hnd].
  unfold bind.
  destruct (store_wf v id s Hwf Hp) as (Hwf' & Hp' & Hnp' & Hkeys).
  { apply dict_get_None, Hfresh. left. }
  destruct (store v id s) as [[[]|e] s'] eqn:Hs; simpl in *.
  - apply IH; try done.
    + by rewrite Hp', Hnp'.
    + intros id0 Hin. rewrite Hkeys. rewrite not_elem_of_app. split.
      * apply Hfresh. by right.
      * rewrite list_elem_of_singleton. intros ->. done.
  - done.
Qed.

Lemma zip_snd_take {A B} (l : list A) (k : list B) : (zip l k).*2 = take (length l) k.
Proof.
  revert k. induction l as [|x l IH]; intros [|y k]; simpl; try done. by rewrite IH.
Qed.

Lemma build_wf vectors ids s : NoDup ids -> wf (build gauss vectors ids s).2.
Proof.
  intros Hnd. destruct s as [np seed planes buckets idv].
  unfold build, bind, modify. simpl. destruct vectors as [|v0 vectors]; simpl.
  - split; simpl.
    + intros key b id. by rewrite lookup_empty.
    + intros key b. by rewrite lookup_empty.
    + constructor.
    + by right.
  - apply store_all_wf.
    + split; simpl.
      * intros key b id. by rewrite lookup_empty.
      * intros key b. by rewrite lookup_empty.
      * constructor.
      * by right.
    + simpl. destruct np; [done|]. done.
    + change (NoDup (zip (v0 :: vectors) ids).*2).
      rewrite zip_snd_take. eapply sublist_NoDup; [exact Hnd|apply sublist_take].
    + intros id _. simpl. apply not_elem_of_nil.
Qed.

Lemma add_wf vector id s : wf s -> wf (add gauss vector id s).2.
Proof.
  destruct s as [np seed planes buckets idv]. intros Hwf.
  unfold add, bind, get_state. simpl.
  destruct (dict_get id idv) as [v|] eqn:Hid; [done|].
  unfold modify. simpl. destruct planes as [|p planes].
  - unfold _init_planes, bind, get_state, modify, ret. simpl.
    set (planes' := map _ (seq 0 np)).
    apply (file_wf planes' buckets idv np seed id (normalize vector)); [| |done].
    + destruct Hwf as [Hst Hnd Hk Hp]. simpl in *.
      destruct Hp as [-> | ->]; [done| |].
      * split; simpl; try done. intros _. by left.
      * split; simpl; try done.
        -- intros key b id0 Hb Hin. destruct (Hst _ _ _ Hb Hin) as (v & Hv & _). done.
        -- by right.
    + subst planes'. destruct np; [done|]. done.
  - unfold ret. simpl.
    by apply (file_wf (p :: planes) buckets idv np seed id (normalize vector)).
Qed.

Lemma list_remove_first_subseteq id l x : x ∈ list_remove_first id l -> x ∈ l.
Proof.
  induction l as [|y l IH]; simpl; [done|]. case_bool_decide.
  - intros ?. by right.
  - intros [->|?]%elem_of_cons; [left|right; auto].
Qed.

Lemma list_remove_first_nodup id l :
  NoDup l -> NoDup (list_remove_first id l) /\ id ∉ list_remove_first id l.
Proof.
  induction 1 as [|y l Hy Hnd [IH1 IH2]]; simpl.
  - split; [constructor|apply not_elem_of_nil].
  - case_bool_decide as Hyid.
    + subst. done.
    + split.
      * apply NoDup_cons. split; [|done]. intros Hin. by apply Hy, (list_remove_first_subseteq id).
      * rewrite not_elem_of_cons. split; [congruence|done].
Qed.

Lemma remove_wf id s : wf s -> wf (remove id s).2.
Proof.
  destruct s as [np seed planes buckets idv]. intros Hwf.
  unfold remove, bind, get_state. simpl.
  destruct (dict_get id idv) as [vn|] eqn:Hid; [|done].
  unfold modify. simpl.
  destruct Hwf as [Hst Hnd Hk Hp]. cbn [_buckets _id_to_vec _planes _num_planes] in *.
  set (s := mk np seed planes buckets idv) in *.
  remember (_hash s vn) as key eqn:Ekey.
  assert (Hkey : forall key' b, buckets !! key' = Some b -> id ∈ b -> key' = key).
  { intros key' b Hb Hin. destruct (Hst _ _ _ Hb Hin) as (v & Hv & Hhv).
    rewrite Hid in Hv. injection Hv as <-. by rewrite <- Hhv. }
  assert (Hp' : planes = [] -> np = 0 \/ dict_del id idv = []).
  { intros Hpl. destruct (Hp Hpl) as [?| ->]; [by left|by right]. }
  assert (Hother : forall key' b id0, buckets !! key' = Some b -> id0 ∈ b -> id0 <> id ->
            exists v, dict_get id0 (dict_del id idv) = Some v /\ _hash s v = key').
  { intros key' b id0 Hb Hin Hne. destruct (Hst _ _ _ Hb Hin) as (v & Hv & Hhv).
    exists v. by rewrite dict_get_del_ne. }
  destruct (buckets !! key) as [bucket|] eqn:Hbucket.
  - case_bool_decide as Hin.
    + destruct (list_remove_first_nodup id bucket (Hnd _ _ Hbucket)) as [Hnd' Hnotin].
      assert (Hwf' : forall bs, (forall key' b, bs !! key' = Some b ->
                  (key' = key /\ b = list_remove_first id bucket) \/ (key' <> key /\ buckets !! key' = Some b)) ->
                wf (mk np seed planes bs (dict_del id idv))).
      { intros bs Hbs. split; cbn [_buckets _id_to_vec _planes _num_planes]; try done.
        - intros key' b id0 Hb Hin0.
          destruct (Hbs _ _ Hb) as [[-> ->]|[Hne Hb']].
          + apply (Hother key bucket); [done|by eapply list_remove_first_subseteq|].
            intros ->. done.
          + apply (Hother key' b); [done|done|]. intros ->. apply Hne. by eapply Hkey.
        - intros key' b Hb. destruct (Hbs _ _ Hb) as [[-> ->]|[Hne Hb']]; [done|by eapply Hnd].
        - by apply dict_del_keys_nodup. }
      destruct (list_remove_first id bucket) eqn:Hrem; simpl; apply Hwf'.
      * intros key' b. rewrite lookup_delete. case_decide; [done|]. intros ?. by right.
      * intros key' b. rewrite lookup_insert. case_decide as Hk'.
        -- intros [= <-]. left. by rewrite <- Hk'.
        -- intros ?. by right.
    + unfold ret. simpl. split; cbn [_buckets _id_to_vec _planes _num_planes]; try done.
      * intros key' b id0 Hb Hin0. apply (Hother key' b); [done|done|].
        intros ->. simpl in Hb. pose proof (Hkey _ _ Hb Hin0) as Ek.
        rewrite Ek, Hbucket in Hb. by simplify_eq.
      * by apply dict_del_keys_nodup.
  - unfold ret. simpl. split; cbn [_buckets _id_to_vec _planes _num_planes]; try done.
    + intros key' b id0 Hb Hin0. apply (Hother key' b); [done|done|].
      intros ->. simpl in Hb. pose proof (Hkey _ _ Hb Hin0) as Ek.
      rewrite Ek, Hbucket in Hb. done.
    + by apply dict_del_keys_nodup.
Qed.

Lemma update_wf id v s : wf s -> wf (update gauss id v s).2.
Proof.
  intros Hwf. unfold update, bind.
  pose proof (remove_wf id s Hwf) as Hr.
  destruct (remove id s) as [[[]|e] s']; simpl in *; [|done].
  by apply add_wf.
Qed.

Lemma run_op_wf o s : build_args_ok o -> wf s -> wf (run_op gauss o s).2.
Proof.
  destruct o; simpl.
  - intros Hnd _. by apply build_wf.
  - intros _. apply add_wf.
  - intros _. apply remove_wf.
  - intros _. apply update_wf.
Qed.

(** The invariant holds after every sequence of calls. *)
Lemma run_wf ops np seed :
  Forall build_args_ok ops -> wf (run gauss ops (init np seed)).
Proof.
  intros Hops. unfold run. generalize (init_wf np seed). generalize (init np seed).
  induction Hops as [|o ops Ho _ IH]; intros s Hwf; [done|].
  simpl. apply IH. by apply run_op_wf.
Qed.

End WithRandom.

Lemma score_all_ok s q cands :
  (forall cid, cid ∈ cands -> is_Some (dict_get cid (_id_to_vec s))) ->
  exists ps, score_all s q cands = Ok ps /\ length ps = length cands.
Proof.
  induction cands as [|cid cands IH]; intros Hc; simpl.
  - by exists [].
  - destruct (Hc cid) as [v ->]; [left|].
    destruct IH as (ps & -> & Hlen); [intros; apply Hc; by right|].
    simpl. eexists. split; [done|]. simpl. by rewrite Hlen.
Qed.

Lemma score_all_pairs s q (l : pydict (list R)) :
  (forall p, p ∈ l -> dict_get p.1 (_id_to_vec s) = Some p.2) ->
  score_all s q (dict_keys l) =
  Ok (map (fun p : string * list R => (p.1, cosine_similarity q p.2)) l).
Proof.
  induction l as [|[id v] l IH]; intros Hl; simpl; [done|].
  pose proof (Hl (id, v)) as Hv. simpl in Hv. rewrite Hv by left. simpl.
  change (map fst l) with (dict_keys l). rewrite IH; [done|]. intros p Hp. apply Hl. by right.
Qed.

Lemma py_take_nonempty {A} (k : Z) (l : list A) : (1 <= k)%Z -> l <> [] -> py_take k l <> [].
Proof.
  intros Hk Hl. unfold py_take. destruct l as [|x l]; [done|].
  destruct (Z.to_nat (Z.max 0 k)) eqn:Hn; [lia|done].
Qed.

(** In a state that satisfies the invariant and stores a vector,
    [search] with [k >= 1] returns a pair. *)
Lemma search_nonempty_wf (s : t) (query : list R) (k : Z) :
  wf s -> 0 < RandomHyperplaneLSHIndex.size s -> (1 <= k)%Z ->
  exists r, search s query k = Ok r /\ r <> [] /\
    (bucket_candidates s query = [] -> r = rank_all s query k).
Proof.
  intros Hwf Hsize Hk. unfold search, rank_all.
  destruct (Z.leb_spec k 0) as [?|_]; [lia|].
  unfold RandomHyperplaneLSHIndex.size in Hsize.
  destruct (_id_to_vec s) as [|p0 idv] eqn:Hidv; [simpl in Hsize; lia|].
  fold (bucket_candidates s query). rewrite <- Hidv.
  destruct (bucket_candidates s query) as [|c cands] eqn:Hcands.
  - rewrite score_all_pairs.
    2:{ intros [id v] Hp. by apply dict_get_elem; [apply Hwf|]. }
    simpl. eexists. split; [done|]. split; [|done].
    apply py_take_nonempty; [done|]. intros Hnil.
    apply (f_equal length) in Hnil. rewrite sort_by_key_length, length_map, Hidv in Hnil. done.
  - destruct (score_all_ok s (normalize query) (c :: cands)) as (ps & -> & Hlen).
    { intros cid Hin. unfold bucket_candidates in Hcands.
      destruct (_planes s); [done|].
      destruct (_buckets s !! _hash s (normalize query)) as [b|] eqn:Hb; [|done].
      simpl in Hcands. subst b.
      destruct (buckets_stored _ Hwf _ _ _ Hb Hin) as (v & -> & _). done. }
    simpl. eexists. split; [done|]. split; [|done].
    apply py_take_nonempty; [done|]. intros Hnil.
    apply (f_equal length) in Hnil. rewrite sort_by_key_length, Hlen in Hnil. done.
Qed.

(** C5 (as amended): in every state that a sequence of [build], [add],
    [remove] and [update] calls, no [build] being given an id twice, leaves
    of a new index and that stores at least one vector, [search] with
    [k >= 1] returns at least one pair; when the query's bucket offers no
    candidate the result is the ranking of all stored ids by cosine
    similarity to the normalised query. *)
Theorem lsh_search_nonempty (gauss : Z -> nat -> R) (ops : list (op))
    (num_planes : nat) (seed : Z) (query : list R) (k : Z) :
  Forall build_args_ok ops ->
  0 < RandomHyperplaneLSHIndex.size (run gauss ops (init num_planes seed)) ->
  (1 <= k)%Z ->
  exists r, search (run gauss ops (init num_planes seed)) query k = Ok r /\ r <> [] /\
    (bucket_candidates (run gauss ops (init num_planes seed)) query = [] ->
     r = rank_all (run gauss ops (init num_planes seed)) query k).
Proof.
  intros Hops Hsize Hk. apply search_nonempty_wf; [by apply run_wf|done|done].
Qed.

(** What the calls do to the stored vectors. *)
Lemma add_vectors gauss v id s :
  _id_to_vec (add gauss v id s).2 =
  match dict_get id (_id_to_vec s) with
  | Some _ => _id_to_vec s
  | None => dict_set id (normalize v) (_id_to_vec s)
  end.
Proof.
  unfold add, bind, get_state, modify. cbn [fst snd].
  destruct (dict_get id (_id_to_vec s)); [done|]. cbn.
  by destruct (_planes s).
Qed.

Lemma remove_vectors id s :
  _id_to_vec (remove id s).2 =
  match dict_get id (_id_to_vec s) with
  | Some _ => dict_del id (_id_to_vec s)
  | None => _id_to_vec s
  end.
Proof.
  unfold remove, bind, get_state, modify. cbn [fst snd].
  destruct (dict_get id (_id_to_vec s)) as [vn|]; [|done]. cbn.
  destruct (_buckets s !! _hash s vn) as [bucket|]; [|done].
  case_bool_decide; [|done]. by destruct (list_remove_first id bucket).
Qed.

Lemma remove_result id s :
  (remove id s).1 = match dict_get id (_id_to_vec s) with
                    | Some _ => Ok tt
                    | None => Raise KeyError
                    end.
Proof.
  unfold remove, bind, get_state, modify. cbn [fst snd].
  destruct (dict_get id (_id_to_vec s)) as [vn|]; [|done]. cbn.
  destruct (_buckets s !! _hash s vn) as [bucket|]; [|done].
  case_bool_decide; [|done]. by destruct (list_remove_first id bucket).
Qed.

Lemma update_vectors gauss id v s :
  _id_to_vec (update gauss id v s).2 =
  match dict_get id (_id_to_vec s) with
  | Some _ => _id_to_vec (add gauss v id (remove id s).2).2
  | None => _id_to_vec s
  end.
Proof.
  unfold update, bind. pose proof (remove_result id s) as Hr.
  pose proof (remove_vectors id s) as Hv.
  destruct (remove id s) as [[[]|e] s1]; cbn [fst snd] in *;
    destruct (dict_get id (_id_to_vec s)); done.
Qed.

Lemma witness_state_size :
  let gauss := fun (_ : Z) (_ : nat) => 1%R in
  RandomHyperplaneLSHIndex.size
    (run gauss [Add [3; 4]%R "a"; Add [0; 2]%R "b"; Remove "a"; Update "b" [1; 1]%R;
                Add [-3; -4]%R "c"] (init 2 42)) = 2.
Proof.
  intros gauss. unfold RandomHyperplaneLSHIndex.size, run.
  cbn [fold_left run_op snd].
  rewrite add_vectors, update_vectors, add_vectors, !remove_vectors, !add_vectors.
  reflexivity.
Qed.

Lemma lsh_search_nonempty_witness :
  let gauss := fun (_ : Z) (_ : nat) => 1%R in
  let ops := [Add [3; 4]%R "a"; Add [0; 2]%R "b"; Remove "a"; Update "b" [1; 1]%R;
              Add [-3; -4]%R "c"] in
  exists r, search (run gauss ops (init 2 42)) [3; 4]%R 1 = Ok r /\ r <> [] /\
    (bucket_candidates (run gauss ops (init 2 42)) [3; 4]%R = [] ->
     r = rank_all (run gauss ops (init 2 42)) [3; 4]%R 1).
Proof.
  intros gauss ops. apply (lsh_search_nonempty gauss ops 2 42 [3; 4]%R 1).
  - by repeat constructor.
  - unfold ops, gauss. rewrite witness_state_size. lia.
  - lia.
Defined.

(** The fallback at work on a state that two calls leave: the vector
    [(3, 4)] is filed under the key of its sign pattern, the query
    [(-3, -4)] has the opposite pattern and finds no bucket, and [search]
    ranks every stored id. *)
Example lsh_search_falls_back :
  let gauss := fun (_ : Z) (_ : nat) => 1%R in
  let s := run gauss [Add [3; 4]%R "a"; Add [6; 8]%R "b"] (init 2 42) in
  let q := [-3; -4]%R in
  bucket_candidates s q = [] /\
  search s q 1 = Ok (rank_all s q 1) /\
  exists first, rank_all s q 1 = [first].
Proof.
  intros gauss s q.
  set (plane := normalize [1; 1]%R).
  set (n := l2_norm [1; 1]%R).
  assert (Hn : (0 < n)%R).
  { pose proof (l2_norm_nonneg [1; 1]%R) as H0. pose proof (l2_norm_sq [1; 1]%R) as Hsq.
    rewrite !dot_cons, dot_nil_l in Hsq. fold n in H0, Hsq. nra. }
  assert (Hplane : plane = [1 / n; 1 / n]%R).
  { unfold plane. rewrite normalize_nonzero; [done|]. fold n. lra. }
  assert (Hinv : (0 < 1 / n)%R) by (apply Rdiv_lt_0_compat; lra).
  assert (Ha : normalize [3; 4]%R = [3 / 5; 4 / 5]%R).
  { rewrite (normalize_exact _ 5%R); [done|lra|]. rewrite !dot_cons, dot_nil_l. lra. }
  assert (Hb : normalize [6; 8]%R = [6 / 10; 8 / 10]%R).
  { rewrite (normalize_exact _ 10%R); [done|lra|]. rewrite !dot_cons, dot_nil_l. lra. }
  assert (Hq : normalize [-3; -4]%R = [-3 / 5; -4 / 5]%R).
  { rewrite (normalize_exact _ 5%R); [done|lra|]. rewrite !dot_cons, dot_nil_l. lra. }
  assert (Hpos : forall x y, (0 < x)%R -> (0 < y)%R -> Rleb 0 (dot [x; y] plane) = true).
  { intros x y Hx Hy. apply Rleb_true. rewrite Hplane, !dot_cons, dot_nil_l. nra. }
  assert (Hneg : forall x y, (x < 0)%R -> (y < 0)%R -> Rleb 0 (dot [x; y] plane) = false).
  { intros x y Hx Hy. destruct (Rleb 0 (dot [x; y] plane)) eqn:E; [|done].
    apply Rleb_true in E. rewrite Hplane, !dot_cons, dot_nil_l in E. nra. }
  assert (Hs : s = mk 2 42 [plane; plane]
                 (<["11"%string := ["a"; "b"]%string]> ∅)
                 [("a"%string, [3 / 5; 4 / 5]%R); ("b"%string, [6 / 10; 8 / 10]%R)]).
  { unfold s, run. cbn [fold_left run_op].
    assert (H1 : (add gauss [3; 4]%R "a" (init 2 42)).2 =
                 mk 2 42 [plane; plane] (<["11"%string := ["a"%string]]> ∅)
                    [("a"%string, [3 / 5; 4 / 5]%R)]).
    { unfold add, bind, get_state, modify, _init_planes, init.
      cbn -[normalize dot Rleb]. rewrite normalize_length. cbn -[normalize dot Rleb].
      fold plane. rewrite Ha. rewrite !Hpos by lra.
      unfold bucket_append. rewrite lookup_empty. reflexivity. }
    rewrite H1.
    unfold add, bind, get_state, modify. cbn -[normalize dot Rleb].
    rewrite !bool_decide_eq_false_2 by done. cbn -[normalize dot Rleb].
    rewrite Hb. rewrite !Hpos by lra.
    unfold bucket_append. rewrite lookup_insert_eq. cbn [default app].
    rewrite insert_insert_eq. reflexivity. }
  assert (Hkey : _hash s (normalize q) = "00"%string).
  { rewrite Hs. unfold q. rewrite Hq. cbn [_hash _planes fold_right].
    by rewrite !Hneg by lra. }
  assert (Hcands : bucket_candidates s q = []).
  { unfold bucket_candidates. rewrite Hkey. rewrite Hs. cbn [_planes _buckets].
    by rewrite lookup_insert_ne. }
  split; [done|].
  destruct (search_nonempty_wf s q 1) as (r & Hr & Hne & Hfall).
  { apply (run_wf gauss). by repeat constructor. }
  { rewrite Hs. unfold RandomHyperplaneLSHIndex.size. simpl. lia. }
  { lia. }
  rewrite Hr, (Hfall Hcands). split; [done|].
  unfold rank_all, py_take. rewrite Hs. cbn [_id_to_vec map].
  match goal with |- context [sort_by_key ?f ?b ?l] =>
    pose proof (sort_by_key_length f b l) as Hlen;
    destruct (sort_by_key f b l) as [|x [|y t]]; simpl in Hlen; try lia end.
  by exists x.
Qed.

(** An id that [build] is given twice is filed twice; [remove] takes one
    of the two entries away and forgets the vector, and the next [search]
    with the same vector as query meets the entry that is left. *)
Lemma stale_bucket_after_duplicate_build (gauss : Z -> nat -> R) (n : nat) (seed : Z) (v0 w : list R) (k : Z) :
  (1 <= k)%Z ->
  let s := run gauss [Build [v0; v0] ["a"; "a"]%string; Remove "a"; Add w "b"] (init (S n) seed) in
  RandomHyperplaneLSHIndex.size s = 1 /\ search s v0 k = Raise KeyError.
Proof.
  intros Hk s.
  set (planes := map (fun i => normalize (map (fun j => gauss seed (i * length v0 + j))
                                            (seq 0 (length v0)))) (seq 0 (S n))).
  assert (Hplanes : planes <> []) by done.
  set (vn := normalize v0).
  set (key0 := _hash (mk (S n) seed planes ∅ []) vn).
  assert (Hs1 : (build gauss [v0; v0] ["a"; "a"]%string (init (S n) seed)).2 =
                mk (S n) seed planes (<[key0 := ["a"; "a"]%string]> ∅) [("a"%string, vn)]).
  { transitivity (mk (S n) seed planes
                    (bucket_append key0 "a" (bucket_append key0 "a" ∅))
                    (dict_set "a" vn (dict_set "a" vn []))); [reflexivity|].
    unfold bucket_append. rewrite lookup_empty. cbn [default app].
    rewrite lookup_insert_eq. cbn [default app]. rewrite insert_insert_eq.
    reflexivity. }
  assert (Hs2 : (remove "a" (mk (S n) seed planes (<[key0 := ["a"; "a"]%string]> ∅)
                               [("a"%string, vn)])).2 =
                mk (S n) seed planes (<[key0 := ["a"%string]]> ∅) []).
  { unfold remove, bind, get_state, modify. cbn [fst snd _id_to_vec].
    change (dict_get "a" [("a"%string, vn)]) with (Some vn).
    change (_hash _ vn) with key0. cbn [_buckets].
    rewrite lookup_insert_eq. rewrite bool_decide_eq_true_2 by left.
    cbn [list_remove_first]. rewrite bool_decide_eq_true_2 by done.
    cbn. rewrite insert_insert_eq. done. }
  set (key1 := _hash (mk (S n) seed planes ∅ []) (normalize w)).
  assert (Hs3 : s = mk (S n) seed planes
                      (bucket_append key1 "b" (<[key0 := ["a"%string]]> ∅))
                      [("b"%string, normalize w)]).
  { unfold s, run. cbn [fold_left run_op]. rewrite Hs1, Hs2.
    unfold planes. reflexivity. }
  rewrite Hs3. split; [done|].
  unfold search. destruct (Z.leb_spec k 0); [lia|]. cbn [_id_to_vec _planes _buckets].
  change (_hash _ (normalize v0)) with key0.
  assert (Hcands : exists rest, default [] (bucket_append key1 "b" (<[key0 := ["a"%string]]> ∅) !! key0)
                                = "a"%string :: rest).
  { unfold bucket_append. destruct (decide (key1 = key0)) as [->|Hne].
    - rewrite !lookup_insert_eq. cbn. by eexists.
    - rewrite lookup_insert_ne by done. rewrite lookup_insert_eq. cbn. by eexists. }
  destruct Hcands as [rest ->]. unfold planes. reflexivity.
Qed.

(** C5 as stated fails: after [build] has been given the id [a] twice,
    [remove] of [a] and [add] of [b] leave a state that stores one vector and
    in which [search] raises [KeyError]. *)
Lemma lsh_search_raises_on_stale_id :
  let gauss := fun (_ : Z) (_ : nat) => 1%R in
  let s := run gauss [Build [[1; 0]; [1; 0]]%R ["a"; "a"]%string; Remove "a";
                      Add [0; 1]%R "b"] (init 2 42) in
  RandomHyperplaneLSHIndex.size s = 1 /\ search s [1; 0]%R 1 = Raise KeyError.
Proof.
  intros gauss s. apply (stale_bucket_after_duplicate_build gauss 1 42 [1; 0]%R [0; 1]%R 1).
  lia.
Qed.

End LSHFacts.

Module KDTreeFacts.
Import KDTreeIndex KDTreeSpec VectorFacts.

Implicit Types (best seen : list candidate) (c : candidate) (k : Z).

Lemma last_snoc_inv {A} (l : list A) : l <> [] -> exists l' x, l = l' ++ [x].
Proof.
  intros H. destruct (exists_last H) as (l' & x & ->). by exists l', x.
Qed.

Lemma py_getitem_last {A} (l : list A) x : py_getitem (l ++ [x]) (-1) = Ok x.
Proof.
  unfold py_getitem, py_index. rewrite length_app. simpl.
  destruct (Z.leb_spec 0 (-1)); [lia|]. simpl.
  destruct (Z.ltb_spec (-1) 0); [|lia].
  destruct (Z.leb_spec 0 (-1 + Z.of_nat (length l + 1))); [|lia]. simpl.
  replace (Z.to_nat (-1 + Z.of_nat (length l + 1))) with (length l) by lia.
  by rewrite list_lookup_middle.
Qed.

Lemma sorted_snoc_max (l : list candidate) m :
  StronglySorted (key_le fst false) (l ++ [m]) -> forall b, b ∈ l ++ [m] -> (b.1 <= m.1)%R.
Proof.
  induction l as [|x l IH]; simpl; intros Hs b Hb.
  - apply list_elem_of_singleton in Hb as ->. lra.
  - apply StronglySorted_inv in Hs as [Hs Hx].
    apply elem_of_cons in Hb as [->|Hb]; [|by apply IH].
    rewrite Forall_forall in Hx. apply (Hx m). apply elem_of_app. right. left.
Qed.

Lemma sorted_app_l {A} (R : A -> A -> Prop) (l1 l2 : list A) :
  StronglySorted R (l1 ++ l2) -> StronglySorted R l1.
Proof.
  induction l1 as [|x l1 IH]; simpl; [constructor|].
  intros [Hs Hx]%StronglySorted_inv. constructor; [by apply IH|].
  by apply Forall_app in Hx as [? _].
Qed.

Lemma best_of_nil k : (0 <= k)%Z -> best_of k [] [].
Proof.
  intros Hk. split.
  - constructor.
  - simpl. lia.
  - done.
  - intros c Hc. by apply elem_of_nil in Hc.
Qed.

(** Appending a candidate, sorting and trimming keeps [best_of]. *)
Lemma push_best_of k best seen c :
  (1 <= k)%Z -> best_of k best seen -> best_of k (push k best c) (seen ++ [c]).
Proof.
  intros Hk [Hsorted Hlen Hseen Hnear]. unfold push.
  pose proof (sort_by_key_sorted fst false (best ++ [c])) as Hs.
  pose proof (sort_by_key_perm fst false (best ++ [c])) as Hp.
  pose proof (sort_by_key_length fst false (best ++ [c])) as Hl.
  rewrite length_app in Hl. simpl in Hl.
  set (sorted := sort_by_key fst false (best ++ [c])) in *.
  destruct (Z.ltb_spec k (Z.of_nat (length sorted))) as [Hfull|Hroom].
  - assert (Hk' : Z.of_nat (length best) = k) by lia.
    destruct (last_snoc_inv sorted) as (kept & m & Hsplit).
    { intros E. rewrite E in Hl. simpl in Hl. lia. }
    rewrite Hsplit in *. rewrite removelast_last.
    rewrite length_app in Hl. simpl in Hl.
    assert (Hmax : forall b, b ∈ kept -> (b.1 <= m.1)%R).
    { intros b Hb. apply (sorted_snoc_max kept m Hs). apply elem_of_app. by left. }
    assert (Hm : m ∈ best ++ [c]).
    { rewrite <- Hp. apply elem_of_app. right. left. }
    assert (Hkept : forall b, b ∈ kept -> b ∈ best ++ [c]).
    { intros b Hb. rewrite <- Hp. apply elem_of_app. by left. }
    (* every kept entry is no farther than any candidate left out earlier *)
    assert (Hold : forall e : candidate, (forall b, b ∈ best -> (b.1 <= e.1)%R) ->
                   forall b, b ∈ kept -> (b.1 <= e.1)%R).
    { intros e He b Hb. destruct (proj1 (elem_of_app _ _ _) (Hkept b Hb)) as [?|Hbc]; [by apply He|].
      apply list_elem_of_singleton in Hbc as ->.
      destruct (proj1 (elem_of_app _ _ _) Hm) as [Hmb|Hmc].
      - specialize (He m Hmb). specialize (Hmax c Hb). lra.
      - apply list_elem_of_singleton in Hmc as ->.
        apply Permutation_app_inv_r in Hp. apply He. by rewrite <- Hp. }
    split.
    + by eapply sorted_app_l.
    + lia.
    + intros b Hb. destruct (proj1 (elem_of_app _ _ _) (Hkept b Hb)) as [?|?].
      * apply elem_of_app. left. by apply Hseen.
      * apply elem_of_app. by right.
    + intros e He.
      assert (Hcases : e ∈ best ++ [c] \/ (forall b, b ∈ best -> (b.1 <= e.1)%R)).
      { apply elem_of_app in He as [He|He]; [|left; apply elem_of_app; by right].
        destruct (Hnear e He) as [?|[_ ?]]; [left; apply elem_of_app; by left|by right]. }
      destruct Hcases as [Hin|Hfar].
      * rewrite <- Hp in Hin. apply elem_of_app in Hin as [?|Hem]; [by left|].
        apply list_elem_of_singleton in Hem as ->. right. split; [lia|done].
      * right. split; [lia|]. by apply Hold.
  - split.
    + done.
    + lia.
    + intros b Hb. rewrite Hp in Hb. apply elem_of_app in Hb as [?|?]; apply elem_of_app; auto.
    + intros e He. left. rewrite Hp.
      apply elem_of_app in He as [He|He]; apply elem_of_app; [|by right].
      left. destruct (Hnear e He) as [?|[Hk' _]]; [done|lia].
Qed.

(** Candidates that cannot improve a full list may be skipped. *)
Lemma skip_best_of k best seen far :
  best_of k best seen -> Z.of_nat (length best) = k ->
  (forall c b, c ∈ far -> b ∈ best -> (b.1 <= c.1)%R) ->
  best_of k best (seen ++ far).
Proof.
  intros [Hsorted Hlen Hseen Hnear] Hk Hfar. split; try done.
  - intros c Hc. apply elem_of_app. left. by apply Hseen.
  - intros c [Hc|Hc]%elem_of_app; [by apply Hnear|].
    right. split; [done|]. intros b Hb. by apply Hfar.
Qed.

Lemma best_of_equiv k best seen seen' :
  (forall c, c ∈ seen <-> c ∈ seen') -> best_of k best seen -> best_of k best seen'.
Proof.
  intros Heq [Hsorted Hlen Hseen Hnear]. split; try done.
  - intros c Hc. by apply Heq, Hseen.
  - intros c Hc. by apply Hnear, Heq.
Qed.

Lemma kd_inv_lengths d nd : kd_inv d nd -> Forall (fun x : item => length x.1 = d) (tree_items nd).
Proof.
  induction nd as [|point id axis l IHl r IHr]; simpl; [constructor|].
  intros (_ & Hp & _ & _ & Hl & Hr). constructor; [done|].
  apply Forall_app. split; auto.
Qed.

Lemma coord_lookup axis (v : list R) x : v !! axis = Some x -> coord axis v = x.
Proof. unfold coord. by intros ->. Qed.

(** A point on the far side of the splitting plane is at least [delta] away. *)
Lemma far_side_distance (q p x : list R) axis qa pa d :
  length x = d -> axis < d -> q !! axis = Some qa -> p !! axis = Some pa ->
  (if Rltb (qa - pa) 0 then (pa <= coord axis x)%R else (coord axis x <= pa)%R) ->
  ((qa - pa) * (qa - pa) <= _distance_sq q x)%R.
Proof.
  intros Hlen Hax Hq Hp Hside.
  destruct (lookup_lt_is_Some_2 x axis) as [xa Hx]; [lia|].
  rewrite (coord_lookup _ _ _ Hx) in Hside.
  pose proof (distance_sq_coord q x axis qa xa Hq Hx) as Hd.
  destruct (Rltb (qa - pa) 0) eqn:Hc.
  - apply Rltb_true in Hc. nra.
  - apply Rltb_false in Hc. nra.
Qed.

Lemma search_node_push point id axis l r q k best :
  _search_node (Node point id axis l r) q k best =
  let best := push k best (scored q (point, id)) in
  match q !! axis, point !! axis with
  | Some qa, Some pa =>
      let delta := (qa - pa)%R in
      let go_left := Rltb delta 0 in
      rbind (_search_node (if go_left then l else r) q k best) (fun best =>
      rbind (explore_far k delta best) (fun explore =>
      if explore : bool then _search_node (if go_left then r else l) q k best else Ok best))
  | _, _ => Raise IndexError
  end.
Proof. reflexivity. Qed.

(** [_search_node] returns, and leaves in [best] the [k] nearest of the
    candidates it was given and the points of the subtree. *)
Lemma search_node_best_of d nd q k best seen :
  kd_inv d nd -> length q = d -> (1 <= k)%Z -> best_of k best seen ->
  exists best', _search_node nd q k best = Ok best' /\
    best_of k best' (seen ++ map (scored q) (tree_items nd)).
Proof.
  intros Hinv Hq Hk. revert best seen Hinv.
  induction nd as [|point id axis l IHl r IHr]; intros best seen Hinv Hbest.
  - exists best. split; [done|]. simpl. by rewrite app_nil_r.
  - destruct Hinv as (Hax & Hplen & Hleft & Hright & Hinvl & Hinvr).
    rewrite search_node_push. cbv zeta.
    destruct (lookup_lt_is_Some_2 q axis) as [qa Hqa]; [lia|].
    destruct (lookup_lt_is_Some_2 point axis) as [pa Hpa]; [lia|].
    rewrite Hqa, Hpa.
    set (c := scored q (point, id)).
    pose proof (push_best_of k best seen c Hk Hbest) as Hbest1.
    set (go_left := Rltb (qa - pa) 0).
    set (near := if go_left then l else r).
    set (far := if go_left then r else l).
    assert (Hnear : kd_inv d near) by (subst near; by destruct go_left).
    assert (Hfar : kd_inv d far) by (subst far; by destruct go_left).
    assert (IHnear : forall best seen, kd_inv d near -> best_of k best seen ->
              exists best', _search_node near q k best = Ok best' /\
                best_of k best' (seen ++ map (scored q) (tree_items near))).
    { subst near. by destruct go_left. }
    assert (IHfar : forall best seen, kd_inv d far -> best_of k best seen ->
              exists best', _search_node far q k best = Ok best' /\
                best_of k best' (seen ++ map (scored q) (tree_items far))).
    { subst far. by destruct go_left. }
    assert (Hside : Forall (fun x : item =>
              if go_left then (pa <= coord axis x.1)%R else (coord axis x.1 <= pa)%R)
              (tree_items far)).
    { subst far go_left. rewrite (coord_lookup _ _ _ Hpa) in Hleft, Hright.
      by destruct (Rltb (qa - pa) 0). }
    assert (Hmem : forall e, e ∈ ((seen ++ [c]) ++ map (scored q) (tree_items near)) ++
                               map (scored q) (tree_items far) <->
                       e ∈ seen ++ map (scored q) (tree_items (Node point id axis l r))).
    { intros e. simpl. fold c. rewrite map_app.
      repeat (rewrite elem_of_app || rewrite elem_of_cons || rewrite elem_of_nil).
      subst near far. destruct go_left; tauto. }
    destruct (IHnear _ _ Hnear Hbest1) as (best2 & -> & Hbest2). simpl.
    assert (Hdone : forall best3,
              best_of k best3 (((seen ++ [c]) ++ map (scored q) (tree_items near)) ++
                               map (scored q) (tree_items far)) ->
              best_of k best3 (seen ++ map (scored q) (tree_items (Node point id axis l r)))).
    { intros best3. by apply best_of_equiv. }
    unfold explore_far.
    destruct (Z.ltb_spec (Z.of_nat (length best2)) k) as [Hroom|Hfull]; simpl.
    { destruct (IHfar _ _ Hfar Hbest2) as (best3 & -> & Hbest3). eauto. }
    destruct (last_snoc_inv best2) as (kept & worst & ->).
    { intros ->. simpl in Hfull. lia. }
    rewrite py_getitem_last. simpl.
    destruct (Rltb ((qa - pa) * (qa - pa)) worst.1) eqn:Hcmp.
    { destruct (IHfar _ _ Hfar Hbest2) as (best3 & -> & Hbest3). eauto. }
    eexists. split; [done|]. apply Hdone.
    apply skip_best_of; [done| |].
    + pose proof (best_length _ _ _ Hbest2). lia.
    + intros e b He Hb. apply Rltb_false in Hcmp.
      pose proof (sorted_snoc_max kept worst (best_sorted _ _ _ Hbest2) b Hb) as Hbw.
      apply list_elem_of_fmap in He as (x & -> & Hx). simpl.
      rewrite Forall_forall in Hside. specialize (Hside x Hx).
      pose proof (kd_inv_lengths d far Hfar) as Hlens. rewrite Forall_forall in Hlens.
      pose proof (far_side_distance q point x.1 axis qa pa d (Hlens x Hx) Hax Hqa Hpa Hside).
      lra.
Qed.

(** *** [_build_recursive] *)

Lemma keys_of_total {A} (key : A -> result R) (f : A -> R) (l : list A) :
  (forall x, x ∈ l -> key x = Ok (f x)) ->
  keys_of key l = Ok (map (fun x => (f x, x)) l).
Proof.
  induction l as [|x l IH]; intros Hk; simpl; [done|].
  rewrite (Hk x) by left. simpl. rewrite IH; [done|]. intros y Hy. apply Hk. by right.
Qed.

Lemma sorted_decorated {A} (f : A -> R) (kl : list (R * A)) :
  StronglySorted (key_le fst false) kl -> Forall (fun p => p.1 = f p.2) kl ->
  StronglySorted (key_le f false) (map snd kl).
Proof.
  induction 1 as [|p kl Hs IH Hp]; intros Hf; simpl; [constructor|].
  apply Forall_cons in Hf as [Hfp Hf]. constructor; [by apply IH|].
  rewrite Forall_forall in Hp, Hf. rewrite Forall_forall. intros y Hy.
  apply list_elem_of_fmap in Hy as (p' & -> & Hp').
  specialize (Hp _ Hp'). specialize (Hf _ Hp'). unfold key_le in *. simpl in *. lra.
Qed.

Lemma sort_by_partial_key_total {A} (key : A -> result R) (f : A -> R) (l : list A) :
  (forall x, x ∈ l -> key x = Ok (f x)) ->
  exists sorted, sort_by_partial_key key l = Ok sorted /\ sorted ≡ₚ l /\
    StronglySorted (key_le f false) sorted.
Proof.
  intros Hk. unfold sort_by_partial_key. rewrite (keys_of_total key f l Hk). simpl.
  eexists. split; [done|]. split.
  - rewrite (sort_by_key_perm fst false). rewrite map_map. simpl. by rewrite map_id.
  - apply sorted_decorated; [apply sort_by_key_sorted|].
    rewrite Forall_forall. intros p Hp. rewrite (sort_by_key_perm fst false) in Hp.
    by apply list_elem_of_fmap in Hp as (x & -> & _).
Qed.

Lemma sorted_middle {A} (f : A -> R) (l1 l2 : list A) x :
  StronglySorted (key_le f false) (l1 ++ x :: l2) ->
  Forall (fun y => (f y <= f x)%R) l1 /\ Forall (fun y => (f x <= f y)%R) l2.
Proof.
  induction l1 as [|y l1 IH]; simpl; intros [Hs Hx]%StronglySorted_inv.
  - split; [constructor|done].
  - destruct (IH Hs) as [H1 H2]. split; [|done]. constructor; [|done].
    rewrite Forall_forall in Hx. apply (Hx x). apply elem_of_app. right. left.
Qed.

Lemma build_rec_ok d fuel (items : list item) depth :
  1 <= d -> Forall (fun x : item => length x.1 = d) items -> length items <= fuel ->
  exists nd sorted, build_rec fuel items depth = Ok (nd, sorted) /\
    kd_inv d nd /\ tree_items nd ≡ₚ items /\ sorted ≡ₚ items.
Proof.
  intros Hd. revert items depth.
  induction fuel as [|fuel IH]; intros items depth Hlen Hfuel.
  - destruct items; [|simpl in Hfuel; lia]. by exists Null, [].
  - destruct items as [|first rest]; [by exists Null, []|].
    set (items := first :: rest) in *.
    assert (Hfirst : length first.1 = d) by (by apply Forall_cons in Hlen as [? _]).
    cbn [build_rec]. unfold items at 1. rewrite Hfirst.
    destruct (Nat.eqb_spec d 0) as [?|_]; [lia|].
    set (axis := depth mod d).
    assert (Hax : axis < d) by (apply Nat.mod_upper_bound; lia).
    destruct (sort_by_partial_key_total (axis_key axis) (fun x : item => coord axis x.1) items)
      as (sorted & -> & Hperm & Hsorted).
    { intros x Hx. rewrite Forall_forall in Hlen. unfold axis_key, coord.
      destruct (lookup_lt_is_Some_2 x.1 axis) as [c ->]; [rewrite (Hlen x Hx); lia|]. done. }
    cbn [rbind].
    assert (Hn : length sorted = S (length rest)) by (by rewrite Hperm).
    set (mid := length sorted / 2).
    assert (Hmid : mid < length sorted) by (subst mid; apply Nat.div_lt; lia).
    destruct (lookup_lt_is_Some_2 sorted mid Hmid) as [[point pid] Hpoint].
    rewrite Hpoint.
    assert (Hlens : Forall (fun x : item => length x.1 = d) sorted) by (by rewrite Hperm).
    pose proof (take_drop_middle sorted mid _ Hpoint) as Hsplit.
    destruct (IH (take mid sorted) (depth + 1)) as (l & sl & -> & Hl & Hpl & _).
    { by apply Forall_take. }
    { rewrite length_take. simpl in Hfuel. subst mid.
      pose proof (Nat.div_lt (length sorted) 2). lia. }
    destruct (IH (drop (mid + 1) sorted) (depth + 1)) as (r & sr & -> & Hr & Hpr & _).
    { by apply Forall_drop. }
    { rewrite length_drop. simpl in Hfuel. lia. }
    cbn [rbind fst]. exists (Node point pid axis l r), sorted. split; [done|].
    rewrite <- Hsplit in Hsorted. apply sorted_middle in Hsorted as [Hle Hge].
    replace (mid + 1) with (S mid) in * by lia.
    split; [|split; [|done]].
    + simpl. split; [done|]. split.
      { rewrite Forall_forall in Hlens. apply (Hlens (point, pid)).
        by eapply list_elem_of_lookup_2. }
      split; [by rewrite Hpl|]. split; [by rewrite Hpr|]. done.
    + simpl. rewrite Hpl, Hpr, <- Hperm.
      transitivity (take mid sorted ++ (point, pid) :: drop (S mid) sorted);
        [apply Permutation_middle|by rewrite Hsplit].
Qed.

(** *** [build] followed by [search] *)

Lemma zip_map_l {A B C} (f : A -> C) (l : list A) (k : list B) :
  zip (map f l) k = map (fun p : A * B => (f p.1, p.2)) (zip l k).
Proof.
  revert k. induction l as [|x l IH]; intros [|y k]; simpl; try done. by rewrite IH.
Qed.

Lemma zip_swap {A B} (l : list A) (k : list B) :
  zip k l = map (fun p : A * B => (p.2, p.1)) (zip l k).
Proof.
  revert k. induction l as [|x l IH]; intros [|y k]; simpl; try done. by rewrite IH.
Qed.

Lemma search_nonempty_tree s q k :
  _root s <> Null -> (1 <= k)%Z ->
  search s q k =
  rbind (_search_node (_root s) (normalize q) k []) (fun best =>
    Ok (map (fun c : candidate => (c.2, 1 - c.1 / 2)%R) (py_take k (sort_by_key fst false best)))).
Proof.
  intros Hroot Hk. unfold search. destruct (_root s); [done|].
  destruct (Z.leb_spec k 0); [lia|done].
Qed.

(** The state [build] leaves and what [search] finds in it. *)
Lemma build_search_top1 (vectors : list (list R)) (ids : list string) (q : list R) d s0 :
  1 <= d -> Forall (fun v => length v = d) vectors -> length q = d ->
  (build vectors ids s0).1 = Ok tt /\
  match zip vectors ids with
  | [] => search (build vectors ids s0).2 q 1 = Ok []
  | _ => exists v id,
      (v, id) ∈ zip vectors ids /\
      search (build vectors ids s0).2 q 1 =
        Ok [(id, (1 - _distance_sq (normalize q) (normalize v) / 2)%R)] /\
      (forall v' id', (v', id') ∈ zip vectors ids ->
         (_distance_sq (normalize q) (normalize v) <= _distance_sq (normalize q) (normalize v'))%R)
  end.
Proof.
  intros Hd Hvs Hq. destruct vectors as [|v0 vectors]; [done|].
  set (vs := v0 :: vectors) in *.
  set (items := zip (map normalize vs) ids).
  assert (Hitems : items = map (fun p : list R * string => (normalize p.1, p.2)) (zip vs ids))
    by apply zip_map_l.
  assert (Hlens : Forall (fun x : item => length x.1 = d) items).
  { rewrite Hitems, Forall_fmap, Forall_forall. intros [v id] Hin. simpl.
    rewrite normalize_length. rewrite Forall_forall in Hvs. apply Hvs.
    apply elem_of_zip_l in Hin. done. }
  destruct (build_rec_ok d (length items) items 0 Hd Hlens (le_n _))
    as (nd & sorted & Hbuild & Hinv & Hperm & _).
  assert (Hrun : build vs ids s0 =
            (Ok tt, mk nd (length sorted) (length (normalize v0))
                       (dict_of_list (map (fun x : item => (x.2, x.1)) sorted)))).
  { unfold build, vs. fold vs. unfold bind, modify, lift, _build_recursive.
    fold items. rewrite Hbuild. reflexivity. }
  rewrite Hrun. cbn [fst snd]. split; [reflexivity|].
  destruct (zip vs ids) as [|p0 stored] eqn:Hstored.
  - rewrite Hitems in Hperm. simpl in Hperm. apply Permutation_nil_r in Hperm.
    unfold search. simpl. destruct nd; [done|]. done.
  - assert (Hne : tree_items nd <> []).
    { intros E. rewrite E, Hitems in Hperm. simpl in Hperm.
      by apply Permutation_nil_cons in Hperm. }
    rewrite search_nonempty_tree; [|by destruct nd|lia]. cbn [_root].
    destruct (search_node_best_of d nd (normalize q) 1 [] [] Hinv) as (best & Hsearch & Hbest).
    { by rewrite normalize_length. }
    { lia. }
    { by apply best_of_nil. }
    rewrite Hsearch. simpl in Hbest. cbn [rbind].
    assert (Hseen : forall c, c ∈ map (scored (normalize q)) (tree_items nd) <->
              exists v id, (v, id) ∈ p0 :: stored /\ c = (_distance_sq (normalize q) (normalize v), id)).
    { intros c. rewrite Hperm, Hitems, list_elem_of_fmap. split.
      - intros (x & -> & Hx). apply list_elem_of_fmap in Hx as ([v i] & -> & Hin).
        by exists v, i.
      - intros (v & i & Hin & ->). exists (normalize v, i). split; [done|].
        apply list_elem_of_fmap. by exists (v, i). }
    destruct best as [|c0 [|c1 best]].
    + exfalso. destruct p0 as [v i].
      destruct (best_nearest _ _ _ Hbest (_distance_sq (normalize q) (normalize v), i)) as [Hin|[Hl _]].
      * apply Hseen. exists v, i. split; [left|done].
      * by apply elem_of_nil in Hin.
      * done.
    + pose proof (best_seen _ _ _ Hbest c0 ltac:(left)) as Hc0.
      apply Hseen in Hc0 as (v & i & Hin & ->).
      exists v, i. split; [done|]. split; [done|].
      intros v' i' Hin'.
      destruct (best_nearest _ _ _ Hbest (_distance_sq (normalize q) (normalize v'), i')) as [Hb|[_ Hb]].
      * apply Hseen. by exists v', i'.
      * apply list_elem_of_singleton in Hb. injection Hb as Hb _. rewrite Hb. lra.
      * apply (Hb (_distance_sq (normalize q) (normalize v), i)). left.
    + pose proof (best_length _ _ _ Hbest) as Hl. simpl in Hl. lia.
Qed.

(** *** The brute-force ranking of the same data *)

Lemma sorted_desc_head {A} (key : A -> R) (l : list A) :
  l <> [] -> exists h tl, sort_by_key key true l = h :: tl /\ h ∈ l /\
    forall p, p ∈ l -> (key p <= key h)%R.
Proof.
  intros Hl. pose proof (sort_by_key_sorted key true l) as Hs.
  pose proof (sort_by_key_perm key true l) as Hp.
  destruct (sort_by_key key true l) as [|h tl].
  - apply Permutation_nil_l in Hp. done.
  - exists h, tl. split; [done|]. split; [rewrite <- Hp; left|].
    intros p Hin. rewrite <- Hp in Hin. apply StronglySorted_inv in Hs as [_ Hh].
    apply elem_of_cons in Hin as [->|Hin]; [lra|].
    rewrite Forall_forall in Hh. apply (Hh p Hin).
Qed.

Lemma bf_scores (vectors : list (list R)) (ids : list string) (q : list R) (k : Z) :
  BruteForceIndex.search (BruteForceIndex.build vectors ids (BruteForceIndex.init true)).2 q k =
  py_take k (sort_by_key snd true
    (map (fun p : list R * string => (p.2, cosine_similarity (normalize q) (normalize p.1)))
         (zip vectors ids))).
Proof.
  unfold BruteForceIndex.search, BruteForceIndex.build, bind, gets, modify. simpl.
  do 2 f_equal. rewrite zip_swap, zip_map_l, !map_map. apply map_ext.
  by intros [v id].
Qed.

Lemma bf_top1 (vectors : list (list R)) (ids : list string) (q : list R) :
  zip vectors ids <> [] ->
  exists v id, (v, id) ∈ zip vectors ids /\
    BruteForceIndex.search (BruteForceIndex.build vectors ids (BruteForceIndex.init true)).2 q 1
      = [(id, cosine_similarity (normalize q) (normalize v))] /\
    forall v' id', (v', id') ∈ zip vectors ids ->
      (cosine_similarity (normalize q) (normalize v')
         <= cosine_similarity (normalize q) (normalize v))%R.
Proof.
  intros Hne. rewrite bf_scores.
  destruct (sorted_desc_head snd
    (map (fun p : list R * string => (p.2, cosine_similarity (normalize q) (normalize p.1)))
         (zip vectors ids)))
    as (h & tl & -> & Hh & Hmax).
  { by destruct (zip vectors ids). }
  apply list_elem_of_fmap in Hh as ([v id] & -> & Hin). simpl in *.
  exists v, id. split; [done|]. split; [done|].
  intros v' id' Hin'.
  apply (Hmax (id', cosine_similarity (normalize q) (normalize v'))).
  apply list_elem_of_fmap. by exists (v', id').
Qed.

(** C1 on the code: [search] ranks by [1 - d^2/2], which is the cosine
    similarity only between unit vectors, and [normalize] leaves a vector of
    norm 0 as it is.  With the zero vector [z] and [p = (1, 0)] stored and
    the query [(5, 12)], the build succeeds and [search(q, 1)] returns [z],
    with a score above the cosine similarity of [q] and [p], although the
    cosine similarity of [q] and [z] is 0 and that of [q] and [p] is
    positive; the brute-force index on the same data returns [p]. *)
Theorem kd_zero_vector_wins_top1 :
  let vectors := [[0; 0]; [1; 0]]%R in
  let ids := ["z"; "p"]%string in
  let q := [5; 12]%R in
  let score_z := (1 - _distance_sq (normalize q) (normalize [0; 0]%R) / 2)%R in
  (build vectors ids init).1 = Ok tt /\
  search (build vectors ids init).2 q 1 = Ok [("z"%string, score_z)] /\
  BruteForceIndex.search (BruteForceIndex.build vectors ids (BruteForceIndex.init true)).2 q 1
    = [("p"%string, cosine_similarity (normalize q) (normalize [1; 0]%R))] /\
  cosine_similarity q [0; 0]%R = 0%R /\
  (0 < cosine_similarity q [1; 0]%R)%R /\
  (cosine_similarity (normalize q) (normalize [1; 0]%R) < score_z)%R.
Proof.
  intros vectors ids q score_z. subst vectors ids q score_z.
  assert (Hq : normalize [5; 12]%R = [5 / 13; 12 / 13]%R).
  { rewrite (normalize_exact _ 13%R); [done|lra|]. rewrite !dot_cons, dot_nil_l. lra. }
  assert (Hnz : l2_norm [0; 0]%R = 0%R).
  { rewrite (l2_norm_exact _ 0%R); [done|lra|]. rewrite !dot_cons, dot_nil_l. lra. }
  assert (Hz : normalize [0; 0]%R = [0; 0]%R) by (by rewrite normalize_zero).
  assert (Hp : normalize [1; 0]%R = [1 / 1; 0 / 1]%R).
  { rewrite (normalize_exact _ 1%R); [done|lra|]. rewrite !dot_cons, dot_nil_l. lra. }
  assert (Hcos_p : cosine_similarity [5 / 13; 12 / 13]%R [1 / 1; 0 / 1]%R = (5 / 13)%R).
  { unfold cosine_similarity.
    rewrite (l2_norm_exact [5 / 13; 12 / 13]%R 1%R), (l2_norm_exact [1 / 1; 0 / 1]%R 1%R);
      try lra; try (rewrite !dot_cons, dot_nil_l; lra).
    rewrite (proj2 (Reqb_false 1 0)) by lra. simpl.
    rewrite !dot_cons, dot_nil_l. lra. }
  assert (Hcos_z : forall a, cosine_similarity a [0; 0]%R = 0%R)
    by (intros a; by apply cosine_zero_r).
  destruct (build_search_top1 [[0; 0]; [1; 0]]%R ["z"; "p"]%string [5; 12]%R 2 init)
    as [Hbuild (v & id & Hin & Hsearch & Hmin)]; [lia|by repeat constructor|done|].
  split; [exact Hbuild|]. split.
  { rewrite Hsearch. simpl in Hin.
    apply elem_of_cons in Hin as [[= -> ->]|Hin]; [done|].
    exfalso. apply list_elem_of_singleton in Hin as [= -> ->].
    specialize (Hmin [0; 0]%R "z"%string ltac:(left)).
    rewrite Hq, Hz, Hp in Hmin.
    rewrite !distance_sq_cons, !distance_sq_nil_l in Hmin. lra. }
  split.
  { destruct (bf_top1 [[0; 0]; [1; 0]]%R ["z"; "p"]%string [5; 12]%R)
      as (v' & id' & Hin' & Hbf & Hmax); [done|].
    rewrite Hbf. simpl in Hin'.
    apply elem_of_cons in Hin' as [[= -> ->]|Hin'].
    - exfalso. specialize (Hmax [1; 0]%R "p"%string ltac:(right; left)).
      rewrite Hq, Hz, Hp, Hcos_p, Hcos_z in Hmax. lra.
    - by apply list_elem_of_singleton in Hin' as [= -> ->]. }
  split; [apply Hcos_z|]. split.
  - unfold cosine_similarity.
    rewrite (l2_norm_exact [5; 12]%R 13%R), (l2_norm_exact [1; 0]%R 1%R);
      try lra; try (rewrite !dot_cons, dot_nil_l; lra).
    rewrite (proj2 (Reqb_false 13 0)), (proj2 (Reqb_false 1 0)) by lra. simpl.
    rewrite !dot_cons, dot_nil_l. lra.
  - rewrite Hq, Hz, Hp, Hcos_p, !distance_sq_cons, !distance_sq_nil_l. lra.
Qed.

End KDTreeFacts.

Module DuplicateFacts.
Import VectorFacts.

Lemma bf_add_duplicate s v id :
  is_Some (BruteForceIndex._pos s !! id) -> BruteForceIndex.add v id s = (Raise ValueError, s).
Proof. intros [i Hi]. unfold BruteForceIndex.add, bind, get_state. simpl. by rewrite Hi. Qed.

Lemma lsh_add_duplicate gauss s v id :
  is_Some (dict_get id (RandomHyperplaneLSHIndex._id_to_vec s)) ->
  RandomHyperplaneLSHIndex.add gauss v id s = (Raise ValueError, s).
Proof. intros [i Hi]. unfold RandomHyperplaneLSHIndex.add, bind, get_state. simpl. by rewrite Hi. Qed.

Lemma kd_build_one :
  KDTreeIndex.build [[1; 0]]%R ["a"%string] KDTreeIndex.init =
  (Ok tt, KDTreeIndex.mk (KDTreeIndex.Node [1 / 1; 0 / 1]%R "a" 0 KDTreeIndex.Null KDTreeIndex.Null)
            1 2 [("a"%string, [1 / 1; 0 / 1]%R)]).
Proof.
  unfold KDTreeIndex.build, bind, modify, lift, KDTreeIndex._build_recursive.
  cbn [map hd zip zip_with length].
  norm_exact 1%R. reflexivity.
Qed.

Local Arguments Rltb : simpl never.

(** C3 on the code: the brute-force and the LSH index refuse an id they
    already hold, the KD-tree does not.  After [build([[1, 0]], ["a"])] the
    call [add([0, 1], "a")] returns normally and leaves a tree with two nodes
    named ["a"]. *)
Theorem kd_add_accepts_duplicate :
  (forall s v id, is_Some (BruteForceIndex._pos s !! id) ->
     BruteForceIndex.add v id s = (Raise ValueError, s)) /\
  (forall gauss s v id, is_Some (dict_get id (RandomHyperplaneLSHIndex._id_to_vec s)) ->
     RandomHyperplaneLSHIndex.add gauss v id s = (Raise ValueError, s)) /\
  (let s := (KDTreeIndex.build [[1; 0]]%R ["a"%string] KDTreeIndex.init).2 in
   is_Some (dict_get "a" (KDTreeIndex._id_to_point s)) /\
   exists s', KDTreeIndex.add [0; 1]%R "a" s = (Ok tt, s') /\
     KDTreeIndex.size s' = 2 /\
     map snd (KDTreeSpec.tree_items (KDTreeIndex._root s')) = ["a"; "a"]%string).
Proof.
  split; [exact bf_add_duplicate|]. split; [exact lsh_add_duplicate|].
  rewrite kd_build_one. cbn [snd]. split; [by eexists|].
  unfold KDTreeIndex.add, bind, get_state.
  cbn [KDTreeIndex._id_to_point dict_keys dict_values map fst snd app].
  norm_exact 1%R.
  unfold KDTreeIndex.build, bind, modify, lift, KDTreeIndex._build_recursive.
  cbn [map hd zip zip_with length app].
  norm_exact 1%R. norm_exact 1%R. cbn [map].
  cbn. rltb. cbn.
  eexists. split; [reflexivity|]. split; reflexivity.
Qed.

End DuplicateFacts.

(** ** Reasoning about computations in [M] *)

Module MonadFacts.
Import ServiceSpec.

Lemma bind_ok_inv {S A B} (m : M S A) (k : A -> M S B) s b s' :
  bind m k s = (Ok b, s') -> exists a s1, m s = (Ok a, s1) /\ k a s1 = (Ok b, s').
Proof.
  unfold bind. destruct (m s) as [[a|e] s1]; [|done]. intros H. by exists a, s1.
Qed.

Lemma bind_ok {S A B} (m : M S A) (k : A -> M S B) s a s1 :
  m s = (Ok a, s1) -> bind m k s = k a s1.
Proof. unfold bind. by intros ->. Qed.

Lemma bind_raise {S A B} (m : M S A) (k : A -> M S B) s e s1 :
  m s = (Raise e, s1) -> bind m k s = (Raise e, s1).
Proof. unfold bind. by intros ->. Qed.

Section Steps.
Context {S : Type} (R : S -> S -> Prop) `{!PreOrder R}.

Lemma steps_ret {A} (a : A) : steps R (ret a).
Proof. intros s. simpl. reflexivity. Qed.

Lemma steps_raise {A} e : steps R (@raise S A e).
Proof. intros s. simpl. reflexivity. Qed.

Lemma steps_lift {A} (r : result A) : steps R (lift r).
Proof. intros s. simpl. reflexivity. Qed.

Lemma steps_get_state : steps R get_state.
Proof. intros s. simpl. reflexivity. Qed.

Lemma steps_gets {A} (f : S -> A) : steps R (gets f).
Proof. intros s. simpl. reflexivity. Qed.

Lemma steps_modify (f : S -> S) : (forall s, R s (f s)) -> steps R (modify f).
Proof. intros H s. simpl. apply H. Qed.

Lemma steps_bind {A B} (m : M S A) (k : A -> M S B) :
  steps R m -> (forall a, steps R (k a)) -> steps R (bind m k).
Proof.
  intros Hm Hk s. unfold bind. specialize (Hm s).
  destruct (m s) as [[a|e] s1]; simpl in *; [|done].
  etransitivity; [exact Hm|]. apply Hk.
Qed.

Lemma steps_for_each {A} (l : list A) (body : A -> M S unit) :
  (forall x, steps R (body x)) -> steps R (for_each l body).
Proof.
  intros Hb. induction l as [|x l IH]; simpl; [apply steps_ret|].
  apply steps_bind; [apply Hb|done].
Qed.

Lemma steps_zoom {T A} (proj : S -> T) (inj : T -> S -> S) (m : M T A) :
  (forall s, R s (inj (m (proj s)).2 s)) -> steps R (zoom proj inj m).
Proof. intros H s. unfold zoom. specialize (H s). by destruct (m (proj s)). Qed.

End Steps.

End MonadFacts.

Module ChunkServiceFacts.
Import ServiceSpec MonadFacts.

Section WithRandom.
Context (gauss : Z -> nat -> R).

Lemma on_libraries_get w library_id lib :
  libraries w !! library_id = Some lib ->
  on_libraries (LibraryRepository.get library_id) w = (Ok lib, w).
Proof.
  intros H. unfold on_libraries, zoom, LibraryRepository.get, bind, get_state. simpl.
  rewrite H. by destruct w.
Qed.

Lemma on_libraries_get_missing w library_id :
  libraries w !! library_id = None ->
  on_libraries (LibraryRepository.get library_id) w = (Raise NotFoundError, w).
Proof.
  intros H. unfold on_libraries, zoom, LibraryRepository.get, bind, get_state. simpl.
  rewrite H. by destruct w.
Qed.

Lemma on_documents_get w document_id doc :
  DocumentRepository._items (documents w) !! document_id = Some doc ->
  on_documents (DocumentRepository.get document_id) w = (Ok doc, w).
Proof.
  intros H. unfold on_documents, zoom, DocumentRepository.get, bind, get_state. simpl.
  rewrite H. by destruct w.
Qed.

Lemma on_documents_get_missing w document_id :
  DocumentRepository._items (documents w) !! document_id = None ->
  on_documents (DocumentRepository.get document_id) w = (Raise NotFoundError, w).
Proof.
  intros H. unfold on_documents, zoom, DocumentRepository.get, bind, get_state. simpl.
  rewrite H. by destruct w.
Qed.

Lemma on_chunks_get w chunk_id c :
  ChunkRepository._items (chunks w) !! chunk_id = Some c ->
  on_chunks (ChunkRepository.get chunk_id) w = (Ok c, w).
Proof.
  intros H. unfold on_chunks, zoom, ChunkRepository.get, bind, get_state. simpl.
  rewrite H. by destruct w.
Qed.

Lemma on_chunks_get_missing w chunk_id :
  ChunkRepository._items (chunks w) !! chunk_id = None ->
  on_chunks (ChunkRepository.get chunk_id) w = (Raise NotFoundError, w).
Proof.
  intros H. unfold on_chunks, zoom, ChunkRepository.get, bind, get_state. simpl.
  rewrite H. by destruct w.
Qed.

Lemma validate_embedding_mismatch w library_id lib embedding :
  libraries w !! library_id = Some lib ->
  Z.of_nat (length embedding) <> Library.embedding_dimension lib ->
  ChunkService._validate_embedding library_id embedding w = (Raise ValidationError, w).
Proof.
  intros Hlib Hdim. unfold ChunkService._validate_embedding.
  rewrite (bind_ok _ _ _ _ _ (on_libraries_get w library_id lib Hlib)).
  by rewrite bool_decide_eq_true_2.
Qed.

(** C7: creating a chunk whose embedding length differs from the
    dimension of its library, under an existing document, fails with
    [ValidationError] and changes nothing: repositories, versions, lock
    registry and indexes are as before. *)
Theorem create_dimension_mismatch (w : World) (new_id : string) (now : datetime)
    (library_id document_id text : string) (embedding : list R) (lib : Library.t) :
  libraries w !! library_id = Some lib ->
  is_Some (DocumentRepository._items (documents w) !! document_id) ->
  Z.of_nat (length embedding) <> Library.embedding_dimension lib ->
  ChunkService.create gauss new_id now library_id document_id text embedding w
    = (Raise ValidationError, w).
Proof.
  intros Hlib [doc Hdoc] Hdim. unfold ChunkService.create.
  rewrite (bind_ok _ _ _ _ _ (on_libraries_get w library_id lib Hlib)).
  rewrite (bind_ok _ _ _ _ _ (on_documents_get w document_id doc Hdoc)).
  by rewrite (bind_raise _ _ _ _ _ (validate_embedding_mismatch w library_id lib embedding Hlib Hdim)).
Qed.

End WithRandom.

Lemma create_dimension_mismatch_witness :
  ChunkService.create (fun _ _ => 0%R) "c1" sample_datetime "L" "D" "hello" [1; 2; 3]%R
    sample_world
    = (Raise ValidationError, sample_world).
Proof.
  apply (create_dimension_mismatch (fun _ _ => 0%R) sample_world "c1" sample_datetime "L" "D" "hello"
           [1; 2; 3]%R sample_library).
  - reflexivity.
  - eexists. reflexivity.
  - simpl. lia.
Defined.

End ChunkServiceFacts.

Module VersionFacts.
Import ServiceSpec MonadFacts ChunkServiceFacts.

#[local] Instance version_step_preorder : PreOrder version_step.
Proof.
  split.
  - intros w Hw. split; [done|]. intros lib. lia.
  - intros w1 w2 w3 H12 H23 Hw. destruct (H12 Hw) as [Hw2 Hle12].
    destruct (H23 Hw2) as [Hw3 Hle23]. split; [done|].
    intros lib. specialize (Hle12 lib). specialize (Hle23 lib). lia.
Qed.

Lemma version_step_frame w w' : versions w' = versions w -> version_step w w'.
Proof.
  intros Hv Hw. unfold versions_ok, index_version_of, data_version_of in *.
  rewrite Hv. split; [done|]. intros lib. lia.
Qed.

(** What the version manager's methods do to the two counters. *)
Lemma setdefault_run library_id (vs : gmap string VersionManager.VersionInfo) :
  exists vs', VersionManager.setdefault library_id vs
    = (Ok (default VersionManager.default_info (vs !! library_id)), vs') /\
    vs' !! library_id = Some (default VersionManager.default_info (vs !! library_id)) /\
    forall l, default VersionManager.default_info (vs' !! l)
            = default VersionManager.default_info (vs !! l).
Proof.
  unfold VersionManager.setdefault, bind, get_state, modify, ret.
  destruct (vs !! library_id) as [vi|] eqn:Hvi; simpl.
  - exists vs. by rewrite Hvi.
  - eexists. split; [done|]. split; [apply lookup_insert_eq|].
    intros l. destruct (decide (library_id = l)) as [<-|Hne].
    + by rewrite lookup_insert_eq, Hvi.
    + by rewrite lookup_insert_ne.
Qed.

Lemma bump_data_run library_id (vs : gmap string VersionManager.VersionInfo) :
  let vi := default VersionManager.default_info (vs !! library_id) in
  let vi' := VersionManager.mk_info (VersionManager.data_version vi + 1)
                                    (VersionManager.index_version vi) in
  exists vs', VersionManager.bump_data library_id vs = (Ok vi', vs') /\
    vs' !! library_id = Some vi' /\
    forall l, l <> library_id -> default VersionManager.default_info (vs' !! l)
                               = default VersionManager.default_info (vs !! l).
Proof.
  intros vi vi'. unfold VersionManager.bump_data.
  destruct (setdefault_run library_id vs) as (vs1 & Hrun & Hl & Hothers).
  rewrite (bind_ok _ _ _ _ _ Hrun). unfold bind, modify, ret. simpl.
  eexists. split; [done|]. split; [apply lookup_insert_eq|].
  intros l Hne. rewrite lookup_insert_ne by done. apply Hothers.
Qed.

Lemma set_index_version_run library_id version (vs : gmap string VersionManager.VersionInfo) :
  let vi := default VersionManager.default_info (vs !! library_id) in
  let vi' := VersionManager.mk_info (VersionManager.data_version vi) version in
  exists vs', VersionManager.set_index_version library_id version vs = (Ok vi', vs') /\
    vs' !! library_id = Some vi' /\
    forall l, l <> library_id -> default VersionManager.default_info (vs' !! l)
                               = default VersionManager.default_info (vs !! l).
Proof.
  intros vi vi'. unfold VersionManager.set_index_version.
  destruct (setdefault_run library_id vs) as (vs1 & Hrun & Hl & Hothers).
  rewrite (bind_ok _ _ _ _ _ Hrun). unfold bind, modify, ret. simpl.
  eexists. split; [done|]. split; [apply lookup_insert_eq|].
  intros l Hne. rewrite lookup_insert_ne by done. apply Hothers.
Qed.

Section WithRandom.
Context (gauss : Z -> nat -> R).

(** [sync_version] returns, leaves the library fresh and touches nothing
    but the version map. *)
Lemma sync_version_run library_id w :
  exists vs', IndexService.sync_version library_id w = (Ok tt, set_versions vs' w) /\
    vs' !! library_id = Some (VersionManager.mk_info (data_version_of w library_id)
                                                     (data_version_of w library_id)) /\
    forall l, l <> library_id -> default VersionManager.default_info (vs' !! l)
                               = default VersionManager.default_info (versions w !! l).
Proof.
  unfold IndexService.sync_version, VersionManager.get, on_versions, zoom, bind.
  destruct (setdefault_run library_id (versions w)) as (vs1 & -> & Hl1 & Ho1). simpl.
  destruct (set_index_version_run library_id
              (VersionManager.data_version
                 (default VersionManager.default_info (versions w !! library_id))) vs1)
    as (vs2 & -> & Hl2 & Ho2). simpl.
  exists vs2. split; [by destruct w|]. split.
  - rewrite Hl2. unfold data_version_of. by rewrite Ho1.
  - intros l Hne. by rewrite Ho2, Ho1.
Qed.

Lemma version_step_sync library_id : steps version_step (IndexService.sync_version library_id).
Proof.
  intros w Hw. destruct (sync_version_run library_id w) as (vs' & -> & Hl & Ho). simpl.
  assert (Hiv : forall l, index_version_of (set_versions vs' w) l =
            if decide (l = library_id) then data_version_of w library_id
            else index_version_of w l).
  { intros l. unfold index_version_of. simpl. case_decide as Hd.
    - subst. by rewrite Hl.
    - by rewrite Ho. }
  assert (Hdv : forall l, data_version_of (set_versions vs' w) l = data_version_of w l).
  { intros l. unfold data_version_of. simpl. destruct (decide (l = library_id)) as [->|Hd].
    - by rewrite Hl.
    - by rewrite Ho. }
  split.
  - intros l. rewrite Hiv, Hdv. case_decide; [subst; lia|apply Hw].
  - intros l. rewrite Hiv. case_decide; [subst; apply Hw|lia].
Qed.

Lemma version_step_bump library_id :
  steps version_step (on_versions (VersionManager.bump_data library_id)).
Proof.
  apply steps_zoom. intros w Hw.
  destruct (bump_data_run library_id (versions w)) as (vs' & -> & Hl & Ho). simpl.
  assert (Hiv : forall l, index_version_of (set_versions vs' w) l = index_version_of w l).
  { intros l. unfold index_version_of. simpl. destruct (decide (l = library_id)) as [->|Hd].
    - by rewrite Hl.
    - by rewrite Ho. }
  split.
  - intros l. rewrite Hiv. unfold data_version_of. simpl.
    destruct (decide (l = library_id)) as [->|Hd].
    + rewrite Hl. simpl. specialize (Hw library_id).
      unfold index_version_of, data_version_of in *. lia.
    + rewrite Ho by done. apply Hw.
  - intros l. rewrite Hiv. lia.
Qed.

Lemma version_step_libraries {A} (m : M (gmap string Library.t) A) :
  steps version_step (on_libraries m).
Proof. apply steps_zoom. intros w. by apply version_step_frame. Qed.

Lemma version_step_documents {A} (m : M DocumentRepository.t A) :
  steps version_step (on_documents m).
Proof. apply steps_zoom. intros w. by apply version_step_frame. Qed.

Lemma version_step_chunks {A} (m : M ChunkRepository.t A) :
  steps version_step (on_chunks m).
Proof. apply steps_zoom. intros w. by apply version_step_frame. Qed.

Lemma version_step_get_lock library_id : steps version_step (LockRegistry.get_lock library_id).
Proof.
  intros w. unfold LockRegistry.get_lock, bind, get_state, modify, ret. simpl.
  destruct (locks w !! library_id); simpl; by apply version_step_frame.
Qed.

Lemma version_step_on_index library_id idx (m : M VectorIndex unit) :
  steps version_step (IndexService.on_index library_id idx m).
Proof.
  intros w. unfold IndexService.on_index. destruct (m idx) as [r idx'].
  unfold bind, get_state, modify, lift. simpl. by apply version_step_frame.
Qed.

Lemma version_step_maintenance library_id idx (m : M VectorIndex unit) :
  steps version_step (do_ IndexService.on_index library_id idx m;
                      IndexService.sync_version library_id).
Proof.
  apply steps_bind; [apply _|apply version_step_on_index|intros _; apply version_step_sync].
Qed.

Lemma version_step_add_chunk library_id chunk :
  steps version_step (IndexService.add_chunk gauss library_id chunk).
Proof.
  intros w. unfold IndexService.add_chunk. rewrite (bind_ok _ _ w w w) by done.
  destruct (indexes w !! library_id); [apply version_step_maintenance|reflexivity].
Qed.

Lemma version_step_remove_chunk library_id chunk_id :
  steps version_step (IndexService.remove_chunk library_id chunk_id).
Proof.
  intros w. unfold IndexService.remove_chunk. rewrite (bind_ok _ _ w w w) by done.
  destruct (indexes w !! library_id); [apply version_step_maintenance|reflexivity].
Qed.

Lemma version_step_update_chunk library_id chunk :
  steps version_step (IndexService.update_chunk gauss library_id chunk).
Proof.
  intros w. unfold IndexService.update_chunk. rewrite (bind_ok _ _ w w w) by done.
  destruct (indexes w !! library_id); [apply version_step_maintenance|reflexivity].
Qed.

Lemma version_step_validate library_id embedding :
  steps version_step (ChunkService._validate_embedding library_id embedding).
Proof.
  unfold ChunkService._validate_embedding.
  apply steps_bind; [apply _|apply version_step_libraries|].
  intros lib. case_bool_decide; [apply steps_raise|apply steps_ret]; apply _.
Qed.

Ltac version_steps :=
  repeat first
    [ apply steps_ret; apply _
    | apply steps_raise; apply _
    | apply steps_lift; apply _
    | apply version_step_libraries
    | apply version_step_documents
    | apply version_step_chunks
    | apply version_step_bump
    | apply version_step_get_lock
    | apply version_step_validate
    | apply version_step_add_chunk
    | apply version_step_remove_chunk
    | apply version_step_update_chunk
    | apply steps_bind; [apply _| |intros ?] ].

Lemma version_step_run_op o : steps version_step (run_op gauss o).
Proof.
  destruct o as [new_id now library_id document_id text embedding
                |now chunk_id text embedding|chunk_id]; simpl.
  - unfold ChunkService.create. version_steps.
  - unfold ChunkService.update. destruct embedding; version_steps.
  - unfold ChunkService.delete. version_steps.
Qed.

#[local] Instance same_indexes_preorder : PreOrder same_indexes.
Proof. split; [done|]. intros w1 w2 w3 H12 H23. unfold same_indexes in *. congruence. Qed.

Lemma same_indexes_libraries {A} (m : M (gmap string Library.t) A) :
  steps same_indexes (on_libraries m).
Proof. by apply steps_zoom. Qed.

Lemma same_indexes_documents {A} (m : M DocumentRepository.t A) :
  steps same_indexes (on_documents m).
Proof. by apply steps_zoom. Qed.

Lemma same_indexes_chunks {A} (m : M ChunkRepository.t A) :
  steps same_indexes (on_chunks m).
Proof. by apply steps_zoom. Qed.

Lemma same_indexes_versions {A} (m : M (gmap string VersionManager.VersionInfo) A) :
  steps same_indexes (on_versions m).
Proof. by apply steps_zoom. Qed.

Lemma same_indexes_get_lock library_id : steps same_indexes (LockRegistry.get_lock library_id).
Proof.
  intros w. unfold LockRegistry.get_lock, bind, get_state, modify, ret. simpl.
  by destruct (locks w !! library_id).
Qed.

Lemma same_indexes_validate library_id embedding :
  steps same_indexes (ChunkService._validate_embedding library_id embedding).
Proof.
  unfold ChunkService._validate_embedding.
  apply steps_bind; [apply _|apply same_indexes_libraries|].
  intros lib. case_bool_decide; [apply steps_raise|apply steps_ret]; apply _.
Qed.

(** A maintenance call that returns leaves the library fresh. *)
Lemma maintenance_fresh library_id idx (m : M VectorIndex unit) w w' :
  (do_ IndexService.on_index library_id idx m; IndexService.sync_version library_id) w
    = (Ok tt, w') ->
  fresh w' library_id.
Proof.
  intros H. apply bind_ok_inv in H as (a & w1 & _ & H).
  destruct (sync_version_run library_id w1) as (vs' & Hrun & Hl & _).
  rewrite Hrun in H. injection H as <-.
  unfold fresh, index_version_of, data_version_of. simpl. rewrite Hl. simpl.
  split; [done|].
  unfold VersionManager.is_index_stale, VersionManager.setdefault, bind, get_state, ret.
  simpl. rewrite Hl. simpl. by rewrite Z.eqb_refl.
Qed.

Lemma add_chunk_fresh library_id chunk w w' :
  is_Some (indexes w !! library_id) ->
  IndexService.add_chunk gauss library_id chunk w = (Ok tt, w') -> fresh w' library_id.
Proof.
  intros [idx Hidx]. unfold IndexService.add_chunk. rewrite (bind_ok _ _ w w w) by done.
  rewrite Hidx. apply maintenance_fresh.
Qed.

Lemma remove_chunk_fresh library_id chunk_id w w' :
  is_Some (indexes w !! library_id) ->
  IndexService.remove_chunk library_id chunk_id w = (Ok tt, w') -> fresh w' library_id.
Proof.
  intros [idx Hidx]. unfold IndexService.remove_chunk. rewrite (bind_ok _ _ w w w) by done.
  rewrite Hidx. apply maintenance_fresh.
Qed.

Lemma update_chunk_fresh library_id chunk w w' :
  is_Some (indexes w !! library_id) ->
  IndexService.update_chunk gauss library_id chunk w = (Ok tt, w') -> fresh w' library_id.
Proof.
  intros [idx Hidx]. unfold IndexService.update_chunk. rewrite (bind_ok _ _ w w w) by done.
  rewrite Hidx. apply maintenance_fresh.
Qed.

(** Peel the first action off a computation that is known to return,
    recording that it left the indexes alone. *)
Ltac peel H Hidx lem :=
  let a := fresh "a" in
  let w1 := fresh "w" in
  let H1 := fresh "Hstep" in
  apply bind_ok_inv in H as (a & w1 & H1 & H);
  match type of H1 with
  | ?m ?w0 = _ =>
      let Hs := fresh "Hs" in
      pose proof (lem w0) as Hs; rewrite H1 in Hs; unfold same_indexes in Hs; simpl in Hs;
      rewrite <- Hs in Hidx; clear Hs
  end.

Lemma run_op_fresh o w w' library_id :
  target w o = Some library_id -> is_Some (indexes w !! library_id) -> maintains o = true ->
  run_op gauss o w = (Ok tt, w') -> fresh w' library_id.
Proof.
  destruct o as [new_id now lib document_id text embedding
                |now chunk_id text embedding|chunk_id]; simpl; intros Htarget Hidx Hm H.
  - injection Htarget as ->.
    apply bind_ok_inv in H as (c & w0 & H & Hret). injection Hret as <-.
    unfold ChunkService.create in H.
    peel H Hidx (same_indexes_libraries (LibraryRepository.get library_id)).
    peel H Hidx (same_indexes_documents (DocumentRepository.get document_id)).
    peel H Hidx (same_indexes_validate library_id embedding).
    peel H Hidx (same_indexes_get_lock library_id).
    apply bind_ok_inv in H as (chunk & w5 & Hchunk & H).
    unfold lift in Hchunk. injection Hchunk as Hchunk <-.
    peel H Hidx (same_indexes_chunks (ChunkRepository.create chunk)).
    peel H Hidx (same_indexes_versions (VersionManager.bump_data library_id)).
    apply bind_ok_inv in H as ([] & w8 & H & Hret). injection Hret as _ <-.
    by eapply add_chunk_fresh.
  - apply bind_ok_inv in H as (c & w0 & H & Hret). injection Hret as <-.
    unfold ChunkService.update in H.
    apply bind_ok_inv in H as (ch & w1 & Hget & H).
    assert (Hch : Chunk.library_id ch = library_id /\ w1 = w).
    { destruct (ChunkRepository._items (chunks w) !! chunk_id) as [c0|] eqn:Hc0; [|done].
      rewrite (on_chunks_get w chunk_id c0 Hc0) in Hget. injection Hget as <- <-.
      simpl in Htarget. by injection Htarget as ->. }
    destruct Hch as [Hlib ->]. rewrite Hlib in H.
    destruct embedding as [e|]; [|done].
    peel H Hidx (same_indexes_get_lock library_id).
    peel H Hidx (same_indexes_validate library_id e).
    peel H Hidx (same_indexes_chunks (ChunkRepository.update chunk_id text (Some e) now)).
    peel H Hidx (same_indexes_versions (VersionManager.bump_data library_id)).
    apply bind_ok_inv in H as ([] & w8 & H & Hret). injection Hret as _ <-.
    by eapply update_chunk_fresh.
  - unfold ChunkService.delete in H.
    apply bind_ok_inv in H as (ch & w1 & Hget & H).
    assert (Hch : Chunk.library_id ch = library_id /\ w1 = w).
    { destruct (ChunkRepository._items (chunks w) !! chunk_id) as [c0|] eqn:Hc0; [|done].
      rewrite (on_chunks_get w chunk_id c0 Hc0) in Hget. injection Hget as <- <-.
      simpl in Htarget. by injection Htarget as ->. }
    destruct Hch as [Hlib ->]. rewrite Hlib in H.
    peel H Hidx (same_indexes_get_lock library_id).
    peel H Hidx (same_indexes_chunks (ChunkRepository.delete chunk_id)).
    peel H Hidx (same_indexes_versions (VersionManager.bump_data library_id)).
    by eapply remove_chunk_fresh.
Qed.

Lemma version_step_run_ops ops w : version_step w (run_ops gauss ops w).
Proof.
  revert w. induction ops as [|o ops IH]; intros w; simpl; [reflexivity|].
  etransitivity; [apply version_step_run_op|apply IH].
Qed.

Lemma run_ops_app ops1 ops2 w :
  run_ops gauss (ops1 ++ ops2) w = run_ops gauss ops2 (run_ops gauss ops1 w).
Proof. unfold run_ops. apply fold_left_app. Qed.

(** C2 (as amended): along any sequence of chunk create, update and
    delete calls that starts where no index version is ahead of its data
    version, the index version of a library never decreases; and whenever a
    call that performs incremental index maintenance on a library with a live
    index returns normally, the library's index version equals its data
    version and [is_index_stale] is false. *)
Theorem index_version_tracks_data (ops : list chunk_op) (w : World) :
  versions_ok w ->
  (forall pre post library_id, ops = pre ++ post ->
     (index_version_of (run_ops gauss pre w) library_id
        <= index_version_of (run_ops gauss ops w) library_id)%Z) /\
  (forall pre o post library_id, ops = pre ++ o :: post ->
     let w1 := run_ops gauss pre w in
     target w1 o = Some library_id -> is_Some (indexes w1 !! library_id) ->
     maintains o = true -> (run_op gauss o w1).1 = Ok tt ->
     index_version_of (run_op gauss o w1).2 library_id
       = data_version_of (run_op gauss o w1).2 library_id /\
     (VersionManager.is_index_stale library_id (versions (run_op gauss o w1).2)).1 = Ok false).
Proof.
  intros Hw. split.
  - intros pre post lib ->. rewrite run_ops_app.
    destruct (version_step_run_ops pre w Hw) as [Hw1 _].
    by destruct (version_step_run_ops post _ Hw1) as [_ Hle].
  - intros pre o post lib _ w1 Htarget Hidx Hm Hok.
    apply (run_op_fresh o w1); try done.
    destruct (run_op gauss o w1) as [r w2]. simpl in *. by subst.
Qed.

End WithRandom.

Lemma sample_world_indexed_versions_ok : versions_ok sample_world_indexed.
Proof.
  intros library_id. unfold index_version_of, data_version_of. simpl.
  destruct (decide (library_id = "L"%string)) as [->|Hne].
  - rewrite lookup_singleton_eq. simpl. lia.
  - rewrite lookup_singleton_ne by done. simpl. lia.
Qed.

Lemma index_version_tracks_data_witness :
  let gauss := fun (_ : Z) (_ : nat) => 0%R in
  let ops := [Create "c1" sample_datetime "L" "D" "hello" [1; 2; 3; 4]%R;
              Update sample_datetime "c1" None (Some [4; 3; 2; 1]%R);
              Delete "c1"] in
  (forall pre post library_id, ops = pre ++ post ->
     (index_version_of (run_ops gauss pre sample_world_indexed) library_id
        <= index_version_of (run_ops gauss ops sample_world_indexed) library_id)%Z) /\
  (forall pre o post library_id, ops = pre ++ o :: post ->
     let w1 := run_ops gauss pre sample_world_indexed in
     target w1 o = Some library_id -> is_Some (indexes w1 !! library_id) ->
     maintains o = true -> (run_op gauss o w1).1 = Ok tt ->
     index_version_of (run_op gauss o w1).2 library_id
       = data_version_of (run_op gauss o w1).2 library_id /\
     (VersionManager.is_index_stale library_id (versions (run_op gauss o w1).2)).1 = Ok false).
Proof.
  intros gauss ops. apply (index_version_tracks_data gauss ops sample_world_indexed).
  apply sample_world_indexed_versions_ok.
Defined.

(** On the sample world the three calls of the witness all return, with
    the index live throughout: the counters stand at 1, 2 and 3. *)
Example maintenance_on_live_index :
  let gauss := fun (_ : Z) (_ : nat) => 0%R in
  let o1 := Create "c1" sample_datetime "L" "D" "hello" [1; 2; 3; 4]%R in
  let o2 := Update sample_datetime "c1" None (Some [4; 3; 2; 1]%R) in
  let o3 := Delete "c1" in
  let w1 := (run_op gauss o1 sample_world_indexed).2 in
  let w2 := (run_op gauss o2 w1).2 in
  let w3 := (run_op gauss o3 w2).2 in
  (run_op gauss o1 sample_world_indexed).1 = Ok tt /\
  (run_op gauss o2 w1).1 = Ok tt /\ (run_op gauss o3 w2).1 = Ok tt /\
  is_Some (indexes w1 !! "L"%string) /\ is_Some (indexes w2 !! "L"%string) /\
  (index_version_of w1 "L", data_version_of w1 "L") = (1%Z, 1%Z) /\
  (index_version_of w2 "L", data_version_of w2 "L") = (2%Z, 2%Z) /\
  (index_version_of w3 "L", data_version_of w3 "L") = (3%Z, 3%Z).
Proof. repeat split; try reflexivity; by eexists. Qed.

(** C2 as stated fails when the maintenance call raises.  In
    [racing_world] the library has a live, fresh index that does not hold
    the chunk; deleting the chunk removes it from the repository and bumps the
    data version, then [remove_chunk] raises [KeyError] inside the index
    before the index version is brought up: the library is left stale. *)
Lemma failed_maintenance_leaves_index_stale :
  let gauss := fun (_ : Z) (_ : nat) => 0%R in
  let o := Delete "c1" in
  let w' := (run_op gauss o racing_world).2 in
  versions_ok racing_world /\ fresh racing_world "L" /\
  is_Some (indexes racing_world !! "L"%string) /\
  target racing_world o = Some "L"%string /\ maintains o = true /\
  (run_op gauss o racing_world).1 = Raise KeyError /\
  ChunkRepository._items (chunks w') !! "c1"%string = None /\
  index_version_of w' "L" = 1%Z /\ data_version_of w' "L" = 2%Z /\
  (VersionManager.is_index_stale "L" (versions w')).1 = Ok true.
Proof.
  intros gauss o w'. split.
  { intros library_id. unfold index_version_of, data_version_of.
    change (versions racing_world)
      with ({["L"%string := VersionManager.mk_info 1 1]}
              : gmap string VersionManager.VersionInfo).
    destruct (decide (library_id = "L"%string)) as [->|Hne].
    - rewrite lookup_singleton_eq. simpl. lia.
    - rewrite lookup_singleton_ne by done. simpl. lia. }
  split; [split; reflexivity|]. split; [by eexists|].
  repeat split; reflexivity.
Qed.


End VersionFacts.

Module BuildFacts.
Import ServiceSpec MonadFacts VectorFacts.

Local Arguments Rltb : simpl never.

(** The KD-tree cannot be built over [ragged_chunks]: at depth 1 the sort
    key [x[0][1]] does not exist for the one-dimensional point. *)
Lemma kd_build_ragged :
  (KDTreeIndex.build (map Chunk.embedding ragged_chunks) (map Chunk.id ragged_chunks)
     KDTreeIndex.init).1 = Raise IndexError.
Proof.
  unfold KDTreeIndex.build, bind, modify, lift, KDTreeIndex._build_recursive.
  cbn [map hd zip zip_with length ragged_chunks sample_chunk Chunk.embedding Chunk.id].
  norm_exact 1%R. norm_exact 1%R. cbn [map].
  do 5 (cbn; rltb). reflexivity.
Qed.

Section WithRandom.
Context (gauss : Z -> nat -> R).

(** When the construction raises, [build_index] passes the exception on and
    has changed nothing but the lock registry. *)
Lemma build_index_failure library_id index_type chunks w e :
  (VectorIndexOps.build gauss (map Chunk.embedding chunks) (map Chunk.id chunks)
     (IndexService._create_index index_type)).1 = Raise e ->
  exists w', IndexService.build_index gauss library_id index_type chunks w = (Raise e, w') /\
    indexes w' = indexes w /\ index_types w' = index_types w /\
    building w' = building w /\ versions w' = versions w /\ threads w' = threads w.
Proof.
  intros Hfail. unfold IndexService.build_index.
  destruct (VectorIndexOps.build gauss _ _ _) as [r idx]. simpl in Hfail. subst r.
  unfold bind, lift. destruct (LockRegistry.get_lock library_id w) as [[lock|e'] w'] eqn:Hlock.
  - eexists. split; [done|].
    unfold LockRegistry.get_lock, bind, get_state, modify, ret in Hlock. simpl in Hlock.
    destruct (locks w !! library_id); by injection Hlock as _ <-.
  - unfold LockRegistry.get_lock, bind, get_state, modify, ret in Hlock. simpl in Hlock.
    by destruct (locks w !! library_id).
Qed.

(** A background build that fails leaves the building flag set, and every
    later [build_index_async] for the library returns without starting
    anything. *)
Lemma failed_thread_blocks_builds library_id index_type chunks w e :
  (VectorIndexOps.build gauss (map Chunk.embedding chunks) (map Chunk.id chunks)
     (IndexService._create_index index_type)).1 = Raise e ->
  threads w = [] -> default false (building w !! library_id) = false ->
  let w1 := (IndexService.build_index_async library_id index_type chunks w).2 in
  let w2 := (IndexService.run_thread gauss w1).2 in
  threads w2 = [] /\ indexes w2 = indexes w /\
  building w2 !! library_id = Some true /\
  forall index_type' chunks',
    IndexService.build_index_async library_id index_type' chunks' w2 = (Ok tt, w2).
Proof.
  intros Hfail Hthreads Hflag w1 w2.
  assert (Hw1 : w1 = set_threads [(library_id, index_type, chunks)]
                       (set_building (<[library_id := true]> (building w)) w)).
  { unfold w1, IndexService.build_index_async, bind, get_state, modify. simpl.
    rewrite Hflag. simpl. by rewrite Hthreads. }
  destruct (build_index_failure library_id index_type chunks
              (set_threads [] w1) e Hfail) as (w' & Hrun & Hi & _ & Hb & _ & Ht).
  assert (Hw2 : w2 = w').
  { unfold w2, IndexService.run_thread, bind, get_state, modify. rewrite Hw1. simpl.
    rewrite <- Hw1. by rewrite Hrun. }
  rewrite Hw2, Ht, Hi, Hb, Hw1. simpl.
  split; [done|]. split; [done|]. split; [apply lookup_insert_eq|].
  intros index_type' chunks'.
  unfold IndexService.build_index_async, bind, get_state. simpl.
  rewrite Hb, Hw1. simpl. by rewrite lookup_insert_eq.
Qed.

End WithRandom.

(** C4 on the code: building a KD-tree over [ragged_chunks] fails.  The
    synchronous call passes the exception on and keeps the published index.
    Started in the background, the same build ends its thread with the
    building flag still set, so the next [build_index_async] does nothing. *)
Theorem building_flag_survives_failure :
  let gauss := fun (_ : Z) (_ : nat) => 0%R in
  let w0 := sample_world_indexed in
  (IndexService.build_index gauss "L" KD_TREE ragged_chunks w0).1 = Raise IndexError /\
  indexes (IndexService.build_index gauss "L" KD_TREE ragged_chunks w0).2 = indexes w0 /\
  let w1 := (IndexService.build_index_async "L" KD_TREE ragged_chunks w0).2 in
  let w2 := (IndexService.run_thread gauss w1).2 in
  threads w2 = [] /\ indexes w2 = indexes w0 /\
  building w2 !! "L"%string = Some true /\
  forall index_type chunks,
    IndexService.build_index_async "L" index_type chunks w2 = (Ok tt, w2).
Proof.
  intros gauss w0.
  assert (Hfail : (VectorIndexOps.build gauss (map Chunk.embedding ragged_chunks)
                     (map Chunk.id ragged_chunks) (IndexService._create_index KD_TREE)).1
                  = Raise IndexError).
  { unfold VectorIndexOps.build, VectorIndexOps.dispatch, IndexService._create_index.
    cbv beta iota. pose proof kd_build_ragged as H.
    destruct (KDTreeIndex.build _ _ _) as [r i]. exact H. }
  destruct (build_index_failure gauss "L" KD_TREE ragged_chunks w0 IndexError Hfail)
    as (w' & -> & Hi & _).
  split; [done|]. split; [done|].
  by apply (failed_thread_blocks_builds gauss "L" KD_TREE ragged_chunks w0 IndexError).
Qed.

End BuildFacts.

Module RWLockFacts.
Import RWLockSpec.

Lemma remove_one_length t l : t ∈ l -> S (length (remove_one t l)) = length l.
Proof.
  induction l as [|x l IH]; simpl; [by intros ?%elem_of_nil|].
  case_bool_decide as Hx; [done|].
  intros [->|Hin]%elem_of_cons; [done|]. simpl. by rewrite IH.
Qed.

Lemma initial_counts_agree : counts_agree initial.
Proof. split; simpl; try done. lia. Qed.

Lemma step_counts_agree c c' : counts_agree c -> step c c' -> counts_agree c'.
Proof.
  intros [Hr Hw Ha Hone Halone] Hstep.
  destruct Hstep as [t c l' Hacq|t c Hin|t c|t c l' Hin Hacq|t c Hin].
  - unfold RWLock.acquire_read in Hacq.
    destruct (RWLock._writer_active (lock c)) eqn:Hact; [done|].
    destruct (Z.ltb_spec 0 (RWLock._writers_waiting (lock c))); [done|].
    simpl in Hacq. injection Hacq as <-.
    symmetry in Ha. apply bool_decide_eq_false in Ha.
    assert (Hnil : writing c = []) by (by destruct (writing c); [|exfalso; apply Ha]).
    split; simpl; rewrite ?Hnil; simpl; try done; try lia.
  - pose proof (remove_one_length t _ Hin) as Hlen.
    assert (Hnil : writing c = []).
    { destruct (writing c) as [|x l] eqn:E; [done|].
      rewrite Halone in Hin by done. by apply elem_of_nil in Hin. }
    split; simpl; rewrite ?Hnil; simpl; try done; try lia.
    by rewrite Hnil in Ha.
  - split; simpl; try done; try lia.
  - pose proof (remove_one_length t _ Hin) as Hlen.
    unfold RWLock.acquire_write_proceed in Hacq.
    destruct (RWLock._writer_active (lock c)) eqn:Hact; [done|].
    destruct (Z.ltb_spec 0 (RWLock._readers (lock c))); [done|].
    simpl in Hacq. injection Hacq as <-.
    symmetry in Ha. apply bool_decide_eq_false in Ha.
    assert (Hnil : writing c = []) by (by destruct (writing c); [|exfalso; apply Ha]).
    assert (Hrnil : reading c = []) by (destruct (reading c); [done|simpl in Hr; lia]).
    split; simpl; rewrite ?Hnil, ?Hrnil; simpl; try done; try lia.
  - destruct (writing c) as [|x [|y l]] eqn:E; [by apply elem_of_nil in Hin| |simpl in Hone; lia].
    apply list_elem_of_singleton in Hin as ->.
    split; simpl; rewrite ?(bool_decide_eq_true_2 (x = x)) by done; simpl; try done; try lia.
Qed.

Lemma reachable_counts_agree c : reachable c -> counts_agree c.
Proof.
  induction 1 as [|c c' _ IH Hstep]; [apply initial_counts_agree|].
  by eapply step_counts_agree.
Qed.

(** C9: in every reachable configuration at most one thread is inside a
    write section, and then no thread is inside a read section; and
    [acquire_read] lets a reader in only when no writer is waiting and none is
    active. *)
Theorem rwlock_exclusion (c : config) :
  reachable c ->
  length (writing c) <= 1 /\
  (writing c <> [] -> reading c = []) /\
  (forall l', RWLock.acquire_read (lock c) = Some l' -> waiting c = [] /\ writing c = []).
Proof.
  intros Hc. destruct (reachable_counts_agree c Hc) as [Hr Hw Ha Hone Halone].
  split; [done|]. split; [done|].
  intros l' Hacq. unfold RWLock.acquire_read in Hacq.
  destruct (RWLock._writer_active (lock c)) eqn:Hact; [done|].
  destruct (Z.ltb_spec 0 (RWLock._writers_waiting (lock c))); [done|].
  split.
  - destruct (waiting c); [done|simpl in Hw; lia].
  - symmetry in Ha. apply bool_decide_eq_false in Ha.
    destruct (writing c); [done|]. exfalso. by apply Ha.
Qed.

Lemma rwlock_exclusion_witness :
  let c := mk_config (RWLock.mk 0 1 true) [] [7] [3] in
  length (writing c) <= 1 /\
  (writing c <> [] -> reading c = []) /\
  (forall l', RWLock.acquire_read (lock c) = Some l' -> waiting c = [] /\ writing c = []).
Proof.
  apply rwlock_exclusion.
  assert (H1 : reachable (mk_config (RWLock.mk 0 1 false) [] [3] [])).
  { apply (reachable_step initial); [apply reachable_initial|].
    apply (step_acquire_write_enter 3 initial). }
  assert (H2 : reachable (mk_config (RWLock.mk 0 0 true) [] [] [3])).
  { apply (reachable_step _ _ H1).
    apply (step_acquire_write_proceed 3 (mk_config (RWLock.mk 0 1 false) [] [3] []));
      [left|reflexivity]. }
  apply (reachable_step _ _ H2).
  apply (step_acquire_write_enter 7 (mk_config (RWLock.mk 0 0 true) [] [] [3])).
Defined.

End RWLockFacts.

Module CascadeFacts.
Import ServiceSpec CascadeSpec MonadFacts ChunkServiceFacts.

Lemma lookup_each_ok {V} (items : gmap string V) ids :
  (forall id, id ∈ ids -> is_Some (items !! id)) ->
  exists vs, lookup_each items ids = Ok vs /\
    Forall2 (fun id v => items !! id = Some v) ids vs.
Proof.
  induction ids as [|id ids IH]; intros Hids; simpl.
  - exists []. split; [done|constructor].
  - destruct (Hids id) as [v Hv]; [left|]. rewrite Hv.
    destruct IH as (vs & -> & Hvs); [intros; apply Hids; by right|].
    simpl. exists (v :: vs). split; [done|]. by constructor.
Qed.

Lemma lookup_index_discard key x (index : gmap string (gset string)) key' :
  index_discard key x index !!! key' =
  if decide (key = key') then index !!! key ∖ {[x]} else index !!! key'.
Proof.
  unfold index_discard. case_decide as Hk.
  - subst. by rewrite lookup_total_insert_eq.
  - by rewrite lookup_total_insert_ne.
Qed.

(** *** Deleting one chunk *)

Lemma chunk_delete_run (r : ChunkRepository.t) id c :
  ChunkRepository._items r !! id = Some c ->
  ChunkRepository.delete id r =
  (Ok tt, ChunkRepository.mk (delete id (ChunkRepository._items r))
            (index_discard (Chunk.library_id c) id (ChunkRepository._by_library r))
            (index_discard (Chunk.document_id c) id (ChunkRepository._by_document r))).
Proof.
  intros H. unfold ChunkRepository.delete, bind, get_state, modify. simpl. by rewrite H.
Qed.

Lemma chunk_delete_wf (r : ChunkRepository.t) id c :
  chunks_wf r -> ChunkRepository._items r !! id = Some c ->
  chunks_wf (ChunkRepository.delete id r).2.
Proof.
  intros [Hids Hlib Hdoc] Hc. rewrite (chunk_delete_run r id c Hc). simpl. split; simpl.
  - intros id' c'. rewrite lookup_delete. case_decide; [done|]. apply Hids.
  - intros lib id'. rewrite lookup_index_discard. rewrite lookup_delete.
    destruct (decide (id = id')) as [<-|Hne].
    + split; [|by intros (? & ? & _)].
      case_decide; [rewrite elem_of_difference, elem_of_singleton; intuition congruence|]. intros Hin. apply Hlib in Hin as (c' & Hc' & Hl). congruence.
    + case_decide; [|apply Hlib]. subst. rewrite <- Hlib. rewrite elem_of_difference, elem_of_singleton. intuition congruence.
  - intros doc id'. rewrite lookup_index_discard. rewrite lookup_delete.
    destruct (decide (id = id')) as [<-|Hne].
    + split; [|by intros (? & ? & _)].
      case_decide; [rewrite elem_of_difference, elem_of_singleton; intuition congruence|]. intros Hin. apply Hdoc in Hin as (c' & Hc' & Hl). congruence.
    + case_decide; [|apply Hdoc]. subst. rewrite <- Hdoc. rewrite elem_of_difference, elem_of_singleton. intuition congruence.
Qed.

Lemma document_delete_run (r : DocumentRepository.t) id d :
  DocumentRepository._items r !! id = Some d ->
  DocumentRepository.delete id r =
  (Ok tt, DocumentRepository.mk (delete id (DocumentRepository._items r))
            (index_discard (Document.library_id d) id (DocumentRepository._by_library r))).
Proof.
  intros H. unfold DocumentRepository.delete, bind, get_state, modify. simpl. by rewrite H.
Qed.

Lemma document_delete_wf (r : DocumentRepository.t) id d :
  documents_wf r -> DocumentRepository._items r !! id = Some d ->
  documents_wf (DocumentRepository.delete id r).2.
Proof.
  intros [Hids Hlib] Hd. rewrite (document_delete_run r id d Hd). simpl. split; simpl.
  - intros id' d'. rewrite lookup_delete. case_decide; [done|]. apply Hids.
  - intros lib id'. rewrite lookup_index_discard. rewrite lookup_delete.
    destruct (decide (id = id')) as [<-|Hne].
    + split; [|by intros (? & ? & _)].
      case_decide; [rewrite elem_of_difference, elem_of_singleton; intuition congruence|]. intros Hin. apply Hlib in Hin as (d' & Hd' & Hl). congruence.
    + case_decide; [|apply Hlib]. subst. rewrite <- Hlib. rewrite elem_of_difference, elem_of_singleton. intuition congruence.
Qed.

(** *** Listing *)

Lemma list_by_document_run (r : ChunkRepository.t) document_id :
  chunks_wf r ->
  exists cs, ChunkRepository.list_by_document document_id r = (Ok cs, r) /\
    NoDup (map Chunk.id cs) /\
    forall c, c ∈ cs <->
      ChunkRepository._items r !! Chunk.id c = Some c /\ Chunk.document_id c = document_id.
Proof.
  intros [Hids Hlib Hdoc].
  unfold ChunkRepository.list_by_document, bind, get_state, lift. simpl.
  set (ids := elements (ChunkRepository._by_document r !!! document_id)).
  destruct (lookup_each_ok (ChunkRepository._items r) ids) as (cs & -> & Hcs).
  { intros id Hin. apply elem_of_elements, Hdoc in Hin as (c & Hc & _). by eexists. }
  exists cs. split; [done|].
  assert (Hmap : map Chunk.id cs = ids).
  { clear -Hcs Hids. induction Hcs as [|id c ids cs Hc _ IH]; simpl; [done|].
    by rewrite (Hids _ _ Hc), IH. }
  split; [rewrite Hmap; apply NoDup_elements|].
  intros c. split.
  - intros Hin. apply list_elem_of_lookup in Hin as [i Hi].
    destruct (Forall2_lookup_r _ _ _ _ _ Hcs Hi) as (id & Hid & Hc).
    pose proof (Hids _ _ Hc) as ->. split; [done|].
    apply list_elem_of_lookup_2, elem_of_elements, Hdoc in Hid as (c' & Hc' & Hd). congruence.
  - intros [Hc Hd].
    assert (Hin : Chunk.id c ∈ ids) by (apply elem_of_elements, Hdoc; by exists c).
    apply list_elem_of_lookup in Hin as [i Hi].
    destruct (Forall2_lookup_l _ _ _ _ _ Hcs Hi) as (c' & Hc' & Hl).
    apply list_elem_of_lookup_2 in Hc'. congruence.
Qed.

Lemma list_by_library_docs_run (r : DocumentRepository.t) library_id :
  documents_wf r ->
  exists ds, DocumentRepository.list_by_library library_id r = (Ok ds, r) /\
    NoDup (map Document.id ds) /\
    forall d, d ∈ ds <->
      DocumentRepository._items r !! Document.id d = Some d /\ Document.library_id d = library_id.
Proof.
  intros [Hids Hlib].
  unfold DocumentRepository.list_by_library, bind, get_state, lift. simpl.
  set (ids := elements (DocumentRepository._by_library r !!! library_id)).
  destruct (lookup_each_ok (DocumentRepository._items r) ids) as (ds & -> & Hds).
  { intros id Hin. apply elem_of_elements, Hlib in Hin as (d & Hd & _). by eexists. }
  exists ds. split; [done|].
  assert (Hmap : map Document.id ds = ids).
  { clear -Hds Hids. induction Hds as [|id d ids ds Hd _ IH]; simpl; [done|].
    by rewrite (Hids _ _ Hd), IH. }
  split; [rewrite Hmap; apply NoDup_elements|].
  intros d. split.
  - intros Hin. apply list_elem_of_lookup in Hin as [i Hi].
    destruct (Forall2_lookup_r _ _ _ _ _ Hds Hi) as (id & Hid & Hd).
    pose proof (Hids _ _ Hd) as ->. split; [done|].
    apply list_elem_of_lookup_2, elem_of_elements, Hlib in Hid as (d' & Hd' & Hl). congruence.
  - intros [Hd Hl].
    assert (Hin : Document.id d ∈ ids) by (apply elem_of_elements, Hlib; by exists d).
    apply list_elem_of_lookup in Hin as [i Hi].
    destruct (Forall2_lookup_l _ _ _ _ _ Hds Hi) as (d' & Hd' & Hl').
    apply list_elem_of_lookup_2 in Hd'. congruence.
Qed.

(** *** The loops of [LibraryService.delete] *)

Lemma set_chunks_same w : set_chunks (chunks w) w = w.
Proof. by destruct w. Qed.

Lemma set_documents_same w : set_documents (documents w) w = w.
Proof. by destruct w. Qed.

Lemma set_libraries_same w : set_libraries (libraries w) w = w.
Proof. by destruct w. Qed.

Lemma on_chunks_run {A} (m : M ChunkRepository.t A) w :
  on_chunks m w = ((m (chunks w)).1, set_chunks (m (chunks w)).2 w).
Proof. unfold on_chunks, zoom. by destruct (m (chunks w)). Qed.

Lemma on_documents_run {A} (m : M DocumentRepository.t A) w :
  on_documents m w = ((m (documents w)).1, set_documents (m (documents w)).2 w).
Proof. unfold on_documents, zoom. by destruct (m (documents w)). Qed.

Lemma on_libraries_run {A} (m : M (gmap string Library.t) A) w :
  on_libraries m w = ((m (libraries w)).1, set_libraries (m (libraries w)).2 w).
Proof. unfold on_libraries, zoom. by destruct (m (libraries w)). Qed.

Lemma delete_chunks_run (cs : list Chunk.t) w :
  chunks_wf (chunks w) -> NoDup (map Chunk.id cs) ->
  (forall c, c ∈ cs -> ChunkRepository._items (chunks w) !! Chunk.id c = Some c) ->
  exists r', for_each cs (fun ch => on_chunks (ChunkRepository.delete (Chunk.id ch))) w
               = (Ok tt, set_chunks r' w) /\
    chunks_wf r' /\
    forall id, ChunkRepository._items r' !! id =
      if decide (id ∈ map Chunk.id cs) then None else ChunkRepository._items (chunks w) !! id.
Proof.
  revert w. induction cs as [|c cs IH]; intros w Hwf Hnd Hcs.
  - exists (chunks w). simpl. rewrite set_chunks_same. split; [done|]. split; [done|].
    intros id. rewrite ?decide_False by apply not_elem_of_nil. done.
  - simpl in Hnd. apply NoDup_cons in Hnd as [Hc Hnd].
    pose proof (Hcs c ltac:(left)) as Hitem.
    cbn [for_each]. unfold bind at 1. rewrite on_chunks_run.
    rewrite (chunk_delete_run _ _ _ Hitem). cbn [fst snd].
    set (r1 := ChunkRepository.mk _ _ _).
    destruct (IH (set_chunks r1 w)) as (r' & Hrun & Hwf' & Hitems).
    + pose proof (chunk_delete_wf _ _ _ Hwf Hitem) as H1.
      by rewrite (chunk_delete_run _ _ _ Hitem) in H1.
    + done.
    + intros c' Hc'. simpl. rewrite lookup_delete_ne; [apply Hcs; by right|].
      intros Heq. apply Hc. rewrite Heq. apply list_elem_of_fmap. by exists c'.
    + exists r'. split; [exact Hrun|]. split; [done|].
      intros id. rewrite Hitems. simpl. rewrite lookup_delete.
      destruct (decide (id ∈ map Chunk.id cs)) as [Hin|Hnin].
      * rewrite decide_True; [done|by right].
      * case_decide as Hid.
        -- subst. rewrite decide_True; [done|left].
        -- rewrite decide_False; [done|]. rewrite not_elem_of_cons. split; [done|done].
Qed.

Lemma delete_documents_loop (ds : list Document.t) w :
  documents_wf (documents w) -> chunks_wf (chunks w) -> NoDup (map Document.id ds) ->
  (forall d, d ∈ ds -> DocumentRepository._items (documents w) !! Document.id d = Some d) ->
  exists rd rc,
    for_each ds (fun d =>
      do cs <- on_chunks (ChunkRepository.list_by_document (Document.id d));
      do_ for_each cs (fun ch => on_chunks (ChunkRepository.delete (Chunk.id ch)));
      on_documents (DocumentRepository.delete (Document.id d))) w
      = (Ok tt, set_documents rd (set_chunks rc w)) /\
    documents_wf rd /\ chunks_wf rc /\
    (forall id, DocumentRepository._items rd !! id =
       if decide (id ∈ map Document.id ds) then None
       else DocumentRepository._items (documents w) !! id) /\
    (forall id, ChunkRepository._items rc !! id =
       match ChunkRepository._items (chunks w) !! id with
       | Some c => if decide (Chunk.document_id c ∈ map Document.id ds) then None else Some c
       | None => None
       end).
Proof.
  revert w. induction ds as [|d ds IH]; intros w Hdwf Hcwf Hnd Hds.
  - exists (documents w), (chunks w). simpl. rewrite set_chunks_same, set_documents_same.
    split; [done|]. split; [done|]. split; [done|]. split.
    + intros id. rewrite ?decide_False by apply not_elem_of_nil. done.
    + intros id. destruct (ChunkRepository._items (chunks w) !! id); [|done].
      rewrite ?decide_False by apply not_elem_of_nil. done.
  - simpl in Hnd. apply NoDup_cons in Hnd as [Hd Hnd].
    pose proof (Hds d ltac:(left)) as Hitem.
    cbn [for_each]. unfold bind at 1. unfold bind at 1. rewrite on_chunks_run.
    destruct (list_by_document_run (chunks w) (Document.id d) Hcwf) as (cs & -> & Hcsnd & Hcs).
    cbn [fst snd]. rewrite set_chunks_same.
    unfold bind at 1.
    destruct (delete_chunks_run cs w Hcwf Hcsnd) as (r1 & -> & Hwf1 & Hitems1).
    { intros c Hc. by apply Hcs. }
    rewrite on_documents_run. cbn [documents set_chunks].
    rewrite (document_delete_run _ _ _ Hitem). cbn [fst snd].
    set (rd1 := DocumentRepository.mk _ _).
    destruct (IH (set_documents rd1 (set_chunks r1 w))) as (rd & rc & Hrun & Hdwf' & Hcwf' & Hdi & Hci).
    + pose proof (document_delete_wf _ _ _ Hdwf Hitem) as H1.
      by rewrite (document_delete_run _ _ _ Hitem) in H1.
    + done.
    + done.
    + intros d' Hd'. simpl. rewrite lookup_delete_ne; [apply Hds; by right|].
      intros Heq. apply Hd. rewrite Heq. apply list_elem_of_fmap. by exists d'.
    + exists rd, rc. split; [exact Hrun|]. split; [done|]. split; [done|]. split.
      * intros id. rewrite Hdi. simpl. rewrite lookup_delete.
        destruct (decide (id ∈ map Document.id ds)) as [Hin|Hnin].
        -- rewrite decide_True; [done|by right].
        -- case_decide as Hid.
           ++ subst. rewrite decide_True; [done|left].
           ++ rewrite decide_False; [done|]. by rewrite not_elem_of_cons.
      * intros id. rewrite Hci. simpl. rewrite Hitems1.
        destruct (ChunkRepository._items (chunks w) !! id) as [c|] eqn:Hc.
        -- destruct (decide (id ∈ map Chunk.id cs)) as [Hin|Hnin].
           ++ apply list_elem_of_fmap in Hin as (c' & -> & Hc').
              apply Hcs in Hc' as [Hc' Hdoc]. rewrite Hc in Hc'. injection Hc' as ->.
              rewrite decide_True; [done|]. rewrite Hdoc. left.
           ++ assert (Hdoc : Chunk.document_id c <> Document.id d).
              { intros Hdoc. apply Hnin. apply list_elem_of_fmap. exists c.
                pose proof (chunk_ids _ Hcwf _ _ Hc) as Hid. split; [done|].
                apply Hcs. by rewrite Hid. }
              destruct (decide (Chunk.document_id c ∈ map Document.id ds)) as [Hin|Hnin'].
              ** rewrite decide_True; [done|by right].
              ** rewrite decide_False; [done|]. by rewrite not_elem_of_cons.
        -- by destruct (decide (id ∈ map Chunk.id cs)).
Qed.

(** C8 (as amended): when every chunk of the library hangs under a
    document of the library, deleting the library with cascade first removes
    every document of the library and every chunk under them, the library
    being still there, and then the library; afterwards the three
    repositories hold nothing that belongs to the library, and [get] on the
    library, on any of its documents and on any of its chunks fails with
    [NotFoundError]. *)
Theorem cascade_delete_removes_descendants (w : World) (library_id : string) :
  is_Some (libraries w !! library_id) ->
  documents_wf (documents w) -> chunks_wf (chunks w) -> attached w library_id ->
  exists w1 w2,
    LibraryService.delete_documents library_id w = (Ok tt, w1) /\
    libraries w1 = libraries w /\ no_descendants w1 library_id /\
    LibraryService.delete library_id true w = (Ok tt, w2) /\
    w2 = set_libraries (delete library_id (libraries w)) w1 /\
    libraries w2 !! library_id = None /\ no_descendants w2 library_id /\
    LibraryService.get library_id w2 = (Raise NotFoundError, w2) /\
    (forall id d, DocumentRepository._items (documents w) !! id = Some d ->
       Document.library_id d = library_id ->
       DocumentService.get id w2 = (Raise NotFoundError, w2)) /\
    (forall id c, ChunkRepository._items (chunks w) !! id = Some c ->
       Chunk.library_id c = library_id ->
       ChunkService.get id w2 = (Raise NotFoundError, w2)).
Proof.
  intros [lib Hlib] Hdwf Hcwf Hatt.
  destruct (list_by_library_docs_run (documents w) library_id Hdwf) as (ds & Hlist & Hnd & Hds).
  destruct (delete_documents_loop ds w Hdwf Hcwf Hnd) as (rd & rc & Hloop & Hdwf' & Hcwf' & Hdi & Hci).
  { intros d Hd. by apply Hds. }
  set (w1 := set_documents rd (set_chunks rc w)) in *.
  assert (Hrun1 : LibraryService.delete_documents library_id w = (Ok tt, w1)).
  { unfold LibraryService.delete_documents. unfold bind at 1. rewrite on_documents_run, Hlist.
    cbn [fst snd]. rewrite set_documents_same. exact Hloop. }
  assert (Hdocs : forall id d, DocumentRepository._items (documents w) !! id = Some d ->
            Document.library_id d = library_id -> id ∈ map Document.id ds).
  { intros id d Hd Hl. apply list_elem_of_fmap. exists d.
    pose proof (document_ids _ Hdwf _ _ Hd) as Hid. split; [done|].
    apply Hds. by rewrite Hid. }
  assert (Hnodocs : forall id d, DocumentRepository._items rd !! id = Some d ->
            Document.library_id d <> library_id).
  { intros id d. rewrite Hdi. case_decide as Hin; [done|]. intros Hd Hl. by eapply Hin, Hdocs. }
  assert (Hnochunks : forall id c, ChunkRepository._items rc !! id = Some c ->
            Chunk.library_id c <> library_id).
  { intros id c. rewrite Hci.
    destruct (ChunkRepository._items (chunks w) !! id) as [c'|] eqn:Hc'; [|done].
    case_decide as Hin; [done|]. intros [= ->] Hl.
    destruct (Hatt _ _ Hc' Hl) as (d & Hd & Hdl). by eapply Hin, Hdocs. }
  set (w2 := set_libraries (delete library_id (libraries w)) w1).
  exists w1, w2.
  split; [done|]. split; [done|]. split; [by split|].
  split.
  { unfold LibraryService.delete.
    rewrite (bind_ok _ _ _ _ _ (on_libraries_get w library_id lib Hlib)).
    rewrite (bind_ok _ _ _ _ _ Hrun1).
    rewrite on_libraries_run.
    unfold LibraryRepository.delete, bind, get_state, modify. simpl. by rewrite Hlib. }
  split; [done|]. split; [apply lookup_delete_eq|]. split; [by split|].
  split.
  { apply on_libraries_get_missing. apply lookup_delete_eq. }
  split.
  - intros id d Hd Hl. apply on_documents_get_missing. simpl. rewrite Hdi.
    rewrite decide_True; [done|]. by eapply Hdocs.
  - intros id c Hc Hl. apply on_chunks_get_missing. simpl. rewrite Hci, Hc.
    destruct (Hatt _ _ Hc Hl) as (d & Hd & Hdl).
    rewrite decide_True; [done|]. by eapply Hdocs.
Qed.

(** Creating a chunk under a fresh id keeps the chunk repository well formed. *)
Lemma chunk_create_wf (r : ChunkRepository.t) c :
  chunks_wf r -> ChunkRepository._items r !! Chunk.id c = None ->
  chunks_wf (ChunkRepository.create c r).2.
Proof.
  intros [Hids Hlib Hdoc] Hfresh.
  unfold ChunkRepository.create, bind, get_state, modify, ret. simpl. rewrite Hfresh. simpl.
  split; simpl.
  - intros id c'. rewrite lookup_insert. case_decide; [by intros [= <-]|apply Hids].
  - intros lib id. unfold index_add. rewrite lookup_insert.
    destruct (decide (Chunk.library_id c = lib)) as [<-|Hne].
    + rewrite lookup_total_insert_eq, elem_of_union, elem_of_singleton, Hlib.
      case_decide as Hid; [subst; split; [by exists c|by right]|].
      split; [intros [?|?]; [done|congruence]|by left].
    + rewrite lookup_total_insert_ne by done. rewrite Hlib.
      case_decide as Hid; [|done]. subst. split.
      * intros (c' & Hc' & _). congruence.
      * intros (c' & [= <-] & ?). done.
  - intros doc id. unfold index_add. rewrite lookup_insert.
    destruct (decide (Chunk.document_id c = doc)) as [<-|Hne].
    + rewrite lookup_total_insert_eq, elem_of_union, elem_of_singleton, Hdoc.
      case_decide as Hid; [subst; split; [by exists c|by right]|].
      split; [intros [?|?]; [done|congruence]|by left].
    + rewrite lookup_total_insert_ne by done. rewrite Hdoc.
      case_decide as Hid; [|done]. subst. split.
      * intros (c' & Hc' & _). congruence.
      * intros (c' & [= <-] & ?). done.
Qed.

Lemma init_chunks_wf : chunks_wf ChunkRepository.init.
Proof.
  split; simpl.
  - intros id c. by rewrite lookup_empty.
  - intros lib id. rewrite lookup_total_empty. split; [set_solver|].
    intros (c & Hc & _). by rewrite lookup_empty in Hc.
  - intros doc id. rewrite lookup_total_empty. split; [set_solver|].
    intros (c & Hc & _). by rewrite lookup_empty in Hc.
Qed.

Lemma sample_documents_wf : documents_wf (documents sample_world).
Proof.
  split; simpl.
  - intros id d [<- <-]%lookup_singleton_Some. done.
  - intros lib id. destruct (decide (lib = "L"%string)) as [->|Hne].
    + rewrite lookup_total_singleton_eq, elem_of_singleton. split.
      * intros ->. exists sample_document. by rewrite lookup_singleton_eq.
      * by intros (d & [<- <-]%lookup_singleton_Some & _).
    + rewrite lookup_total_singleton_ne by done. split; [set_solver|].
      intros (d & [<- <-]%lookup_singleton_Some & Hl). simpl in Hl. congruence.
Qed.

Lemma cascade_world_chunks :
  chunks cascade_world =
  (ChunkRepository.create (sample_chunk "c" [1; 0; 0; 0]%R) ChunkRepository.init).2.
Proof. reflexivity. Qed.

Lemma cascade_delete_removes_descendants_witness :
  exists w1 w2,
    LibraryService.delete_documents "L" cascade_world = (Ok tt, w1) /\
    libraries w1 = libraries cascade_world /\ no_descendants w1 "L" /\
    LibraryService.delete "L" true cascade_world = (Ok tt, w2) /\
    w2 = set_libraries (delete "L"%string (libraries cascade_world)) w1 /\
    libraries w2 !! "L"%string = None /\ no_descendants w2 "L" /\
    LibraryService.get "L" w2 = (Raise NotFoundError, w2) /\
    (forall id d, DocumentRepository._items (documents cascade_world) !! id = Some d ->
       Document.library_id d = "L"%string ->
       DocumentService.get id w2 = (Raise NotFoundError, w2)) /\
    (forall id c, ChunkRepository._items (chunks cascade_world) !! id = Some c ->
       Chunk.library_id c = "L"%string ->
       ChunkService.get id w2 = (Raise NotFoundError, w2)).
Proof.
  apply cascade_delete_removes_descendants.
  - eexists. reflexivity.
  - apply sample_documents_wf.
  - rewrite cascade_world_chunks. apply chunk_create_wf; [apply init_chunks_wf|reflexivity].
  - intros id c Hc Hl. exists sample_document.
    change (ChunkRepository._items (chunks cascade_world))
      with ({["c"%string := sample_chunk "c" [1; 0; 0; 0]%R]} : gmap string Chunk.t) in Hc.
    apply lookup_singleton_Some in Hc as [<- <-]. split; reflexivity.
Defined.

(** C8 as stated fails: the cascade walks the documents of the library, so
    a chunk of the library whose document is gone is never reached.  After
    the chunk's document has been deleted through the document service, the
    cascade succeeds and the chunk is still there. *)
Lemma cascade_leaves_orphan_chunk :
  let w2 := (LibraryService.delete "L" true orphan_world).2 in
  (LibraryService.delete "L" true orphan_world).1 = Ok tt /\
  libraries w2 !! "L"%string = None /\
  exists c, ChunkService.get "c" w2 = (Ok c, w2) /\ Chunk.library_id c = "L"%string.
Proof.
  split; [reflexivity|]. split; [reflexivity|].
  eexists. split; reflexivity.
Qed.

End CascadeFacts.

Module FilterFacts.
Import ServiceSpec CascadeSpec FilterSpec MonadFacts ChunkServiceFacts CascadeFacts.
Import VectorFacts KDTreeFacts.

(** *** Strings *)

Lemma append_cons (x : ascii) (a b : string) :
  (String x a ++ b)%string = String x (a ++ b)%string.
Proof. reflexivity. Qed.

Lemma append_nil (b : string) : (EmptyString ++ b)%string = b.
Proof. reflexivity. Qed.

Lemma prefix_spec (a b : string) :
  String.prefix a b = true <-> exists post : string, b = (a ++ post)%string.
Proof.
  revert a. induction b as [|y b IH]; intros [|x a]; simpl.
  - split; [by exists EmptyString|done].
  - split; [done|]. intros [post Hp]. by rewrite append_cons in Hp.
  - split; [by eexists|done].
  - destruct (ascii_dec x y) as [->|Hne].
    + rewrite IH. split; intros [post Hp]; exists post; rewrite append_cons in *; congruence.
    + split; [done|]. intros [post Hp]. rewrite append_cons in Hp. congruence.
Qed.

Lemma is_substring_spec (a b : string) :
  is_substring a b = true <-> substring a b.
Proof.
  unfold substring. induction b as [|y b IH]; cbn [is_substring].
  - rewrite orb_false_r, prefix_spec. split.
    + intros [post Hp]. by exists EmptyString, post.
    + intros ([|? ?] & post & Hp); [by exists post|by rewrite append_cons in Hp].
  - rewrite orb_true_iff, prefix_spec, IH. split.
    + intros [[post Hp]|(pre & post & Hp)].
      * by exists EmptyString, post.
      * exists (String y pre), post. by rewrite append_cons, Hp.
    + intros ([|x pre] & post & Hp).
      * left. by exists post.
      * right. exists pre, post. rewrite append_cons in Hp. congruence.
Qed.

Lemma lower_empty (s : string) : lower s = EmptyString <-> s = EmptyString.
Proof. by destruct s. Qed.

(** *** The filter predicate *)

Section Predicate.
Context (fromisoformat : string -> option datetime).

Lemma before_from_false created_at fmt :
  QueryService.before_from fromisoformat created_at fmt = false <->
  forall s d, fmt = Some s -> s <> EmptyString -> fromisoformat s = Some d ->
    datetime_lt created_at d <> Ok true.
Proof.
  unfold QueryService.before_from. destruct fmt as [[|x s]|].
  - split; [|done]. by intros _ s d [= <-].
  - destruct (fromisoformat (String x s)) as [d|] eqn:Hp.
    + destruct (datetime_lt created_at d) as [[]|e] eqn:Hlt.
      * split; [done|]. intros H. by destruct (H _ _ eq_refl ltac:(done) Hp).
      * split; [|done]. intros _ s' d' [= <-] _. rewrite Hp. intros [= <-]. by rewrite Hlt.
      * split; [|done]. intros _ s' d' [= <-] _. rewrite Hp. intros [= <-]. by rewrite Hlt.
    + split; [|done]. intros _ s' d' [= <-] _. by rewrite Hp.
  - split; [|done]. by intros _ s d.
Qed.

Lemma after_to_false created_at fmt :
  QueryService.after_to fromisoformat created_at fmt = false <->
  forall s d, fmt = Some s -> s <> EmptyString -> fromisoformat s = Some d ->
    datetime_lt d created_at <> Ok true.
Proof.
  unfold QueryService.after_to. destruct fmt as [[|x s]|].
  - split; [|done]. by intros _ s d [= <-].
  - destruct (fromisoformat (String x s)) as [d|] eqn:Hp.
    + destruct (datetime_lt d created_at) as [[]|e] eqn:Hlt.
      * split; [done|]. intros H. by destruct (H _ _ eq_refl ltac:(done) Hp).
      * split; [|done]. intros _ s' d' [= <-] _. rewrite Hp. intros [= <-]. by rewrite Hlt.
      * split; [|done]. intros _ s' d' [= <-] _. rewrite Hp. intros [= <-]. by rewrite Hlt.
    + split; [|done]. intros _ s' d' [= <-] _. by rewrite Hp.
  - split; [|done]. by intros _ s d.
Qed.

Lemma text_check (c : Chunk.t) (given : option string) :
  let text_contains := lower (strip (default EmptyString given)) in
  negb (bool_decide (text_contains = EmptyString))
    && negb (is_substring text_contains (lower (Chunk.text c))) = false <->
  forall s, given = Some s -> strip s <> EmptyString ->
    substring (lower (strip s)) (lower (Chunk.text c)).
Proof.
  simpl. rewrite andb_false_iff, !negb_false_iff, bool_decide_eq_true, lower_empty.
  rewrite is_substring_spec. destruct given as [s|]; simpl.
  - split.
    + intros [He|Hs] s' [= <-] Hne; [done|done].
    + intros H. destruct (decide (strip s = EmptyString)); [by left|right; by apply H].
  - split; [done|]. intros _. by left.
Qed.

Lemma tags_any_check (have : list string) (given : option (list string)) :
  let tags_any := default [] given in
  negb (bool_decide (tags_any = []))
    && negb (existsb (fun t => bool_decide (t ∈ have)) tags_any) = false <->
  forall ts, given = Some ts -> ts <> [] -> exists t, t ∈ ts /\ t ∈ have.
Proof.
  simpl. rewrite andb_false_iff, !negb_false_iff, bool_decide_eq_true, existsb_exists.
  destruct given as [ts|]; simpl.
  - split.
    + intros [He|(t & Hin & Ht)] ts' [= <-] Hne; [done|].
      exists t. split; [by apply list_elem_of_In|by apply bool_decide_eq_true in Ht].
    + intros H. destruct (decide (ts = [])) as [|Hne]; [by left|right].
      destruct (H _ eq_refl Hne) as (t & Hin & Ht). exists t.
      split; [by apply list_elem_of_In|by apply bool_decide_eq_true].
  - split; [done|]. intros _. by left.
Qed.

Lemma tags_all_check (have : list string) (given : option (list string)) :
  let tags_all := default [] given in
  negb (bool_decide (tags_all = []))
    && negb (forallb (fun t => bool_decide (t ∈ have)) tags_all) = false <->
  forall ts, given = Some ts -> forall t, t ∈ ts -> t ∈ have.
Proof.
  simpl. rewrite andb_false_iff, !negb_false_iff, bool_decide_eq_true, forallb_forall.
  destruct given as [ts|]; simpl.
  - split.
    + intros [He|H] ts' [= <-] t Hin; [subst; by apply not_elem_of_nil in Hin|].
      apply list_elem_of_In, H in Hin. by apply bool_decide_eq_true in Hin.
    + intros H. right. intros t Hin. apply bool_decide_eq_true, (H _ eq_refl).
      by apply list_elem_of_In.
  - split; [|by left]. done.
Qed.

Lemma author_in_check (have : option string) (given : option (list string)) :
  let author_in := default [] given in
  negb (bool_decide (author_in = []))
    && negb (bool_decide (have ∈ map Some author_in)) = false <->
  forall authors, given = Some authors -> authors <> [] ->
    exists a, a ∈ authors /\ have = Some a.
Proof.
  simpl. rewrite andb_false_iff, !negb_false_iff, !bool_decide_eq_true.
  destruct given as [authors|]; simpl.
  - split.
    + intros [He|Hin] authors' [= <-] Hne; [done|].
      apply list_elem_of_fmap in Hin as (a & -> & Hin). by exists a.
    + intros H. destruct (decide (authors = [])) as [|Hne]; [by left|right].
      destruct (H _ eq_refl Hne) as (a & Hin & ->). apply list_elem_of_fmap. by exists a.
  - split; [done|]. intros _. by left.
Qed.

Lemma same_kind_lt (a b : datetime) :
  same_kind a b -> datetime_lt a b <> Ok true -> datetime_lt a b = Ok false.
Proof.
  unfold same_kind, datetime_lt. intros Hk Hlt.
  destruct (utcoffset a) as [oa|], (utcoffset b) as [ob|];
    first [ discriminate (proj2 Hk eq_refl)
          | discriminate (proj1 Hk eq_refl)
          | destruct (_ <? _)%Z; done ].
Qed.

Lemma same_kind_sym (a b : datetime) : same_kind a b -> same_kind b a.
Proof. unfold same_kind. tauto. Qed.

(** Where the bounds can be ordered against [created_at],
    [_matches_filter] decides [matches]. *)
Lemma matches_filter_spec (c : Chunk.t) (f : FilterDto) :
  comparable fromisoformat c f ->
  QueryService._matches_filter fromisoformat c f = true <-> matches fromisoformat c f.
Proof.
  intros Hcmp.
  unfold QueryService._matches_filter. cbv zeta.
  pose proof (text_check c (text_contains f)) as Htext.
  pose proof (before_from_false (Chunk.created_at c) (created_at_from f)) as Hfrom.
  pose proof (after_to_false (Chunk.created_at c) (created_at_to f)) as Hto.
  pose proof (tags_any_check (tags (Chunk.metadata c)) (tags_any f)) as Hany.
  pose proof (tags_all_check (tags (Chunk.metadata c)) (tags_all f)) as Hall.
  pose proof (author_in_check (author (Chunk.metadata c)) (author_in f)) as Hauthor.
  cbv zeta in Htext, Hany, Hall, Hauthor.
  split.
  - intros H.
    destruct (negb (bool_decide (lower (strip (default EmptyString (text_contains f))) = EmptyString))
              && _) eqn:E1; [done|].
    destruct (QueryService.before_from _ _ _) eqn:E2; [done|].
    destruct (QueryService.after_to _ _ _) eqn:E3; [done|].
    destruct (negb (bool_decide (default [] (tags_any f) = [])) && _) eqn:E4; [done|].
    destruct (negb (bool_decide (default [] (tags_all f) = [])) && _) eqn:E5; [done|].
    destruct (negb (bool_decide (default [] (author_in f) = [])) && _) eqn:E6; [done|].
    split; [by apply Htext| | |by apply Hany|by apply Hall|by apply Hauthor].
    + intros s d Hs Hne Hd. apply same_kind_lt.
      * apply (Hcmp s d); [by left|done].
      * by apply (proj1 Hfrom eq_refl s d).
    + intros s d Hs Hne Hd. apply same_kind_lt.
      * apply same_kind_sym, (Hcmp s d); [by right|done].
      * by apply (proj1 Hto eq_refl s d).
  - intros [H1 H2 H3 H4 H5 H6].
    apply Htext in H1. apply Hany in H4. apply Hall in H5. apply Hauthor in H6.
    assert (H2' : QueryService.before_from fromisoformat (Chunk.created_at c)
                    (created_at_from f) = false).
    { apply Hfrom. intros s d Hs Hne Hd. by rewrite (H2 s d Hs Hne Hd). }
    assert (H3' : QueryService.after_to fromisoformat (Chunk.created_at c)
                    (created_at_to f) = false).
    { apply Hto. intros s d Hs Hne Hd. by rewrite (H3 s d Hs Hne Hd). }
    by rewrite H1, H2', H3', H4, H5, H6.
Qed.

End Predicate.

(** *** Ranking *)

Lemma sorted_app_le {A} (R : A -> A -> Prop) (l1 l2 : list A) :
  StronglySorted R (l1 ++ l2) -> forall x y, x ∈ l1 -> y ∈ l2 -> R x y.
Proof.
  induction l1 as [|a l1 IH]; simpl; intros Hs x y Hx Hy.
  - by apply not_elem_of_nil in Hx.
  - apply StronglySorted_inv in Hs as [Hs Ha].
    apply elem_of_cons in Hx as [->|Hx]; [|by apply IH].
    rewrite Forall_forall in Ha. apply Ha, elem_of_app. by right.
Qed.

Lemma sorted_take {A} (R : A -> A -> Prop) (n : nat) (l : list A) :
  StronglySorted R l -> StronglySorted R (take n l).
Proof.
  intros Hs. revert n. induction Hs as [|a l Hs IH Ha]; intros [|n]; simpl; try constructor.
  - apply IH.
  - rewrite Forall_forall in *. intros x Hx. apply Ha. by eapply subseteq_take.
Qed.

Lemma filter_ids_nodup (p : Chunk.t -> bool) (cs : list Chunk.t) :
  NoDup (map Chunk.id cs) -> NoDup (map Chunk.id (List.filter p cs)).
Proof.
  induction cs as [|c cs IH]; simpl; [done|]. intros [Hc Hnd]%NoDup_cons.
  destruct (p c); simpl; [|by apply IH]. apply NoDup_cons. split; [|by apply IH].
  intros Hin. apply Hc. apply list_elem_of_fmap in Hin as (c' & Hid & Hin).
  apply list_elem_of_fmap. exists c'. split; [done|].
  apply list_elem_of_In, filter_In in Hin as [Hin _]. by apply list_elem_of_In.
Qed.

Lemma transient_search_scores (cs : list Chunk.t) (q : list R) (k : Z) :
  QueryService.transient_search cs q k =
  py_take k (sort_by_key snd true (map (scored q) cs)).
Proof.
  unfold QueryService.transient_search, BruteForceIndex.search, BruteForceIndex.build,
    bind, gets, modify. simpl. do 2 f_equal.
  induction cs as [|c cs IH]; simpl; [done|]. by rewrite IH.
Qed.

Lemma transient_search_top_k (cs : list Chunk.t) (q : list R) (k : Z) :
  NoDup (map Chunk.id cs) ->
  top_k q k cs (QueryService.transient_search cs q k).
Proof.
  intros Hnd. rewrite transient_search_scores.
  set (scores := map (scored q) cs).
  pose proof (sort_by_key_perm snd true scores) as Hperm.
  pose proof (sort_by_key_sorted snd true scores) as Hsorted.
  split.
  - done.
  - intros p Hp%py_take_elem. rewrite Hperm in Hp.
    apply list_elem_of_fmap in Hp as (c & -> & Hc). by exists c.
  - unfold py_take. change (map fst ?l) with (fst <$> l). rewrite fmap_take.
    eapply sublist_NoDup; [|apply sublist_take].
    rewrite Hperm. unfold scores. change (fst <$> map (scored q) cs) with (map fst (map (scored q) cs)).
    by rewrite map_map.
  - unfold py_take. by apply sorted_take.
  - rewrite py_take_length, sort_by_key_length. unfold scores. by rewrite length_map.
  - intros c p Hc Hid Hp.
    assert (Hin : scored q c ∈ sort_by_key snd true scores).
    { rewrite Hperm. apply list_elem_of_fmap. by exists c. }
    unfold py_take in *. set (n := Z.to_nat (Z.max 0 k)) in *.
    rewrite <- (take_drop n (sort_by_key snd true scores)) in Hin, Hsorted.
    apply elem_of_app in Hin as [Hin|Hin].
    + destruct Hid. apply list_elem_of_fmap. by exists (scored q c).
    + apply (sorted_app_le _ _ _ Hsorted p (scored q c) Hp Hin).
Qed.

(** *** Running a filtered query *)

Lemma list_by_library_run (r : ChunkRepository.t) library_id :
  chunks_wf r ->
  exists cs, ChunkRepository.list_by_library library_id r = (Ok cs, r) /\
    NoDup (map Chunk.id cs) /\
    forall c, c ∈ cs <->
      ChunkRepository._items r !! Chunk.id c = Some c /\ Chunk.library_id c = library_id.
Proof.
  intros [Hids Hlib Hdoc].
  unfold ChunkRepository.list_by_library, bind, get_state, lift. simpl.
  set (ids := elements (ChunkRepository._by_library r !!! library_id)).
  destruct (lookup_each_ok (ChunkRepository._items r) ids) as (cs & -> & Hcs).
  { intros id Hin. apply elem_of_elements, Hlib in Hin as (c & Hc & _). by eexists. }
  exists cs. split; [done|].
  assert (Hmap : map Chunk.id cs = ids).
  { clear -Hcs Hids. induction Hcs as [|id c ids cs Hc _ IH]; simpl; [done|].
    by rewrite (Hids _ _ Hc), IH. }
  split; [rewrite Hmap; apply NoDup_elements|].
  intros c. split.
  - intros Hin. apply list_elem_of_lookup in Hin as [i Hi].
    destruct (Forall2_lookup_r _ _ _ _ _ Hcs Hi) as (id & Hid & Hc).
    pose proof (Hids _ _ Hc) as ->. split; [done|].
    apply list_elem_of_lookup_2, elem_of_elements, Hlib in Hid as (c' & Hc' & Hd). congruence.
  - intros [Hc Hd].
    assert (Hin : Chunk.id c ∈ ids) by (apply elem_of_elements, Hlib; by exists c).
    apply list_elem_of_lookup in Hin as [i Hi].
    destruct (Forall2_lookup_l _ _ _ _ _ Hcs Hi) as (c' & Hc' & Hl).
    apply list_elem_of_lookup_2 in Hc'. congruence.
Qed.

Lemma get_lock_run library_id w :
  exists lock w', LockRegistry.get_lock library_id w = (Ok lock, w') /\
    w' = set_locks (locks w') w /\ chunks w' = chunks w.
Proof.
  unfold LockRegistry.get_lock, bind, get_state, modify, ret. simpl.
  destruct (locks w !! library_id) as [lock|]; simpl.
  - exists lock, w. split; [done|]. split; [by destruct w|done].
  - eexists _, _. split; [done|]. split; done.
Qed.

(** C6 (as amended): called with a filter dictionary that has a key, so
    in particular with one that has a field set, [knn] returns the top [k]
    pairs (id, score), in descending order of score, over exactly those
    chunks of the library that match the filter.  The score is the cosine
    similarity of the normalised query and the normalised embedding.  A chunk
    matches when every given field holds, where the text is trimmed before it
    is looked for as a case-insensitive substring and is passed over when
    blank, a bound that does not parse is passed over, and an empty list of
    tags or authors asks nothing; the bounds that parse are taken to be naive
    or aware as [created_at] is.  No chunk that fails the filter is returned,
    and nothing but the lock registry changes. *)
Theorem knn_filtered_top_k (fromisoformat : string -> option datetime)
    (w : World) (library_id : string) (q : list R) (k : Z) (f : FilterDto) :
  chunks_wf (chunks w) ->
  (forall c, belongs w library_id c -> comparable fromisoformat c f) ->
  exists w' res cs,
    QueryService.knn fromisoformat library_id q k (Some (Keys f)) w = (Ok res, w') /\
    w' = set_locks (locks w') w /\
    NoDup cs /\
    (forall c, c ∈ cs <-> belongs w library_id c /\ matches fromisoformat c f) /\
    top_k q k cs res.
Proof.
  intros Hwf Hcmp.
  destruct (get_lock_run library_id w) as (lock & w' & Hlock & Hw' & Hchunks).
  destruct (list_by_library_run (chunks w) library_id Hwf) as (all & Hlist & Hnd & Hall).
  set (cs := List.filter (fun c => QueryService._matches_filter fromisoformat c f) all).
  exists w', (QueryService.transient_search cs q k), cs.
  split.
  { unfold QueryService.knn. rewrite (bind_ok _ _ _ _ _ Hlock). cbn [QueryService.truthy].
    unfold bind at 1. rewrite on_chunks_run, Hchunks, Hlist. cbn [fst snd].
    rewrite <- Hchunks, set_chunks_same. done. }
  split; [done|].
  assert (Hids : NoDup (map Chunk.id cs)) by by apply filter_ids_nodup.
  split; [by apply NoDup_fmap_1 in Hids|].
  split.
  { intros c. unfold cs. rewrite list_elem_of_In, filter_In, <- list_elem_of_In, Hall.
    fold (belongs w library_id c). split.
    - intros [Hb Hm]. split; [done|]. by apply matches_filter_spec; [apply Hcmp|].
    - intros [Hb Hm]. split; [done|]. by apply matches_filter_spec; [apply Hcmp|]. }
  by apply transient_search_top_k.
Qed.

Lemma filter_world_chunks :
  chunks filter_world =
  (ChunkRepository.create (Chunk.mk "c" sample_datetime sample_datetime "L" "D" "gamma text"
                             [1; 1; 0; 0]%R default_metadata false)
     (ChunkRepository.create (Chunk.mk "b" sample_datetime sample_datetime "L" "D" "beta"
                                [1; 0; 0; 0]%R default_metadata false)
        (ChunkRepository.create (Chunk.mk "a" sample_datetime sample_datetime "L" "D"
                                   "Alpha TEXT" [0; 1; 0; 0]%R default_metadata false)
           ChunkRepository.init).2).2).2.
Proof. reflexivity. Qed.

Lemma filter_world_wf : chunks_wf (chunks filter_world).
Proof.
  rewrite filter_world_chunks.
  apply chunk_create_wf; [apply chunk_create_wf; [apply chunk_create_wf|]|];
    [apply init_chunks_wf|reflexivity..].
Qed.

Lemma knn_filtered_top_k_witness :
  exists w' res cs,
    QueryService.knn sample_fromisoformat "L" [1; 0; 0; 0]%R 1
      (Some (Keys (text_filter " Text "))) filter_world = (Ok res, w') /\
    w' = set_locks (locks w') filter_world /\
    NoDup cs /\
    (forall c, c ∈ cs <->
       belongs filter_world "L" c /\ matches sample_fromisoformat c (text_filter " Text ")) /\
    top_k [1; 0; 0; 0]%R 1 cs res.
Proof.
  apply knn_filtered_top_k.
  - apply filter_world_wf.
  - intros c _ s d [Hs|Hs] _; discriminate Hs.
Defined.

(** C6 as stated fails: [_matches_filter] trims the text it is given, so
    a chunk whose text does not contain the filter's text is returned.  The
    chunk with text [text] does not contain [ t] (a space, then t), and the
    query filtered by that text returns it. *)
Lemma knn_text_filter_is_trimmed :
  exists c s w',
    belongs cascade_world "L" c /\ Chunk.text c = "text"%string /\
    ~ matches_as_stated sample_fromisoformat c (text_filter " t") /\
    QueryService.knn sample_fromisoformat "L" [1; 0; 0; 0]%R 1
      (Some (Keys (text_filter " t"))) cascade_world = (Ok [(Chunk.id c, s)], w').
Proof.
  exists (sample_chunk "c" [1; 0; 0; 0]%R). eexists _, _.
  split; [split; reflexivity|]. split; [reflexivity|]. split.
  - intros [Htext _ _ _ _ _]. specialize (Htext _ eq_refl).
    apply is_substring_spec in Htext. discriminate Htext.
  - reflexivity.
Qed.

(** Two more inputs on which the stated predicate and the code part ways:
    an empty [tags_any], and a bound with a UTC offset against the naive
    [created_at] that [utcnow] gives. *)
Example knn_empty_tags_any_is_ignored :
  exists c s w',
    belongs cascade_world "L" c /\
    ~ matches_as_stated sample_fromisoformat c (tags_any_filter []) /\
    QueryService.knn sample_fromisoformat "L" [1; 0; 0; 0]%R 1
      (Some (Keys (tags_any_filter []))) cascade_world = (Ok [(Chunk.id c, s)], w').
Proof.
  exists (sample_chunk "c" [1; 0; 0; 0]%R). eexists _, _.
  split; [split; reflexivity|]. split.
  - intros [_ _ _ Hany _ _]. destruct (Hany _ eq_refl) as (t & Ht & _).
    by apply not_elem_of_nil in Ht.
  - reflexivity.
Qed.

Example knn_aware_bound_is_ignored :
  exists c s w',
    belongs cascade_world "L" c /\
    ~ matches_as_stated sample_fromisoformat c (from_filter "2030-01-01T00:00:00+00:00") /\
    QueryService.knn sample_fromisoformat "L" [1; 0; 0; 0]%R 1
      (Some (Keys (from_filter "2030-01-01T00:00:00+00:00"))) cascade_world
      = (Ok [(Chunk.id c, s)], w').
Proof.
  exists (sample_chunk "c" [1; 0; 0; 0]%R). eexists _, _.
  split; [split; reflexivity|]. split.
  - intros [_ Hfrom _ _ _ _]. specialize (Hfrom _ _ eq_refl eq_refl). discriminate Hfrom.
  - reflexivity.
Qed.

(** The dictionary without keys is not a filter: [knn] treats it as it
    treats no filter at all. *)
Example knn_empty_dict_is_unfiltered (fromisoformat : string -> option datetime)
    (library_id : string) (q : list R) (k : Z) (w : World) :
  QueryService.knn fromisoformat library_id q k (Some EmptyDict) w
    = QueryService.knn fromisoformat library_id q k None w.
Proof. reflexivity. Qed.

End FilterFacts.

(** ** Ranking: what [sort] followed by a slice returns *)

Module RankingFacts.
Import FilterFacts.

(** The first [k] entries of a list sorted by descending key: as many as
    asked for (or all), in descending order, drawn from the list, and no
    entry left behind has a larger key than one that was taken. *)
Lemma ranked_take {A} (key : A -> R) (k : Z) (l : list A) :
  let res := py_take k (sort_by_key key true l) in
  length res = Nat.min (Z.to_nat (Z.max 0 k)) (length l) /\
  StronglySorted (fun a b => (key b <= key a)%R) res /\
  exists rest, res ++ rest ≡ₚ l /\
    forall x y, x ∈ res -> y ∈ rest -> (key y <= key x)%R.
Proof.
  intros res. unfold res, py_take.
  pose proof (sort_by_key_perm key true l) as Hperm.
  pose proof (sort_by_key_sorted key true l) as Hsorted.
  split; [by rewrite length_take, sort_by_key_length|].
  split; [by apply sorted_take|].
  exists (drop (Z.to_nat (Z.max 0 k)) (sort_by_key key true l)).
  rewrite take_drop. split; [done|].
  intros x y Hx Hy.
  rewrite <- (take_drop (Z.to_nat (Z.max 0 k)) (sort_by_key key true l)) in Hsorted.
  apply (sorted_app_le _ _ _ Hsorted x y Hx Hy).
Qed.

Lemma ranked_elem {A} (key : A -> R) (k : Z) (l : list A) x :
  x ∈ py_take k (sort_by_key key true l) -> x ∈ l.
Proof. intros Hx%py_take_elem. by rewrite sort_by_key_perm in Hx. Qed.

(** With distinct names, a named entry that was not taken was left behind. *)
Lemma ranked_left_out (k : Z) (l : list (string * R)) (p : string * R) :
  p ∈ l -> p.1 ∉ map fst (py_take k (sort_by_key snd true l)) ->
  forall x, x ∈ py_take k (sort_by_key snd true l) -> (p.2 <= x.2)%R.
Proof.
  intros Hp Hout x Hx.
  destruct (ranked_take snd k l) as (_ & _ & rest & Hperm & Hle).
  rewrite <- Hperm in Hp. apply elem_of_app in Hp as [Hp|Hp].
  - destruct Hout. apply list_elem_of_fmap. by exists p.
  - by apply Hle.
Qed.

Lemma ranked_nodup (k : Z) (l : list (string * R)) :
  NoDup (map fst l) -> NoDup (map fst (py_take k (sort_by_key snd true l))).
Proof.
  intros Hnd. destruct (ranked_take snd k l) as (_ & _ & rest & Hperm & _).
  assert (Hp : map fst (py_take k (sort_by_key snd true l)) ++ map fst rest ≡ₚ map fst l).
  { rewrite <- map_app. change (map fst ?x) with (fst <$> x). by rewrite Hperm. }
  rewrite <- Hp in Hnd. by apply NoDup_app in Hnd as [? _].
Qed.

End RankingFacts.

(** ** More on the brute-force index: lookups after [add] and [update], ranking *)

Module BruteForceLookup.
Import BruteForceIndex BruteForceSpec BruteForceFacts RankingFacts VectorFacts.

Lemma vector_of_zip s id v :
  consistent s -> vector_of s id = Some v <-> (id, v) ∈ zip (_ids s) (_vectors s).
Proof.
  intros [Hlen Hpos]. unfold vector_of. rewrite elem_of_lookup_zip_with. split.
  - destruct (_pos s !! id) as [i|] eqn:Hi; [|done]. intros Hv.
    exists i, id, v. split; [done|]. split; [by apply Hpos|done].
  - intros (i & id' & v' & [= <- <-] & Hi & Hv). apply Hpos in Hi. by rewrite Hi.
Qed.

(** Every stored id has a vector. *)
Lemma vector_of_stored s id :
  consistent s -> is_Some (_pos s !! id) -> is_Some (vector_of s id).
Proof.
  intros [Hlen Hpos] [i Hi]. unfold vector_of. rewrite Hi.
  apply lookup_lt_is_Some. rewrite <- Hlen. eapply lookup_lt_Some. by apply Hpos.
Qed.

(** [search] on a consistent index: [min(max(0, k), size())] pairs, no id
    twice, in descending order of score; every pair is a stored id with the
    cosine similarity of its stored vector to the query (normalised when
    the index normalises); and a stored id that is not returned scores no
    higher than any pair returned. *)
Theorem bf_search_ranks_stored (s : t) (q : list R) (k : Z) :
  consistent s ->
  let q' := if _pre_normalize s then normalize q else q in
  let res := search s q k in
  length res = Nat.min (Z.to_nat (Z.max 0 k)) (size s) /\
  NoDup (map fst res) /\
  StronglySorted (fun a b : string * R => (b.2 <= a.2)%R) res /\
  (forall id sc, (id, sc) ∈ res ->
     exists v, vector_of s id = Some v /\ sc = cosine_similarity q' v) /\
  (forall id v, vector_of s id = Some v -> id ∉ map fst res ->
     forall p, p ∈ res -> (cosine_similarity q' v <= p.2)%R).
Proof.
  intros Hc q' res. unfold res, search. fold q'.
  set (pairs := map (fun p : string * list R => (p.1, cosine_similarity q' p.2))
                    (zip (_ids s) (_vectors s))).
  assert (Hfst : map fst pairs = _ids s).
  { unfold pairs. rewrite map_map. simpl.
    change (map (fun x : string * list R => x.1) ?l) with (l.*1).
    apply fst_zip. rewrite (same_length _ Hc). done. }
  destruct (ranked_take snd k pairs) as (Hlen & Hsorted & _).
  split.
  { rewrite Hlen. unfold pairs, size. rewrite length_map, length_zip, (same_length _ Hc).
    by rewrite Nat.min_id. }
  split.
  { apply ranked_nodup. rewrite Hfst. by apply consistent_NoDup. }
  split; [done|]. split.
  - intros id sc Hin%ranked_elem. apply list_elem_of_fmap in Hin as ([id' v] & [= -> ->] & Hin).
    exists v. split; [by apply vector_of_zip|done].
  - intros id v Hv Hout p Hp.
    apply (ranked_left_out k pairs (id, cosine_similarity q' v)); [|done|done].
    apply list_elem_of_fmap. exists (id, v). split; [done|]. by apply vector_of_zip.
Qed.

Lemma bf_search_ranks_stored_witness :
  let s := (build [[1; 0]; [0; 2]]%R ["a"; "b"]%string (init true)).2 in
  let q := [3; 0]%R in
  let q' := if _pre_normalize s then normalize q else q in
  let res := search s q 1 in
  length res = Nat.min (Z.to_nat (Z.max 0 1)) (size s) /\
  NoDup (map fst res) /\
  StronglySorted (fun a b : string * R => (b.2 <= a.2)%R) res /\
  (forall id sc, (id, sc) ∈ res ->
     exists v, vector_of s id = Some v /\ sc = cosine_similarity q' v) /\
  (forall id v, vector_of s id = Some v -> id ∉ map fst res ->
     forall p, p ∈ res -> (cosine_similarity q' v <= p.2)%R).
Proof.
  apply bf_search_ranks_stored.
  apply build_consistent; [reflexivity|].
  repeat constructor; simpl; try done.
  - rewrite list_elem_of_singleton. done.
  - apply not_elem_of_nil.
Defined.

(** [add] of an id that is not stored appends it: the id is then found
    with the vector given (normalised when the index normalises), [size()]
    grows by one, every other id keeps its vector, and removing the id again
    gives back the index exactly as it was. *)
Theorem bf_add_then_lookup (s : t) (v : list R) (id : string) :
  consistent s -> _pos s !! id = None ->
  exists s', add v id s = (Ok tt, s') /\
    consistent s' /\
    vector_of s' id = Some (if _pre_normalize s then normalize v else v) /\
    size s' = S (size s) /\
    (forall id', id' <> id -> vector_of s' id' = vector_of s id') /\
    remove id s' = (Ok tt, s).
Proof.
  intros Hc Hid. pose proof (add_consistent v id s Hc) as Hc'.
  destruct Hc as [Hlen Hpos].
  revert Hc'. unfold add, bind, get_state, modify. simpl. rewrite Hid. simpl. intros Hc'.
  eexists. split; [reflexivity|]. split; [done|].
  unfold vector_of, size. simpl. split; [|split; [|split]].
  - rewrite lookup_insert_eq. rewrite Hlen, lookup_app_r by lia. by rewrite Nat.sub_diag.
  - rewrite length_app. simpl. lia.
  - intros id' Hne. rewrite lookup_insert_ne by done.
    destruct (_pos s !! id') as [i|] eqn:Hi; [|done].
    apply lookup_app_l. rewrite <- Hlen. eapply lookup_lt_Some. by apply Hpos.
  - unfold remove, bind, get_state. simpl. rewrite lookup_insert_eq.
    rewrite length_app. simpl.
    rewrite bool_decide_eq_false_2 by lia.
    assert (Hpop : forall {A} (l : list A) x, py_pop (l ++ [x]) = Ok l).
    { intros A l x. rewrite py_pop_take by (by destruct l).
      rewrite length_app. simpl. f_equal. apply take_app_length'. lia. }
    unfold pop_item, bind, gets, lift, modify, ret. simpl.
    rewrite Hpop. simpl. rewrite Hpop. simpl.
    rewrite delete_insert_id by done. by destruct s.
Qed.

Lemma bf_add_then_lookup_witness :
  let s := (build [[1; 0]]%R ["a"%string] (init true)).2 in
  exists s', add [0; 2]%R "b" s = (Ok tt, s') /\
    consistent s' /\
    vector_of s' "b" = Some (if _pre_normalize s then normalize [0; 2]%R else [0; 2]%R) /\
    size s' = S (size s) /\
    (forall id', id' <> "b"%string -> vector_of s' id' = vector_of s id') /\
    remove "b" s' = (Ok tt, s).
Proof.
  apply bf_add_then_lookup.
  - apply build_consistent; [reflexivity|]. repeat constructor. apply not_elem_of_nil.
  - reflexivity.
Defined.

(** [update] of a stored id replaces its vector and nothing else: ids and
    positions stay, every other id keeps its vector.  For an id that is not
    stored it raises [KeyError] and leaves the index as it was. *)
Theorem bf_update_then_lookup (s : t) (v : list R) (id : string) :
  consistent s ->
  match _pos s !! id with
  | None => update id v s = (Raise KeyError, s)
  | Some _ =>
      exists s', update id v s = (Ok tt, s') /\
        _ids s' = _ids s /\ _pos s' = _pos s /\
        vector_of s' id = Some (if _pre_normalize s then normalize v else v) /\
        (forall id', id' <> id -> vector_of s' id' = vector_of s id')
  end.
Proof.
  intros [Hlen Hpos]. unfold update, bind, get_state. simpl.
  destruct (_pos s !! id) as [i|] eqn:Hid; [|done].
  assert (Hi : i < length (_vectors s)).
  { rewrite <- Hlen. eapply lookup_lt_Some. by apply Hpos. }
  unfold lift, modify. rewrite py_setitem_nat by done. simpl.
  eexists. split; [reflexivity|]. split; [done|]. split; [done|].
  unfold vector_of. simpl. rewrite Hid. split.
  - by apply list_lookup_insert_eq.
  - intros id' Hne. destruct (_pos s !! id') as [j|] eqn:Hj; [|done].
    apply list_lookup_insert_ne. intros ->. apply Hpos in Hid, Hj. congruence.
Qed.

Lemma bf_update_then_lookup_witness :
  let s := (build [[1; 0]]%R ["a"%string] (init true)).2 in
  match _pos s !! "a"%string with
  | None => update "a" [0; 2]%R s = (Raise KeyError, s)
  | Some _ =>
      exists s', update "a" [0; 2]%R s = (Ok tt, s') /\
        _ids s' = _ids s /\ _pos s' = _pos s /\
        vector_of s' "a" = Some (if _pre_normalize s then normalize [0; 2]%R else [0; 2]%R) /\
        (forall id', id' <> "a"%string -> vector_of s' id' = vector_of s id')
  end.
Proof.
  apply (bf_update_then_lookup (build [[1; 0]]%R ["a"%string] (init true)).2).
  apply build_consistent; [reflexivity|]. repeat constructor. apply not_elem_of_nil.
Defined.

End BruteForceLookup.

(** ** More on the KD-tree: the state after each call, and the k nearest *)

Module KDTreeStateFacts.
Import KDTreeIndex KDTreeSpec KDTreeState KDTreeFacts VectorFacts.

(** *** Dictionaries with distinct keys *)

Lemma dict_of_list_from {V} (l acc : pydict V) :
  NoDup (dict_keys (acc ++ l)) ->
  fold_left (fun d p => dict_set p.1 p.2 d) l acc = acc ++ l.
Proof.
  revert acc. induction l as [|[k v] l IH]; intros acc Hnd; simpl.
  - by rewrite app_nil_r.
  - rewrite dict_set_absent.
    + rewrite IH; rewrite <- app_assoc; done.
    + apply dict_get_None. unfold dict_keys in *. rewrite map_app in Hnd. simpl in Hnd.
      apply NoDup_app in Hnd as (_ & Hdis & _). intros Hin. apply (Hdis k Hin). left.
Qed.

Lemma dict_of_list_nodup {V} (l : pydict V) : NoDup (dict_keys l) -> dict_of_list l = l.
Proof. intros Hnd. unfold dict_of_list. by rewrite dict_of_list_from. Qed.

Lemma dict_get_lookup {V} (d : pydict V) k v :
  NoDup (dict_keys d) -> dict_get k d = Some v <-> (k, v) ∈ d.
Proof. intros Hnd. split; [apply dict_get_Some_elem|by apply dict_get_elem]. Qed.

Lemma dict_get_perm {V} (d d' : pydict V) k :
  NoDup (dict_keys d) -> d ≡ₚ d' -> dict_get k d' = dict_get k d.
Proof.
  intros Hnd Hperm.
  assert (Hnd' : NoDup (dict_keys d')).
  { unfold dict_keys in *. change (map fst ?l) with (l.*1) in *. by rewrite <- Hperm. }
  destruct (dict_get k d) as [v|] eqn:Hd.
  - apply dict_get_lookup; [done|]. rewrite <- Hperm. by apply dict_get_lookup.
  - destruct (dict_get k d') as [v|] eqn:Hd'; [|done].
    apply dict_get_lookup in Hd'; [|done]. rewrite <- Hperm in Hd'.
    apply dict_get_lookup in Hd'; [|done]. congruence.
Qed.

Lemma lookup_all_keys {V} (d m : pydict V) :
  NoDup (dict_keys d) -> (forall e, e ∈ m -> e ∈ d) ->
  lookup_all d (dict_keys m) = Ok (dict_values m).
Proof.
  intros Hnd. induction m as [|[k v] m IH]; intros Hsub; simpl; [done|].
  rewrite (dict_get_elem k v d Hnd) by (apply Hsub; left).
  rewrite IH; [done|]. intros e He. apply Hsub. by right.
Qed.

Lemma swap_swap (m : pydict (list R)) :
  map (fun x : item => (x.2, x.1)) (map (fun e : string * list R => (e.2, e.1)) m) = m.
Proof.
  rewrite map_map. transitivity (map (fun e : string * list R => e) m); [|by rewrite map_id]. apply map_ext. by intros [].
Qed.

Lemma zip_values_keys (m : pydict (list R)) :
  zip (dict_values m) (dict_keys m) = map (fun e : string * list R => (e.2, e.1)) m.
Proof. induction m as [|[k v] m IH]; simpl; [done|]. by rewrite IH. Qed.

Lemma renormalized_keys (m : pydict (list R)) : dict_keys (renormalized m) = dict_keys m.
Proof. unfold dict_keys, renormalized. rewrite map_map. by apply map_ext. Qed.

Lemma renormalized_get (m : pydict (list R)) (id : string) :
  dict_get id (renormalized m) = normalize <$> dict_get id m.
Proof.
  induction m as [|[k p] m IH]; [done|].
  unfold renormalized. simpl. fold (renormalized m). rewrite !dict_get_cons. simpl.
  by case_bool_decide.
Qed.

(** *** [build] *)

Lemma build_nonempty (vectors : list (list R)) (ids : list string) s0 :
  vectors <> [] ->
  build vectors ids s0 =
  match _build_recursive (zip (map normalize vectors) ids) 0 with
  | Ok built =>
      (Ok tt, mk built.1 (length built.2) (length (hd [] (map normalize vectors)))
                 (dict_of_list (map (fun x : item => (x.2, x.1)) built.2)))
  | Raise e =>
      (Raise e, set_dim (length (hd [] (map normalize vectors))) s0)
  end.
Proof.
  intros Hne. destruct vectors as [|v0 vectors]; [done|].
  unfold build, bind, modify, lift.
  by destruct (_build_recursive (zip (map normalize (v0 :: vectors)) ids) 0).
Qed.

(** [build] over the values and keys of a map with distinct keys and
    points of one dimension: the map comes back with every point normalised
    (in the order of the root's sort) and the tree holds it. *)
Lemma rebuild_run (m : pydict (list R)) d s0 :
  1 <= d -> NoDup (dict_keys m) ->
  Forall (fun p : list R => length p = d) (dict_values m) ->
  exists s', build (dict_values m) (dict_keys m) s0 = (Ok tt, s') /\
    kd_wf d s' /\ _id_to_point s' ≡ₚ renormalized m /\
    (m <> [] -> _dim s' = d) /\ (m = [] -> s' = mk Null 0 0 []).
Proof.
  intros Hd Hnd Hpts. destruct (decide (m = [])) as [->|Hne].
  { exists (mk Null 0 0 []). split; [done|]. split; [|done].
    split; simpl; try done; constructor. }
  set (items := zip (map normalize (dict_values m)) (dict_keys m)).
  assert (Hitems : items = map (fun e : string * list R => (e.2, e.1)) (renormalized m)).
  { unfold items, renormalized. clear. induction m as [|[k v] m IH]; simpl; [done|].
    by rewrite IH. }
  assert (Hlens : Forall (fun x : item => length x.1 = d) items).
  { rewrite Hitems. unfold renormalized. rewrite !Forall_fmap.
    unfold dict_values in Hpts. rewrite Forall_fmap in Hpts.
    eapply Forall_impl; [exact Hpts|]. intros [k p] Hp. simpl in *.
    by rewrite normalize_length. }
  destruct (build_rec_ok d (length items) items 0 Hd Hlens (le_n _))
    as (nd & sorted & Hbuild & Hinv & Hperm & Hsorted).
  assert (Hdict : map (fun x : item => (x.2, x.1)) sorted ≡ₚ renormalized m).
  { rewrite Hsorted, Hitems. by rewrite swap_swap. }
  assert (Hnd' : NoDup (dict_keys (map (fun x : item => (x.2, x.1)) sorted))).
  { unfold dict_keys in *. change (map fst ?l) with (l.*1) in *. rewrite Hdict.
    change ((renormalized m).*1) with (dict_keys (renormalized m)).
    by rewrite renormalized_keys. }
  rewrite build_nonempty by (by destruct m).
  fold items. unfold _build_recursive. rewrite Hbuild. cbn [fst snd].
  rewrite dict_of_list_nodup by done.
  eexists. split; [reflexivity|].
  split; [|split; [done|split; [|done]]].
  - split; simpl.
    + done.
    + unfold dict_values in *. change (map snd ?l) with (l.*2) in *. rewrite Hdict.
      unfold renormalized. rewrite Forall_fmap in *. rewrite Forall_fmap.
      eapply Forall_impl; [exact Hpts|]. intros [k p] Hp. simpl in *.
      by rewrite normalize_length.
    + unfold entries. simpl. rewrite Hperm, <- Hsorted, map_map.
      apply Permutation_refl'. transitivity (map (fun x : item => x) sorted); [by rewrite map_id|].
      apply map_ext. by intros [].
    + done.
    + by rewrite length_map.
  - intros _. simpl. destruct m as [|[k0 p0] m']; [done|]. simpl.
    simpl in Hpts. apply Forall_cons in Hpts as [? _]. by rewrite normalize_length.
Qed.

Lemma zip_keys (ids : list string) (ps : list (list R)) :
  length ps = length ids -> dict_keys (zip ids ps) = ids /\ dict_values (zip ids ps) = ps.
Proof.
  intros Hlen. unfold dict_keys, dict_values.
  change (map fst ?l) with (l.*1). change (map snd ?l) with (l.*2).
  split; [apply fst_zip|apply snd_zip]; lia.
Qed.

Lemma renormalized_zip (ids : list string) (ps : list (list R)) :
  renormalized (zip ids ps) = zip ids (map normalize ps).
Proof.
  unfold renormalized. revert ps. induction ids as [|i ids IH]; intros [|p ps]; simpl; try done.
  by rewrite IH.
Qed.

Lemma build_wf_perm (vectors : list (list R)) (ids : list string) (d : nat) (s0 : t) :
  1 <= d -> Forall (fun v => length v = d) vectors ->
  length vectors = length ids -> NoDup ids ->
  exists s', build vectors ids s0 = (Ok tt, s') /\
    kd_wf d s' /\ _id_to_point s' ≡ₚ zip ids (map normalize vectors).
Proof.
  intros Hd Hvs Hlen Hnd.
  set (m := zip ids vectors).
  destruct (zip_keys ids vectors) as [Hk Hv]; [done|].
  fold m in Hk, Hv.
  destruct (rebuild_run m d s0 Hd) as (s' & Hrun & Hwf & Hperm & _).
  { by rewrite Hk. }
  { by rewrite Hv. }
  rewrite Hk, Hv in Hrun. exists s'. split; [done|]. split; [done|].
  by rewrite <- renormalized_zip.
Qed.

(** [build] on vectors of one dimension with one id each, no id twice:
    it succeeds, the index is well formed, [size()] is the number of ids,
    and the map holds exactly the given ids, each with its vector
    normalised. *)
Theorem kd_build_state (vectors : list (list R)) (ids : list string) (d : nat) (s0 : t) :
  1 <= d -> Forall (fun v => length v = d) vectors ->
  length vectors = length ids -> NoDup ids ->
  exists s', build vectors ids s0 = (Ok tt, s') /\
    kd_wf d s' /\ size s' = length ids /\
    forall id p, dict_get id (_id_to_point s') = Some p <->
                 (p, id) ∈ zip (map normalize vectors) ids.
Proof.
  intros Hd Hvs Hlen Hnd.
  destruct (build_wf_perm vectors ids d s0 Hd Hvs Hlen Hnd) as (s' & Hrun & Hwf & Hperm).
  destruct (zip_keys ids (map normalize vectors)) as [Hk Hv]; [by rewrite length_map|].
  exists s'. split; [done|]. split; [done|]. split.
  - unfold size. rewrite (kd_size _ _ Hwf). rewrite Hperm.
    rewrite length_zip, length_map. lia.
  - intros id p. rewrite (dict_get_perm (zip ids (map normalize vectors)) _ id) by (by rewrite ?Hk).
    rewrite dict_get_lookup by (by rewrite Hk).
    rewrite (zip_swap (map normalize vectors) ids), list_elem_of_fmap. split.
    + by intros ([p' id'] & [= -> ->] & Hin).
    + intros Hin. by exists (p, id).
Qed.

Lemma kd_build_state_witness :
  exists s', build [[3; 4]; [0; 2]]%R ["a"; "b"]%string init = (Ok tt, s') /\
    kd_wf 2 s' /\ size s' = length ["a"; "b"]%string /\
    forall id p, dict_get id (_id_to_point s') = Some p <->
                 (p, id) ∈ zip (map normalize [[3; 4]; [0; 2]]%R) ["a"; "b"]%string.
Proof.
  apply kd_build_state.
  - lia.
  - by repeat constructor.
  - reflexivity.
  - repeat constructor; [rewrite list_elem_of_singleton; done|apply not_elem_of_nil].
Defined.

(** *** [search] *)

Lemma push_length k (best : list candidate) c :
  (1 <= k)%Z -> (Z.of_nat (length best) <= k)%Z ->
  length (push k best c) = Nat.min (Z.to_nat k) (length best + 1).
Proof.
  intros Hk Hl. unfold push.
  assert (Hs : length (sort_by_key fst false (best ++ [c])) = length best + 1).
  { rewrite sort_by_key_length, length_app. simpl. lia. }
  destruct (Z.ltb_spec k (Z.of_nat (length (sort_by_key fst false (best ++ [c]))))).
  - rewrite removelast_firstn_len, length_take. lia.
  - lia.
Qed.

Lemma search_node_length nd q k best best' :
  (1 <= k)%Z -> (Z.of_nat (length best) <= k)%Z ->
  _search_node nd q k best = Ok best' ->
  length best' = Nat.min (Z.to_nat k) (length best + length (tree_items nd)).
Proof.
  intros Hk. revert best best'.
  induction nd as [|point id axis l IHl r IHr]; intros best best' Hl Hrun.
  { simpl in Hrun. injection Hrun as <-. simpl. lia. }
  rewrite search_node_push in Hrun. cbv zeta in Hrun.
  destruct (q !! axis) as [qa|]; [|done]. destruct (point !! axis) as [pa|]; [|done].
  pose proof (push_length k best (scored q (point, id)) Hk Hl) as Hp.
  set (best1 := push k best (scored q (point, id))) in *.
  set (go_left := Rltb (qa - pa) 0) in *.
  assert (Hnear : forall b b', (Z.of_nat (length b) <= k)%Z ->
            _search_node (if go_left then l else r) q k b = Ok b' ->
            length b' = Nat.min (Z.to_nat k)
              (length b + length (tree_items (if go_left then l else r)))).
  { destruct go_left; auto. }
  assert (Hfar : forall b b', (Z.of_nat (length b) <= k)%Z ->
            _search_node (if go_left then r else l) q k b = Ok b' ->
            length b' = Nat.min (Z.to_nat k)
              (length b + length (tree_items (if go_left then r else l)))).
  { destruct go_left; auto. }
  assert (Htotal : length (tree_items (if go_left then l else r)) +
                   length (tree_items (if go_left then r else l)) =
                   length (tree_items l) + length (tree_items r)).
  { destruct go_left; lia. }
  destruct (_search_node (if go_left then l else r) q k best1) as [best2|] eqn:H2; [|done].
  cbn [rbind] in Hrun. apply Hnear in H2; [|lia].
  unfold explore_far in Hrun. simpl. rewrite length_app.
  destruct (Z.ltb_spec (Z.of_nat (length best2)) k) as [Hroom|Hfull]; cbn [rbind] in Hrun.
  { apply Hfar in Hrun; lia. }
  destruct (py_getitem best2 (-1)) as [worst|]; [|done]. cbn [rbind] in Hrun.
  destruct (Rltb ((qa - pa) * (qa - pa)) worst.1).
  - apply Hfar in Hrun; lia.
  - injection Hrun as <-. lia.
Qed.

Lemma null_or_node (nd : node) : nd = Null \/ nd <> Null.
Proof. destruct nd; [by left|by right]. Qed.

(** On a well-formed index, [search(q, k)] with [k >= 1] and a query of
    the index's dimension returns the [k] nearest stored points (all of
    them when fewer are stored), best first: [min(k, size())] pairs, each a
    stored id with the score [1 - d^2/2] of its point, in descending order of
    score, and every stored id is either returned or scores no higher than
    each pair returned. *)
Theorem kd_search_k_nearest (s : t) (q : list R) (k : Z) (d : nat) :
  kd_wf d s -> length q = d -> (1 <= k)%Z ->
  exists res, search s q k = Ok res /\
    length res = Nat.min (Z.to_nat k) (size s) /\
    StronglySorted (fun a b : string * R => (b.2 <= a.2)%R) res /\
    (forall r, r ∈ res ->
       exists p, dict_get r.1 (_id_to_point s) = Some p /\ r.2 = score q p) /\
    (forall id p, dict_get id (_id_to_point s) = Some p ->
       (id, score q p) ∈ res \/ forall r, r ∈ res -> (score q p <= r.2)%R).
Proof.
  intros Hwf Hq Hk. destruct Hwf as [Hkeys Hpts Htree Hinv Hsize].
  assert (Hstored : forall id p, dict_get id (_id_to_point s) = Some p <->
            (p, id) ∈ tree_items (_root s)).
  { intros id p. rewrite dict_get_lookup by done. rewrite Htree. unfold entries.
    rewrite list_elem_of_fmap. split.
    - intros Hin. by exists (id, p).
    - by intros ([id' p'] & [= -> ->] & Hin). }
  destruct (null_or_node (_root s)) as [Hnull|Hroot].
  { assert (Hempty : _id_to_point s = []).
    { rewrite Hnull in Htree. simpl in Htree. unfold entries in Htree.
      apply Permutation_nil_l in Htree. by destruct (_id_to_point s). }
    exists []. unfold search, size. rewrite Hnull, Hsize, Hempty. simpl.
    split; [done|]. split; [lia|]. split; [constructor|]. split.
    - intros r Hr. by apply elem_of_nil in Hr.
    - intros id p Hp. done. }
  rewrite search_nonempty_tree by done.
  destruct (search_node_best_of d (_root s) (normalize q) k [] [] Hinv) as (best & Hrun & Hbest).
  { by rewrite normalize_length. }
  { done. }
  { apply best_of_nil. lia. }
  rewrite Hrun. cbn [rbind]. simpl in Hbest.
  assert (H0 : (Z.of_nat (length ([] : list candidate)) <= k)%Z) by (simpl; lia).
  pose proof (search_node_length _ _ _ _ _ Hk H0 Hrun) as Hlen. simpl in Hlen.
  destruct Hbest as [Hsorted Hle Hseen Hnear].
  rewrite sort_by_key_id by done.
  assert (Htake : py_take k best = best).
  { unfold py_take. apply take_ge. lia. }
  rewrite Htake. eexists. split; [reflexivity|].
  split.
  { rewrite length_map, Hlen. unfold size. rewrite Hsize.
    rewrite Htree. unfold entries. by rewrite length_map. }
  split.
  { clear -Hsorted. induction Hsorted as [|c best Hs IH Hc]; simpl; constructor; [done|].
    rewrite Forall_fmap. eapply Forall_impl; [exact Hc|]. intros c'. unfold key_le. simpl.
    intros Hcc. lra. }
  split.
  - intros r Hr. apply list_elem_of_fmap in Hr as (c & -> & Hc). simpl.
    apply Hseen in Hc. apply list_elem_of_fmap in Hc as ([p id] & -> & Hin).
    exists p. split; [by apply Hstored|done].
  - intros id p Hp. apply Hstored in Hp.
    destruct (Hnear (scored (normalize q) (p, id))) as [Hin|[_ Hfar]].
    + apply list_elem_of_fmap. by exists (p, id).
    + left. apply list_elem_of_fmap. by exists (scored (normalize q) (p, id)).
    + right. intros r Hr. apply list_elem_of_fmap in Hr as (c & -> & Hc). simpl.
      specialize (Hfar c Hc). unfold score. simpl in Hfar. lra.
Qed.

Lemma sample_built_wf :
  kd_wf 2 (build [[3; 4]; [0; 2]]%R ["a"; "b"]%string init).2.
Proof.
  destruct (build_wf_perm [[3; 4]; [0; 2]]%R ["a"; "b"]%string 2 init) as (s' & Hrun & Hwf & _).
  - lia.
  - by repeat constructor.
  - reflexivity.
  - repeat constructor; [rewrite list_elem_of_singleton; done|apply not_elem_of_nil].
  - by rewrite Hrun.
Qed.

Lemma kd_search_k_nearest_witness :
  let s := (build [[3; 4]; [0; 2]]%R ["a"; "b"]%string init).2 in
  exists res, search s [1; 0]%R 1 = Ok res /\
    length res = Nat.min (Z.to_nat 1) (size s) /\
    StronglySorted (fun a b : string * R => (b.2 <= a.2)%R) res /\
    (forall r, r ∈ res ->
       exists p, dict_get r.1 (_id_to_point s) = Some p /\ r.2 = score [1; 0]%R p) /\
    (forall id p, dict_get id (_id_to_point s) = Some p ->
       (id, score [1; 0]%R p) ∈ res \/ forall r, r ∈ res -> (score [1; 0]%R p <= r.2)%R).
Proof.
  apply (kd_search_k_nearest _ _ _ 2); [apply sample_built_wf|reflexivity|lia].
Defined.

(** *** [add], [remove] and [update] *)

Lemma dict_set_elem {V} k (v : V) d e : e ∈ dict_set k v d -> e = (k, v) \/ e ∈ d.
Proof.
  induction d as [|[k0 v0] d IH]; simpl.
  - intros ->%list_elem_of_singleton. by left.
  - case_bool_decide as Hk.
    + intros [->|He]%elem_of_cons; [left; by subst|right; by right].
    + intros [->|He]%elem_of_cons; [right; left|].
      destruct (IH He) as [?|?]; [by left|right; by right].
Qed.

Lemma dict_set_length {V} k (v : V) v0 d :
  dict_get k d = Some v0 -> length (dict_set k v d) = length d.
Proof.
  induction d as [|[k1 v1] d IH]; simpl; [done|]. rewrite dict_get_cons.
  case_bool_decide as Hk; simpl; [done|]. intros Hg. f_equal. by apply IH.
Qed.

Lemma dict_del_keys {V} k (d : pydict V) :
  dict_keys (dict_del k d) = List.filter (fun i => negb (bool_decide (i = k))) (dict_keys d).
Proof.
  unfold dict_keys, dict_del. induction d as [|[k0 v0] d IH]; simpl; [done|].
  destruct (bool_decide (k0 = k)); simpl; by rewrite IH.
Qed.

Lemma dict_del_elem {V} k (d : pydict V) e : e ∈ dict_del k d -> e ∈ d.
Proof.
  unfold dict_del. intros He. apply list_elem_of_In, filter_In in He as [He _].
  by apply list_elem_of_In.
Qed.

Lemma wf_values d s e :
  kd_wf d s -> e ∈ _id_to_point s -> length e.2 = d.
Proof.
  intros Hwf He. pose proof (kd_points _ _ Hwf) as Hpts.
  unfold dict_values in Hpts. rewrite Forall_fmap, Forall_forall in Hpts. by apply Hpts.
Qed.

(** [add] of an id that is not stored, with a vector of the index's
    dimension, rebuilds the index with the id in it, and the rebuild
    normalises every point it is given: the id is stored under its vector
    normalised twice, every other id under its former point normalised once
    more, and [size()] grows by one. *)
Theorem kd_add_then_lookup (s : t) (v : list R) (id : string) (d : nat) :
  1 <= d -> kd_wf d s -> length v = d -> dict_get id (_id_to_point s) = None ->
  exists s', add v id s = (Ok tt, s') /\
    kd_wf d s' /\ size s' = S (size s) /\
    dict_get id (_id_to_point s') = Some (normalize (normalize v)) /\
    forall id', id' <> id ->
      dict_get id' (_id_to_point s') = normalize <$> dict_get id' (_id_to_point s).
Proof.
  intros Hd Hwf Hv Hid.
  set (m := _id_to_point s). set (m' := dict_set id (normalize v) m).
  assert (Hm' : m' = m ++ [(id, normalize v)]) by (by apply dict_set_absent).
  assert (Hnd' : NoDup (dict_keys m')) by apply dict_set_keys_nodup, Hwf.
  destruct (rebuild_run m' d s Hd Hnd') as (s' & Hrun & Hwf' & Hperm & _).
  { unfold dict_values. rewrite Forall_fmap, Forall_forall. intros e He.
    apply dict_set_elem in He as [->|He]; simpl.
    - by rewrite normalize_length.
    - by apply (wf_values d s). }
  assert (Hnd'' : NoDup (dict_keys (renormalized m'))) by (by rewrite renormalized_keys).
  exists s'. split.
  { unfold add, bind, get_state. fold m. rewrite <- Hrun, Hm'.
    unfold dict_keys, dict_values. by rewrite !map_app. }
  split; [done|]. split.
  { unfold size. rewrite (kd_size _ _ Hwf'), (kd_size _ _ Hwf), Hperm.
    unfold renormalized. rewrite length_map, Hm', length_app.
    simpl. fold m. lia. }
  split.
  - rewrite (dict_get_perm (renormalized m')) by done.
    rewrite renormalized_get. unfold m'. by rewrite dict_get_set_eq.
  - intros id' Hne. rewrite (dict_get_perm (renormalized m')) by done.
    rewrite renormalized_get. unfold m'. by rewrite dict_get_set_ne.
Qed.

Lemma kd_add_then_lookup_witness :
  let s := (build [[3; 4]; [0; 2]]%R ["a"; "b"]%string init).2 in
  exists s', add [5; 0]%R "c" s = (Ok tt, s') /\
    kd_wf 2 s' /\ size s' = S (size s) /\
    dict_get "c" (_id_to_point s') = Some (normalize (normalize [5; 0]%R)) /\
    forall id', id' <> "c"%string ->
      dict_get id' (_id_to_point s') = normalize <$> dict_get id' (_id_to_point s).
Proof.
  apply (kd_add_then_lookup _ _ _ 2); [lia|apply sample_built_wf|reflexivity|].
  apply dict_get_None. destruct (build_wf_perm [[3; 4]; [0; 2]]%R ["a"; "b"]%string 2 init)
    as (s' & Hrun & Hwf & Hperm).
  - lia.
  - by repeat constructor.
  - reflexivity.
  - repeat constructor; [rewrite list_elem_of_singleton; done|apply not_elem_of_nil].
  - rewrite Hrun. simpl. unfold dict_keys. change (map fst ?l) with (l.*1). rewrite Hperm.
    simpl. rewrite !not_elem_of_cons. repeat split; try done. apply not_elem_of_nil.
Defined.

(** [remove] of a stored id rebuilds the index without it, and the
    rebuild normalises every point it is given: the id is gone, every other
    id is stored under its former point normalised once more, and [size()]
    drops by one.  For an id that is not stored it raises [KeyError] and
    leaves the index as it was. *)
Theorem kd_remove_then_lookup (s : t) (id : string) (d : nat) :
  1 <= d -> kd_wf d s ->
  match dict_get id (_id_to_point s) with
  | None => remove id s = (Raise KeyError, s)
  | Some _ =>
      exists s', remove id s = (Ok tt, s') /\
        kd_wf d s' /\ S (size s') = size s /\
        dict_get id (_id_to_point s') = None /\
        forall id', id' <> id ->
          dict_get id' (_id_to_point s') = normalize <$> dict_get id' (_id_to_point s)
  end.
Proof.
  intros Hd Hwf. unfold remove, bind, get_state.
  destruct (dict_get id (_id_to_point s)) as [p|] eqn:Hid; [|done].
  set (m := _id_to_point s) in *. set (m' := dict_del id m).
  assert (Hnd : NoDup (dict_keys m)) by apply Hwf.
  assert (Hnd' : NoDup (dict_keys m')) by by apply dict_del_keys_nodup.
  destruct (rebuild_run m' d s Hd Hnd') as (s' & Hrun & Hwf' & Hperm & _).
  { unfold dict_values. rewrite Forall_fmap, Forall_forall. intros e He%dict_del_elem.
    by apply (wf_values d s). }
  assert (Hnd'' : NoDup (dict_keys (renormalized m'))) by (by rewrite renormalized_keys).
  exists s'. split.
  { rewrite <- dict_del_keys. fold m'.
    rewrite (lookup_all_keys m m') by (done || apply dict_del_elem). exact Hrun. }
  split; [done|]. split.
  { unfold size. rewrite (kd_size _ _ Hwf'), (kd_size _ _ Hwf), Hperm.
    unfold renormalized. rewrite length_map. by apply (dict_del_length id p). }
  split.
  - rewrite (dict_get_perm (renormalized m')) by done.
    rewrite renormalized_get. unfold m'. by rewrite dict_get_del_eq.
  - intros id' Hne. rewrite (dict_get_perm (renormalized m')) by done.
    rewrite renormalized_get. unfold m'. by rewrite dict_get_del_ne.
Qed.

Lemma kd_remove_then_lookup_witness :
  let s := (build [[3; 4]; [0; 2]]%R ["a"; "b"]%string init).2 in
  match dict_get "a" (_id_to_point s) with
  | None => remove "a" s = (Raise KeyError, s)
  | Some _ =>
      exists s', remove "a" s = (Ok tt, s') /\
        kd_wf 2 s' /\ S (size s') = size s /\
        dict_get "a" (_id_to_point s') = None /\
        forall id', id' <> "a"%string ->
          dict_get id' (_id_to_point s') = normalize <$> dict_get id' (_id_to_point s)
  end.
Proof.
  apply (kd_remove_then_lookup (build [[3; 4]; [0; 2]]%R ["a"; "b"]%string init).2 "a" 2);
    [lia|apply sample_built_wf].
Defined.

(** [update] of a stored id, with a vector of the index's dimension,
    rebuilds the index, and the rebuild normalises every point it is given:
    the id is stored under its new vector normalised twice, every other id
    under its former point normalised once more, and [size()] stays.  For an
    id that is not stored it raises [KeyError] and leaves the index as it
    was. *)
Theorem kd_update_then_lookup (s : t) (v : list R) (id : string) (d : nat) :
  1 <= d -> kd_wf d s -> length v = d ->
  match dict_get id (_id_to_point s) with
  | None => update id v s = (Raise KeyError, s)
  | Some _ =>
      exists s', update id v s = (Ok tt, s') /\
        kd_wf d s' /\ size s' = size s /\
        dict_get id (_id_to_point s') = Some (normalize (normalize v)) /\
        forall id', id' <> id ->
          dict_get id' (_id_to_point s') = normalize <$> dict_get id' (_id_to_point s)
  end.
Proof.
  intros Hd Hwf Hv. unfold update, bind, get_state.
  destruct (dict_get id (_id_to_point s)) as [p|] eqn:Hid; [|done].
  set (m := _id_to_point s) in *. set (m' := dict_set id (normalize v) m).
  assert (Hnd' : NoDup (dict_keys m')) by apply dict_set_keys_nodup, Hwf.
  destruct (rebuild_run m' d (set_id_to_point m' s) Hd Hnd') as (s' & Hrun & Hwf' & Hperm & _).
  { unfold dict_values. rewrite Forall_fmap, Forall_forall. intros e He.
    apply dict_set_elem in He as [->|He]; simpl.
    - by rewrite normalize_length.
    - by apply (wf_values d s). }
  assert (Hnd'' : NoDup (dict_keys (renormalized m'))) by (by rewrite renormalized_keys).
  exists s'. split.
  { unfold modify. cbn [fst snd _id_to_point set_id_to_point]. fold m'.
    rewrite (lookup_all_keys m' m') by done. exact Hrun. }
  split; [done|]. split.
  { unfold size. rewrite (kd_size _ _ Hwf'), (kd_size _ _ Hwf), Hperm.
    unfold renormalized. rewrite length_map. by apply (dict_set_length id _ p). }
  split.
  - rewrite (dict_get_perm (renormalized m')) by done.
    rewrite renormalized_get. unfold m'. by rewrite dict_get_set_eq.
  - intros id' Hne. rewrite (dict_get_perm (renormalized m')) by done.
    rewrite renormalized_get. unfold m'. by rewrite dict_get_set_ne.
Qed.

Lemma kd_update_then_lookup_witness :
  let s := (build [[3; 4]; [0; 2]]%R ["a"; "b"]%string init).2 in
  match dict_get "a" (_id_to_point s) with
  | None => update "a" [5; 0]%R s = (Raise KeyError, s)
  | Some _ =>
      exists s', update "a" [5; 0]%R s = (Ok tt, s') /\
        kd_wf 2 s' /\ size s' = size s /\
        dict_get "a" (_id_to_point s') = Some (normalize (normalize [5; 0]%R)) /\
        forall id', id' <> "a"%string ->
          dict_get id' (_id_to_point s') = normalize <$> dict_get id' (_id_to_point s)
  end.
Proof.
  apply (kd_update_then_lookup (build [[3; 4]; [0; 2]]%R ["a"; "b"]%string init).2
           [5; 0]%R "a" 2); [lia|apply sample_built_wf|reflexivity].
Defined.

(** When [_build_recursive] raises, [build] raises the same exception
    having already overwritten [_dim]: the tree, the size and the map are
    those of before, which is how a failed [add], [remove] or [update]
    leaves the index too. *)
Theorem kd_build_failure_keeps_tree (vectors : list (list R)) (ids : list string)
    (s0 : t) (e : exn) :
  vectors <> [] ->
  (_build_recursive (zip (map normalize vectors) ids) 0) = Raise e ->
  build vectors ids s0 =
    (Raise e, mk (_root s0) (_size s0) (length (hd [] vectors)) (_id_to_point s0)).
Proof.
  intros Hne Hfail. rewrite build_nonempty by done. rewrite Hfail.
  unfold set_dim. do 2 f_equal. destruct vectors as [|v0 vs]; [done|]. simpl.
  apply normalize_length.
Qed.

Lemma kd_build_failure_keeps_tree_witness :
  build [[]; [1%R]] ["a"; "b"]%string init =
    (Raise ZeroDivisionError,
     mk (_root init) (_size init) (length (hd [] [[]; [1%R]])) (_id_to_point init)).
Proof.
  apply kd_build_failure_keeps_tree; [done|].
  assert (Hn : normalize [] = []) by (unfold normalize; simpl; by destruct (Reqb _ _)).
  simpl map. rewrite Hn. reflexivity.
Defined.

End KDTreeStateFacts.

(** ** More on the LSH index: planes, hashing, and what [search] ranks *)

Module LSHStateFacts.
Import RandomHyperplaneLSHIndex LSHSpec LSHState LSHFacts RankingFacts VectorFacts.

Section WithRandom.
Context (gauss : Z -> nat -> R).

(** *** Planes and hashing *)


(** *** Every stored id is filed *)

Lemma init_indexed np seed : indexed (init np seed).
Proof. intros id v. done. Qed.

Lemma file_indexed planes buckets idv np seed id vn :
  let s := mk np seed planes buckets idv in
  indexed s -> dict_get id idv = None ->
  indexed (mk np seed planes (bucket_append (_hash s vn) id buckets) (dict_set id vn idv)).
Proof.
  intros s Hidx Hid id0 v0. cbn [_buckets _id_to_vec].
  assert (Hh : forall b' i' v, _hash (mk np seed planes b' i') v = _hash s v) by done.
  rewrite Hh, lookup_bucket_append. destruct (decide (id0 = id)) as [->|Hne].
  - rewrite dict_get_set_eq. intros [= <-]. rewrite decide_True by done.
    eexists. split; [done|]. apply elem_of_app. right. left.
  - rewrite dict_get_set_ne by done. intros Hv0.
    destruct (Hidx _ _ Hv0) as (b & Hb & Hin). change (buckets !! _hash s v0 = Some b) in Hb.
    case_decide as Hkey.
    + eexists. split; [done|]. rewrite Hkey, Hb. simpl. apply elem_of_app. by left.
    + by exists b.
Qed.

Lemma store_indexed v id s :
  indexed s -> dict_get id (_id_to_vec s) = None -> indexed (store v id s).2.
Proof.
  destruct s as [np seed planes buckets idv]. simpl. intros Hidx Hid.
  unfold store, bind, gets, get_state, modify. simpl.
  by apply (file_indexed planes buckets idv np seed id (normalize v)).
Qed.

Lemma store_all_indexed items s :
  wf s -> (_planes s = [] -> _num_planes s = 0) -> indexed s ->
  NoDup (items.*2) -> (forall id, id ∈ items.*2 -> id ∉ dict_keys (_id_to_vec s)) ->
  indexed (store_all items s).2.
Proof.
  revert s. induction items as [|[v id] items IH]; intros s Hwf Hp Hidx Hnd Hfresh; [done|].
  simpl in *. apply NoDup_cons in Hnd as [Hid Hnd]. unfold bind.
  assert (Hnone : dict_get id (_id_to_vec s) = None) by (apply dict_get_None, Hfresh; left).
  destruct (store_wf v id s Hwf Hp Hnone) as (Hwf' & Hp' & Hnp' & Hkeys).
  pose proof (store_indexed v id s Hidx Hnone) as Hidx'.
  destruct (store v id s) as [[[]|e] s'] eqn:Hs; simpl in *; [|done].
  apply IH; try done.
  - by rewrite Hp', Hnp'.
  - intros id0 Hin. rewrite Hkeys, not_elem_of_app. split.
    + apply Hfresh. by right.
    + rewrite list_elem_of_singleton. by intros ->.
Qed.

Lemma build_indexed vectors ids s : NoDup ids -> indexed (build gauss vectors ids s).2.
Proof.
  intros Hnd. destruct s as [np seed planes buckets idv].
  unfold build, bind, modify. simpl. destruct vectors as [|v0 vectors]; simpl.
  - by intros id v.
  - apply store_all_indexed.
    + split; simpl.
      * intros key b id. by rewrite lookup_empty.
      * intros key b. by rewrite lookup_empty.
      * constructor.
      * by right.
    + simpl. destruct np; [done|]. done.
    + by intros id v.
    + change (NoDup (zip (v0 :: vectors) ids).*2).
      rewrite zip_snd_take. eapply sublist_NoDup; [exact Hnd|apply sublist_take].
    + intros id _. simpl. apply not_elem_of_nil.
Qed.

Lemma add_indexed vector id s : wf s -> indexed s -> indexed (add gauss vector id s).2.
Proof.
  destruct s as [np seed planes buckets idv]. intros Hwf Hidx.
  unfold add, bind, get_state. simpl.
  destruct (dict_get id idv) as [v|] eqn:Hid; [done|].
  unfold modify. simpl. destruct planes as [|p planes].
  - unfold _init_planes, bind, get_state, modify, ret. simpl.
    set (planes' := map _ (seq 0 np)).
    apply (file_indexed planes' buckets idv np seed id (normalize vector)); [|done].
    destruct (planes_ready _ Hwf eq_refl) as [Hnp|Hidv]; simpl in *.
    + subst np. exact Hidx.
    + subst idv. by intros id0 v0.
  - unfold ret. simpl.
    by apply (file_indexed (p :: planes) buckets idv np seed id (normalize vector)).
Qed.

Lemma list_remove_first_other id l x :
  x ∈ l -> x <> id -> x ∈ list_remove_first id l.
Proof.
  induction l as [|y l IH]; simpl; [done|]. intros [->|Hx]%elem_of_cons Hne.
  - rewrite bool_decide_eq_false_2 by done. left.
  - case_bool_decide; [done|]. right. by apply IH.
Qed.

Lemma remove_indexed id s : indexed s -> indexed (remove id s).2.
Proof.
  destruct s as [np seed planes buckets idv]. intros Hidx.
  unfold remove, bind, get_state. simpl.
  destruct (dict_get id idv) as [vn|] eqn:Hid; [|done].
  unfold modify. simpl.
  set (s := mk np seed planes buckets idv) in *.
  assert (Hh : forall b' i' v, _hash (mk np seed planes b' i') v = _hash s v) by done.
  assert (Hold : forall id0 v0, id0 <> id -> dict_get id0 (dict_del id idv) = Some v0 ->
            exists b, buckets !! _hash s v0 = Some b /\ id0 ∈ b).
  { intros id0 v0 Hne Hv0. rewrite dict_get_del_ne in Hv0 by done. by apply Hidx. }
  assert (Hgone : forall id0 v0, dict_get id0 (dict_del id idv) = Some v0 -> id0 <> id).
  { intros id0 v0 Hv0 ->. by rewrite dict_get_del_eq in Hv0. }
  destruct (buckets !! _hash s vn) as [bucket|] eqn:Hbucket.
  - case_bool_decide as Hin.
    + assert (Hnew : forall bs,
                (forall key' b, key' <> _hash s vn -> buckets !! key' = Some b -> bs !! key' = Some b) ->
                (list_remove_first id bucket <> [] ->
                   bs !! _hash s vn = Some (list_remove_first id bucket)) ->
                indexed (mk np seed planes bs (dict_del id idv))).
      { intros bs Hbs Hkey id0 v0 Hv0. cbn [_buckets _id_to_vec] in *. rewrite Hh.
        pose proof (Hgone _ _ Hv0) as Hne.
        destruct (Hold _ _ Hne Hv0) as (b & Hb & Hinb).
        destruct (decide (_hash s v0 = _hash s vn)) as [Heq|Hneq].
        - rewrite Heq in *. rewrite Hbucket in Hb. injection Hb as <-.
          pose proof (list_remove_first_other id bucket id0 Hinb Hne) as Hin'.
          exists (list_remove_first id bucket). split; [|done].
          apply Hkey. intros E. rewrite E in Hin'. by apply elem_of_nil in Hin'.
        - exists b. split; [by apply Hbs|done]. }
      destruct (list_remove_first id bucket) eqn:Hrem; simpl; apply Hnew.
      * intros key' b Hne Hb. by rewrite lookup_delete_ne.
      * done.
      * intros key' b Hne Hb. by rewrite lookup_insert_ne.
      * intros _. apply lookup_insert_eq.
    + unfold ret. intros id0 v0 Hv0. exact (Hold id0 v0 (Hgone _ _ Hv0) Hv0).
  - unfold ret. intros id0 v0 Hv0. exact (Hold id0 v0 (Hgone _ _ Hv0) Hv0).
Qed.

Lemma update_indexed id v s : wf s -> indexed s -> indexed (update gauss id v s).2.
Proof.
  intros Hwf Hidx. unfold update, bind.
  pose proof (remove_wf id s Hwf) as Hr. pose proof (remove_indexed id s Hidx) as Hi.
  destruct (remove id s) as [[[]|e] s']; simpl in *; [|done].
  by apply add_indexed.
Qed.

Lemma run_indexed ops np seed :
  Forall build_args_ok ops ->
  wf (run gauss ops (init np seed)) /\ indexed (run gauss ops (init np seed)).
Proof.
  intros Hops. unfold run.
  generalize (init_wf np seed) (init_indexed np seed). generalize (init np seed).
  induction Hops as [|o ops Ho _ IH]; intros s Hwf Hidx; [done|].
  simpl. apply IH.
  - by apply run_op_wf.
  - destruct o; simpl in *.
    + by apply build_indexed.
    + by apply add_indexed.
    + by apply remove_indexed.
    + by apply update_indexed.
Qed.

(** *** [search] *)

Lemma score_all_spec s q cands :
  (forall cid, cid ∈ cands -> is_Some (dict_get cid (_id_to_vec s))) ->
  exists ps, score_all s q cands = Ok ps /\
    Forall2 (fun id (p : string * R) => p.1 = id /\
               exists v, dict_get id (_id_to_vec s) = Some v /\ p.2 = cosine_similarity q v)
            cands ps.
Proof.
  induction cands as [|cid cands IH]; intros Hc; simpl.
  - exists []. split; [done|constructor].
  - destruct (Hc cid) as [v Hv]; [left|]. rewrite Hv.
    destruct IH as (ps & -> & Hps); [intros; apply Hc; by right|].
    simpl. eexists. split; [done|]. constructor; [|done]. split; [done|]. by exists v.
Qed.

Lemma scored_fst (cands : list string) (ps : list (string * R))
    (Rel : string -> string * R -> Prop) :
  Forall2 Rel cands ps -> (forall id p, Rel id p -> p.1 = id) -> map fst ps = cands.
Proof.
  intros Hall Hrel. induction Hall as [|id p cands ps Hp _ IH]; simpl; [done|].
  by rewrite (Hrel _ _ Hp), IH.
Qed.

(** The candidates [search] scores, and the list it sorts. *)
Lemma search_run (s : t) (q : list R) (k : Z) :
  wf s -> indexed s -> (1 <= k)%Z ->
  exists cands ps,
    search s q k = Ok (py_take k (sort_by_key snd true ps)) /\
    NoDup cands /\ (forall id, id ∈ cands <-> candidate_of s q id) /\
    Forall2 (fun id (p : string * R) => p.1 = id /\
               exists v, dict_get id (_id_to_vec s) = Some v /\
                         p.2 = cosine_similarity (normalize q) v)
            cands ps.
Proof.
  intros Hwf Hidx Hk. unfold search.
  destruct (Z.leb_spec k 0) as [?|_]; [lia|].
  destruct (_id_to_vec s) as [|e0 idv] eqn:Hidv.
  { exists [], []. split; [unfold py_take; simpl; by rewrite take_nil|].
    split; [constructor|]. split; [|constructor].
    intros id. split; [by intros ?%elem_of_nil|].
    intros [(_ & v & Hv & _)|[_ [v Hv]]]; by rewrite Hidv in Hv. }
  rewrite <- Hidv.
  set (cand0 := match _planes s with
                | [] => []
                | _ => default [] (_buckets s !! _hash s (normalize q))
                end).
  assert (Hhit : forall id, hit s q id <-> id ∈ cand0).
  { intros id. unfold hit, cand0. split.
    - intros (Hpl & v & Hv & Hh). destruct (_planes s); [done|].
      destruct (Hidx _ _ Hv) as (b & Hb & Hin). rewrite <- Hh, Hb. done.
    - destruct (_planes s) as [|p ps] eqn:Hpl; [by intros ?%elem_of_nil|].
      destruct (_buckets s !! _hash s (normalize q)) as [b|] eqn:Hb;
        [|by intros ?%elem_of_nil].
      simpl. intros Hin. split; [done|].
      destruct (buckets_stored _ Hwf _ _ _ Hb Hin) as (v & Hv & Hh). by exists v. }
  assert (Hnd0 : NoDup cand0).
  { unfold cand0. destruct (_planes s); [constructor|].
    destruct (_buckets s !! _hash s (normalize q)) as [b|] eqn:Hb; [|constructor].
    simpl. by eapply buckets_nodup. }
  set (cands := match cand0 with [] => dict_keys (_id_to_vec s) | _ => cand0 end).
  assert (Hcands : forall id, id ∈ cands <-> candidate_of s q id).
  { intros id. unfold cands, candidate_of. destruct cand0 as [|c cs] eqn:Hc0.
    - split.
      + intros Hin. right. split.
        * intros id' Hh%Hhit. by apply elem_of_nil in Hh.
        * destruct (dict_get id (_id_to_vec s)) eqn:Hg; [done|].
          by apply dict_get_None in Hg.
      + intros [Hh%Hhit|[_ [v Hv]]]; [by apply elem_of_nil in Hh|].
        destruct (decide (id ∈ dict_keys (_id_to_vec s))) as [|Hn]; [done|].
        apply dict_get_None in Hn. congruence.
    - rewrite <- Hhit. split; [by left|]. intros [?|[Hno _]]; [done|].
      destruct (Hno c). apply Hhit. left. }
  assert (Hstored : forall cid, cid ∈ cands -> is_Some (dict_get cid (_id_to_vec s))).
  { intros cid [(_ & v & Hv & _)|[_ ?]]%Hcands; [by exists v|done]. }
  destruct (score_all_spec s (normalize q) cands Hstored) as (ps & Hps & Hall).
  exists cands, ps. fold cand0. fold cands. rewrite Hps. simpl.
  split; [done|]. split; [|done].
  unfold cands. destruct cand0; [apply Hwf|done].
Qed.

(** On an index left by any sequence of calls, [search(q, k)] with
    [k >= 1] ranks the stored ids whose vectors have the sign pattern of the
    normalised query, or every stored id when there is none such: it returns
    the [k] best of them by cosine similarity to the normalised query (all of
    them when there are fewer), best first, no id twice. *)
Theorem lsh_search_ranks_bucket (s : t) (q : list R) (k : Z) :
  wf s -> indexed s -> (1 <= k)%Z ->
  exists res cands, search s q k = Ok res /\
    NoDup cands /\ (forall id, id ∈ cands <-> candidate_of s q id) /\
    length res = Nat.min (Z.to_nat k) (length cands) /\
    NoDup (map fst res) /\
    StronglySorted (fun a b : string * R => (b.2 <= a.2)%R) res /\
    (forall id sc, (id, sc) ∈ res -> id ∈ cands /\
       exists v, dict_get id (_id_to_vec s) = Some v /\
                 sc = cosine_similarity (normalize q) v) /\
    (forall id v, id ∈ cands -> dict_get id (_id_to_vec s) = Some v ->
       id ∉ map fst res ->
       forall p, p ∈ res -> (cosine_similarity (normalize q) v <= p.2)%R).
Proof.
  intros Hwf Hidx Hk.
  destruct (search_run s q k Hwf Hidx Hk) as (cands & ps & Hrun & Hnd & Hcands & Hall).
  assert (Hfst : map fst ps = cands) by (apply (scored_fst _ _ _ Hall); by intros id p [? _]).
  destruct (ranked_take snd k ps) as (Hlen & Hsorted & _).
  exists (py_take k (sort_by_key snd true ps)), cands.
  split; [done|]. split; [done|]. split; [done|]. split.
  { rewrite Hlen. rewrite <- Hfst, length_map. f_equal. lia. }
  split; [apply ranked_nodup; by rewrite Hfst|]. split; [done|]. split.
  - intros id sc Hin%ranked_elem. apply list_elem_of_lookup in Hin as [i Hi].
    destruct (Forall2_lookup_r _ _ _ _ _ Hall Hi) as (id' & Hid' & Heq & v & Hv & Hsc).
    simpl in *. subst id'. split; [by eapply list_elem_of_lookup_2|]. by exists v.
  - intros id v Hin Hv Hout p Hp.
    apply (ranked_left_out k ps (id, cosine_similarity (normalize q) v)); [|done|done].
    apply list_elem_of_lookup in Hin as [i Hi].
    destruct (Forall2_lookup_l _ _ _ _ _ Hall Hi) as ([id' sc] & Hps & Heq & v' & Hv' & Hsc).
    simpl in *. subst id'. rewrite Hv in Hv'. injection Hv' as <-. subst sc.
    by eapply list_elem_of_lookup_2.
Qed.

(** *** [add], [remove] and [update] *)

Lemma add_run (s : t) (v : list R) (id : string) :
  dict_get id (_id_to_vec s) = None ->
  (add gauss v id s).1 = Ok tt /\
  _id_to_vec (add gauss v id s).2 = dict_set id (normalize v) (_id_to_vec s).
Proof.
  intros Hid. destruct s as [np seed planes buckets idv]. simpl in Hid.
  unfold add, bind, get_state. simpl. rewrite Hid. unfold modify. simpl.
  by destruct planes.
Qed.

Lemma remove_run (s : t) (id : string) (v : list R) :
  dict_get id (_id_to_vec s) = Some v ->
  (remove id s).1 = Ok tt /\
  _id_to_vec (remove id s).2 = dict_del id (_id_to_vec s).
Proof.
  intros Hid. destruct s as [np seed planes buckets idv]. simpl in Hid.
  unfold remove, bind, get_state. simpl. rewrite Hid. unfold modify. simpl.
  destruct (buckets !! _) as [b|]; [|done].
  case_bool_decide; [|done]. by destruct (list_remove_first id b).
Qed.

(** [add] of an id that is not stored files it: the id is then stored
    under its vector normalised and listed in the bucket of that vector,
    [size()] grows by one and every other id keeps its vector; the index
    stays well formed. *)
Theorem lsh_add_then_lookup (s : t) (v : list R) (id : string) :
  wf s -> indexed s -> dict_get id (_id_to_vec s) = None ->
  exists s', add gauss v id s = (Ok tt, s') /\
    wf s' /\ indexed s' /\
    dict_get id (_id_to_vec s') = Some (normalize v) /\
    (exists b, _buckets s' !! _hash s' (normalize v) = Some b /\ id ∈ b) /\
    size s' = S (size s) /\
    forall id', id' <> id ->
      dict_get id' (_id_to_vec s') = dict_get id' (_id_to_vec s).
Proof.
  intros Hwf Hidx Hid.
  destruct (add_run s v id Hid) as [Hok Hdict].
  pose proof (add_wf gauss v id s Hwf) as Hwf'.
  pose proof (add_indexed v id s Hwf Hidx) as Hidx'.
  destruct (add gauss v id s) as [r s'] eqn:Hadd. simpl in *. subst r.
  exists s'. split; [done|]. split; [done|]. split; [done|].
  assert (Hget : dict_get id (_id_to_vec s') = Some (normalize v))
    by (rewrite Hdict; apply dict_get_set_eq).
  split; [done|]. split; [by apply Hidx'|]. split.
  - unfold size. rewrite Hdict, dict_set_absent, length_app by done. simpl. lia.
  - intros id' Hne. rewrite Hdict. by apply dict_get_set_ne.
Qed.

(** A vector that has just been added is looked for where it was filed:
    [add] hashes the normalised vector and [search] the normalised query, so
    with the same vector as the query the id is among the candidates.  The
    search returns at least one pair, none returned scores below the id's own
    score (the cosine similarity of the normalised vector with itself) unless
    the id is returned too, and the first pair scores at least that. *)
Theorem lsh_finds_added_vector (s : t) (v : list R) (id : string) (k : Z) :
  wf s -> indexed s -> dict_get id (_id_to_vec s) = None -> (1 <= k)%Z ->
  let s' := (add gauss v id s).2 in
  let own := cosine_similarity (normalize v) (normalize v) in
  candidate_of s' v id /\
  (_planes s' <> [] -> hit s' v id) /\
  exists first rest,
    search s' v k = Ok (first :: rest) /\
    (own <= first.2)%R /\
    ((id, own) ∈ first :: rest \/ forall p, p ∈ first :: rest -> (own <= p.2)%R).
Proof.
  intros Hwf Hidx Hid Hk s' own.
  destruct (add_run s v id Hid) as [Hok Hdict].
  pose proof (add_wf gauss v id s Hwf) as Hwf'.
  pose proof (add_indexed v id s Hwf Hidx) as Hidx'.
  fold s' in Hdict, Hwf', Hidx'.
  assert (Hget : dict_get id (_id_to_vec s') = Some (normalize v))
    by (rewrite Hdict; apply dict_get_set_eq).
  assert (Hhit : _planes s' <> [] -> hit s' v id).
  { intros Hpl. split; [done|]. by exists (normalize v). }
  assert (Hcand : candidate_of s' v id).
  { destruct (_planes s') as [|p0 planes] eqn:Hpl.
    - right. split; [|by exists (normalize v)]. intros id' [Hne _]. by rewrite Hpl in Hne.
    - left. by apply Hhit. }
  split; [done|]. split; [done|].
  destruct (search_run s' v k Hwf' Hidx' Hk) as (cands & ps & Hrun & Hnd & Hcands & Hall).
  assert (Hin : id ∈ cands) by (by apply Hcands).
  apply list_elem_of_lookup in Hin as [i Hi].
  destruct (Forall2_lookup_l _ _ _ _ _ Hall Hi) as ([id0 sc] & Hps & Heq & v' & Hv' & Hsc).
  simpl in *. subst id0. rewrite Hget in Hv'. injection Hv' as <-. fold own in Hsc. subst sc.
  assert (Hmem : (id, own) ∈ ps) by (by eapply list_elem_of_lookup_2).
  destruct (KDTreeFacts.sorted_desc_head snd ps) as (h & tl & Hsort & Hh & Hmax).
  { intros ->. by apply elem_of_nil in Hmem. }
  assert (Hres : py_take k (sort_by_key snd true ps) = h :: take (Z.to_nat (Z.max 0 k) - 1) tl).
  { rewrite Hsort. unfold py_take.
    destruct (Z.to_nat (Z.max 0 k)) as [|n] eqn:Hn; [lia|]. simpl. by rewrite Nat.sub_0_r. }
  exists h, (take (Z.to_nat (Z.max 0 k) - 1) tl). rewrite Hrun, Hres.
  split; [done|]. split; [apply (Hmax (id, own) Hmem)|].
  rewrite <- Hres.
  destruct (decide (id ∈ map fst (py_take k (sort_by_key snd true ps)))) as [Hfst|Hout].
  - left. apply list_elem_of_fmap in Hfst as ([id1 sc1] & Hid1 & Hp1). simpl in Hid1. subst id1.
    pose proof (ranked_elem _ _ _ _ Hp1) as Hp1'.
    apply list_elem_of_lookup in Hp1' as [j Hj].
    destruct (Forall2_lookup_r _ _ _ _ _ Hall Hj) as (idj & Hcj & Heqj & vj & Hvj & Hscj).
    simpl in *. subst idj. rewrite Hget in Hvj. injection Hvj as <-. fold own in Hscj.
    by subst sc1.
  - right. intros p Hp. by apply (ranked_left_out k ps (id, own)).
Qed.

(** [remove] of a stored id takes it out of the map and out of its
    bucket, so that no bucket lists it any more; [size()] drops by one and
    every other id keeps its vector.  For an id that is not stored it raises
    [KeyError] and leaves the index as it was. *)
Theorem lsh_remove_then_lookup (s : t) (id : string) :
  wf s -> indexed s ->
  match dict_get id (_id_to_vec s) with
  | None => remove id s = (Raise KeyError, s)
  | Some _ =>
      exists s', remove id s = (Ok tt, s') /\
        wf s' /\ indexed s' /\
        dict_get id (_id_to_vec s') = None /\
        (forall key b, _buckets s' !! key = Some b -> id ∉ b) /\
        S (size s') = size s /\
        forall id', id' <> id ->
          dict_get id' (_id_to_vec s') = dict_get id' (_id_to_vec s)
  end.
Proof.
  intros Hwf Hidx. destruct (dict_get id (_id_to_vec s)) as [v|] eqn:Hid.
  - destruct (remove_run s id v Hid) as [Hok Hdict].
    pose proof (remove_wf id s Hwf) as Hwf'.
    pose proof (remove_indexed id s Hidx) as Hidx'.
    destruct (remove id s) as [r s'] eqn:Hrem. simpl in *. subst r.
    exists s'. split; [done|]. split; [done|]. split; [done|].
    assert (Hget : dict_get id (_id_to_vec s') = None)
      by (rewrite Hdict; apply dict_get_del_eq).
    split; [done|]. split.
    + intros key b Hb Hin. destruct (buckets_stored _ Hwf' _ _ _ Hb Hin) as (v' & Hv' & _).
      congruence.
    + split.
      * unfold size. rewrite Hdict. apply (dict_del_length id v); [apply Hwf|done].
      * intros id' Hne. rewrite Hdict. by apply dict_get_del_ne.
  - unfold remove, bind, get_state. simpl. by rewrite Hid.
Qed.

(** [update] of a stored id is [remove] followed by [add] and cannot
    fail half way: the id ends up stored under its new vector normalised,
    every other id keeps its vector and [size()] stays.  For an id that is
    not stored it raises [KeyError] and leaves the index as it was. *)
Theorem lsh_update_then_lookup (s : t) (v : list R) (id : string) :
  wf s -> indexed s ->
  match dict_get id (_id_to_vec s) with
  | None => update gauss id v s = (Raise KeyError, s)
  | Some _ =>
      exists s', update gauss id v s = (Ok tt, s') /\
        wf s' /\ indexed s' /\
        dict_get id (_id_to_vec s') = Some (normalize v) /\
        size s' = size s /\
        forall id', id' <> id ->
          dict_get id' (_id_to_vec s') = dict_get id' (_id_to_vec s)
  end.
Proof.
  intros Hwf Hidx. unfold update, bind.
  destruct (dict_get id (_id_to_vec s)) as [v0|] eqn:Hid.
  - destruct (remove_run s id v0 Hid) as [Hok Hdict].
    pose proof (remove_wf id s Hwf) as Hwf1.
    pose proof (remove_indexed id s Hidx) as Hidx1.
    destruct (remove id s) as [r s1] eqn:Hrem. simpl in *. subst r.
    assert (Hgone : dict_get id (_id_to_vec s1) = None)
      by (rewrite Hdict; apply dict_get_del_eq).
    destruct (add_run s1 v id Hgone) as [Hok2 Hdict2].
    pose proof (add_wf gauss v id s1 Hwf1) as Hwf2.
    pose proof (add_indexed v id s1 Hwf1 Hidx1) as Hidx2.
    destruct (add gauss v id s1) as [r s2] eqn:Hadd. simpl in *. subst r.
    exists s2. split; [done|]. split; [done|]. split; [done|]. split; [|split].
    + rewrite Hdict2. apply dict_get_set_eq.
    + unfold size. rewrite Hdict2, dict_set_absent, length_app by done. simpl.
      rewrite Hdict. pose proof (dict_del_length id v0 (_id_to_vec s) (keys_nodup _ Hwf) Hid). lia.
    + intros id' Hne. rewrite Hdict2, dict_get_set_ne by done. rewrite Hdict.
      by apply dict_get_del_ne.
  - assert (Hrem : remove id s = (Raise KeyError, s)).
    { unfold remove, bind, get_state. simpl. by rewrite Hid. }
    by rewrite Hrem.
Qed.

End WithRandom.

(** A sample index: two planes over dimension 2, two vectors added. *)
Lemma sample_ready :
  let gauss := fun (_ : Z) (_ : nat) => 1%R in
  let s := run gauss [Add [3; 4]%R "a"; Add [0; 2]%R "b"] (init 2 42) in
  wf s /\ indexed s.
Proof. apply run_indexed. by repeat constructor. Qed.

Lemma lsh_search_ranks_bucket_witness :
  let gauss := fun (_ : Z) (_ : nat) => 1%R in
  let s := run gauss [Add [3; 4]%R "a"; Add [0; 2]%R "b"] (init 2 42) in
  let q := [1; 1]%R in
  exists res cands, search s q 1 = Ok res /\
    NoDup cands /\ (forall id, id ∈ cands <-> candidate_of s q id) /\
    length res = Nat.min (Z.to_nat 1) (length cands) /\
    NoDup (map fst res) /\
    StronglySorted (fun a b : string * R => (b.2 <= a.2)%R) res /\
    (forall id sc, (id, sc) ∈ res -> id ∈ cands /\
       exists v, dict_get id (_id_to_vec s) = Some v /\
                 sc = cosine_similarity (normalize q) v) /\
    (forall id v, id ∈ cands -> dict_get id (_id_to_vec s) = Some v ->
       id ∉ map fst res ->
       forall p, p ∈ res -> (cosine_similarity (normalize q) v <= p.2)%R).
Proof.
  destruct sample_ready as [Hwf Hidx].
  apply lsh_search_ranks_bucket; [exact Hwf|exact Hidx|lia].
Defined.

Lemma lsh_finds_added_vector_witness :
  let gauss := fun (_ : Z) (_ : nat) => 1%R in
  let s := run gauss [Add [3; 4]%R "a"; Add [0; 2]%R "b"] (init 2 42) in
  let s' := (add gauss [5; 0]%R "c" s).2 in
  let own := cosine_similarity (normalize [5; 0]%R) (normalize [5; 0]%R) in
  candidate_of s' [5; 0]%R "c" /\
  (_planes s' <> [] -> hit s' [5; 0]%R "c") /\
  exists first rest,
    search s' [5; 0]%R 1 = Ok (first :: rest) /\
    (own <= first.2)%R /\
    (("c"%string, own) ∈ first :: rest \/ forall p, p ∈ first :: rest -> (own <= p.2)%R).
Proof.
  destruct sample_ready as [Hwf Hidx].
  apply lsh_finds_added_vector; [exact Hwf|exact Hidx|reflexivity|lia].
Defined.

Lemma lsh_add_then_lookup_witness :
  let gauss := fun (_ : Z) (_ : nat) => 1%R in
  let s := run gauss [Add [3; 4]%R "a"; Add [0; 2]%R "b"] (init 2 42) in
  exists s', add gauss [5; 0]%R "c" s = (Ok tt, s') /\
    wf s' /\ indexed s' /\
    dict_get "c" (_id_to_vec s') = Some (normalize [5; 0]%R) /\
    (exists b, _buckets s' !! _hash s' (normalize [5; 0]%R) = Some b /\ "c"%string ∈ b) /\
    size s' = S (size s) /\
    forall id', id' <> "c"%string ->
      dict_get id' (_id_to_vec s') = dict_get id' (_id_to_vec s).
Proof.
  destruct sample_ready as [Hwf Hidx].
  apply lsh_add_then_lookup; [exact Hwf|exact Hidx|reflexivity].
Defined.

Lemma lsh_remove_then_lookup_witness :
  let gauss := fun (_ : Z) (_ : nat) => 1%R in
  let s := run gauss [Add [3; 4]%R "a"; Add [0; 2]%R "b"] (init 2 42) in
  match dict_get "a" (_id_to_vec s) with
  | None => remove "a" s = (Raise KeyError, s)
  | Some _ =>
      exists s', remove "a" s = (Ok tt, s') /\
        wf s' /\ indexed s' /\
        dict_get "a" (_id_to_vec s') = None /\
        (forall key b, _buckets s' !! key = Some b -> "a"%string ∉ b) /\
        S (size s') = size s /\
        forall id', id' <> "a"%string ->
          dict_get id' (_id_to_vec s') = dict_get id' (_id_to_vec s)
  end.
Proof.
  destruct sample_ready as [Hwf Hidx].
  apply (lsh_remove_then_lookup
           (run (fun _ _ => 1%R) [Add [3; 4]%R "a"; Add [0; 2]%R "b"] (init 2 42)) "a");
    [exact Hwf|exact Hidx].
Defined.

Lemma lsh_update_then_lookup_witness :
  let gauss := fun (_ : Z) (_ : nat) => 1%R in
  let s := run gauss [Add [3; 4]%R "a"; Add [0; 2]%R "b"] (init 2 42) in
  match dict_get "a" (_id_to_vec s) with
  | None => update gauss "a" [5; 0]%R s = (Raise KeyError, s)
  | Some _ =>
      exists s', update gauss "a" [5; 0]%R s = (Ok tt, s') /\
        wf s' /\ indexed s' /\
        dict_get "a" (_id_to_vec s') = Some (normalize [5; 0]%R) /\
        size s' = size s /\
        forall id', id' <> "a"%string ->
          dict_get id' (_id_to_vec s') = dict_get id' (_id_to_vec s)
  end.
Proof.
  destruct sample_ready as [Hwf Hidx].
  apply (lsh_update_then_lookup (fun _ _ => 1%R)
           (run (fun _ _ => 1%R) [Add [3; 4]%R "a"; Add [0; 2]%R "b"] (init 2 42))
           [5; 0]%R "a"); [exact Hwf|exact Hidx].
Defined.

End LSHStateFacts.

(** ** More on the lock and on the version counters *)

Module RWLockProgress.
Import RWLockSpec RWLockFacts.



(** A read section and a write section leave the lock object as they
    found it: [release_read] undoes [acquire_read], and [release_write]
    undoes the two halves of [acquire_write]. *)
Theorem rwlock_sections_restore (l : RWLock.t) :
  (forall l', RWLock.acquire_read l = Some l' -> RWLock.release_read l' = l) /\
  (forall l', RWLock.acquire_write_proceed (RWLock.acquire_write_enter l) = Some l' ->
              RWLock.release_write l' = l).
Proof.
  destruct l as [r w a]. split; intros l'.
  - unfold RWLock.acquire_read. simpl. destruct (a || (0 <? w)%Z); [done|].
    intros [= <-]. unfold RWLock.release_read. simpl. f_equal. lia.
  - unfold RWLock.acquire_write_proceed, RWLock.acquire_write_enter. simpl.
    destruct a; [done|]. simpl. destruct (0 <? r)%Z; [done|].
    intros [= <-]. unfold RWLock.release_write. simpl. f_equal. lia.
Qed.

End RWLockProgress.

Module VersionCounters.
Import ServiceSpec VersionFacts.

Lemma is_index_stale_run library_id (vs : gmap string VersionManager.VersionInfo) :
  let vi := default VersionManager.default_info (vs !! library_id) in
  (VersionManager.is_index_stale library_id vs).1 =
    Ok (negb (VersionManager.index_version vi =? VersionManager.data_version vi)%Z).
Proof.
  intros vi. unfold VersionManager.is_index_stale, bind.
  destruct (setdefault_run library_id vs) as (vs' & -> & _). done.
Qed.

(** The version counters of one library: bringing the index version up
    to the data version (as every build and every incremental index update
    does) makes [is_index_stale] false; a following [bump_data] adds exactly
    one to the data version, leaves the index version, and makes
    [is_index_stale] true.  No other library's counters move. *)
Theorem version_sync_then_bump (library_id : string)
    (vs : gmap string VersionManager.VersionInfo) :
  let d := VersionManager.data_version
             (default VersionManager.default_info (vs !! library_id)) in
  exists vs1 vs2,
    VersionManager.set_index_version library_id d vs
      = (Ok (VersionManager.mk_info d d), vs1) /\
    (VersionManager.is_index_stale library_id vs1).1 = Ok false /\
    VersionManager.bump_data library_id vs1
      = (Ok (VersionManager.mk_info (d + 1) d), vs2) /\
    (VersionManager.is_index_stale library_id vs2).1 = Ok true /\
    forall l, l <> library_id ->
      default VersionManager.default_info (vs2 !! l)
        = default VersionManager.default_info (vs !! l).
Proof.
  intros d.
  destruct (set_index_version_run library_id d vs) as (vs1 & Hset & Hvs1 & Hother1).
  destruct (bump_data_run library_id vs1) as (vs2 & Hbump & Hvs2 & Hother2).
  rewrite Hvs1 in Hbump, Hvs2. simpl in Hbump, Hvs2.
  exists vs1, vs2. split; [exact Hset|]. split.
  { rewrite is_index_stale_run, Hvs1. simpl. by rewrite Z.eqb_refl. }
  split; [exact Hbump|]. split.
  { rewrite is_index_stale_run, Hvs2. simpl. f_equal.
    apply negb_true_iff, Z.eqb_neq. lia. }
  intros l Hl. by rewrite Hother2, Hother1.
Qed.

End VersionCounters.

(** ** Tags and embeddings of a fixed dimension *)

Module TagFacts.
Import MetadataBase TagSpec.

(** *** [str.strip] *)

Lemma rstrip_rstrip (s : string) : rstrip (rstrip s) = rstrip s.
Proof.
  induction s as [|c s IH]; [done|]. simpl.
  destruct (rstrip s) as [|a r] eqn:Hr.
  - destruct (is_space c) eqn:Hc; [done|]. simpl. by rewrite Hc.
  - simpl. simpl in IH. by rewrite IH.
Qed.

Lemma lstrip_head (s : string) :
  lstrip s = EmptyString \/ exists c s', lstrip s = String c s' /\ is_space c = false.
Proof.
  induction s as [|c s IH]; [by left|]. simpl.
  destruct (is_space c) eqn:Hc; [done|]. right. by exists c, s.
Qed.

Lemma rstrip_head (c : ascii) (s : string) :
  is_space c = false -> exists r, rstrip (String c s) = String c r.
Proof.
  intros Hc. simpl. destruct (rstrip s) as [|a r]; rewrite ?Hc; by eexists.
Qed.

Lemma strip_strip (s : string) : strip (strip s) = strip s.
Proof.
  unfold strip. destruct (lstrip_head s) as [->|(c & s' & -> & Hc)]; [done|].
  destruct (rstrip_head c s' Hc) as [r Hr]. rewrite Hr.
  simpl lstrip. rewrite Hc. rewrite <- Hr. apply rstrip_rstrip.
Qed.

(** *** [validate_tags] *)

Lemma loop_spec (v unique : list string) (seen : gset string) :
  (forall t, t ∈ seen <-> t ∈ unique) -> NoDup unique ->
  match validate_tags_loop v unique seen with
  | Ok u =>
      Forall (fun tag => String.length (strip tag) <= 64) v /\
      NoDup u /\
      forall t, t ∈ u <-> t ∈ unique \/ (t <> EmptyString /\ exists tag, tag ∈ v /\ t = strip tag)
  | Raise e => e = ValueError /\ Exists (fun tag => 64 < String.length (strip tag)) v
  end.
Proof.
  revert unique seen. induction v as [|tag v IH]; intros unique seen Hseen Hnd; simpl.
  - split; [constructor|]. split; [done|]. intros t. split; [by left|].
    intros [?|(_ & tag & Hin & _)]; [done|]. by apply elem_of_nil in Hin.
  - case_bool_decide as Hblank.
    { specialize (IH unique seen Hseen Hnd).
      destruct (validate_tags_loop v unique seen) as [u|e].
      - destruct IH as (Hlen & Hu & Hmem). split; [|split; [done|]].
        + constructor; [|done]. rewrite Hblank. simpl. lia.
        + intros t. rewrite Hmem. split; intros [?|(Hne & tag' & Hin & ->)]; try by left.
          * right. split; [done|]. exists tag'. split; [by right|done].
          * apply elem_of_cons in Hin as [->|Hin]; [done|].
            right. split; [done|]. by exists tag'.
      - destruct IH as [-> Hex]. split; [done|]. by right. }
    destruct (Nat.ltb_spec 64 (String.length (strip tag))) as [Hlong|Hshort].
    { split; [done|]. by left. }
    assert (Hstep : forall unique' seen',
              (forall t, t ∈ seen' <-> t ∈ unique') -> NoDup unique' ->
              (forall t, t ∈ unique' <-> t ∈ unique \/ t = strip tag) ->
              match validate_tags_loop v unique' seen' with
              | Ok u =>
                  Forall (fun tag => String.length (strip tag) <= 64) (tag :: v) /\
                  NoDup u /\
                  forall t, t ∈ u <-> t ∈ unique \/
                    (t <> EmptyString /\ exists tag0, tag0 ∈ tag :: v /\ t = strip tag0)
              | Raise e => e = ValueError /\
                  Exists (fun tag => 64 < String.length (strip tag)) (tag :: v)
              end).
    { intros unique' seen' Hseen' Hnd' Hu'. specialize (IH unique' seen' Hseen' Hnd').
      destruct (validate_tags_loop v unique' seen') as [u|e].
      - destruct IH as (Hlen & Hu & Hmem). split; [by constructor|]. split; [done|].
        intros t. rewrite Hmem, Hu'. split.
        + intros [[?| ->]|(Hne & tag' & Hin & ->)].
          * by left.
          * right. split; [done|]. exists tag. split; [left|done].
          * right. split; [done|]. exists tag'. split; [by right|done].
        + intros [?|(Hne & tag' & Hin & ->)]; [by left; left|].
          apply elem_of_cons in Hin as [->|Hin]; [left; by right|].
          right. split; [done|]. by exists tag'.
      - destruct IH as [-> Hex]. split; [done|]. by right. }
    case_bool_decide as Hin.
    + apply Hstep; [done|done|]. intros t. split; [by left|].
      intros [?| ->]; [done|]. by apply Hseen.
    + apply Hstep.
      * intros t. rewrite elem_of_union, elem_of_singleton, elem_of_app, list_elem_of_singleton.
        by rewrite Hseen.
      * apply NoDup_app. split; [done|]. split; [|apply NoDup_singleton].
        intros t Ht ->%list_elem_of_singleton. by apply Hin, Hseen.
      * intros t. by rewrite elem_of_app, list_elem_of_singleton.
Qed.

Lemma loop_clean (u unique : list string) (seen : gset string) :
  (forall t, t ∈ seen <-> t ∈ unique) -> NoDup (unique ++ u) -> Forall clean u ->
  validate_tags_loop u unique seen = Ok (unique ++ u).
Proof.
  revert unique seen. induction u as [|t u IH]; intros unique seen Hseen Hnd Hclean; simpl.
  - by rewrite app_nil_r.
  - apply Forall_cons in Hclean as [(Hne & Hstrip & Hlen) Hclean]. rewrite Hstrip.
    rewrite bool_decide_eq_false_2 by done.
    destruct (Nat.ltb_spec 64 (String.length t)); [lia|].
    rewrite bool_decide_eq_false_2.
    + rewrite IH; [by rewrite <- app_assoc| |by rewrite <- app_assoc|done].
      intros t'. rewrite elem_of_union, elem_of_singleton, elem_of_app, list_elem_of_singleton.
      by rewrite Hseen.
    + rewrite Hseen. apply NoDup_app in Hnd as (_ & Hdis & _). intros Hin.
      apply (Hdis t Hin). left.
Qed.

Lemma empty_seen (t : string) : t ∈ (∅ : gset string) <-> t ∈ ([] : list string).
Proof. split; [by intros ?%not_elem_of_empty|by intros ?%elem_of_nil]. Qed.

(** [validate_tags] raises [ValueError] exactly when some tag is longer
    than 64 characters after trimming.  Otherwise it returns the trimmed,
    non-blank tags of its argument, each once: every tag returned is trimmed,
    not empty and at most 64 characters long, and validating the result
    again returns it unchanged. *)
Theorem validate_tags_clean (v : list string) :
  match validate_tags v with
  | Ok u =>
      Forall (fun tag => String.length (strip tag) <= 64) v /\
      NoDup u /\
      (forall t, t ∈ u <-> t <> EmptyString /\ exists tag, tag ∈ v /\ t = strip tag) /\
      Forall clean u /\
      validate_tags u = Ok u
  | Raise e => e = ValueError /\ Exists (fun tag => 64 < String.length (strip tag)) v
  end.
Proof.
  unfold validate_tags.
  pose proof (loop_spec v [] ∅) as Hspec.
  destruct (validate_tags_loop v [] ∅) as [u|e]; [|apply Hspec; [apply empty_seen|constructor]].
  destruct Hspec as (Hlen & Hnd & Hmem); [apply empty_seen|constructor|].
  assert (Hmem' : forall t, t ∈ u <-> t <> EmptyString /\ exists tag, tag ∈ v /\ t = strip tag).
  { intros t. rewrite Hmem. split; [|by right]. intros [Hin|?]; [|done].
    by apply elem_of_nil in Hin. }
  assert (Hclean : Forall clean u).
  { apply Forall_forall. intros t (Hne & tag & Hin & ->)%Hmem'.
    split; [done|]. split; [apply strip_strip|].
    rewrite Forall_forall in Hlen. by apply Hlen. }
  split; [done|]. split; [done|]. split; [done|]. split; [done|].
  apply (loop_clean u [] ∅); [apply empty_seen|done|done].
Qed.

End TagFacts.

Module FitDimension.
Import EmbeddingService.

(** [_fit_dimension] for a target that is not negative returns exactly
    [target] entries: those of the vector as far as they go, then zeros; a
    vector that already fits is returned as it is, and fitting twice is
    fitting once.  For a negative target nothing is padded: the vector loses
    its last [-target] entries. *)
Theorem fit_dimension_shape (vec : list R) (target : Z) :
  let res := _fit_dimension vec target in
  ((0 <= target)%Z ->
     length res = Z.to_nat target /\
     (forall i, i < length vec -> i < Z.to_nat target -> res !! i = vec !! i) /\
     (forall i, length vec <= i -> i < Z.to_nat target -> res !! i = Some 0%R) /\
     (Z.of_nat (length vec) = target -> res = vec) /\
     _fit_dimension res target = res) /\
  ((target < 0)%Z -> res = take (length vec - Z.to_nat (- target)) vec).
Proof.
  intros res. subst res. unfold _fit_dimension.
  destruct (Z.eqb_spec (Z.of_nat (length vec)) target) as [Heq|Hne].
  { split; [|lia]. intros Hpos. split; [lia|]. split; [done|]. split.
    - intros i Hi. lia.
    - split; [done|]. by rewrite (proj2 (Z.eqb_eq _ _) Heq). }
  destruct (Z.ltb_spec target (Z.of_nat (length vec))) as [Hlt|Hge].
  - unfold py_slice_to. split.
    + intros Hpos. rewrite (proj2 (Z.leb_le _ _) Hpos).
      assert (Hlen : length (take (Z.to_nat target) vec) = Z.to_nat target)
        by (rewrite length_take; lia).
      split; [done|]. split; [|split; [|split]].
      * intros i _ Hi. by apply lookup_take_lt.
      * intros i Hi1 Hi2. lia.
      * lia.
      * rewrite Hlen, Z2Nat.id by done. by rewrite Z.eqb_refl.
    + intros Hneg. destruct (Z.leb_spec 0 target); [lia|]. f_equal. lia.
  - split; [|lia]. intros Hpos. unfold zeros.
    assert (Hlen : length (vec ++ replicate (Z.to_nat (target - Z.of_nat (length vec))) 0%R)
                   = Z.to_nat target)
      by (rewrite length_app, length_replicate; lia).
    split; [done|]. split; [|split; [|split]].
    + intros i Hi _. by apply lookup_app_l.
    + intros i Hi1 Hi2. rewrite lookup_app_r by done. apply lookup_replicate_2. lia.
    + lia.
    + rewrite Hlen, Z2Nat.id by done. by rewrite Z.eqb_refl.
Qed.

End FitDimension.

(** ** The chunk repository under any sequence of calls *)

Module ChunkRepositoryFacts.
Import ServiceSpec CascadeSpec MonadFacts CascadeFacts FilterFacts.
Import ChunkRepository ChunkRepositoryBulk ChunkRepositorySpec.

Lemma lookup_index_add key x (index : gmap string (gset string)) key' :
  index_add key x index !!! key' =
  if decide (key = key') then index !!! key ∪ {[x]} else index !!! key'.
Proof.
  unfold index_add. case_decide as Hk.
  - subst. by rewrite lookup_total_insert_eq.
  - by rewrite lookup_total_insert_ne.
Qed.

Lemma index_fold (key : Chunk.t -> string) (cs : list Chunk.t)
    (index : gmap string (gset string)) (k i : string) :
  i ∈ fold_left (fun m c => index_add (key c) (Chunk.id c) m) cs index !!! k <->
  i ∈ index !!! k \/ exists c, c ∈ cs /\ key c = k /\ Chunk.id c = i.
Proof.
  revert index. induction cs as [|c cs IH]; intros index; simpl.
  - split; [by left|]. intros [?|(c & Hc & _)]; [done|]. by apply elem_of_nil in Hc.
  - rewrite IH, lookup_index_add. case_decide as Hk.
    + subst k. rewrite elem_of_union, elem_of_singleton. split.
      * intros [[?| ->]|(c' & Hc' & ? & ?)].
        -- by left.
        -- right. exists c. split; [left|done].
        -- right. exists c'. split; [by right|done].
      * intros [?|(c' & [->|Hc']%elem_of_cons & Hkey & Hid)].
        -- left. by left.
        -- left. by right.
        -- right. by exists c'.
    + split.
      * intros [?|(c' & Hc' & ? & ?)]; [by left|]. right. exists c'. split; [by right|done].
      * intros [?|(c' & [->|Hc']%elem_of_cons & Hkey & Hid)]; [by left|done|].
        right. by exists c'.
Qed.

Lemma items_fold (cs : list Chunk.t) (m : gmap string Chunk.t) (i : string) (c : Chunk.t) :
  NoDup (map Chunk.id cs) ->
  fold_left (fun m c => <[Chunk.id c := c]> m) cs m !! i = Some c <->
  (c ∈ cs /\ Chunk.id c = i) \/ (m !! i = Some c /\ i ∉ map Chunk.id cs).
Proof.
  revert m. induction cs as [|c0 cs IH]; intros m Hnd; simpl.
  - split; [right; split; [done|apply not_elem_of_nil]|].
    intros [[Hc _]|[? _]]; [by apply elem_of_nil in Hc|done].
  - apply NoDup_cons in Hnd as [Hc0 Hnd]. rewrite IH by done.
    rewrite lookup_insert, not_elem_of_cons. split.
    + intros [[Hc Hid]|[Hm Hi]].
      * left. split; [by right|done].
      * case_decide as Hk.
        -- injection Hm as <-. left. split; [left|done].
        -- right. split; [done|]. split; [congruence|done].
    + intros [[[->|Hc]%elem_of_cons Hid]|[Hm [Hne Hi]]].
      * right. subst i. rewrite decide_True by done. done.
      * left. done.
      * right. rewrite decide_False by congruence. done.
Qed.

Lemma index_loop (cs : list Chunk.t) items bl bd :
  for_each cs (fun c =>
    do_ modify (fun s => mk (_items s)
                   (index_add (Chunk.library_id c) (Chunk.id c) (_by_library s))
                   (_by_document s));
    modify (fun s => mk (_items s) (_by_library s)
               (index_add (Chunk.document_id c) (Chunk.id c) (_by_document s))))
    (mk items bl bd) =
  (Ok tt, mk items
             (fold_left (fun m c => index_add (Chunk.library_id c) (Chunk.id c) m) cs bl)
             (fold_left (fun m c => index_add (Chunk.document_id c) (Chunk.id c) m) cs bd)).
Proof.
  revert bl bd. induction cs as [|c cs IH]; intros bl bd; simpl; [done|].
  unfold bind, modify. simpl. apply IH.
Qed.

Lemma replace_all_run (cs : list Chunk.t) (r : t) :
  replace_all cs r =
  (Ok tt, mk (items_of cs)
             (fold_left (fun m c => index_add (Chunk.library_id c) (Chunk.id c) m) cs ∅)
             (fold_left (fun m c => index_add (Chunk.document_id c) (Chunk.id c) m) cs ∅)).
Proof. unfold replace_all, bind, modify. simpl. apply index_loop. Qed.

Lemma replace_all_wf (cs : list Chunk.t) (r : t) :
  NoDup (map Chunk.id cs) -> chunks_wf (replace_all cs r).2.
Proof.
  intros Hnd. rewrite replace_all_run. simpl.
  assert (Hitems : forall i c, items_of cs !! i = Some c <-> c ∈ cs /\ Chunk.id c = i).
  { intros i c. unfold items_of. rewrite items_fold by done. rewrite lookup_empty.
    split; [intros [?|[? _]]; done|by left]. }
  split; simpl.
  - intros i c. by intros [_ ?]%Hitems.
  - intros lib i. rewrite index_fold, lookup_total_empty. split.
    + intros [?%not_elem_of_empty|(c & Hc & Hl & Hi)]; [done|].
      exists c. split; [by apply Hitems|done].
    + intros (c & [Hc Hi]%Hitems & Hl). right. by exists c.
  - intros doc i. rewrite index_fold, lookup_total_empty. split.
    + intros [?%not_elem_of_empty|(c & Hc & Hl & Hi)]; [done|].
      exists c. split; [by apply Hitems|done].
    + intros (c & [Hc Hi]%Hitems & Hl). right. by exists c.
Qed.

Lemma repo_update_wf (r : t) chunk_id text embedding now :
  chunks_wf r -> chunks_wf (update chunk_id text embedding now r).2.
Proof.
  intros [Hids Hlib Hdoc]. unfold update, bind, get_state, modify, ret. simpl.
  destruct (_items r !! chunk_id) as [c|] eqn:Hc; [|done]. simpl.
  assert (Hsame : forall P : Chunk.t -> Prop,
            (forall c0, P (Chunk.set_fields text embedding now c0) <-> P c0) ->
            forall i, (exists c', <[chunk_id := Chunk.set_fields text embedding now c]> (_items r) !! i
                                   = Some c' /\ P c') <->
                      (exists c', _items r !! i = Some c' /\ P c')).
  { intros P HP i. rewrite lookup_insert. case_decide as Hi.
    - subst i. split.
      + intros (c' & [= <-] & Hp). exists c. split; [done|]. by apply HP.
      + intros (c' & Hc' & Hp). rewrite Hc in Hc'. injection Hc' as <-.
        eexists. split; [done|]. by apply HP.
    - done. }
  split; simpl.
  - intros i c'. rewrite lookup_insert. case_decide as Hi; [|apply Hids].
    intros [= <-]. simpl. subst i. by apply Hids.
  - intros lib i. rewrite Hlib.
    symmetry. apply (Hsame (fun c0 => Chunk.library_id c0 = lib)). done.
  - intros doc i. rewrite Hdoc.
    symmetry. apply (Hsame (fun c0 => Chunk.document_id c0 = doc)). done.
Qed.

Lemma repo_run_op_wf (o : op) (r : t) : replace_args_ok o -> chunks_wf r -> chunks_wf (run_op o r).2.
Proof.
  intros Ho Hwf. destruct o as [c|id text emb now|id|cs]; simpl.
  - unfold bind. destruct (_items r !! Chunk.id c) as [c0|] eqn:Hc.
    + unfold create, bind, get_state. simpl. by rewrite Hc.
    + pose proof (chunk_create_wf r c Hwf Hc) as Hwf'.
      by destruct (create c r) as [[?|?] ?].
  - unfold bind. pose proof (repo_update_wf r id text emb now Hwf) as Hwf'.
    by destruct (update id text emb now r) as [[?|?] ?].
  - destruct (_items r !! id) as [c|] eqn:Hc.
    + by apply (chunk_delete_wf r id c).
    + unfold delete, bind, get_state. simpl. by rewrite Hc.
  - by apply replace_all_wf.
Qed.

Lemma repo_run_wf (ops : list op) (r : t) :
  Forall replace_args_ok ops -> chunks_wf r -> chunks_wf (run ops r).
Proof.
  intros Hops. revert r. induction Hops as [|o ops Ho _ IH]; intros r Hwf; [done|].
  simpl. apply IH. by apply repo_run_op_wf.
Qed.

Lemma omap_length {A B} (f : A -> option B) (l : list A) : length (omap f l) <= length l.
Proof.
  induction l as [|x l IH]; [done|]. cbn [omap list_omap]. destruct (f x); cbn [length]; lia.
Qed.

(** After any sequence of [create], [update], [delete] and [replace_all]
    calls (the snapshots given to [replace_all] holding no id twice), failed
    calls included, the repository is well formed: every chunk is stored
    under its own id and the two secondary indexes list exactly the stored
    chunks of each library and of each document.  So [list_by_library] and
    [list_by_document] never raise and return exactly those chunks, each
    once, and [bulk_get] returns stored chunks only, at most one per id
    asked for. *)
Theorem chunk_repository_invariant (ops : list op) :
  Forall replace_args_ok ops ->
  let r := run ops init in
  chunks_wf r /\
  (forall library_id, exists cs,
     list_by_library library_id r = (Ok cs, r) /\ NoDup (map Chunk.id cs) /\
     forall c, c ∈ cs <-> _items r !! Chunk.id c = Some c /\ Chunk.library_id c = library_id) /\
  (forall document_id, exists cs,
     list_by_document document_id r = (Ok cs, r) /\ NoDup (map Chunk.id cs) /\
     forall c, c ∈ cs <-> _items r !! Chunk.id c = Some c /\ Chunk.document_id c = document_id) /\
  (forall ids, exists cs,
     bulk_get ids r = (Ok cs, r) /\ length cs <= length ids /\
     forall c, c ∈ cs <-> Chunk.id c ∈ ids /\ _items r !! Chunk.id c = Some c).
Proof.
  intros Hops r.
  assert (Hwf : chunks_wf r) by (apply repo_run_wf; [done|apply init_chunks_wf]).
  split; [done|]. split; [|split].
  - intros lib. by apply list_by_library_run.
  - intros doc. by apply list_by_document_run.
  - intros ids. exists (omap (fun cid => _items r !! cid) ids). split; [done|].
    split; [apply omap_length|].
    intros c. rewrite list_elem_of_omap. split.
    + intros (i & Hi & Hc). pose proof (chunk_ids _ Hwf _ _ Hc) as Hid. by rewrite Hid.
    + intros [Hi Hc]. by exists (Chunk.id c).
Qed.

Lemma chunk_repository_invariant_witness :
  let ops := [Create (sample_chunk "c" [1; 0; 0; 0]%R);
              ReplaceAll [sample_chunk "a" [1; 0; 0; 0]%R; sample_chunk "b" [0; 1; 0; 0]%R];
              Update "a" (Some "new text"%string) None sample_datetime;
              Delete "b"] in
  let r := run ops init in
  chunks_wf r /\
  (forall library_id, exists cs,
     list_by_library library_id r = (Ok cs, r) /\ NoDup (map Chunk.id cs) /\
     forall c, c ∈ cs <-> _items r !! Chunk.id c = Some c /\ Chunk.library_id c = library_id) /\
  (forall document_id, exists cs,
     list_by_document document_id r = (Ok cs, r) /\ NoDup (map Chunk.id cs) /\
     forall c, c ∈ cs <-> _items r !! Chunk.id c = Some c /\ Chunk.document_id c = document_id) /\
  (forall ids, exists cs,
     bulk_get ids r = (Ok cs, r) /\ length cs <= length ids /\
     forall c, c ∈ cs <-> Chunk.id c ∈ ids /\ _items r !! Chunk.id c = Some c).
Proof.
  apply chunk_repository_invariant.
  repeat constructor; simpl; try done.
  - rewrite list_elem_of_singleton. done.
  - apply not_elem_of_nil.
Defined.

End ChunkRepositoryFacts.

(** ** The life of a chunk through the chunk service *)

Module ChunkLifecycle.
Import ServiceSpec CascadeSpec MonadFacts ChunkServiceFacts VersionFacts CascadeFacts.

Section WithRandom.
Context (gauss : Z -> nat -> R).

(** What a maintenance call leaves alone, however it ends. *)
Lemma maintenance_frame library_id idx (m : M VectorIndex unit) w :
  let w' := ((do_ IndexService.on_index library_id idx m;
              IndexService.sync_version library_id) w).2 in
  chunks w' = chunks w /\ libraries w' = libraries w /\ documents w' = documents w /\
  forall l, data_version_of w' l = data_version_of w l.
Proof.
  intros w'. subst w'. unfold IndexService.on_index.
  destruct (m idx) as [[[]|e] idx'].
  - unfold bind, lift, get_state, modify. cbn [fst snd].
    match goal with
    | |- context [IndexService.sync_version ?l ?x] =>
        destruct (sync_version_run l x) as (vs' & Hsync & Hl & Hother); rewrite Hsync
    end. cbn [fst snd].
    split; [done|]. split; [done|]. split; [done|].
    intros l. unfold data_version_of in *. cbn [versions set_versions set_indexes] in *.
    destruct (decide (l = library_id)) as [->|Hne].
    + by rewrite Hl.
    + by rewrite Hother.
  - unfold bind, lift, get_state, modify. cbn [fst snd].
    split; [done|]. split; [done|]. split; [done|]. done.
Qed.

Lemma add_chunk_frame library_id chunk w :
  let w' := (IndexService.add_chunk gauss library_id chunk w).2 in
  chunks w' = chunks w /\ libraries w' = libraries w /\ documents w' = documents w /\
  forall l, data_version_of w' l = data_version_of w l.
Proof.
  unfold IndexService.add_chunk. rewrite (bind_ok _ _ w w w) by done.
  destruct (indexes w !! library_id); [apply maintenance_frame|done].
Qed.

Lemma remove_chunk_frame library_id chunk_id w :
  let w' := (IndexService.remove_chunk library_id chunk_id w).2 in
  chunks w' = chunks w /\ libraries w' = libraries w /\ documents w' = documents w /\
  forall l, data_version_of w' l = data_version_of w l.
Proof.
  unfold IndexService.remove_chunk. rewrite (bind_ok _ _ w w w) by done.
  destruct (indexes w !! library_id); [apply maintenance_frame|done].
Qed.

Lemma chunk_create_run (r : ChunkRepository.t) (c : Chunk.t) :
  ChunkRepository._items r !! Chunk.id c = None ->
  ChunkRepository.create c r =
  (Ok c, ChunkRepository.mk (<[Chunk.id c := c]> (ChunkRepository._items r))
           (index_add (Chunk.library_id c) (Chunk.id c) (ChunkRepository._by_library r))
           (index_add (Chunk.document_id c) (Chunk.id c) (ChunkRepository._by_document r))).
Proof.
  intros H. unfold ChunkRepository.create, bind, get_state, modify, ret. cbn [fst snd].
  by rewrite H.
Qed.

Lemma validate_embedding_ok w library_id lib embedding :
  libraries w !! library_id = Some lib ->
  Z.of_nat (length embedding) = Library.embedding_dimension lib ->
  ChunkService._validate_embedding library_id embedding w = (Ok tt, w).
Proof.
  intros Hlib Hdim. unfold ChunkService._validate_embedding.
  rewrite (bind_ok _ _ _ _ _ (on_libraries_get w library_id lib Hlib)).
  by rewrite bool_decide_eq_false_2 by (intros H; by apply H).
Qed.

Lemma chunk_create_ok new_id now library_id document_id text embedding :
  library_id <> EmptyString -> document_id <> EmptyString -> strip text <> EmptyString ->
  embedding <> [] ->
  Chunk.create new_id now library_id document_id text embedding
    = Ok (Chunk.mk new_id now now library_id document_id (strip text) embedding
            default_metadata false).
Proof.
  intros Hl Hd Ht He. unfold Chunk.create.
  rewrite !bool_decide_eq_false_2; try done.
  - by destruct embedding.
  - intros ->. by apply Ht.
Qed.

(** The lock lookup followed by a version bump: only the lock registry
    and the counters of the library move, the data version by one. *)
Lemma bump_run library_id w :
  exists vs', on_versions (VersionManager.bump_data library_id) w
      = (Ok (VersionManager.mk_info (data_version_of w library_id + 1)
                                    (index_version_of w library_id)),
         set_versions vs' w) /\
    data_version_of (set_versions vs' w) library_id = (data_version_of w library_id + 1)%Z /\
    index_version_of (set_versions vs' w) library_id = index_version_of w library_id /\
    forall l, l <> library_id ->
      default VersionManager.default_info (vs' !! l)
        = default VersionManager.default_info (versions w !! l).
Proof.
  destruct (bump_data_run library_id (versions w)) as (vs' & Hrun & Hl & Hother).
  exists vs'. unfold on_versions, zoom. rewrite Hrun.
  unfold data_version_of, index_version_of. cbn [versions set_versions]. rewrite Hl.
  done.
Qed.

(** A chunk that passes the checks of [create] (library and document
    exist, the embedding has the library's dimension, ids and trimmed text
    are not empty, the new id is free) is stored whether or not the index
    call that follows succeeds: [get] returns it with its text trimmed, the
    other chunks are untouched, the repository stays well formed, and the
    data version of the library has grown by one.  The call returns the
    chunk or passes on the exception of the index; with no index published
    it returns the chunk and moves neither the indexes nor the index
    version. *)
Theorem create_stores_chunk (w : World) (new_id : string) (now : datetime)
    (library_id document_id text : string) (embedding : list R) (lib : Library.t) :
  libraries w !! library_id = Some lib ->
  is_Some (DocumentRepository._items (documents w) !! document_id) ->
  Z.of_nat (length embedding) = Library.embedding_dimension lib ->
  library_id <> EmptyString -> document_id <> EmptyString ->
  strip text <> EmptyString -> embedding <> [] ->
  ChunkRepository._items (chunks w) !! new_id = None ->
  let chunk := Chunk.mk new_id now now library_id document_id (strip text) embedding
                 default_metadata false in
  let r := ChunkService.create gauss new_id now library_id document_id text embedding w in
  ChunkService.get new_id r.2 = (Ok chunk, r.2) /\
  (forall id, id <> new_id ->
     ChunkRepository._items (chunks r.2) !! id = ChunkRepository._items (chunks w) !! id) /\
  (chunks_wf (chunks w) -> chunks_wf (chunks r.2)) /\
  data_version_of r.2 library_id = (data_version_of w library_id + 1)%Z /\
  (r.1 = Ok chunk \/ exists e, r.1 = Raise e /\ is_Some (indexes w !! library_id)) /\
  (indexes w !! library_id = None ->
     r.1 = Ok chunk /\ indexes r.2 = indexes w /\
     index_version_of r.2 library_id = index_version_of w library_id).
Proof.
  intros Hlib [doc Hdoc] Hdim Hl Hd Ht He Hfree chunk r.
  destruct (FilterFacts.get_lock_run library_id w) as (lock & w1 & Hlock & Hw1 & Hchunks).
  assert (Hidx1 : indexes w1 = indexes w) by (rewrite Hw1; done).
  assert (Hver1 : versions w1 = versions w) by (rewrite Hw1; done).
  pose proof (chunk_create_run (chunks w) chunk Hfree) as Hcreate.
  set (r2 := ChunkRepository.mk _ _ _) in Hcreate.
  destruct (bump_run library_id (set_chunks r2 w1)) as (vs' & Hbump & Hdata & Hindex & _).
  set (w3 := set_versions vs' (set_chunks r2 w1)) in *.
  assert (Hrun : r = (do_ IndexService.add_chunk gauss library_id chunk; ret chunk) w3).
  { unfold r, ChunkService.create.
    rewrite (bind_ok _ _ _ _ _ (on_libraries_get w library_id lib Hlib)).
    rewrite (bind_ok _ _ _ _ _ (on_documents_get w document_id doc Hdoc)).
    rewrite (bind_ok _ _ _ _ _ (validate_embedding_ok w library_id lib embedding Hlib Hdim)).
    rewrite (bind_ok _ _ _ _ _ Hlock).
    rewrite chunk_create_ok by done. fold chunk.
    rewrite (bind_ok _ _ w1 chunk w1) by done.
    assert (Hon : on_chunks (ChunkRepository.create chunk) w1 = (Ok chunk, set_chunks r2 w1)).
    { rewrite on_chunks_run, Hchunks, Hcreate. done. }
    rewrite (bind_ok _ _ _ _ _ Hon). by rewrite (bind_ok _ _ _ _ _ Hbump). }
  destruct (add_chunk_frame library_id chunk w3) as (Hc & _ & _ & Hdv).
  assert (Hchunks_r : chunks r.2 = r2).
  { rewrite Hrun. unfold bind.
    destruct (IndexService.add_chunk gauss library_id chunk w3) as [[[]|e] w4]; exact Hc. }
  assert (Hdata_r : data_version_of r.2 library_id = (data_version_of w library_id + 1)%Z).
  { transitivity (data_version_of w3 library_id).
    - rewrite Hrun. unfold bind. specialize (Hdv library_id).
      destruct (IndexService.add_chunk gauss library_id chunk w3) as [[[]|e] w4]; exact Hdv.
    - rewrite Hdata. unfold data_version_of. cbn [versions set_chunks]. by rewrite Hver1. }
  split.
  { unfold ChunkService.get. apply on_chunks_get. rewrite Hchunks_r.
    apply lookup_insert_eq. }
  split.
  { intros id Hid. rewrite Hchunks_r. cbn. by rewrite lookup_insert_ne. }
  split.
  { intros Hwf. rewrite Hchunks_r.
    pose proof (chunk_create_wf (chunks w) chunk Hwf Hfree) as Hwf'.
    by rewrite Hcreate in Hwf'. }
  split; [done|].
  assert (Hnoindex : indexes w !! library_id = None ->
            IndexService.add_chunk gauss library_id chunk w3 = (Ok tt, w3)).
  { intros Hnone. unfold IndexService.add_chunk, bind, get_state. cbn [fst snd].
    replace (indexes w3) with (indexes w) by (symmetry; exact Hidx1).
    by rewrite Hnone. }
  split.
  - rewrite Hrun. unfold bind.
    destruct (indexes w !! library_id) as [idx|] eqn:Hidx.
    + destruct (IndexService.add_chunk gauss library_id chunk w3) as [[[]|e] w4];
        [by left|right; by exists e].
    + left. by rewrite Hnoindex.
  - intros Hnone. pose proof (Hnoindex Hnone) as Hadd.
    rewrite Hrun, (bind_ok _ _ _ _ _ Hadd). cbn [ret fst snd].
    split; [done|]. split; [exact Hidx1|].
    rewrite Hindex. unfold index_version_of. cbn [versions set_chunks]. by rewrite Hver1.
Qed.

Lemma chunk_update_run (r : ChunkRepository.t) id c text embedding now :
  ChunkRepository._items r !! id = Some c ->
  ChunkRepository.update id text embedding now r =
  (Ok (Chunk.set_fields text embedding now c),
   ChunkRepository.mk (<[id := Chunk.set_fields text embedding now c]> (ChunkRepository._items r))
     (ChunkRepository._by_library r) (ChunkRepository._by_document r)).
Proof.
  intros H. unfold ChunkRepository.update, bind, get_state, modify, ret. cbn [fst snd].
  by rewrite H.
Qed.

(** An update that carries no embedding never reaches the index: the
    stored chunk gets the new text (or keeps its own when none is given)
    and a new [updated_at], its embedding and every index object stay as
    they were, and the data version grows by one while the index version
    stays.  So where no index version was ahead of its data version, the
    library's index is stale after the call, even when nothing was changed. *)
Theorem text_update_leaves_index_stale (w : World) (now : datetime) (chunk_id : string)
    (text : option string) (c : Chunk.t) :
  ChunkRepository._items (chunks w) !! chunk_id = Some c ->
  (index_version_of w (Chunk.library_id c) <= data_version_of w (Chunk.library_id c))%Z ->
  let c' := Chunk.set_fields text None now c in
  exists w',
    ChunkService.update gauss now chunk_id text None w = (Ok c', w') /\
    ChunkService.get chunk_id w' = (Ok c', w') /\
    Chunk.embedding c' = Chunk.embedding c /\
    (forall id, id <> chunk_id ->
       ChunkRepository._items (chunks w') !! id = ChunkRepository._items (chunks w) !! id) /\
    indexes w' = indexes w /\
    data_version_of w' (Chunk.library_id c) = (data_version_of w (Chunk.library_id c) + 1)%Z /\
    index_version_of w' (Chunk.library_id c) = index_version_of w (Chunk.library_id c) /\
    (VersionManager.is_index_stale (Chunk.library_id c) (versions w')).1 = Ok true.
Proof.
  intros Hc Hle c'. set (library_id := Chunk.library_id c) in *.
  destruct (FilterFacts.get_lock_run library_id w) as (lock & w1 & Hlock & Hw1 & Hchunks).
  assert (Hidx1 : indexes w1 = indexes w) by (rewrite Hw1; done).
  assert (Hver1 : versions w1 = versions w) by (rewrite Hw1; done).
  pose proof (chunk_update_run (chunks w) chunk_id c text None now Hc) as Hupdate.
  fold c' in Hupdate. set (r2 := ChunkRepository.mk _ _ _) in Hupdate.
  destruct (bump_run library_id (set_chunks r2 w1)) as (vs' & Hbump & Hdata & Hindex & _).
  set (w3 := set_versions vs' (set_chunks r2 w1)) in *.
  assert (Hd1 : data_version_of (set_chunks r2 w1) library_id = data_version_of w library_id)
    by (unfold data_version_of; cbn [versions set_chunks]; by rewrite Hver1).
  assert (Hi1 : index_version_of (set_chunks r2 w1) library_id = index_version_of w library_id)
    by (unfold index_version_of; cbn [versions set_chunks]; by rewrite Hver1).
  exists w3. split.
  { unfold ChunkService.update.
    rewrite (bind_ok _ _ _ _ _ (on_chunks_get w chunk_id c Hc)). fold library_id.
    rewrite (bind_ok _ _ _ _ _ Hlock).
    rewrite (bind_ok _ _ w1 tt w1) by done.
    assert (Hon : on_chunks (ChunkRepository.update chunk_id text None now) w1
                  = (Ok c', set_chunks r2 w1)).
    { rewrite on_chunks_run, Hchunks, Hupdate. done. }
    rewrite (bind_ok _ _ _ _ _ Hon). rewrite (bind_ok _ _ _ _ _ Hbump).
    by rewrite (bind_ok _ _ w3 tt w3). }
  split; [apply on_chunks_get; apply lookup_insert_eq|].
  split; [done|]. split.
  { intros id Hid. cbn. by rewrite lookup_insert_ne. }
  split; [exact Hidx1|]. split; [by rewrite Hdata, Hd1|]. split; [by rewrite Hindex, Hi1|].
  rewrite VersionCounters.is_index_stale_run.
  change (Ok (negb (index_version_of w3 library_id =? data_version_of w3 library_id)%Z)
          = Ok true).
  rewrite Hdata, Hindex, Hd1, Hi1. f_equal. apply negb_true_iff, Z.eqb_neq. lia.
Qed.

(** [delete] of an id that is not stored raises [NotFoundError] and
    changes nothing.  A stored chunk is deleted whether or not the index
    call that follows succeeds: [get] no longer finds it, the other chunks
    are untouched, the repository stays well formed and the data version of
    its library has grown by one.  The call returns normally or passes on
    the exception of the index; with no index published it returns normally
    and moves neither the indexes nor the index version. *)
Theorem delete_removes_chunk (w : World) (chunk_id : string) :
  let r := ChunkService.delete chunk_id w in
  match ChunkRepository._items (chunks w) !! chunk_id with
  | None => r = (Raise NotFoundError, w)
  | Some c =>
      let library_id := Chunk.library_id c in
      ChunkService.get chunk_id r.2 = (Raise NotFoundError, r.2) /\
      (forall id, id <> chunk_id ->
         ChunkRepository._items (chunks r.2) !! id = ChunkRepository._items (chunks w) !! id) /\
      (chunks_wf (chunks w) -> chunks_wf (chunks r.2)) /\
      data_version_of r.2 library_id = (data_version_of w library_id + 1)%Z /\
      (r.1 = Ok tt \/ exists e, r.1 = Raise e /\ is_Some (indexes w !! library_id)) /\
      (indexes w !! library_id = None ->
         r.1 = Ok tt /\ indexes r.2 = indexes w /\
         index_version_of r.2 library_id = index_version_of w library_id)
  end.
Proof.
  intros r. destruct (ChunkRepository._items (chunks w) !! chunk_id) as [c|] eqn:Hc.
  2:{ unfold r, ChunkService.delete.
      by rewrite (bind_raise _ _ _ _ _ (on_chunks_get_missing w chunk_id Hc)). }
  intros library_id.
  destruct (FilterFacts.get_lock_run library_id w) as (lock & w1 & Hlock & Hw1 & Hchunks).
  assert (Hidx1 : indexes w1 = indexes w) by (rewrite Hw1; done).
  assert (Hver1 : versions w1 = versions w) by (rewrite Hw1; done).
  pose proof (chunk_delete_run (chunks w) chunk_id c Hc) as Hdelete.
  set (r2 := ChunkRepository.mk _ _ _) in Hdelete.
  destruct (bump_run library_id (set_chunks r2 w1)) as (vs' & Hbump & Hdata & Hindex & _).
  set (w3 := set_versions vs' (set_chunks r2 w1)) in *.
  assert (Hrun : r = IndexService.remove_chunk library_id chunk_id w3).
  { unfold r, ChunkService.delete.
    rewrite (bind_ok _ _ _ _ _ (on_chunks_get w chunk_id c Hc)). fold library_id.
    rewrite (bind_ok _ _ _ _ _ Hlock).
    assert (Hon : on_chunks (ChunkRepository.delete chunk_id) w1 = (Ok tt, set_chunks r2 w1)).
    { rewrite on_chunks_run, Hchunks, Hdelete. done. }
    rewrite (bind_ok _ _ _ _ _ Hon). by rewrite (bind_ok _ _ _ _ _ Hbump). }
  destruct (remove_chunk_frame library_id chunk_id w3) as (Hcr & _ & _ & Hdv).
  rewrite <- Hrun in Hcr, Hdv.
  assert (Hchunks_r : chunks r.2 = r2) by exact Hcr.
  assert (Hnoindex : indexes w !! library_id = None ->
            IndexService.remove_chunk library_id chunk_id w3 = (Ok tt, w3)).
  { intros Hnone. unfold IndexService.remove_chunk, bind, get_state. cbn [fst snd].
    replace (indexes w3) with (indexes w) by (symmetry; exact Hidx1).
    by rewrite Hnone. }
  split.
  { unfold ChunkService.get. apply on_chunks_get_missing. rewrite Hchunks_r.
    apply lookup_delete_eq. }
  split.
  { intros id Hid. rewrite Hchunks_r. cbn. by rewrite lookup_delete_ne. }
  split.
  { intros Hwf. rewrite Hchunks_r.
    pose proof (chunk_delete_wf (chunks w) chunk_id c Hwf Hc) as Hwf'.
    by rewrite Hdelete in Hwf'. }
  split.
  { rewrite Hdv, Hdata. unfold data_version_of. cbn [versions set_chunks]. by rewrite Hver1. }
  split.
  - destruct (indexes w !! library_id) as [idx|] eqn:Hidx.
    + destruct r as [[[]|e] w4]; [by left|right; by exists e].
    + left. by rewrite Hrun, Hnoindex.
  - intros Hnone. rewrite Hrun, (Hnoindex Hnone). cbn [fst snd].
    split; [done|]. split; [exact Hidx1|].
    rewrite Hindex. unfold index_version_of. cbn [versions set_chunks]. by rewrite Hver1.
Qed.

End WithRandom.


Lemma create_stores_chunk_witness :
  let gauss := fun (_ : Z) (_ : nat) => 0%R in
  let w := sample_world_indexed in
  let chunk := Chunk.mk "c1" sample_datetime sample_datetime "L" "D" (strip " hello ")
                 [1; 2; 3; 4]%R default_metadata false in
  let r := ChunkService.create gauss "c1" sample_datetime "L" "D" " hello " [1; 2; 3; 4]%R w in
  ChunkService.get "c1" r.2 = (Ok chunk, r.2) /\
  (forall id, id <> "c1"%string ->
     ChunkRepository._items (chunks r.2) !! id = ChunkRepository._items (chunks w) !! id) /\
  (chunks_wf (chunks w) -> chunks_wf (chunks r.2)) /\
  data_version_of r.2 "L" = (data_version_of w "L" + 1)%Z /\
  (r.1 = Ok chunk \/ exists e, r.1 = Raise e /\ is_Some (indexes w !! "L"%string)) /\
  (indexes w !! "L"%string = None ->
     r.1 = Ok chunk /\ indexes r.2 = indexes w /\
     index_version_of r.2 "L" = index_version_of w "L").
Proof.
  intros gauss w.
  apply (create_stores_chunk gauss w "c1" sample_datetime "L" "D" " hello " [1; 2; 3; 4]%R
           sample_library).
  - reflexivity.
  - eexists. reflexivity.
  - reflexivity.
  - discriminate.
  - discriminate.
  - discriminate.
  - discriminate.
  - reflexivity.
Defined.

Lemma text_update_leaves_index_stale_witness :
  let gauss := fun (_ : Z) (_ : nat) => 0%R in
  let c := sample_chunk "c" [1; 0; 0; 0]%R in
  let c' := Chunk.set_fields (Some "new text"%string) None sample_datetime c in
  exists w',
    ChunkService.update gauss sample_datetime "c" (Some "new text"%string) None cascade_world
      = (Ok c', w') /\
    ChunkService.get "c" w' = (Ok c', w') /\
    Chunk.embedding c' = Chunk.embedding c /\
    (forall id, id <> "c"%string ->
       ChunkRepository._items (chunks w') !! id
         = ChunkRepository._items (chunks cascade_world) !! id) /\
    indexes w' = indexes cascade_world /\
    data_version_of w' (Chunk.library_id c)
      = (data_version_of cascade_world (Chunk.library_id c) + 1)%Z /\
    index_version_of w' (Chunk.library_id c)
      = index_version_of cascade_world (Chunk.library_id c) /\
    (VersionManager.is_index_stale (Chunk.library_id c) (versions w')).1 = Ok true.
Proof.
  intros gauss c.
  apply (text_update_leaves_index_stale gauss cascade_world sample_datetime "c"
           (Some "new text"%string) c).
  - reflexivity.
  - vm_compute. discriminate.
Defined.

End ChunkLifecycle.

(** ** Building an index and querying without a filter *)

Module QueryPaths.
Import ServiceSpec CascadeSpec FilterSpec QuerySamples MonadFacts VersionFacts CascadeFacts
  FilterFacts.

Lemma stale_run library_id w :
  exists vs', on_versions (VersionManager.is_index_stale library_id) w
      = (Ok (negb (index_version_of w library_id =? data_version_of w library_id)%Z),
         set_versions vs' w) /\
    forall l, default VersionManager.default_info (vs' !! l)
            = default VersionManager.default_info (versions w !! l).
Proof.
  destruct (setdefault_run library_id (versions w)) as (vs' & Hrun & _ & Hall).
  exists vs'. split; [|done].
  unfold on_versions, zoom, VersionManager.is_index_stale, bind. rewrite Hrun. done.
Qed.

Lemma build_index_async_run library_id index_type chunks w :
  IndexService.build_index_async library_id index_type chunks w =
  (Ok tt,
   if default false (building w !! library_id) then w
   else set_threads (threads w ++ [(library_id, index_type, chunks)])
          (set_building (<[library_id := true]> (building w)) w)).
Proof.
  unfold IndexService.build_index_async, bind, get_state, modify. simpl.
  by destruct (default false (building w !! library_id)).
Qed.

Lemma index_search_run library_id q k w :
  IndexService.search library_id q k w =
  (match indexes w !! library_id with
   | None => Ok []
   | Some idx => VectorIndexOps.search idx q k
   end, w).
Proof.
  unfold IndexService.search, bind, get_state. cbn [fst snd].
  by destruct (indexes w !! library_id).
Qed.

Section WithEnvironment.
Context (gauss : Z -> nat -> R) (fromisoformat : string -> option datetime).

(** [build_index] for a brute-force index never fails.  It publishes the
    index under the library, records its type, brings the index version up
    to the data version and lowers the building flag; repositories, started
    threads and the indexes of other libraries are left alone.  Over chunks
    of distinct ids, a search on the published index then returns the top
    [k] of those chunks, ranked by the cosine similarity of the normalised
    query and the normalised embedding. *)
Theorem build_index_then_search (w : World) (library_id : string) (cs : list Chunk.t) :
  NoDup (map Chunk.id cs) ->
  exists w',
    IndexService.build_index gauss library_id BRUTE_FORCE cs w = (Ok tt, w') /\
    is_Some (indexes w' !! library_id) /\
    index_types w' !! library_id = Some BRUTE_FORCE /\
    building w' !! library_id = Some false /\
    fresh w' library_id /\
    chunks w' = chunks w /\ threads w' = threads w /\
    data_version_of w' library_id = data_version_of w library_id /\
    (forall l, l <> library_id -> indexes w' !! l = indexes w !! l) /\
    forall q k, exists res,
      IndexService.search library_id q k w' = (Ok res, w') /\ top_k q k cs res.
Proof.
  intros Hnd.
  destruct (get_lock_run library_id w) as (lock & w1 & Hlock & Hw1 & Hchunks).
  assert (Hidx1 : indexes w1 = indexes w) by (rewrite Hw1; done).
  assert (Hver1 : versions w1 = versions w) by (rewrite Hw1; done).
  assert (Hthr1 : threads w1 = threads w) by (rewrite Hw1; done).
  set (bf := (BruteForceIndex.build (map Chunk.embedding cs) (map Chunk.id cs)
                (BruteForceIndex.init true)).2).
  set (w2 := set_index_types (<[library_id := BRUTE_FORCE]> (index_types w1))
               (set_indexes (<[library_id := BruteForce bf]> (indexes w1)) w1)).
  destruct (sync_version_run library_id w2) as (vs' & Hsync & Hl & Hother).
  set (w3 := set_versions vs' w2) in *.
  exists (set_building (<[library_id := false]> (building w3)) w3).
  split.
  { unfold IndexService.build_index. rewrite (bind_ok _ _ _ _ _ Hlock).
    change (VectorIndexOps.build gauss (map Chunk.embedding cs) (map Chunk.id cs)
              (IndexService._create_index BRUTE_FORCE)) with (Ok tt, BruteForce bf).
    cbv beta iota.
    rewrite (bind_ok _ _ w1 tt w1) by done.
    rewrite (bind_ok _ _ w1 w1 w1) by done.
    rewrite (bind_ok _ _ w1 tt (set_indexes (<[library_id := BruteForce bf]> (indexes w1)) w1))
      by done.
    rewrite (bind_ok _ _ _ _ _ (eq_refl : get_state _ = (Ok _, _))).
    rewrite (bind_ok _ _ _ tt w2) by done.
    rewrite (bind_ok _ _ _ _ _ Hsync).
    done. }
  cbn [indexes index_types building chunks threads set_building set_versions
       set_index_types set_indexes w3 w2].
  split; [rewrite lookup_insert_eq; by eexists|].
  split; [apply lookup_insert_eq|]. split; [apply lookup_insert_eq|].
  assert (Hdw2 : data_version_of w2 library_id = data_version_of w library_id)
    by (unfold data_version_of; cbn [versions w2 set_index_types set_indexes];
        by rewrite Hver1).
  split.
  { unfold fresh, index_version_of, data_version_of. cbn [versions set_building w3 set_versions].
    rewrite VersionCounters.is_index_stale_run. rewrite Hl. cbn.
    by rewrite Z.eqb_refl. }
  split; [done|]. split; [done|]. split.
  { unfold data_version_of at 1. cbn [versions set_building w3 set_versions].
    rewrite Hl. exact Hdw2. }
  split.
  { intros l Hne. rewrite lookup_insert_ne by done. by rewrite Hidx1. }
  intros q k. exists (QueryService.transient_search cs q k). split.
  - rewrite index_search_run. cbn [indexes set_building set_versions set_index_types set_indexes w3 w2].
    by rewrite lookup_insert_eq.
  - by apply transient_search_top_k.
Qed.

(** The first steps of an unfiltered [knn] on a stale library: the
    chunks of the library are listed and a rebuild is requested. *)
Lemma knn_stale_prefix (w : World) (library_id : string) (q : list R) (k : Z) :
  chunks_wf (chunks w) ->
  index_version_of w library_id <> data_version_of w library_id ->
  exists w3 cs,
    QueryService.knn fromisoformat library_id q k None w =
      (if negb (allow_stale_index w) then ret (QueryService.transient_search cs q k)
       else IndexService.search library_id q k) w3 /\
    NoDup (map Chunk.id cs) /\
    (forall c, c ∈ cs <-> belongs w library_id c) /\
    chunks w3 = chunks w /\ indexes w3 = indexes w /\
    (forall l, data_version_of w3 l = data_version_of w l) /\
    (forall l, index_version_of w3 l = index_version_of w l) /\
    (if default false (building w !! library_id)
     then threads w3 = threads w /\ building w3 = building w
     else threads w3 = threads w ++
            [(library_id, default BRUTE_FORCE (index_types w !! library_id), cs)] /\
          building w3 = <[library_id := true]> (building w)).
Proof.
  intros Hwf Hstale.
  destruct (get_lock_run library_id w) as (lock & w1 & Hlock & Hw1 & Hchunks).
  destruct (stale_run library_id w1) as (vs' & Hrun & Hall).
  assert (Hver1 : versions w1 = versions w) by (rewrite Hw1; done).
  assert (Hneg : negb (index_version_of w1 library_id =? data_version_of w1 library_id)%Z
                 = true).
  { unfold index_version_of, data_version_of. rewrite Hver1.
    by apply negb_true_iff, Z.eqb_neq. }
  rewrite Hneg in Hrun.
  set (w2 := set_versions vs' w1) in *.
  destruct (list_by_library_run (chunks w) library_id Hwf) as (cs & Hlist & Hnd & Hcs).
  assert (Hon : on_chunks (ChunkRepository.list_by_library library_id) w2 = (Ok cs, w2)).
  { rewrite on_chunks_run. change (chunks w2) with (chunks w1). rewrite Hchunks, Hlist.
    cbn [fst snd]. rewrite <- Hchunks. done. }
  pose proof (build_index_async_run library_id
                (default BRUTE_FORCE (index_types w2 !! library_id)) cs w2) as Hasync.
  set (w3 := if default false (building w2 !! library_id) then w2
             else set_threads (threads w2 ++
                    [(library_id, default BRUTE_FORCE (index_types w2 !! library_id), cs)])
                    (set_building (<[library_id := true]> (building w2)) w2)) in *.
  exists w3, cs. split.
  { unfold QueryService.knn. rewrite (bind_ok _ _ _ _ _ Hlock). cbn [QueryService.truthy].
    rewrite (bind_ok _ _ _ _ _ Hrun). cbv iota.
    rewrite (bind_ok _ _ _ _ _ Hon).
    assert (Hre : IndexService.rebuild_async_using_existing_type library_id cs w2
                  = (Ok tt, w3)).
    { unfold IndexService.rebuild_async_using_existing_type.
      rewrite (bind_ok _ _ w2 w2 w2) by done. exact Hasync. }
    rewrite (bind_ok _ _ _ _ _ Hre).
    rewrite (bind_ok _ _ w3 w3 w3) by done.
    assert (Hallow : allow_stale_index w3 = allow_stale_index w).
    { unfold w3. destruct (default false (building w2 !! library_id)); cbn; by rewrite Hw1. }
    by rewrite Hallow. }
  split; [done|]. split; [exact Hcs|].
  assert (Hb2 : building w2 = building w) by (cbn; by rewrite Hw1).
  assert (Ht2 : threads w2 = threads w) by (cbn; by rewrite Hw1).
  assert (Hi2 : index_types w2 = index_types w) by (cbn; by rewrite Hw1).
  assert (Hx2 : indexes w2 = indexes w) by (cbn; by rewrite Hw1).
  assert (Hv3 : versions w3 = vs')
    by (unfold w3; by destruct (default false (building w2 !! library_id))).
  unfold w3. rewrite Hb2, Ht2, Hi2.
  destruct (default false (building w !! library_id)).
  - split; [exact Hchunks|]. split; [exact Hx2|].
    split; [intros l; unfold data_version_of; cbn; by rewrite Hall, Hver1|].
    split; [intros l; unfold index_version_of; cbn; by rewrite Hall, Hver1|].
    done.
  - split; [exact Hchunks|]. split; [exact Hx2|].
    split; [intros l; unfold data_version_of; cbn; by rewrite Hall, Hver1|].
    split; [intros l; unfold index_version_of; cbn; by rewrite Hall, Hver1|].
    done.
Qed.

(** Without a filter, on a library whose index is stale and with
    [allow_stale_index] off, [knn] does not consult the index: it returns
    the top [k] of the chunks the library holds, ranked by the cosine
    similarity of the normalised query and the normalised embedding.  It
    changes neither the repository, nor the indexes, nor the version
    counters, and asks for a rebuild of the recorded index type (brute force
    when none is recorded) over those chunks: one thread is started and the
    building flag raised, unless the flag is up already. *)
Theorem knn_stale_is_exact (w : World) (library_id : string) (q : list R) (k : Z) :
  chunks_wf (chunks w) ->
  index_version_of w library_id <> data_version_of w library_id ->
  allow_stale_index w = false ->
  exists w' res cs,
    QueryService.knn fromisoformat library_id q k None w = (Ok res, w') /\
    NoDup cs /\ (forall c, c ∈ cs <-> belongs w library_id c) /\
    top_k q k cs res /\
    chunks w' = chunks w /\ indexes w' = indexes w /\
    (forall l, data_version_of w' l = data_version_of w l) /\
    (forall l, index_version_of w' l = index_version_of w l) /\
    (if default false (building w !! library_id)
     then threads w' = threads w /\ building w' = building w
     else threads w' = threads w ++
            [(library_id, default BRUTE_FORCE (index_types w !! library_id), cs)] /\
          building w' = <[library_id := true]> (building w)).
Proof.
  intros Hwf Hstale Hallow.
  destruct (knn_stale_prefix w library_id q k Hwf Hstale)
    as (w3 & cs & Hrun & Hnd & Hcs & Hrest).
  rewrite Hallow in Hrun. cbn [negb] in Hrun.
  exists w3, (QueryService.transient_search cs q k), cs.
  split; [exact Hrun|]. split; [by apply NoDup_fmap_1 in Hnd|]. split; [exact Hcs|].
  split; [by apply transient_search_top_k|]. exact Hrest.
Qed.

(** Without a filter, when the library's index is fresh or
    [allow_stale_index] is on (the default), [knn] answers with whatever the
    published index returns for the query, and with the empty list when no
    index is published, whatever chunks the library holds.  Repository and
    indexes are unchanged; on a fresh library no rebuild is requested. *)
Theorem knn_served_from_index (w : World) (library_id : string) (q : list R) (k : Z) :
  chunks_wf (chunks w) ->
  allow_stale_index w = true \/ index_version_of w library_id = data_version_of w library_id ->
  exists w',
    QueryService.knn fromisoformat library_id q k None w =
      (match indexes w !! library_id with
       | None => Ok []
       | Some idx => VectorIndexOps.search idx q k
       end, w') /\
    chunks w' = chunks w /\ indexes w' = indexes w /\
    (index_version_of w library_id = data_version_of w library_id ->
     threads w' = threads w /\ building w' = building w).
Proof.
  intros Hwf Hcase.
  destruct (decide (index_version_of w library_id = data_version_of w library_id))
    as [Hfresh|Hstale].
  - destruct (get_lock_run library_id w) as (lock & w1 & Hlock & Hw1 & Hchunks).
    destruct (stale_run library_id w1) as (vs' & Hrun & Hall).
    assert (Hver1 : versions w1 = versions w) by (rewrite Hw1; done).
    assert (Hneg : negb (index_version_of w1 library_id =? data_version_of w1 library_id)%Z
                   = false).
    { unfold index_version_of, data_version_of. rewrite Hver1.
      by apply negb_false_iff, Z.eqb_eq. }
    rewrite Hneg in Hrun.
    exists (set_versions vs' w1). split.
    { unfold QueryService.knn. rewrite (bind_ok _ _ _ _ _ Hlock). cbn [QueryService.truthy].
      rewrite (bind_ok _ _ _ _ _ Hrun). cbv iota. rewrite index_search_run.
      cbn [indexes set_versions]. by rewrite Hw1. }
    cbn. split; [exact Hchunks|]. rewrite Hw1. done.
  - destruct Hcase as [Hallow|Hfresh]; [|done].
    destruct (knn_stale_prefix w library_id q k Hwf Hstale)
      as (w3 & cs & Hrun & _ & _ & Hchunks & Hidx & _).
    rewrite Hallow in Hrun. cbn [negb] in Hrun. rewrite index_search_run, Hidx in Hrun.
    exists w3. split; [exact Hrun|]. split; [exact Hchunks|]. split; [exact Hidx|done].
Qed.

End WithEnvironment.

Lemma build_index_then_search_witness :
  let gauss := fun (_ : Z) (_ : nat) => 0%R in
  let cs := [sample_chunk "a" [1; 0; 0; 0]%R; sample_chunk "b" [0; 1; 0; 0]%R] in
  exists w',
    IndexService.build_index gauss "L" BRUTE_FORCE cs sample_world = (Ok tt, w') /\
    is_Some (indexes w' !! "L"%string) /\
    index_types w' !! "L"%string = Some BRUTE_FORCE /\
    building w' !! "L"%string = Some false /\
    fresh w' "L" /\
    chunks w' = chunks sample_world /\ threads w' = threads sample_world /\
    data_version_of w' "L" = data_version_of sample_world "L" /\
    (forall l, l <> "L"%string -> indexes w' !! l = indexes sample_world !! l) /\
    forall q k, exists res,
      IndexService.search "L" q k w' = (Ok res, w') /\ top_k q k cs res.
Proof.
  intros gauss cs. apply (build_index_then_search gauss sample_world "L" cs).
  apply (bool_decide_unpack _). vm_compute. reflexivity.
Defined.

Lemma knn_stale_is_exact_witness :
  exists w' res cs,
    QueryService.knn sample_fromisoformat "L" [1; 0; 0; 0]%R 1 None strict_world
      = (Ok res, w') /\
    NoDup cs /\ (forall c, c ∈ cs <-> belongs strict_world "L" c) /\
    top_k [1; 0; 0; 0]%R 1 cs res /\
    chunks w' = chunks strict_world /\ indexes w' = indexes strict_world /\
    (forall l, data_version_of w' l = data_version_of strict_world l) /\
    (forall l, index_version_of w' l = index_version_of strict_world l) /\
    (if default false (building strict_world !! "L"%string)
     then threads w' = threads strict_world /\ building w' = building strict_world
     else threads w' = threads strict_world ++
            [("L"%string, default BRUTE_FORCE (index_types strict_world !! "L"%string), cs)] /\
          building w' = <[("L"%string) := true]> (building strict_world)).
Proof.
  apply (knn_stale_is_exact sample_fromisoformat strict_world "L" [1; 0; 0; 0]%R 1).
  - change (chunks strict_world) with (chunks cascade_world).
    rewrite cascade_world_chunks. apply chunk_create_wf; [apply init_chunks_wf|reflexivity].
  - vm_compute. discriminate.
  - reflexivity.
Defined.

Lemma knn_served_from_index_witness :
  exists w',
    QueryService.knn sample_fromisoformat "L" [1; 0; 0; 0]%R 1 None cascade_world =
      (match indexes cascade_world !! "L"%string with
       | None => Ok []
       | Some idx => VectorIndexOps.search idx [1; 0; 0; 0]%R 1
       end, w') /\
    chunks w' = chunks cascade_world /\ indexes w' = indexes cascade_world /\
    (index_version_of cascade_world "L" = data_version_of cascade_world "L" ->
     threads w' = threads cascade_world /\ building w' = building cascade_world).
Proof.
  apply (knn_served_from_index sample_fromisoformat cascade_world "L" [1; 0; 0; 0]%R 1).
  - rewrite cascade_world_chunks. apply chunk_create_wf; [apply init_chunks_wf|reflexivity].
  - left. reflexivity.
Defined.

End QueryPaths.
